(* ===== verification/_CoqProject ===== *)
-Q . S2P
Prelude.v
Floats.v
Timex.v
Jsonp.v
JsonText.v
Http.v
TreeData.v
Tree.v
Select.v
Index.v
Kernel.v
ProbeHeap.v
TopKTable.v
Knn.v
Quantize.v
Normalize.v
Server.v
Conn.v
Lb.v
Config.v
Pool.v
Ctrl.v
Worker.v
Balancer.v
Layout.v
IndexFile.v
Cluster.v
RefParse.v
Build.v
Calibrate.v
Report.v
Boot.v
Syscalls.v
System.v
Service.v
