(* ===== verification/Prelude.v ===== *)
(** * rinha-go: a verification library

    The service scores card transactions: a fraud answer is the number of frauds among
    the five reference vectors nearest to the transaction, and a decision tree answers
    the easy cases.  This library models its Go code (and the AVX2 assembly of the
    distance kernels) as executable definitions and proves the theorems that make it
    correct, from the bytes of a request to the bytes of the response, and from the
    reference file to the index the search runs on.

    ** The program and how its parts interact

    - At build time [cmd/buildindex] reads the reference file, clusters the vectors
      (k-means++), and writes the index file.  [cmd/calibrate] decides on a labelled
      sample which leaves of the decision tree may answer instead of the search.
    - At run time [cmd/lb] accepts connections, answers readiness probes itself, drains
      the bytes that are already there and passes descriptor and bytes to a worker over
      a control socket.  [cmd/api] receives them ([ctrlLoop]), starts a handler per
      connection ([handleRawConn]; [handleConn] on plain TCP), which cuts the stream into
      requests ([server.ParseRequest]) and answers each ([server.Respond]).
    - [Respond] parses the JSON body ([jsonp.Parse]), computes fourteen features
      ([normalize.Vectorize], with [timex] for the timestamps), quantizes them
      ([knn.Quantize]), asks the decision tree ([tree.Predict], [tree.LeafSafeA]) and, when
      the leaf is not trusted, the search ([knn.ScoreQ]) over the index ([index.Open]).

    ** Files (a component's file holds one Module of its own name) and the code they model

    - [Prelude] (this file): outcomes of Go code ([res]: a value, an error, a panic, or
      exhausted fuel), its monad and its weakest preconditions [wp] and [returns],
      machine integers with their wrap-around, indexing and slicing that panic out of
      range, bytes, scanning loops, and the lemmas all components share.
    - [Floats]: binary32 and binary64 arithmetic on the Standard Library's [SpecFloat],
      the conversions, and [strconv.ParseFloat] on decimal numerals.
    - [Timex]: [internal/timex/timex.go], against a calendar that counts day by day.
    - [Jsonp], [JsonText]: [internal/jsonp/json.go]; a printer of request documents.
    - [Http], [Server]: [internal/server/http.go], the request parser and [Respond].
    - [TreeData], [Tree]: [internal/tree/tree.go], the generated tables and [Predict].
    - [Index]: [Open] and the views of [internal/index/index.go], with [Open_unchecked] for
      what remains of it when it is compiled without bounds checks.
    - [Select]: what it means to select the elements of least key.
    - [Kernel]: the class [Kernel] of the four operations the search uses and the class
      [KernelLaws] of what it relies on, with two instances: [portable]
      ([internal/knn/knn_other.go]) and [avx2] ([knn_amd64.go], [knn_amd64.s]).
    - [ProbeHeap], [TopKTable], [Knn], [Quantize]: [internal/knn/knn.go].  The client,
      [Knn], is proved against [KernelLaws] only.
    - [Normalize]: [internal/normalize/normalize.go].
    - [Conn], [Pool]: the connection handlers of [cmd/api/main.go] and [conn_linux.go], one
      alone, and many interleaved over the buffers they share.
    - [Ctrl], [Worker]: [ctrl_linux.go], the control loops with their receive buffer, and the
      descriptors that the accept loops, the control loops and the handlers own.
    - [Lb], [Balancer]: [cmd/lb/main.go], one accepted connection, and the whole process.
    - [Layout], [IndexFile], [Cluster], [RefParse], [Build]: [cmd/buildindex/main.go]: the
      block layout (over the class [SliceSort] of what [sort.Slice] promises, with
      insertion sort as an instance), the writer, the clustering, the reference parser,
      and their composition.
    - [Calibrate], [Report]: [cmd/calibrate/main.go], the tables it computes, and the whole
      command with its options, its diagnostics and its audit.
    - [System], [Service]: the parts composed, from the reference file and the client's
      bytes to the responses: one connection by itself, and the connections of a worker
      side by side.
    - [Config], [Boot], [Syscalls]: what [cmd/lb] and [cmd/api] do before they serve:
      configuration, the wait for the control sockets, opening the index and the warm-up,
      and the system calls on the way ([sched_linux.go], [Open], [Close], [mlockAll]).

    ** What the theorems show

    - The system: [system_serves] for one connection and [service_serves] for all those
      that the balancer routes to a worker, under every interleaving; both are stated over
      the reference vectors, the request documents and the tree alone.
    - Scoring: [Knn.ScoreQ_refines] (the search implements a specification without
      blocks, lanes, pruning, heap or masks, and never indexes out of range), its relation
      to the exact nearest neighbours ([ScoreQ_answer], [ScoreQ_exact], [ScoreQ_misses]),
      the kernels ([kernels_agree], [blkDistPrune_sound], [bbox_lower_bound]), the heap and
      the table ([insertProbe_keeps_nearest], [insertBest_stream]).
    - Serving: [Respond_scores] and [Respond_outcome] for one request; [connections_serve],
      [handoff_serves], [round_robin] and
      [single_loop_delivers] for connections, from the accept to the last response, over
      short reads, interrupted calls and partial writes; [shared_buffer_crosses] for what
      goes wrong with two control connections.
    - Concurrency and resources: [handlers_isolated] (no interleaving of the handlers mixes
      their bytes) and [handlers_terminate] (they all return, or one of them panics on its
      own client's request and the process dies with the others); [Lb.dispatch] is the
      balancer's specification, which [round_robin] proves of the accept loop and
      [balancer_runs] of the whole process; [descriptors_owned] for the worker,
      [balancer_runs] for the balancer and [startup_resources] for the start-up: what is
      opened has one owner and is closed once.
    - Parsing: safety, stability under more input and round trips of the HTTP, JSON,
      timestamp and reference-file parsers.
    - The decision tree: [Predict_refines_tree], and the lemmas on the reachable leaves, the
      partition and the purity of the trusted leaves.
    - The offline tools: [built_index_opens] and [built_index_exact] (the index the builder
      writes is opened by the service as a well-formed index of exactly the references, so
      the search theorems apply to it), [interrupted_build], [kmeans_total],
      [assign_nearest], [members_sorted], [calibrate_verdict], [calibration_report],
      [emit_roundtrip].
    - Start-up: [backends_configured] and [service_starts], which runs the builder's file
      through [main] of the service.

    ** Conventions

    Integers are [Z] in the range of their Go type, with the wrap-around written out
    where an operation can leave it ([u32], [i64], ...); an [int] that only counts things
    in memory does not wrap.  An index or a slice bound out of range is [Panic], as Go
    defines it, and since nothing recovers from a panic it ends the process ([Pool.step]).
    The images are compiled with the checks off ([-gcflags=-B] in the Dockerfile): where the
    model has a [Panic] the image has a stray read or write, so that a theorem that excludes
    [Panic] excludes that too, and one that concludes [Panic] speaks of the checked program
    only; for [Index.Open], which depends on those checks to refuse a truncated file,
    [Open_unchecked] says what is left.  [halts] is what holds of the code on any input at
    all: it has a value or panics, and needs no more fuel than it is given.  Loops without a structural measure take
    fuel, which the definitions compute from their input (the length of the buffer, the
    bytes and events still pending, the number of tree nodes); that it is enough is part of
    each safety or functional theorem, none of which accepts [OutOfFuel].  The sizes of
    arrays that Go fixes are the lengths of lists.  Code outside the repository is a
    parameter: [int16] of a NaN ([unspec]), the non-decimal inputs of [fmt.Sscanf]
    ([scan_other]), the capacity [os.ReadFile] returns ([cap]), the order of equal elements in
    [sort.Slice] ([SliceSort]), and the outcomes of system calls, which are lists the
    definitions consume.

    ** Not modelled

    The effect of socket options, [madvise], [mlock] and the scheduler knobs (only that they
    are called, and when); the pool of payloads, which [Parse] clears before it writes; the
    text of log lines (their data is in [Report] where it is computed for them); the decoding
    of the calibration samples by [encoding/json]; the Go scheduler, in whose place the step
    relations of [Pool], [Ctrl] and [Worker] allow every interleaving of whole turns; the
    stubs for other platforms; and [lb.c], an alternative balancer in C that the images do
    not use. *)

From Stdlib Require Export ZArith Lia ZifyBool Strings.Byte.
From stdpp Require Export base list numbers strings option.

#[global] Set Default Goal Selector "!".

Declare Scope go_scope.
Delimit Scope go_scope with go.

(** ** Outcomes of Go code *)

(** The [error] values the modelled packages return. *)
Inductive error : Type :=
| ErrMalformed                 (* jsonp.ErrMalformed *)
| ErrIncomplete                (* server.ErrIncomplete *)
| ErrBad                       (* server.ErrBad *)
| ErrTooSmall                  (* index: "index too small" *)
| ErrBadMagic (m : Z)          (* index: "bad magic 0x%x" *)
| ErrBadVersion (v : Z)        (* index: "bad version %d" *)
| ErrOS.                       (* the error of a system call, returned as it is *)

#[global] Instance error_eq_dec : EqDecision error.
Proof. solve_decision. Defined.

(** A Go computation either produces a value, returns a non-nil [error], panics
    (index or slice bounds out of range), or has run out of the fuel that
    bounds the loops of the model. *)
Inductive res (A : Type) : Type :=
| Ok (a : A)
| Fail (e : error)
| Panic
| OutOfFuel.
Arguments Ok {A} _.
Arguments Fail {A} _.
Arguments Panic {A}.
Arguments OutOfFuel {A}.

#[global] Instance res_ret : MRet res := fun A a => Ok a.
#[global] Instance res_bind : MBind res := fun A B f m =>
  match m with
  | Ok a => f a
  | Fail e => Fail e
  | Panic => Panic
  | OutOfFuel => OutOfFuel
  end.

(** [wp m Q R]: [m] neither panics nor runs out of fuel; if it returns a value
    the value satisfies [Q], if it returns an error the error satisfies [R]. *)
Definition wp {A} (m : res A) (Q : A -> Prop) (R : error -> Prop) : Prop :=
  match m with
  | Ok a => Q a
  | Fail e => R e
  | Panic | OutOfFuel => False
  end.

(** [returns m Q]: [m] produces a value, which satisfies [Q]. *)
Definition returns {A} (m : res A) (Q : A -> Prop) : Prop := wp m Q (fun _ => False).

(** [safe m]: [m] produces a value or an error, but never panics or loops. *)
Definition safe {A} (m : res A) : Prop := wp m (fun _ => True) (fun _ => True).

Lemma wp_ok {A} (a : A) (Q : A -> Prop) R : Q a -> wp (Ok a) Q R.
Proof. done. Qed.

Lemma wp_ret {A} (a : A) (Q : A -> Prop) R : Q a -> wp (mret a) Q R.
Proof. done. Qed.

Lemma wp_fail {A} e (Q : A -> Prop) (R : error -> Prop) : R e -> wp (Fail e) Q R.
Proof. done. Qed.

Lemma wp_bind {A B} (m : res A) (f : A -> res B) Q R :
  wp m (fun a => wp (f a) Q R) R -> wp (m ≫= f) Q R.
Proof. by destruct m. Qed.

Lemma wp_bind_inv {A B} (m : res A) (f : A -> res B) Q R :
  wp (m ≫= f) Q R -> wp m (fun a => wp (f a) Q R) R.
Proof. by destruct m. Qed.

Lemma wp_mono {A} (m : res A) (Q Q' : A -> Prop) (R R' : error -> Prop) :
  wp m Q R -> (forall a, Q a -> Q' a) -> (forall e, R e -> R' e) -> wp m Q' R'.
Proof. destruct m; simpl; auto. Qed.

Lemma wp_conseq {A} (m : res A) (Q Q' : A -> Prop) R :
  wp m Q R -> (forall a, Q a -> Q' a) -> wp m Q' R.
Proof. intros H HQ. by eapply wp_mono. Qed.

Lemma wp_and {A} (m : res A) (Q Q' : A -> Prop) R :
  wp m Q R -> wp m Q' R -> wp m (fun a => Q a /\ Q' a) R.
Proof. destruct m; simpl; auto. Qed.

Lemma wp_safe {A} (m : res A) Q R : wp m Q R -> safe m.
Proof. intros H. by eapply wp_mono. Qed.

Lemma returns_wp {A} (m : res A) Q R : returns m Q -> wp m Q R.
Proof. intros H. by eapply wp_mono. Qed.

Lemma returns_inv {A} (m : res A) Q : returns m Q <-> exists a, m = Ok a /\ Q a.
Proof.
  split; [destruct m; simpl; try done; by eauto | by intros (a & -> & ?)].
Qed.

Lemma wp_ok_inv {A} (m : res A) Q R a : wp m Q R -> m = Ok a -> Q a.
Proof. by intros H ->. Qed.

Lemma wp_fail_inv {A} (m : res A) Q R e : wp m Q R -> m = Fail e -> R e.
Proof. by intros H ->. Qed.

Lemma wp_eq {A} (m : res A) (a : A) (R : error -> Prop) :
  (forall e, ~ R e) -> wp m (fun x => x = a) R -> m = Ok a.
Proof. intros HR. destruct m as [x|e| |]; simpl; [congruence|intros H; by apply HR in H|done|done]. Qed.

Lemma bind_Ok {A B} (a : A) (f : A -> res B) : Ok a ≫= f = f a.
Proof. done. Qed.

Lemma bind_ok_inv {A B} (m : res A) (f : A -> res B) b :
  m ≫= f = Ok b -> exists a, m = Ok a /\ f a = Ok b.
Proof. destruct m; simpl; intros H; try discriminate; eauto. Qed.

Create HintDb go.
#[export] Hint Resolve wp_ok wp_ret wp_fail returns_wp : go.

(** Decompose a goal [wp (m ≫= f) Q R] or [wp (if b then _ else _) Q R]. *)
Ltac wp_bind := apply wp_bind.
Ltac wp_step :=
  lazymatch goal with
  | |- wp (mbind _ _) _ _ => apply wp_bind
  | |- wp (Ok _) _ _ => apply wp_ok
  | |- wp (mret _) _ _ => apply wp_ret
  | |- wp (Fail _) _ _ => apply wp_fail
  | |- wp (if ?b then _ else _) _ _ => let E := fresh "E" in destruct b eqn:E
  | |- wp (match ?x with _ => _ end) _ _ => let E := fresh "E" in destruct x eqn:E
  end.
Ltac wp_go := repeat wp_step.

(** ** Arrays, slices and loops *)

(** [get l i] is the Go expression [l[i]]: it panics when [i] is out of range. *)
Definition get {A} (l : list A) (i : nat) : res A :=
  match l !! i with Some x => Ok x | None => Panic end.

(** [l[i]] for a signed index: a negative one panics too. *)
Definition getZ {A} (l : list A) (i : Z) : res A :=
  if (i <? 0)%Z then Panic else get l (Z.to_nat i).

(** [set l i x] is the Go statement [l[i] = x]. *)
Definition set {A} (l : list A) (i : nat) (x : A) : res (list A) :=
  if decide (i < length l)%nat then Ok (<[i:=x]> l) else Panic.

(** [slice l lo hi] is the Go expression [l[lo:hi]] with integer bounds. *)
Definition slice {A} (l : list A) (lo hi : Z) : res (list A) :=
  if ((0 <=? lo) && (lo <=? hi) && (hi <=? Z.of_nat (length l)))%Z
  then Ok (take (Z.to_nat (hi - lo)) (drop (Z.to_nat lo) l))
  else Panic.

Lemma wp_get {A} `{Inhabited A} (l : list A) i (Q : A -> Prop) R :
  (i < length l)%nat -> Q (l !!! i) -> wp (get l i) Q R.
Proof.
  intros Hi HQ. unfold get. by rewrite (list_lookup_lookup_total_lt l i Hi).
Qed.

Lemma get_ok {A} (l : list A) i x : l !! i = Some x -> get l i = Ok x.
Proof. unfold get. by intros ->. Qed.

Lemma get_total {A} `{Inhabited A} (l : list A) i :
  (i < length l)%nat -> get l i = Ok (l !!! i).
Proof. intros Hi. by apply get_ok, list_lookup_lookup_total_lt. Qed.

Lemma getZ_ok {A} (l : list A) (i : Z) x :
  (0 <= i)%Z -> l !! Z.to_nat i = Some x -> getZ l i = Ok x.
Proof.
  intros Hi Hx. unfold getZ. destruct (Z.ltb_spec i 0); [lia|]. by apply get_ok.
Qed.

Lemma set_ok {A} (l : list A) i x : (i < length l)%nat -> set l i x = Ok (<[i:=x]> l).
Proof. intros Hi. unfold set. by rewrite decide_True. Qed.

Lemma wp_set {A} (l : list A) i x (Q : list A -> Prop) R :
  (i < length l)%nat -> Q (<[i:=x]> l) -> wp (set l i x) Q R.
Proof. intros Hi HQ. by rewrite set_ok. Qed.

Lemma slice_ok {A} (l : list A) (lo hi : Z) :
  (0 <= lo <= hi)%Z -> (hi <= Z.of_nat (length l))%Z ->
  slice l lo hi = Ok (take (Z.to_nat (hi - lo)) (drop (Z.to_nat lo) l)).
Proof.
  intros H1 H2. unfold slice.
  by replace ((0 <=? lo) && (lo <=? hi) && (hi <=? Z.of_nat (length l)))%Z with true by lia.
Qed.

(** A [for _, x := range l] loop (or a counting loop, over [seq]) without
    [break], threading the state the body updates. *)
Fixpoint foldM {A S} (f : S -> A -> res S) (s : S) (l : list A) : res S :=
  match l with
  | [] => Ok s
  | x :: l' => s' ← f s x; foldM f s' l'
  end.

Lemma foldM_app {A S} (f : S -> A -> res S) s l1 l2 :
  foldM f s (l1 ++ l2) = (s' ← foldM f s l1; foldM f s' l2).
Proof.
  revert s. induction l1 as [|x l1 IH]; intros s; simpl; [done|].
  destruct (f s x); simpl; auto.
Qed.

(** The loop rule: the invariant speaks of the elements already visited. *)
Lemma wp_foldM {A S} (f : S -> A -> res S) (I : list A -> S -> Prop) R l s0 :
  I [] s0 ->
  (forall done x rest s, l = done ++ x :: rest -> I done s ->
     wp (f s x) (fun s' => I (done ++ [x]) s') R) ->
  wp (foldM f s0 l) (I l) R.
Proof.
  intros H0 Hstep.
  enough (forall rest pre s, l = pre ++ rest -> I pre s ->
            wp (foldM f s rest) (I l) R) as Hgen by (by eapply (Hgen l [])).
  induction rest as [|x rest IH]; intros pre s Heq HI; simpl.
  - rewrite app_nil_r in Heq. by subst.
  - apply wp_bind. eapply wp_conseq; [by eapply Hstep|].
    intros s' Hs'. eapply IH; [|done]. by rewrite Heq, <-app_assoc.
Qed.

(** The counting loop [for k := lo; k < lo + n; k++]. *)
Lemma wp_for {S} (f : S -> nat -> res S) (I : nat -> S -> Prop) R lo n s0 :
  I 0%nat s0 ->
  (forall k s, (k < n)%nat -> I k s -> wp (f s (lo + k)%nat) (I (Datatypes.S k)) R) ->
  wp (foldM f s0 (seq lo n)) (I n) R.
Proof.
  intros H0 Hstep.
  eapply wp_conseq.
  - eapply (wp_foldM f (fun vis s => I (length vis) s) R); [done|].
    intros vis x rest s Heq HI.
    assert (Hlen : length (seq lo n) = length (vis ++ x :: rest)) by congruence.
    rewrite length_seq, length_app in Hlen; simpl in Hlen.
    assert (Hx : seq lo n !! length vis = Some x) by (rewrite Heq; by apply list_lookup_middle).
    apply lookup_seq in Hx as [-> _].
    rewrite length_app. simpl. replace (length vis + 1)%nat with (Datatypes.S (length vis)) by lia.
    apply Hstep; [lia|done].
  - simpl. intros s. by rewrite length_seq.
Qed.

(** A counting loop whose state at every turn is known. *)
Lemma foldM_chain {S} (f : S -> nat -> res S) (st : nat -> S) lo n :
  (forall k, k < n -> f (st k) (lo + k) = Ok (st (Datatypes.S k))) ->
  foldM f (st 0) (seq lo n) = Ok (st n).
Proof.
  induction n as [|n IH]; intros H; [done|].
  rewrite seq_S, foldM_app, IH, bind_Ok by (intros; apply H; lia). cbn [foldM].
  rewrite H by lia. done.
Qed.

(** A loop that updates every slot of an array in place, once. *)
Lemma foldM_update {A} (f : list A -> nat -> res (list A)) (g : nat -> A) (g' : nat -> A) n :
  (forall l i, i < n -> length l = n -> l !! i = Some (g i) -> f l i = Ok (<[i := g' i]> l)) ->
  foldM f (map g (seq 0 n)) (seq 0 n) = Ok (map g' (seq 0 n)).
Proof.
  intros Hf.
  assert (returns (foldM f (map g (seq 0 n)) (seq 0 n)) (fun l =>
    length l = n /\ forall i, i < n -> l !! i = Some (if i <? n then g' i else g i))) as H.
  { apply (wp_for f (fun k l => length l = n /\
      forall i, i < n -> l !! i = Some (if i <? k then g' i else g i))).
    - split; [by rewrite length_map, length_seq|]. intros i Hi.
      rewrite list_lookup_fmap, lookup_seq_lt by done. done.
    - intros k l Hk [Hl HI]. rewrite Nat.add_0_l, (Hf l k); [|done|done|].
      + apply wp_ok. rewrite length_insert. split; [done|]. intros i Hi.
        destruct (decide (i = k)) as [->|Hne].
        * rewrite list_lookup_insert_eq by lia. by replace (k <? S k) with true by lia.
        * rewrite list_lookup_insert_ne by done. rewrite HI by done.
          by replace (i <? S k) with (i <? k) by lia.
      + rewrite HI by done. by replace (k <? k) with false by lia. }
  apply returns_inv in H as (l & -> & Hl & HI). f_equal. apply list_eq_same_length with n.
  - by rewrite length_map, length_seq.
  - done.
  - intros i x y Hi Hx Hy. rewrite HI in Hx by done. replace (i <? n) with true in Hx by lia.
    rewrite list_lookup_fmap, lookup_seq_lt in Hy by done. simpl in Hy. congruence.
Qed.

(** ** Fixed-width integers *)

(** Unsigned conversion to [w] bits, and two's complement conversion to [w] bits. *)
Definition wrapU (w x : Z) : Z := x mod 2 ^ w.
Definition wrapS (w x : Z) : Z := (x + 2 ^ (w - 1)) mod 2 ^ w - 2 ^ (w - 1).

Definition u8 := wrapU 8.
Definition u16 := wrapU 16.
Definition u32 := wrapU 32.
Definition u64 := wrapU 64.
Definition i16 := wrapS 16.
Definition i32 := wrapS 32.
Definition i64 := wrapS 64.

Definition maxI64 : Z := 9223372036854775807.
Definition maxU32 : Z := 4294967295.

Definition inU (w x : Z) : Prop := (0 <= x < 2 ^ w)%Z.
Definition inS (w x : Z) : Prop := (- 2 ^ (w - 1) <= x < 2 ^ (w - 1))%Z.

Lemma wrapU_id w x : inU w x -> wrapU w x = x.
Proof. apply Z.mod_small. Qed.

Lemma wrapU_range w x : (0 <= w)%Z -> inU w (wrapU w x).
Proof. intros Hw. apply Z.mod_pos_bound. by apply Z.pow_pos_nonneg. Qed.

Lemma wrapS_id w x : (0 < w)%Z -> inS w x -> wrapS w x = x.
Proof.
  intros Hw [Hl Hu]. unfold wrapS.
  assert (2 ^ w = 2 * 2 ^ (w - 1))%Z as Hp.
  { rewrite <-Z.pow_succ_r by lia. f_equal. lia. }
  rewrite Z.mod_small by lia. lia.
Qed.

Lemma wrapS_range w x : (0 < w)%Z -> inS w (wrapS w x).
Proof.
  intros Hw. unfold wrapS, inS.
  assert (2 ^ w = 2 * 2 ^ (w - 1))%Z as Hp.
  { rewrite <-Z.pow_succ_r by lia. f_equal. lia. }
  pose proof (Z.mod_pos_bound (x + 2 ^ (w - 1)) (2 ^ w)).
  assert (0 < 2 ^ (w - 1))%Z by (apply Z.pow_pos_nonneg; lia). lia.
Qed.

Lemma u32_id x : (0 <= x < 4294967296)%Z -> u32 x = x.
Proof. intros H. by apply wrapU_id. Qed.
Lemma u64_id x : (0 <= x < 18446744073709551616)%Z -> u64 x = x.
Proof. intros H. by apply wrapU_id. Qed.
Lemma i16_id x : (-32768 <= x < 32768)%Z -> i16 x = x.
Proof. intros H. by apply wrapS_id. Qed.
Lemma i32_id x : (-2147483648 <= x < 2147483648)%Z -> i32 x = x.
Proof. intros H. by apply wrapS_id. Qed.
Lemma i64_id x : (-9223372036854775808 <= x < 9223372036854775808)%Z -> i64 x = x.
Proof. intros H. by apply wrapS_id. Qed.

Lemma i64_range x : (-9223372036854775808 <= i64 x <= maxI64)%Z.
Proof. pose proof (wrapS_range 64 x). unfold inS, i64, maxI64 in *. lia. Qed.
Lemma u32_range x : (0 <= u32 x < 4294967296)%Z.
Proof. pose proof (wrapU_range 32 x). unfold inU, u32 in *. lia. Qed.
Lemma u64_range x : (0 <= u64 x < 18446744073709551616)%Z.
Proof. pose proof (wrapU_range 64 x). unfold inU, u64 in *. lia. Qed.

(** Wrapping is invisible to further ring operations. *)
Lemma wrapS_eqm w x : (0 < w)%Z -> exists k, wrapS w x = (x + k * 2 ^ w)%Z.
Proof.
  intros Hw. exists (- ((x + 2 ^ (w - 1)) / 2 ^ w))%Z. unfold wrapS.
  pose proof (Z.pow_pos_nonneg 2 w). rewrite Z.mod_eq by lia. lia.
Qed.

Lemma wrapS_add w x k : (0 < w)%Z -> wrapS w (x + k * 2 ^ w) = wrapS w x.
Proof.
  intros Hw. unfold wrapS. pose proof (Z.pow_pos_nonneg 2 w).
  replace (x + k * 2 ^ w + 2 ^ (w - 1))%Z with (x + 2 ^ (w - 1) + k * 2 ^ w)%Z by lia.
  by rewrite Z_mod_plus_full.
Qed.

Lemma i64_step x d : i64 (i64 x * 10 + d) = i64 (x * 10 + d).
Proof.
  unfold i64. destruct (wrapS_eqm 64 x) as [k ->]; [done|].
  replace ((x + k * 2 ^ 64) * 10 + d)%Z with (x * 10 + d + (k * 10) * 2 ^ 64)%Z by lia.
  by apply wrapS_add.
Qed.

(** Go's [/] and [%] on signed integers truncate towards zero. *)
Definition godiv (a b : Z) : Z := Z.quot a b.
Definition gomod (a b : Z) : Z := Z.rem a b.

(** ** Bytes *)

#[global] Instance byte_eq_dec : EqDecision byte := Byte.byte_eq_dec.
#[global] Instance byte_inhabited : Inhabited byte := populate x00.

(** The numeric value of a byte, 0 to 255. *)
Definition bval (b : byte) : Z := Z.of_N (Byte.to_N b).

(** The bytes of a Go string literal. *)
Definition bytes (s : string) : list byte := String.list_byte_of_string s.

Lemma bval_range b : (0 <= bval b < 256)%Z.
Proof.
  unfold bval. pose proof (Byte.to_N_bounded b). lia.
Qed.

Lemma bval_inj b c : bval b = bval c -> b = c.
Proof.
  unfold bval. intros H%N2Z.inj.
  apply (f_equal Byte.of_N) in H. rewrite !Byte.of_to_N in H. by injection H.
Qed.

(** The byte of a value below 256, the conversion [byte(z)] of such a value. *)
Definition chr (z : Z) : byte := default x00 (Byte.of_N (Z.to_N z)).

Lemma bval_chr z : (0 <= z < 256)%Z -> bval (chr z) = z.
Proof.
  intros Hz. unfold chr, bval. destruct (Byte.of_N (Z.to_N z)) as [b|] eqn:E; simpl.
  - apply Byte.to_of_N in E. lia.
  - apply Byte.of_N_None_iff in E. lia.
Qed.

Lemma chr_bval b : chr (bval b) = b.
Proof. apply bval_inj, bval_chr, bval_range. Qed.

(** [c - '0'] on bytes wraps modulo 256. *)
Definition digit (b : byte) : Z := u8 (bval b - 48).
Definition is_digit (b : byte) : bool := ((48 <=? bval b) && (bval b <=? 57))%Z.

Lemma digit_range b : (0 <= digit b < 256)%Z.
Proof. pose proof (wrapU_range 8 (bval b - 48)). unfold inU, digit, u8 in *. lia. Qed.

Lemma digit_is_digit b : is_digit b = true -> digit b = (bval b - 48)%Z /\ (0 <= digit b <= 9)%Z.
Proof.
  unfold is_digit, digit. intros H. assert (48 <= bval b <= 57)%Z as Hb by lia.
  assert (u8 (bval b - 48) = bval b - 48)%Z as -> by (apply wrapU_id; unfold inU; lia).
  lia.
Qed.

(** The decimal value of a digit string. *)
Fixpoint dec_value (s : list byte) (acc : Z) : Z :=
  match s with [] => acc | c :: r => dec_value r (acc * 10 + digit c) end.

(** ** Scanning loops

    [for i < len(buf) && p(buf[i]) { i++ }]: the fuel is the distance to the end
    of the buffer, so the loop never stops for lack of it. *)
Fixpoint scan_fuel (fuel : nat) (p : byte -> bool) (buf : list byte) (i : nat) : nat :=
  match fuel with
  | O => i
  | S f =>
      match buf !! i with
      | Some c => if p c then scan_fuel f p buf (S i) else i
      | None => i
      end
  end.

Definition scan (p : byte -> bool) (buf : list byte) (i : nat) : nat :=
  scan_fuel (length buf - i) p buf i.

(** What a scanning loop computes: it only moves forward, inside the buffer, over
    bytes that satisfy [p], and it stops at the end or at a byte that does not. *)
Record scan_spec (p : byte -> bool) (buf : list byte) (i j : nat) : Prop := {
  scan_ge : i <= j;
  scan_le : i <= length buf -> j <= length buf;
  scan_all : forall k c, i <= k < j -> buf !! k = Some c -> p c = true;
  scan_end : forall c, buf !! j = Some c -> p c = false
}.

Lemma scan_fuel_spec p buf fuel i :
  length buf - i <= fuel -> scan_spec p buf i (scan_fuel fuel p buf i).
Proof.
  revert i. induction fuel as [|f IH]; intros i Hf; simpl.
  - split; try lia. intros c Hc%lookup_lt_Some. lia.
  - destruct (buf !! i) as [c|] eqn:Hc.
    + pose proof (lookup_lt_Some _ _ _ Hc).
      destruct (p c) eqn:Hp.
      * destruct (IH (S i)) as [H1 H2 H3 H4]; [lia|].
        split; try lia; [|done].
        intros k d Hk Hd. destruct (decide (k = i)) as [->|]; [congruence|].
        apply (H3 k); [lia|done].
      * split; try lia. intros d Hd. congruence.
    + split; try lia. intros d Hd. congruence.
Qed.

Lemma scan_ok p buf i : scan_spec p buf i (scan p buf i).
Proof. by apply scan_fuel_spec. Qed.

Lemma scan_stop p buf i c : buf !! i = Some c -> p c = false -> scan p buf i = i.
Proof.
  intros Hc Hp. unfold scan. pose proof (lookup_lt_Some _ _ _ Hc).
  destruct (length buf - i) eqn:E; [done|]. simpl. by rewrite Hc, Hp.
Qed.

Lemma scan_step p buf i c : buf !! i = Some c -> p c = true -> scan p buf i = scan p buf (S i).
Proof.
  intros Hc Hp. unfold scan. pose proof (lookup_lt_Some _ _ _ Hc).
  replace (length buf - i) with (S (length buf - S i)) by lia. simpl. by rewrite Hc, Hp.
Qed.

Lemma scan_oob p buf i : length buf <= i -> scan p buf i = i.
Proof. intros H. unfold scan. by replace (length buf - i) with 0 by lia. Qed.

(** ** Cursor lemmas: what is at the cursor, and where a reader leaves it *)

Lemma drop_cons_inv (buf : list byte) i c rest :
  drop i buf = c :: rest -> buf !! i = Some c /\ drop (S i) buf = rest.
Proof.
  intros H. split.
  - rewrite <-(Nat.add_0_r i), <-lookup_drop, H. done.
  - replace (S i) with (i + 1) by lia. by rewrite <-drop_drop, H.
Qed.

Lemma drop_app_inv (buf : list byte) i s rest :
  drop i buf = s ++ rest -> drop (i + length s) buf = rest.
Proof. intros H. by rewrite <-drop_drop, H, drop_app_length. Qed.

Lemma drop_nil_inv (buf : list byte) i : drop i buf = [] -> buf !! i = None.
Proof.
  intros H. apply lookup_ge_None. apply (f_equal length) in H.
  rewrite length_drop in H. simpl in H. lia.
Qed.

Lemma drop_le (buf : list byte) i s rest :
  s <> [] -> drop i buf = s ++ rest -> i + length s <= length buf.
Proof.
  intros Hs H. apply (f_equal length) in H. rewrite length_drop, length_app in H.
  destruct s; [done|]. simpl in *. lia.
Qed.

(** The first byte of [l], if any, does not satisfy [p]. *)
Definition stops (p : byte -> bool) (l : list byte) : Prop :=
  match l with [] => True | c :: _ => p c = false end.

Lemma scan_at p buf i s rest :
  drop i buf = s ++ rest -> Forall (fun c => p c = true) s -> stops p rest ->
  scan p buf i = i + length s.
Proof.
  intros Hd Hs Hr. revert i Hd. induction Hs as [|c s Hc Hs IH]; intros i Hd; simpl in *.
  - destruct rest as [|c rest].
    + apply drop_nil_inv, lookup_ge_None in Hd. rewrite scan_oob by done. lia.
    + apply drop_cons_inv in Hd as [Hd _]. rewrite (scan_stop _ _ _ c) by done. lia.
  - apply drop_cons_inv in Hd as [Hc' Hd]. rewrite (scan_step _ _ _ c), (IH (S i)) by done. lia.
Qed.

Lemma slice_at (buf : list byte) i s rest :
  drop i buf = s ++ rest -> i + length s <= length buf ->
  slice buf (Z.of_nat i) (Z.of_nat (i + length s)) = Ok s.
Proof.
  intros Hd Hs. rewrite slice_ok by lia.
  replace (Z.to_nat (Z.of_nat (i + length s) - Z.of_nat i)) with (length s) by lia.
  rewrite Nat2Z.id, Hd. by rewrite take_app_length.
Qed.

(** ** Association lists *)

Lemma assoc_in {A B} (ps : list (A * B)) (ids : list A) (k : A) :
  map fst ps = ids -> In k ids -> exists v, In (k, v) ps.
Proof.
  intros <- H. apply in_map_iff in H as ([k' v] & <- & H). by exists v.
Qed.

Lemma assoc_unique {A B} (ps : list (A * B)) (k : A) (v v' : B) :
  NoDup (map fst ps) -> In (k, v) ps -> In (k, v') ps -> v = v'.
Proof.
  assert (forall k v (ps : list (A * B)), In (k, v) ps -> k ∈ map fst ps) as Hk.
  { intros k0 v0 l H. apply list_elem_of_In, in_map_iff. by exists (k0, v0). }
  induction ps as [|[k1 v1] ps IH]; simpl; [done|].
  intros H. pose proof (NoDup_cons_1_1 _ _ H) as Hn. apply NoDup_cons_1_2 in H.
  intros [E|E] [E'|E'].
  - congruence.
  - injection E as -> ->. by apply Hk in E'.
  - injection E' as -> ->. by apply Hk in E.
  - by apply IH.
Qed.

(** ** Filtering *)

Section Filter.
Context {A : Type} (P : A -> Prop) `{forall x, Decision (P x)}.

Lemma filter_all (l : list A) : (forall x, x ∈ l -> P x) -> filter P l = l.
Proof.
  induction l as [|x l IH]; intros Hl; [done|]. rewrite filter_cons, decide_True.
  - rewrite IH; [done|]. intros y Hy. apply Hl, elem_of_cons. by right.
  - apply Hl, elem_of_cons. by left.
Qed.

Lemma filter_none (l : list A) : (forall x, x ∈ l -> ~ P x) -> filter P l = [].
Proof.
  induction l as [|x l IH]; intros Hl; [done|]. rewrite filter_cons, decide_False.
  - apply IH. intros y Hy. apply Hl, elem_of_cons. by right.
  - apply Hl, elem_of_cons. by left.
Qed.

Lemma filter_submseteq' (l l' : list A) : l ⊆+ l' -> filter P l ⊆+ filter P l'.
Proof.
  intros (k & ->)%submseteq_Permutation. rewrite list.filter_app. by apply submseteq_inserts_r.
Qed.
End Filter.

(** ** One element of a list *)

Lemma delete_insert_same {A} (l : list A) i y : delete i (<[i := y]> l) = delete i l.
Proof.
  destruct (decide (i < length l)) as [Hi|Hi]; [|by rewrite list_insert_ge by lia].
  rewrite !delete_take_drop. by rewrite take_insert_ge, drop_insert_lt by lia.
Qed.

(** What a list of resources holds, the ones of one element first. *)
Lemma flat_map_split {A B} (f : A -> list B) (l : list A) i x :
  l !! i = Some x -> flat_map f l ≡ₚ f x ++ flat_map f (delete i l).
Proof. intros Hx. by apply (Permutation_flat_map f (delete_Permutation l i x Hx)). Qed.

Lemma flat_map_insert {A B} (f : A -> list B) (l : list A) i y :
  i < length l -> flat_map f (<[i := y]> l) ≡ₚ f y ++ flat_map f (delete i l).
Proof.
  intros Hi. rewrite (flat_map_split f _ i y) by by apply list_lookup_insert_eq. by rewrite delete_insert_same.
Qed.

Lemma flat_map_other {A B} (f : A -> list B) (l : list A) i k x b :
  l !! k = Some x -> k <> i -> b ∈ f x -> b ∈ flat_map f (delete i l).
Proof.
  intros Hk Hne Hb. rewrite delete_take_drop. apply list_elem_of_In, in_flat_map. exists x.
  split; [|by apply list_elem_of_In]. apply in_app_iff. destruct (decide (k < i)).
  - left. apply list_elem_of_In, list_elem_of_lookup_2 with k. by rewrite lookup_take_lt.
  - right. apply list_elem_of_In, list_elem_of_lookup_2 with (k - S i). rewrite lookup_drop. rewrite <-Hk. f_equal. lia.
Qed.

Lemma sum_update {A} (f : A -> nat) (l : list A) i x y :
  l !! i = Some x -> (sum_list_with f (<[i := y]> l) + f x = sum_list_with f l + f y)%nat.
Proof.
  intros Hi. rewrite <-(take_drop_middle l i x Hi) at 2. rewrite (insert_take_drop l i y) by by eapply lookup_lt_Some.
  rewrite !sum_list_with_app. cbn [sum_list_with]. lia.
Qed.

(** ** Computations that halt

    [halts m]: [m] has a value or panics.  It holds of code that returns no error whatever
    its input, out of range or not, as long as the fuel of its loops is enough. *)
Definition halts {A} (m : res A) : Prop :=
  match m with Ok _ | Panic => True | Fail _ | OutOfFuel => False end.

Lemma halts_bind {A B} (m : res A) (f : A -> res B) : halts m -> (forall a, halts (f a)) -> halts (m ≫= f).
Proof. destruct m; simpl; auto. Qed.

Lemma halts_bind_eq {A B} (m : res A) (f : A -> res B) :
  halts m -> (forall a, m = Ok a -> halts (f a)) -> halts (m ≫= f).
Proof. destruct m; simpl; auto. Qed.

Lemma halts_get {A} (l : list A) i : halts (get l i).
Proof. unfold get. by destruct (l !! i). Qed.

Lemma halts_getZ {A} (l : list A) i : halts (getZ l i).
Proof. unfold getZ. destruct (i <? 0)%Z; [done|apply halts_get]. Qed.

Lemma halts_set {A} (l : list A) i x : halts (set l i x).
Proof. unfold set. by destruct (decide _). Qed.

Lemma halts_slice {A} (l : list A) lo hi : halts (slice l lo hi).
Proof. unfold slice. by destruct (_ && _). Qed.

Lemma halts_foldM {A S} (f : S -> A -> res S) s l : (forall s a, halts (f s a)) -> halts (foldM f s l).
Proof. intros Hf. revert s. induction l as [|x l IH]; intros s; [done|]. by apply halts_bind. Qed.

Lemma halts_returns {A} (m : res A) Q : returns m Q -> halts m.
Proof. by destruct m. Qed.

Create HintDb halts.
#[export] Hint Resolve halts_get halts_getZ halts_set halts_slice : halts.

Ltac halts_step :=
  match goal with
  | |- halts (Ok _) => exact I
  | |- halts Panic => exact I
  | |- halts (let '(_, _) := ?x in _) => destruct x
  | |- halts (mbind _ _) => apply halts_bind; [|intros ?]
  | |- halts (foldM _ _ _) => apply halts_foldM; intros ? ?
  | |- halts (if ?b then _ else _) => destruct b
  | |- halts (match ?x with _ => _ end) => destruct x
  | |- halts _ => solve [eauto 2 with halts]
  end.
Ltac halts_go := repeat (cbv beta zeta; halts_step).
