(* ===== verification/Floats.v ===== *)
(** * IEEE-754 arithmetic as Go uses it

    [float32] and [float64] are the binary32 and binary64 instances of the
    Standard Library's executable specification of IEEE-754 ([SpecFloat]: round to
    nearest, ties to even, signed zeros, infinities, one NaN).  This file holds the
    operations the modelled packages use, [strconv.ParseFloat] as documented, and
    the lemmas that bound the rounding. *)

From S2P Require Import Prelude.
From Stdlib Require Export SpecFloat.

Local Open Scope Z_scope.

(** A [float32] or [float64] value. *)
Abbreviation float := spec_float.

Definition f32_add : float -> float -> float := SFadd 24 128.
Definition f32_sub : float -> float -> float := SFsub 24 128.
Definition f32_mul : float -> float -> float := SFmul 24 128.
Definition f32_div : float -> float -> float := SFdiv 24 128.
Definition f64_add : float -> float -> float := SFadd 53 1024.
Definition f64_sub : float -> float -> float := SFsub 53 1024.
Definition f64_mul : float -> float -> float := SFmul 53 1024.
Definition f64_div : float -> float -> float := SFdiv 53 1024.

(** Comparisons: every one of them is false on a NaN. *)
Definition f_lt (x y : float) : bool := SFltb x y.
Definition f_gt (x y : float) : bool := SFltb y x.
Definition f_le (x y : float) : bool := SFleb x y.
Definition f_ge (x y : float) : bool := SFleb y x.
Definition f_eq (x y : float) : bool := SFeqb x y.

(** Conversions from integers, and between the two formats. *)
Definition f32_of_Z (z : Z) : float := binary_normalize 24 128 z 0 false.
Definition f64_of_Z (z : Z) : float := binary_normalize 53 1024 z 0 false.

Definition refloat (prec emax : Z) (x : float) : float :=
  match x with
  | S754_finite s m e => binary_normalize prec emax (cond_Zopp s (Zpos m)) e s
  | _ => x
  end.
Definition f64_of_f32 (x : float) : float := refloat 53 1024 x.
Definition f32_of_f64 (x : float) : float := refloat 24 128 x.

(** The nearest float to a quotient of positive integers: Go's rounding of a
    decimal constant and of a parsed decimal. *)
Definition ratio (prec emax : Z) (s : bool) (num den : positive) : float :=
  let '(q, e, l) := SFdiv_core_binary prec emax (Zpos num) 0 (Zpos den) 0 in
  binary_round_aux prec emax s q e l.
Definition f32_ratio : bool -> positive -> positive -> float := ratio 24 128.

(** [math.Floor] and [math.Ceil]. *)
Definition f64_floor (x : float) : float :=
  match x with
  | S754_finite s m e =>
      if 0 <=? e then x
      else binary_normalize 53 1024 (cond_Zopp s (Zpos m) / 2 ^ (- e)) 0 s
  | _ => x
  end.
Definition f64_ceil (x : float) : float :=
  match x with
  | S754_finite s m e =>
      if 0 <=? e then x
      else binary_normalize 53 1024 (- (- cond_Zopp s (Zpos m) / 2 ^ (- e))) 0 s
  | _ => x
  end.

(** The integer part of a finite float, towards zero; no value for NaN and infinities. *)
Definition f_trunc (x : float) : option Z :=
  match x with
  | S754_zero _ => Some 0
  | S754_finite s m e =>
      Some (if 0 <=? e then cond_Zopp s (Zpos m) * 2 ^ e
            else Z.quot (cond_Zopp s (Zpos m)) (2 ^ (- e)))
  | _ => None
  end.

(** [int16(x)]: the integer part when an [int16] can hold it; otherwise the
    conversion succeeds with an implementation-dependent value, [unspec x]. *)
Definition i16_of_float (unspec : float -> Z) (x : float) : Z :=
  match f_trunc x with
  | Some z => if (-32768 <=? z) && (z <=? 32767) then z else i16 (unspec x)
  | None => i16 (unspec x)
  end.

(** ** [strconv.ParseFloat(s, 32)]

    [s] holds only digits, signs, dots and exponent letters (the caller's scan
    loop admits nothing else).  Syntax: sign, digits with at most one dot and at
    least one digit, and an optional exponent with at least one digit; the value is
    the nearest [float32], and a value that rounds to an infinity is an error. *)

Fixpoint take_digits (s : list byte) (acc : Z) (n : nat) : Z * nat * list byte :=
  match s with
  | c :: r => if is_digit c then take_digits r (acc * 10 + digit c) (S n) else (acc, n, s)
  | [] => (acc, n, [])
  end.

Definition take_sign (s : list byte) : bool * list byte :=
  match s with
  | c :: r => if decide (c = "-"%byte) then (true, r)
              else if decide (c = "+"%byte) then (false, r) else (false, s)
  | [] => (false, [])
  end.

(** The exponent digits; [strconv] stops accumulating at 10000. *)
Fixpoint exp_digits (s : list byte) (e : Z) : option Z :=
  match s with
  | [] => Some e
  | c :: r => if is_digit c then exp_digits r (if e <? 10000 then e * 10 + digit c else e)
              else None
  end.

Definition decimal_f32 (neg : bool) (mant exp10 : Z) : float :=
  match mant with
  | Zpos m =>
      if 0 <=? exp10 then f32_ratio neg (m * Z.to_pos (10 ^ exp10)) 1
      else f32_ratio neg m (Z.to_pos (10 ^ (- exp10)))
  | _ => S754_zero neg
  end.

Definition ParseFloat32 (s : list byte) : option float :=
  let '(neg, s1) := take_sign s in
  let '(ip, n1, s2) := take_digits s1 0 0 in
  let '(mant, n2, s3) :=
    match s2 with
    | c :: r => if decide (c = "."%byte) then take_digits r ip 0 else (ip, 0%nat, s2)
    | [] => (ip, 0%nat, [])
    end in
  if (n1 + n2 =? 0)%nat then None
  else
    exp10 ← match s3 with
            | [] => Some 0
            | c :: r =>
                if decide (c = "e"%byte \/ c = "E"%byte) then
                  let '(eneg, ds) := take_sign r in
                  match ds with
                  | [] => None
                  | _ => e ← exp_digits ds 0; Some (if eneg then - e else e)
                  end
                else None
            end;
    let f := decimal_f32 neg mant (exp10 - Z.of_nat n2) in
    match f with S754_infinity _ => None | _ => Some f end.

(** ** Bounds on rounding

    A dyadic number is [m * 2 ^ e]; [dle m e b f] compares two of them, scaled up so
    that both exponents are natural. *)

Definition dle (m e b f : Z) : Prop :=
  forall k, 0 <= e + k -> 0 <= f + k -> m * 2 ^ (e + k) <= b * 2 ^ (f + k).

Lemma dle_intro m e b f k :
  0 <= e + k -> 0 <= f + k -> m * 2 ^ (e + k) <= b * 2 ^ (f + k) -> dle m e b f.
Proof.
  intros He Hf H k' He' Hf'. destruct (Z.le_gt_cases k k').
  - replace (e + k') with (e + k + (k' - k)) by lia. replace (f + k') with (f + k + (k' - k)) by lia.
    rewrite !(Z.pow_add_r 2 (_ + k)) by lia. pose proof (Z.pow_pos_nonneg 2 (k' - k)).
    rewrite !Z.mul_assoc. apply Z.mul_le_mono_nonneg_r; [lia|done].
  - replace (e + k) with (e + k' + (k - k')) in H by lia. replace (f + k) with (f + k' + (k - k')) in H by lia.
    rewrite !(Z.pow_add_r 2 (_ + k')) in H by lia. pose proof (Z.pow_pos_nonneg 2 (k - k')).
    apply (Z.mul_le_mono_pos_r _ _ (2 ^ (k - k'))); [lia|]. by rewrite <-!Z.mul_assoc.
Qed.

Lemma digits_log2 p : Zpos (digits2_pos p) = Z.log2 (Zpos p) + 1.
Proof.
  assert (digits2_pos p = Pos.size p) as -> by (induction p; simpl; congruence).
  destruct p; simpl; lia.
Qed.

Lemma digits_bounds m : 0 < m -> 2 ^ (Zdigits2 m - 1) <= m < 2 ^ Zdigits2 m.
Proof.
  intros Hm. destruct m as [|p|p]; try lia. cbn [Zdigits2]. rewrite digits_log2.
  replace (Z.log2 (Zpos p) + 1 - 1) with (Z.log2 (Zpos p)) by lia.
  replace (Z.log2 (Zpos p) + 1) with (Z.succ (Z.log2 (Zpos p))) by lia. by apply Z.log2_spec.
Qed.

Lemma digits_nonneg m : 0 <= m -> 0 <= Zdigits2 m.
Proof. destruct m; simpl; lia. Qed.

(** [m * 2 ^ e <= b * 2 ^ f] bounds the position of the leading digit. *)
Lemma dle_digits m e b f : 0 < m -> 0 < b -> dle m e b f -> Zdigits2 m + e <= Zdigits2 b + f.
Proof.
  intros Hm Hb H. pose proof (digits_bounds m Hm) as [Hl _]. pose proof (digits_bounds b Hb) as [_ Hu].
  pose proof (digits_nonneg m ltac:(lia)) as Dm. pose proof (digits_nonneg b ltac:(lia)).
  assert (0 < Zdigits2 m) as Dm' by (destruct m; simpl in *; lia).
  set (k := Z.max (- e) (- f)). specialize (H k ltac:(lia) ltac:(lia)).
  assert (2 ^ (Zdigits2 m - 1 + (e + k)) < 2 ^ (Zdigits2 b + (f + k))) as Hlt.
  { rewrite (Z.pow_add_r 2 (Zdigits2 m - 1)), (Z.pow_add_r 2 (Zdigits2 b)) by lia.
    pose proof (Z.pow_pos_nonneg 2 (e + k)). pose proof (Z.pow_pos_nonneg 2 (f + k)).
    apply Z.le_lt_trans with (m * 2 ^ (e + k)); [apply Z.mul_le_mono_nonneg_r; lia|].
    apply Z.le_lt_trans with (b * 2 ^ (f + k)); [done|]. apply Z.mul_lt_mono_pos_r; lia. }
  apply Z.pow_lt_mono_r_iff in Hlt; lia.
Qed.

(** Shifting right: the quotient, and whether anything was lost. *)
Definition lost (r : shr_record) : bool := shr_r r || shr_s r.

Lemma iter_pos_nat {A} (f : A -> A) p x : iter_pos f p x = Nat.iter (Pos.to_nat p) f x.
Proof.
  revert x. induction p as [p IH|p IH|]; intros x; cbn [iter_pos].
  - rewrite !IH, Pos2Nat.inj_xI, Nat.iter_succ_r, <-Nat.iter_add. f_equal. lia.
  - rewrite !IH, Pos2Nat.inj_xO, <-Nat.iter_add. f_equal. lia.
  - done.
Qed.

Lemma shr_1_spec r :
  0 <= shr_m r -> shr_m (shr_1 r) = shr_m r / 2 /\ lost (shr_1 r) = Z.odd (shr_m r) || lost r.
Proof.
  destruct r as [m a b]. cbn [shr_m]. intros Hm. unfold lost. destruct m as [|[p|p|]|p]; try lia; cbn.
  - done.
  - split; [|done]. apply Z.div_unique with 1; lia.
  - split; [|done]. apply Z.div_unique with 0; lia.
  - done.
Qed.

Lemma shr_iter_spec r n :
  0 <= shr_m r ->
  let r' := Nat.iter n shr_1 r in
  shr_m r' = shr_m r / 2 ^ Z.of_nat n /\
  lost r' = negb (shr_m r mod 2 ^ Z.of_nat n =? 0) || lost r.
Proof.
  intros Hm. cbv zeta. induction n as [|n [IHm IHl]].
  - cbn [Nat.iter]. rewrite Z.div_1_r, Z.mod_1_r. done.
  - change (Nat.iter (S n) shr_1 r) with (shr_1 (Nat.iter n shr_1 r)).
    set (r' := Nat.iter n shr_1 r) in *.
    assert (0 < 2 ^ Z.of_nat n) by (apply Z.pow_pos_nonneg; lia).
    destruct (shr_1_spec r') as [-> ->]; [rewrite IHm; by apply Z.div_pos|].
    rewrite IHm, IHl, Nat2Z.inj_succ, Z.pow_succ_r by lia. split.
    + by rewrite Z.div_div, Z.mul_comm by lia.
    + rewrite (Z.mul_comm 2), Z.rem_mul_r by lia.
      rewrite Zmod_odd. destruct (Z.odd (shr_m r / 2 ^ Z.of_nat n)); cbn [orb].
      * symmetry. apply orb_true_iff. left.
        pose proof (Z.mod_pos_bound (shr_m r) (2 ^ Z.of_nat n)). lia.
      * f_equal. f_equal. f_equal. lia.
Qed.

Lemma shr_spec r e n :
  0 <= shr_m r ->
  let '(r', e') := shr r e n in
  e' = e + Z.max 0 n /\ shr_m r' = shr_m r / 2 ^ Z.max 0 n /\
  lost r' = negb (shr_m r mod 2 ^ Z.max 0 n =? 0) || lost r.
Proof.
  intros Hm. unfold shr. destruct n as [|p|p].
  - rewrite Z.max_id, Z.div_1_r, Z.mod_1_r. split; [lia|]. done.
  - rewrite iter_pos_nat. pose proof (shr_iter_spec r (Pos.to_nat p) Hm) as [H1 H2].
    rewrite positive_nat_Z in H1, H2. replace (Z.max 0 (Z.pos p)) with (Z.pos p) by lia. done.
  - replace (Z.max 0 (Z.neg p)) with 0 by lia. rewrite Z.div_1_r, Z.mod_1_r. split; [lia|]. done.
Qed.

Lemma record_of_loc m l : shr_m (shr_record_of_loc m l) = m.
Proof. destruct l as [|[]]; done. Qed.

Lemma round_nearest_bounds r :
  round_nearest_even (shr_m r) (loc_of_shr_record r) = shr_m r \/
  (lost r = true /\ round_nearest_even (shr_m r) (loc_of_shr_record r) = shr_m r + 1).
Proof.
  destruct r as [m [] []]; cbn; try destruct (Z.even m); auto.
Qed.

Section Round.
Variable prec emax : Z.
Hypothesis prec_pos : 0 < prec.

(** A finite result has a mantissa of at most [prec] digits; it is never a NaN. *)
Lemma round_aux_digits sx m e l :
  0 <= m ->
  match binary_round_aux prec emax sx m e l with
  | S754_finite s m' _ => s = sx /\ Zpos m' < 2 ^ prec
  | S754_nan => False
  | S754_zero s | S754_infinity s => s = sx
  end.
Proof.
  intros Hm. unfold binary_round_aux, shr_fexp.
  pose proof (shr_spec (shr_record_of_loc m l) e (fexp prec emax (Zdigits2 m + e) - e)) as H1.
  rewrite record_of_loc in H1. specialize (H1 Hm).
  destruct (shr _ _ _) as [r1 e1]. destruct H1 as (_ & Hm1 & _).
  assert (0 <= shr_m r1) as Hr1 by (rewrite Hm1; apply Z.div_pos; [lia|apply Z.pow_pos_nonneg; lia]).
  set (m1 := round_nearest_even (shr_m r1) (loc_of_shr_record r1)).
  assert (0 <= m1) as Hm1' by (destruct (round_nearest_bounds r1) as [E|[_ E]]; unfold m1; lia).
  pose proof (shr_spec (shr_record_of_loc m1 loc_Exact) e1 (fexp prec emax (Zdigits2 m1 + e1) - e1)) as H2.
  rewrite record_of_loc in H2. specialize (H2 Hm1').
  destruct (shr _ _ _) as [r2 e2]. destruct H2 as (He2 & Hm2 & _).
  assert (0 <= shr_m r2) as Hr2 by (rewrite Hm2; apply Z.div_pos; [lia|apply Z.pow_pos_nonneg; lia]).
  destruct (shr_m r2) as [|p|p] eqn:Ep; [done| |lia].
  destruct (e2 <=? emax - prec); [|done]. split; [done|].
  rewrite Hm2. set (n := fexp prec emax (Zdigits2 m1 + e1) - e1) in *.
  assert (Zdigits2 m1 - prec <= n) as Hn by (unfold n, fexp; lia).
  destruct (Z.eq_dec m1 0) as [E0|E0]; [rewrite E0, Z.div_0_l in Hm2; [lia|]; apply Z.pow_nonzero; lia|].
  pose proof (digits_bounds m1 ltac:(lia)) as [_ Hd].
  apply Z.div_lt_upper_bound; [apply Z.pow_pos_nonneg; lia|].
  rewrite <-Z.pow_add_r by lia. eapply Z.lt_le_trans; [exact Hd|]. apply Z.pow_le_mono_r; lia.
Qed.
End Round.

(** A zero or a finite float of magnitude at most [b * 2 ^ f] and sign [s]. *)
Definition fin_le (prec : Z) (s : bool) (x : float) (b f : Z) : Prop :=
  match x with
  | S754_zero _ => True
  | S754_finite s' m e => s' = s /\ dle (Zpos m) e b f /\ Zpos m < 2 ^ prec
  | _ => False
  end.

Lemma dle_at m e b f : dle m e b f -> e <= f -> m <= b * 2 ^ (f - e).
Proof.
  intros H Hef. specialize (H (- e) ltac:(lia) ltac:(lia)).
  replace (e + - e) with 0 in H by lia. replace (f + - e) with (f - e) in H by lia. lia.
Qed.

Lemma dle_of m e b f : e <= f -> m <= b * 2 ^ (f - e) -> dle m e b f.
Proof.
  intros Hef H. apply (dle_intro _ _ _ _ (- e)); [lia|lia|].
  replace (e + - e) with 0 by lia. replace (f + - e) with (f - e) by lia. lia.
Qed.

Section RoundBound.
Variable prec emax b f : Z.
Hypothesis prec_pos : 0 < prec.
Hypothesis b_pos : 0 < b.
Hypothesis b_digits : Zdigits2 b <= prec.
Hypothesis f_low : emin prec emax <= f.
Hypothesis f_high : f <= emax - prec.

Lemma fexp_le m e : 0 < m -> dle m e b f -> fexp prec emax (Zdigits2 m + e) <= f.
Proof. intros Hm H. pose proof (dle_digits m e b f Hm b_pos H). unfold fexp. lia. Qed.

(** Rounding does not cross a bound that is itself representable. *)
Lemma round_aux_bound sx m e :
  0 < m -> e <= f -> dle m e b f ->
  fin_le prec sx (binary_round_aux prec emax sx m e loc_Exact) b f.
Proof.
  intros Hm He H. pose proof (round_aux_digits prec emax prec_pos sx m e loc_Exact ltac:(lia)) as HA.
  unfold binary_round_aux, shr_fexp in *.
  pose proof (fexp_le m e Hm H) as Hf1. set (n := fexp prec emax (Zdigits2 m + e) - e) in *.
  pose proof (shr_spec (shr_record_of_loc m loc_Exact) e n) as H1.
  destruct (shr (shr_record_of_loc m loc_Exact) e n) as [r1 e1].
  cbn [shr_record_of_loc shr_m lost shr_r shr_s orb] in H1. specialize (H1 ltac:(lia)).
  destruct H1 as (He1 & Hm1 & Hl1). rewrite orb_false_r in Hl1.
  assert (e1 <= f) as He1f by lia.
  assert (m <= b * 2 ^ (f - e1) * 2 ^ Z.max 0 n) as Hmb.
  { rewrite <-Z.mul_assoc, <-Z.pow_add_r by lia. replace (f - e1 + Z.max 0 n) with (f - e) by lia.
    by apply dle_at. }
  assert (0 < 2 ^ Z.max 0 n) as Hpn by (apply Z.pow_pos_nonneg; lia).
  set (m1 := round_nearest_even (shr_m r1) (loc_of_shr_record r1)) in *.
  assert (0 <= shr_m r1) as Hr1 by (rewrite Hm1; apply Z.div_pos; lia).
  pose proof (Z.div_mod m (2 ^ Z.max 0 n) ltac:(lia)) as Hdm. rewrite <-Hm1 in Hdm.
  assert (0 <= m1 <= b * 2 ^ (f - e1)) as Hm1b.
  { destruct (round_nearest_bounds r1) as [E|[El E]]; fold m1 in E; rewrite E.
    - split; [lia|]. rewrite Hm1. by apply Z.div_le_upper_bound; [|rewrite Z.mul_comm].
    - split; [lia|]. rewrite Hl1 in El.
      pose proof (Z.mod_pos_bound m (2 ^ Z.max 0 n) Hpn).
      assert (shr_m r1 < b * 2 ^ (f - e1)); [|lia].
      apply (Z.mul_lt_mono_pos_r (2 ^ Z.max 0 n)); lia. }
  pose proof (shr_spec (shr_record_of_loc m1 loc_Exact) e1 (fexp prec emax (Zdigits2 m1 + e1) - e1)) as H2.
  destruct (shr (shr_record_of_loc m1 loc_Exact) _ _) as [r2 e2].
  cbn [shr_record_of_loc shr_m] in H2. specialize (H2 ltac:(lia)). destruct H2 as (He2 & Hm2 & _).
  destruct (shr_m r2) as [|p|p] eqn:Ep; [done| |done].
  assert (0 < m1) as Hm1pos.
  { destruct (Z.eq_dec m1 0) as [E0|]; [|lia]. rewrite E0, Z.div_0_l in Hm2; [lia|].
    apply Z.pow_nonzero; lia. }
  assert (dle m1 e1 b f) as Hd1 by (apply dle_of; lia).
  pose proof (fexp_le m1 e1 Hm1pos Hd1) as Hf2.
  destruct (Z.leb_spec e2 (emax - prec)); [|lia].
  split; [apply HA|]. split; [|apply HA]. apply dle_of; [lia|]. rewrite Hm2.
  assert (0 < 2 ^ Z.max 0 (fexp prec emax (Zdigits2 m1 + e1) - e1)) by (apply Z.pow_pos_nonneg; lia).
  apply (Z.mul_le_mono_pos_r _ _ (2 ^ Z.max 0 (fexp prec emax (Zdigits2 m1 + e1) - e1))); [done|].
  rewrite <-Z.mul_assoc, <-Z.pow_add_r by lia.
  replace (f - e2 + Z.max 0 (fexp prec emax (Zdigits2 m1 + e1) - e1)) with (f - e1) by lia.
  rewrite Z.mul_comm. pose proof (Z.mul_div_le m1 (2 ^ Z.max 0 (fexp prec emax (Zdigits2 m1 + e1) - e1))). lia.
Qed.
End RoundBound.

Lemma iter_xO p d : Zpos (Pos.iter xO p d) = Zpos p * 2 ^ Zpos d.
Proof.
  induction d as [|d IH] using Pos.peano_ind; [cbn; lia|].
  rewrite Pos.iter_succ, Pos2Z.inj_succ, Z.pow_succ_r by lia. lia.
Qed.

(** Aligning to a smaller exponent keeps the value. *)

Lemma shl_align_spec m e e' :
  Zpos (fst (shl_align m e e')) = Zpos m * 2 ^ (e - snd (shl_align m e e')) /\
  snd (shl_align m e e') = Z.min e e'.
Proof.
  unfold shl_align. destruct (e' - e) as [|d|d] eqn:E; cbn [fst snd].
  - rewrite Z.sub_diag. lia.
  - rewrite Z.sub_diag. lia.
  - rewrite iter_xO. split; [|lia]. f_equal. f_equal. lia.
Qed.

Lemma digits_shift p k : 0 <= k -> Zdigits2 (Zpos p * 2 ^ k) = Zdigits2 (Zpos p) + k.
Proof.
  intros Hk. assert (0 < Zpos p * 2 ^ k) as Hpos by (apply Z.mul_pos_pos; [lia|apply Z.pow_pos_nonneg; lia]).
  destruct (Zpos p * 2 ^ k) as [|r|] eqn:E; try lia. cbn [Zdigits2]. rewrite !digits_log2, <-E.
  rewrite Z.log2_mul_pow2 by lia. lia.
Qed.

Section NormalizeBound.
Variable prec emax b f : Z.
Hypothesis prec_pos : 0 < prec.
Hypothesis b_pos : 0 < b.
Hypothesis b_digits : Zdigits2 b <= prec.
Hypothesis f_low : emin prec emax <= f.
Hypothesis f_high : f <= emax - prec.

Lemma round_bound sx m e :
  dle (Zpos m) e b f -> fin_le prec sx (binary_round prec emax sx m e) b f.
Proof.
  intros H. unfold binary_round.
  pose proof (shl_align_spec m e (fexp prec emax (Zpos (digits2_pos m) + e))) as [Hv He].
  destruct (shl_align _ _ _) as [m' e']. cbn [fst snd] in *.
  pose proof (fexp_le prec emax b f b_pos b_digits f_low (Zpos m) e ltac:(lia) H) as Hf.
  cbn [Zdigits2] in Hf.
  apply round_aux_bound; try done; [lia|].
  rewrite Hv. intros k H1 H2. rewrite <-Z.mul_assoc, <-Z.pow_add_r by lia.
  replace (e - e' + (e' + k)) with (e + k) by lia. apply H; lia.
Qed.

Lemma normalize_bound z e s0 :
  dle (Z.abs z) e b f ->
  fin_le prec (z <? 0) (binary_normalize prec emax z e s0) b f.
Proof.
  intros H. destruct z as [|m|m]; [done| |]; by apply round_bound.
Qed.

Lemma refloat_bound p' s x :
  fin_le p' s x b f -> fin_le prec s (refloat prec emax x) b f.
Proof.
  destruct x as [|?| |s' m e]; try done. intros (-> & H & _). unfold refloat.
  destruct s.
  - by apply (normalize_bound (Zneg m) e).
  - by apply (normalize_bound (Zpos m) e).
Qed.
End NormalizeBound.
