(* ===== verification/Timex.v ===== *)
(** * internal/timex: timestamps and the proleptic Gregorian calendar

    [Parse], [DayOfWeek], [floorDiv], [DaysSinceEpoch] and [EpochSeconds] of
    [internal/timex/timex.go], with a reference calendar ([next_day]) that the
    day count is proved to follow one day at a time. *)

From S2P Require Import Prelude.

Module Timex.

Local Open Scope Z_scope.

(** ** The code *)

Record Stamp : Type := mkStamp {
  Year : Z;    (* int32 *)
  Month : Z;   (* uint32, as the fields below *)
  Day : Z;
  Hour : Z;
  Minute : Z;
  Second : Z
}.

Definition zeroStamp : Stamp := mkStamp 0 0 0 0 0 0.

(** [uint32(s[i]-'0')*10 + uint32(s[i+1]-'0')] *)
Definition two (s : list byte) (i : nat) : res Z :=
  a ← get s i; b ← get s (S i); Ok (u32 (digit a * 10 + digit b)).

Definition Parse (s : list byte) : res Stamp :=
  if (length s <? 19)%nat then Ok zeroStamp
  else
    y0 ← get s 0; y1 ← get s 1; y2 ← get s 2; y3 ← get s 3;
    mo ← two s 5;
    d ← two s 8;
    h ← two s 11;
    mi ← two s 14;
    se ← two s 17;
    Ok (mkStamp (i32 (digit y0 * 1000 + digit y1 * 100 + digit y2 * 10 + digit y3))
                mo d h mi se).

Lemma Parse_halts s : halts (Parse s).
Proof. unfold Parse, two. halts_go. Qed.

(** Floor division of [int32] from Go's truncating division. *)
Definition floorDiv (a b : Z) : Z :=
  let q := godiv a b in
  if negb (gomod a b =? 0) && negb (Bool.eqb (a <? 0) (b <? 0)) then i32 (q - 1) else q.

Definition sakamoto : list Z := [0; 3; 2; 5; 0; 3; 5; 1; 4; 6; 2; 4].

(** The index [month-1] is computed in [uint32]: month 0 wraps to 2^32 - 1. *)
Definition DayOfWeek (year month day : Z) : res Z :=
  let y := if month <? 3 then i32 (year - 1) else year in
  t ← get sakamoto (Z.to_nat (u32 (month - 1)));
  let raw := gomod (i32 (y + floorDiv y 4 - floorDiv y 100 + floorDiv y 400 + t + i32 day)) 7 in
  let s := u32 (gomod (gomod raw 7 + 7) 7) in
  Ok (u32 (s + 6) mod 7).

Lemma DayOfWeek_halts y m d : halts (DayOfWeek y m d).
Proof. unfold DayOfWeek. halts_go. Qed.
#[global] Hint Resolve Parse_halts DayOfWeek_halts : halts.

Definition DaysSinceEpoch (year month day : Z) : Z :=
  let m := month in
  let y := if m <=? 2 then year - 1 else year in
  let era := if 0 <=? y then godiv y 400 else godiv (y - 399) 400 in
  let yoe := y - era * 400 in
  let mShift := if 2 <? m then m - 3 else m + 9 in
  let doy := godiv (153 * mShift + 2) 5 + day - 1 in
  let doe := yoe * 365 + godiv yoe 4 - godiv yoe 100 + doy in
  i64 (era * 146097 + doe - 719468).

Definition EpochSeconds (s : Stamp) : Z :=
  i64 (DaysSinceEpoch (Year s) (Month s) (Day s) * 86400 +
       Hour s * 3600 + Minute s * 60 + Second s).

(** ** The reference calendar *)

Definition is_leap (y : Z) : bool :=
  (y mod 4 =? 0) && (negb (y mod 100 =? 0) || (y mod 400 =? 0)).

Definition days_in_month (y m : Z) : Z :=
  if m =? 2 then (if is_leap y then 29 else 28)
  else if (m =? 4) || (m =? 6) || (m =? 9) || (m =? 11) then 30 else 31.

Definition valid_date (y m d : Z) : Prop :=
  1 <= m <= 12 /\ 1 <= d <= days_in_month y m.

Definition next_day (y m d : Z) : Z * Z * Z :=
  if d <? days_in_month y m then (y, m, d + 1)
  else if m <? 12 then (y, m + 1, 1)
  else (y + 1, 1, 1).

(** ISO 8601 text of a stamp, as the service receives it. *)
Definition dig (z : Z) : byte := chr (48 + z).
Definition render2 (z : Z) : list byte := [dig (z / 10); dig (z mod 10)].
Definition render (s : Stamp) : list byte :=
  [dig (Year s / 1000); dig (Year s / 100 mod 10); dig (Year s / 10 mod 10); dig (Year s mod 10)]
  ++ bytes "-" ++ render2 (Month s) ++ bytes "-" ++ render2 (Day s)
  ++ bytes "T" ++ render2 (Hour s) ++ bytes ":" ++ render2 (Minute s)
  ++ bytes ":" ++ render2 (Second s) ++ bytes "Z".

(** A stamp whose fields fit the digits of the ISO text. *)
Definition printable (s : Stamp) : Prop :=
  0 <= Year s < 10000 /\ 0 <= Month s < 100 /\ 0 <= Day s < 100 /\
  0 <= Hour s < 100 /\ 0 <= Minute s < 100 /\ 0 <= Second s < 100.

(** ** Lemmas *)

#[local] Ltac Zify.zify_post_hook ::= Z.div_mod_to_equations.

Lemma godiv_pos a b : 0 <= a -> 0 < b -> godiv a b = a / b.
Proof. intros. unfold godiv. apply Z.quot_div_nonneg; lia. Qed.

Lemma floorDiv_div a b : -2147483647 <= a < 2147483648 -> 0 < b < 2147483648 -> floorDiv a b = a / b.
Proof.
  intros Ha Hb. unfold floorDiv, godiv, gomod.
  pose proof (Z.quot_rem' a b). pose proof (Z.rem_bound_abs a b).
  pose proof (Z.rem_sign_mul a b).
  replace (b <? 0) with false by lia.
  destruct (a <? 0) eqn:Hs; simpl.
  - destruct (Z.rem a b =? 0) eqn:Hr; simpl.
    + apply Z.eqb_eq in Hr. rewrite Hr in *. apply Z.div_unique with (r := 0); lia.
    + assert (Z.rem a b < 0) by nia.
      rewrite i32_id by nia.
      apply Z.div_unique with (r := Z.rem a b + b); lia.
  - rewrite andb_false_r. apply Z.quot_div_nonneg; lia.
Qed.

(** The day count in terms of floor division, where no [int64] overflow occurs. *)
Definition march_days (year month day : Z) : Z :=
  let y := if month <=? 2 then year - 1 else year in
  let ms := if 2 <? month then month - 3 else month + 9 in
  365 * y + y / 4 - y / 100 + y / 400 + (153 * ms + 2) / 5 + day - 1 - 719468.

Lemma DaysSinceEpoch_march y m d :
  -2147483648 <= y < 2147483648 -> 0 <= m < 4294967296 -> 0 <= d < 4294967296 ->
  DaysSinceEpoch y m d = march_days y m d.
Proof.
  intros Hy Hm Hd. unfold DaysSinceEpoch, march_days.
  set (yy := if m <=? 2 then y - 1 else y).
  assert (-2147483649 <= yy < 2147483648) as Hyy by (unfold yy; destruct (m <=? 2); lia).
  set (ms := if 2 <? m then m - 3 else m + 9).
  assert (0 <= ms < 4294967306) as Hms by (unfold ms; destruct (2 <? m) eqn:?; lia).
  assert ((if 0 <=? yy then godiv yy 400 else godiv (yy - 399) 400) = yy / 400) as ->.
  { destruct (0 <=? yy) eqn:E; [apply godiv_pos; lia|].
    unfold godiv. symmetry.
    replace (yy - 399) with (- (399 - yy)) by lia.
    rewrite Z.quot_opp_l, Z.quot_div_nonneg by lia. lia. }
  clearbody yy ms.
  rewrite !godiv_pos by lia.
  rewrite i64_id; lia.
Qed.


Ltac month_cases m :=
  let H := fresh in
  assert (m = 1 \/ m = 2 \/ m = 3 \/ m = 4 \/ m = 5 \/ m = 6 \/ m = 7 \/ m = 8 \/
          m = 9 \/ m = 10 \/ m = 11 \/ m = 12) as H by lia;
  repeat (destruct H as [H|H]; [subst m|]); [..|subst m].

Lemma is_leap_spec y :
  is_leap y = true <-> y mod 4 = 0 /\ (y mod 100 <> 0 \/ y mod 400 = 0).
Proof. unfold is_leap. lia. Qed.

(** The numbers of leap days before a year, and what one more year adds. *)
Lemma leap_days_succ y :
  (y + 1) / 4 - (y + 1) / 100 + (y + 1) / 400 =
  y / 4 - y / 100 + y / 400 + (if is_leap (y + 1) then 1 else 0).
Proof.
  destruct (is_leap (y + 1)) eqn:E.
  - apply is_leap_spec in E. lia.
  - assert (~ ((y + 1) mod 4 = 0 /\ ((y + 1) mod 100 <> 0 \/ (y + 1) mod 400 = 0))) as E'.
    { intros H. apply is_leap_spec in H. congruence. }
    lia.
Qed.

(** The day of the year on which a month starts. *)
Lemma march_next y m d :
  valid_date y m d ->
  let '(y', m', d') := next_day y m d in march_days y' m' d' = march_days y m d + 1.
Proof.
  intros [Hm Hd]. pose proof (leap_days_succ (y - 1)) as HL.
  replace (y - 1 + 1) with y in HL by lia.
  month_cases m; unfold next_day, days_in_month in *; simpl in *;
    destruct (is_leap y); simpl in *;
    (match goal with |- context [if ?b then _ else _] => destruct b eqn:? end;
     unfold march_days; simpl; replace (y + 1 - 1) with y by lia; try lia).
Qed.

Lemma next_day_valid y m d :
  valid_date y m d -> let '(y', m', d') := next_day y m d in valid_date y' m' d'.
Proof.
  intros [Hm Hd]. unfold next_day, valid_date.
  destruct (d <? days_in_month y m) eqn:E1; [lia|].
  destruct (m <? 12) eqn:E2.
  - month_cases m; unfold days_in_month; simpl; destruct (is_leap y); lia.
  - unfold days_in_month. simpl. lia.
Qed.

Lemma days_in_month_le y m : 28 <= days_in_month y m <= 31.
Proof. unfold days_in_month. repeat case_match; lia. Qed.

(** A valid date lies between the first of its month and the first of the next. *)
Lemma march_month_bounds y m d :
  valid_date y m d ->
  march_days y m 1 <= march_days y m d < march_days y m 1 + days_in_month y m.
Proof. intros [Hm Hd]. unfold march_days. lia. Qed.

Lemma march_month_start y m :
  1 <= m < 12 -> march_days y (m + 1) 1 = march_days y m 1 + days_in_month y m.
Proof.
  intros Hm. pose proof (days_in_month_le y m).
  pose proof (march_next y m (days_in_month y m)) as H'.
  unfold next_day in H'. rewrite Z.ltb_irrefl in H'.
  replace (m <? 12) with true in H' by lia.
  rewrite H' by (split; lia). unfold march_days. lia.
Qed.

Lemma march_year_start y :
  march_days (y + 1) 1 1 = march_days y 12 1 + 31.
Proof. unfold march_days. simpl. replace (y + 1 - 1) with y by lia. lia. Qed.

(** The first of a month is monotone in the month, then in the year. *)
Lemma march_months y m k :
  0 <= k -> 1 <= m -> m + k <= 12 -> march_days y m 1 + 28 * k <= march_days y (m + k) 1.
Proof.
  intros Hk Hm. revert k Hk.
  apply (natlike_ind (fun k => m + k <= 12 -> march_days y m 1 + 28 * k <= march_days y (m + k) 1)).
  - intros _. replace (m + 0) with m by lia. lia.
  - intros k Hk IH Hmk. replace (m + Z.succ k) with (m + k + 1) by lia.
    rewrite march_month_start by lia. pose proof (days_in_month_le y (m + k)). lia.
Qed.

Lemma march_years y k : 0 <= k -> march_days y 1 1 + 300 * k <= march_days (y + k) 1 1.
Proof.
  revert k. apply natlike_ind.
  - replace (y + 0) with y by lia. lia.
  - intros k Hk IH. replace (y + Z.succ k) with (y + k + 1) by lia.
    rewrite march_year_start.
    pose proof (march_months (y + k) 1 11 ltac:(lia) ltac:(lia) ltac:(lia)) as H.
    change (1 + 11) with 12 in H. lia.
Qed.

(** Lexicographic order of dates. *)
Definition date_lt (y1 m1 d1 y2 m2 d2 : Z) : Prop :=
  y1 < y2 \/ (y1 = y2 /\ (m1 < m2 \/ (m1 = m2 /\ d1 < d2))).

Lemma march_lt y1 m1 d1 y2 m2 d2 :
  valid_date y1 m1 d1 -> valid_date y2 m2 d2 ->
  date_lt y1 m1 d1 y2 m2 d2 -> march_days y1 m1 d1 < march_days y2 m2 d2.
Proof.
  intros V1 V2 Hlt.
  pose proof (march_month_bounds _ _ _ V1) as B1. pose proof (march_month_bounds _ _ _ V2) as B2.
  destruct V1 as [M1 D1], V2 as [M2 D2].
  destruct Hlt as [Hy|[-> [Hm|[-> Hd]]]]; [| |unfold march_days in *; lia].
  - assert (march_days y1 m1 1 + days_in_month y1 m1 <= march_days (y1 + 1) 1 1) as H1.
    { rewrite march_year_start. destruct (decide (m1 = 12)) as [->|].
      - unfold days_in_month. simpl. lia.
      - rewrite <-march_month_start by lia.
        pose proof (march_months y1 (m1 + 1) (11 - m1)).
        replace (m1 + 1 + (11 - m1)) with 12 in * by lia. lia. }
    pose proof (march_years (y1 + 1) (y2 - y1 - 1)) as H2.
    replace (y1 + 1 + (y2 - y1 - 1)) with y2 in H2 by lia.
    pose proof (march_months y2 1 (m2 - 1)) as H3.
    replace (1 + (m2 - 1)) with m2 in H3 by lia. lia.
  - pose proof (march_month_start y2 m1).
    pose proof (march_months y2 (m1 + 1) (m2 - m1 - 1)) as H3.
    replace (m1 + 1 + (m2 - m1 - 1)) with m2 in H3 by lia. lia.
Qed.

(** Go's [((x % 7 % 7) + 7) % 7] is the residue of [x] modulo 7, whatever the sign. *)
Lemma gomod7 x : u32 (gomod (gomod (gomod x 7) 7 + 7) 7) = x mod 7.
Proof.
  assert (gomod (gomod (gomod x 7) 7 + 7) 7 = x mod 7) as ->.
  { unfold gomod. Z.to_euclidean_division_equations. lia. }
  apply u32_id. pose proof (Z.mod_pos_bound x 7). lia.
Qed.

Lemma DayOfWeek_ok y m d t :
  -1000000 <= y <= 1000000 -> 1 <= m <= 12 -> 0 <= d <= 1000000 ->
  sakamoto !! Z.to_nat (m - 1) = Some t -> 0 <= t <= 6 ->
  let y' := if m <? 3 then y - 1 else y in
  DayOfWeek y m d = Ok ((y' + y' / 4 - y' / 100 + y' / 400 + t + d + 6) mod 7).
Proof.
  intros Hy Hm Hd Ht Ht' y'. unfold DayOfWeek.
  rewrite u32_id by lia. rewrite (get_ok _ _ _ Ht), bind_Ok.
  assert ((if m <? 3 then i32 (y - 1) else y) = y') as ->.
  { unfold y'. destruct (m <? 3); [apply i32_id; lia|done]. }
  assert (-1000001 <= y' <= 1000000) as Hy' by (unfold y'; destruct (m <? 3); lia).
  clearbody y'. rewrite !floorDiv_div by lia. rewrite (i32_id d) by lia.
  rewrite i32_id by lia. rewrite gomod7. rewrite u32_id by lia. f_equal. lia.
Qed.

Lemma digit_dig z : 0 <= z <= 9 -> digit (dig z) = z.
Proof.
  intros Hz. unfold digit, dig. rewrite bval_chr by lia.
  replace (48 + z - 48) with z by lia. apply wrapU_id. unfold inU. lia.
Qed.

Lemma two_ok s i a b : s !! i = Some a -> s !! S i = Some b ->
  two s i = Ok (digit a * 10 + digit b).
Proof.
  intros Ha Hb. unfold two. rewrite (get_ok _ _ _ Ha), (get_ok _ _ _ Hb), !bind_Ok.
  pose proof (digit_range a). pose proof (digit_range b). by rewrite u32_id by lia.
Qed.

Lemma two_render s i z : s !! i = Some (dig (z / 10)) -> s !! S i = Some (dig (z mod 10)) ->
  0 <= z < 100 -> two s i = Ok z.
Proof.
  intros Ha Hb Hz. rewrite (two_ok _ _ _ _ Ha Hb), !digit_dig by lia. f_equal. lia.
Qed.

Lemma wp_two s i (Q : Z -> Prop) R :
  (S i < length s)%nat -> (forall z, 0 <= z <= 2805 -> Q z) -> wp (two s i) Q R.
Proof.
  intros Hi HQ.
  destruct (lookup_lt_is_Some_2 s i ltac:(lia)) as [a Ha].
  destruct (lookup_lt_is_Some_2 s (S i) Hi) as [b Hb].
  rewrite (two_ok _ _ _ _ Ha Hb). apply HQ.
  pose proof (digit_range a). pose proof (digit_range b). lia.
Qed.

Lemma DayOfWeek_returns y m d : 1 <= m <= 12 -> returns (DayOfWeek y m d) (fun w => 0 <= w < 7).
Proof.
  intros Hm. unfold DayOfWeek, get. rewrite u32_id by lia.
  destruct (lookup_lt_is_Some_2 sakamoto (Z.to_nat (m - 1))) as [t ->]; [simpl; lia|].
  apply wp_ok. apply Z.mod_pos_bound. lia.
Qed.

Lemma DayOfWeek_out y m d :
  0 <= m < 4294967296 -> ~ (1 <= m <= 12) -> DayOfWeek y m d = Panic.
Proof.
  intros Hm Hr. unfold DayOfWeek, get.
  assert (12 <= u32 (m - 1)) as Hu.
  { destruct (decide (m = 0)) as [->|]; [vm_compute; discriminate|]. rewrite u32_id; lia. }
  by rewrite lookup_ge_None_2 by (simpl; lia).
Qed.

(** ** Properties *)

(** C35: the day number is the number of days since 1970-01-01 in the proleptic
    Gregorian calendar: it is 0 on that day, and stepping a valid date to the next
    calendar day (month ends and leap years included) adds exactly one. *)
Theorem DaysSinceEpoch_calendar :
  DaysSinceEpoch 1970 1 1 = 0 /\
  forall y m d, -1000000 <= y <= 1000000 -> valid_date y m d ->
    let '(y', m', d') := next_day y m d in
    valid_date y' m' d' /\ DaysSinceEpoch y' m' d' = DaysSinceEpoch y m d + 1.
Proof.
  split; [reflexivity|]. intros y m d Hy HV.
  pose proof (march_next y m d HV) as Hs. pose proof (next_day_valid y m d HV) as HV'.
  destruct (next_day y m d) as [[y' m'] d'] eqn:E. split; [done|].
  pose proof (days_in_month_le y m). pose proof (days_in_month_le y' m').
  assert (-1000000 <= y' <= 1000001).
  { unfold next_day in E. repeat case_match; injection E as <- <- <-; lia. }
  unfold valid_date in *. rewrite !DaysSinceEpoch_march by lia. done.
Qed.

(** On valid timestamps the epoch seconds order instants the way the calendar
    does: an earlier date, or an earlier time of the same date, has fewer seconds. *)
Theorem EpochSeconds_mono a b :
  -1000000 <= Year a <= 1000000 -> -1000000 <= Year b <= 1000000 ->
  valid_date (Year a) (Month a) (Day a) -> valid_date (Year b) (Month b) (Day b) ->
  0 <= Hour a < 24 /\ 0 <= Minute a < 60 /\ 0 <= Second a < 60 ->
  0 <= Hour b < 24 /\ 0 <= Minute b < 60 /\ 0 <= Second b < 60 ->
  (EpochSeconds a < EpochSeconds b <->
   date_lt (Year a) (Month a) (Day a) (Year b) (Month b) (Day b) \/
   ((Year a, Month a, Day a) = (Year b, Month b, Day b) /\
    Hour a * 3600 + Minute a * 60 + Second a < Hour b * 3600 + Minute b * 60 + Second b)).
Proof.
  intros Ya Yb Va Vb Ta Tb. unfold EpochSeconds.
  pose proof (march_lt _ _ _ _ _ _ Va Vb) as Lab. pose proof (march_lt _ _ _ _ _ _ Vb Va) as Lba.
  pose proof (days_in_month_le (Year a) (Month a)). pose proof (days_in_month_le (Year b) (Month b)).
  unfold valid_date in *. rewrite !DaysSinceEpoch_march by lia.
  assert (forall y m d, -1000000 <= y <= 1000000 -> 1 <= m <= 12 -> 1 <= d <= 31 ->
            -1000000000 <= march_days y m d <= 1000000000) as Hb.
  { intros y m d Hy Hm Hd. unfold march_days. destruct (m <=? 2), (2 <? m) eqn:?; lia. }
  pose proof (Hb (Year a) (Month a) (Day a)). pose proof (Hb (Year b) (Month b) (Day b)).
  rewrite !i64_id by lia. clear Hb.
  assert ((Year a = Year b /\ Month a = Month b /\ Day a = Day b) \/
          date_lt (Year a) (Month a) (Day a) (Year b) (Month b) (Day b) \/
          date_lt (Year b) (Month b) (Day b) (Year a) (Month a) (Day a)) as [(E1 & E2 & E3)|[L|L]]
    by (unfold date_lt; lia).
  - rewrite E1, E2, E3. unfold date_lt. split; [intros; right; split; [done|lia]|].
    intros [?|[_ ?]]; lia.
  - specialize (Lab L). split; [by left|]. lia.
  - specialize (Lba L). split; [lia|]. intros [L'|[Heq _]].
    + unfold date_lt in *. lia.
    + injection Heq as E1 E2 E3. rewrite E1, E2, E3 in Lba. lia.
Qed.

Example EpochSeconds_mono_witness :
  EpochSeconds (mkStamp 2026 2 28 23 59 59) < EpochSeconds (mkStamp 2026 3 1 0 0 0).
Proof.
  apply (EpochSeconds_mono (mkStamp 2026 2 28 23 59 59) (mkStamp 2026 3 1 0 0 0));
    vm_compute; intuition discriminate.
Defined.

(** For every year the parser can produce and every real month, the weekday is
    the one the day number gives, Monday being 0. *)
Theorem DayOfWeek_epoch y m d :
  -1000000 <= y <= 1000000 -> 1 <= m <= 12 -> 0 <= d <= 1000000 ->
  DayOfWeek y m d = Ok ((DaysSinceEpoch y m d + 3) mod 7).
Proof.
  intros Hy Hm Hd. rewrite DaysSinceEpoch_march by lia.
  month_cases m; (erewrite DayOfWeek_ok; [|lia..|reflexivity|lia]);
    unfold march_days; simpl; f_equal; lia.
Qed.

Example DayOfWeek_epoch_witness : DayOfWeek 2026 3 11 = Ok 2.
Proof. rewrite (DayOfWeek_epoch 2026 3 11) by lia. reflexivity. Defined.

(** The weekday lookup panics exactly when the month field is not 1 to 12, which
    the parser does not exclude: a text shorter than 19 bytes gives month 0. *)
Theorem DayOfWeek_panics y m d :
  0 <= m < 4294967296 -> (DayOfWeek y m d = Panic <-> m = 0 \/ 12 < m).
Proof.
  intros Hm. destruct (decide (1 <= m <= 12)) as [Hr|Hr].
  - pose proof (DayOfWeek_returns y m d Hr) as H. destruct (DayOfWeek y m d); try done.
    split; [done|lia].
  - rewrite DayOfWeek_out by done. split; [lia|done].
Qed.

Example DayOfWeek_panics_witness : DayOfWeek 0 0 0 = Panic /\ DayOfWeek 2026 13 1 = Panic.
Proof. split; apply (DayOfWeek_panics _ _ _); lia. Defined.

(** The field bounds of what the parser produces, on any input. *)
Definition parsed_bounds (s : Stamp) : Prop :=
  0 <= Year s <= 283305 /\ 0 <= Month s <= 2805 /\ 0 <= Day s <= 2805 /\
  0 <= Hour s <= 2805 /\ 0 <= Minute s <= 2805 /\ 0 <= Second s <= 2805.

Lemma Parse_bounds s : returns (Parse s) parsed_bounds.
Proof.
  unfold Parse, returns. destruct (length s <? 19)%nat eqn:E.
  { apply wp_ok. unfold parsed_bounds. simpl. lia. }
  apply Nat.ltb_ge in E.
  repeat (apply wp_bind; apply wp_get; [lia|]).
  repeat (apply wp_bind; apply wp_two; [lia|intros ? ?]).
  apply wp_ok. unfold parsed_bounds. simpl.
  repeat match goal with |- context [digit ?b] =>
    lazymatch goal with H : 0 <= digit b < 256 |- _ => fail | _ => pose proof (digit_range b) end end.
  rewrite i32_id by lia. lia.
Qed.

(** Parsing never fails, on any bytes; a text shorter than 19 bytes gives the zero
    stamp, and parsing the ISO text of a stamp gives the stamp back. *)
Theorem Parse_render :
  (forall s, returns (Parse s) parsed_bounds) /\
  (forall s, (length s < 19)%nat -> Parse s = Ok zeroStamp) /\
  (forall st, printable st -> Parse (render st) = Ok st).
Proof.
  split; [apply Parse_bounds|]. split.
  { intros s Hs. unfold Parse. apply Nat.ltb_lt in Hs. by rewrite Hs. }
  intros st (HY & HM & HD & Hh & Hm & Hs). unfold Parse.
  replace (length (render st) <? 19)%nat with false by reflexivity.
  rewrite (two_render _ 5 (Month st)), (two_render _ 8 (Day st)), (two_render _ 11 (Hour st)),
    (two_render _ 14 (Minute st)), (two_render _ 17 (Second st)) by (done || reflexivity).
  unfold get. simpl lookup. cbn match. rewrite !bind_Ok.
  rewrite !digit_dig by lia. rewrite i32_id by lia.
  destruct st as [y mo d h mi se]. simpl in *. do 2 f_equal. lia.
Qed.

End Timex.
