(* ===== verification/Jsonp.v ===== *)
(** * internal/jsonp: the request parser

    The hand-written JSON reader of [internal/jsonp/json.go].  A buffer is a list of
    bytes, the cursor [*i] an index threaded through the readers, and the payload a
    record.  The six object readers share the loop [obj_loop] that the source
    repeats; each differs in the switch over its keys. *)

From S2P Require Import Prelude Floats.

Module Jsonp.

Record Payload : Type := mkPayload {
  Amount : float;
  Installments : Z;                 (* uint32 *)
  RequestedAt : list byte;
  AvgAmount : float;
  TxCount24h : Z;                   (* uint32 *)
  KnownMerchants : list (list byte); (* [16][]byte *)
  KnownN : Z;                       (* uint32 *)
  MerchantID : list byte;
  MCC : list byte;
  MerchantAvgAmount : float;
  IsOnline : bool;
  CardPresent : bool;
  KmFromHome : float;
  HasLast : bool;
  LastTimestamp : list byte;
  LastKmFromCurrent : float
}.

Definition fzero : float := S754_zero false.

(** The zero value [Payload{}]. *)
Definition emptyPayload : Payload := {|
  Amount := fzero; Installments := 0; RequestedAt := []; AvgAmount := fzero;
  TxCount24h := 0; KnownMerchants := replicate 16 []; KnownN := 0; MerchantID := [];
  MCC := []; MerchantAvgAmount := fzero; IsOnline := false; CardPresent := false;
  KmFromHome := fzero; HasLast := false; LastTimestamp := []; LastKmFromCurrent := fzero |}.

(** Field assignments [p.F = v]. *)
Definition set_tx (a : float) (n : Z) (r : list byte) (p : Payload) : Payload := {|
  Amount := a; Installments := n; RequestedAt := r; AvgAmount := AvgAmount p;
  TxCount24h := TxCount24h p; KnownMerchants := KnownMerchants p; KnownN := KnownN p;
  MerchantID := MerchantID p; MCC := MCC p; MerchantAvgAmount := MerchantAvgAmount p;
  IsOnline := IsOnline p; CardPresent := CardPresent p; KmFromHome := KmFromHome p;
  HasLast := HasLast p; LastTimestamp := LastTimestamp p;
  LastKmFromCurrent := LastKmFromCurrent p |}.
Definition set_cust (a : float) (n : Z) (ks : list (list byte)) (kn : Z) (p : Payload) : Payload := {|
  Amount := Amount p; Installments := Installments p; RequestedAt := RequestedAt p;
  AvgAmount := a; TxCount24h := n; KnownMerchants := ks; KnownN := kn;
  MerchantID := MerchantID p; MCC := MCC p; MerchantAvgAmount := MerchantAvgAmount p;
  IsOnline := IsOnline p; CardPresent := CardPresent p; KmFromHome := KmFromHome p;
  HasLast := HasLast p; LastTimestamp := LastTimestamp p;
  LastKmFromCurrent := LastKmFromCurrent p |}.
Definition set_mer (id mcc : list byte) (a : float) (p : Payload) : Payload := {|
  Amount := Amount p; Installments := Installments p; RequestedAt := RequestedAt p;
  AvgAmount := AvgAmount p; TxCount24h := TxCount24h p; KnownMerchants := KnownMerchants p;
  KnownN := KnownN p; MerchantID := id; MCC := mcc; MerchantAvgAmount := a;
  IsOnline := IsOnline p; CardPresent := CardPresent p; KmFromHome := KmFromHome p;
  HasLast := HasLast p; LastTimestamp := LastTimestamp p;
  LastKmFromCurrent := LastKmFromCurrent p |}.
Definition set_term (on cp : bool) (km : float) (p : Payload) : Payload := {|
  Amount := Amount p; Installments := Installments p; RequestedAt := RequestedAt p;
  AvgAmount := AvgAmount p; TxCount24h := TxCount24h p; KnownMerchants := KnownMerchants p;
  KnownN := KnownN p; MerchantID := MerchantID p; MCC := MCC p;
  MerchantAvgAmount := MerchantAvgAmount p; IsOnline := on; CardPresent := cp;
  KmFromHome := km; HasLast := HasLast p; LastTimestamp := LastTimestamp p;
  LastKmFromCurrent := LastKmFromCurrent p |}.
Definition set_last (has : bool) (ts : list byte) (km : float) (p : Payload) : Payload := {|
  Amount := Amount p; Installments := Installments p; RequestedAt := RequestedAt p;
  AvgAmount := AvgAmount p; TxCount24h := TxCount24h p; KnownMerchants := KnownMerchants p;
  KnownN := KnownN p; MerchantID := MerchantID p; MCC := MCC p;
  MerchantAvgAmount := MerchantAvgAmount p; IsOnline := IsOnline p;
  CardPresent := CardPresent p; KmFromHome := KmFromHome p; HasLast := has;
  LastTimestamp := ts; LastKmFromCurrent := km |}.

(** ** Lexical readers *)

(** [peek]: the byte at the cursor, or -1 at the end. *)
Definition peek (buf : list byte) (i : nat) : Z :=
  match buf !! i with Some c => bval c | None => -1 end.

Definition is_ws (c : byte) : bool :=
  bool_decide (c = " "%byte \/ c = x09 \/ c = x0d \/ c = x0a).

Definition skipWs (buf : list byte) (i : nat) : nat := scan is_ws buf i.

Definition expect (buf : list byte) (i : nat) (c : byte) : res nat :=
  let i := skipWs buf i in
  match buf !! i with
  | Some d => if decide (d = c) then Ok (S i) else Fail ErrMalformed
  | None => Fail ErrMalformed
  end.

(** [eq] *)
Definition eq (a b : list byte) : bool := bool_decide (a = b).

Definition not_quote (c : byte) : bool := negb (bool_decide (c = x22)).

(** [readStr]; [readKey] is the same text in the source. *)
Definition readStr (buf : list byte) (i : nat) : res (list byte * nat) :=
  let i := skipWs buf i in
  match buf !! i with
  | Some c =>
      if decide (c = x22) then
        let start := S i in
        let j := scan not_quote buf start in
        if (length buf <=? j)%nat then Fail ErrMalformed
        else s ← slice buf (Z.of_nat start) (Z.of_nat j); Ok (s, S j)
      else Fail ErrMalformed
  | None => Fail ErrMalformed
  end.
Definition readKey : list byte -> nat -> res (list byte * nat) := readStr.

(** [*i+n <= len(buf) && string(buf[*i:*i+n]) == lit] *)
Definition looking_at (buf : list byte) (i : nat) (lit : list byte) : bool :=
  (i + length lit <=? length buf)%nat && bool_decide (take (length lit) (drop i buf) = lit).

Definition readBool (buf : list byte) (i : nat) : res (bool * nat) :=
  let i := skipWs buf i in
  if looking_at buf i (bytes "true") then Ok (true, i + 4)%nat
  else if looking_at buf i (bytes "false") then Ok (false, i + 5)%nat
  else Fail ErrMalformed.

(** The digit loop of [readU32]; [v] wraps modulo 2^32. *)
Fixpoint u32_loop (fuel : nat) (buf : list byte) (i : nat) (v : Z) (saw : bool) : Z * bool * nat :=
  match fuel with
  | O => (v, saw, i)
  | S f =>
      match buf !! i with
      | Some c =>
          if is_digit c then u32_loop f buf (S i) (u32 (v * 10 + digit c)) true else (v, saw, i)
      | None => (v, saw, i)
      end
  end.

Definition readU32 (buf : list byte) (i : nat) : res (Z * nat) :=
  let i := skipWs buf i in
  let '(v, saw, j) := u32_loop (length buf - i) buf i 0 false in
  if saw then Ok (v, j) else Fail ErrMalformed.

(** The scan of [readF32]: digits and dots, then exponent letters, after which
    signs are accepted too. *)
Fixpoint num_loop (fuel : nat) (buf : list byte) (i : nat) (hasExp : bool) : nat * bool :=
  match fuel with
  | O => (i, hasExp)
  | S f =>
      match buf !! i with
      | Some c =>
          if is_digit c || bool_decide (c = "."%byte) then num_loop f buf (S i) hasExp
          else if bool_decide (c = "e"%byte \/ c = "E"%byte) then num_loop f buf (S i) true
          else if bool_decide (c = "+"%byte \/ c = "-"%byte) && hasExp then num_loop f buf (S i) hasExp
          else (i, hasExp)
      | None => (i, hasExp)
      end
  end.

(** The integer and fraction loops: [uint64] accumulators that wrap. *)
Fixpoint int_loop (s : list byte) (acc : Z) : Z * list byte :=
  match s with
  | c :: r => if decide (c = "."%byte) then (acc, s) else int_loop r (u64 (acc * 10 + digit c))
  | [] => (acc, [])
  end.

Fixpoint frac_loop (s : list byte) (part pow : Z) : Z * Z :=
  match s with
  | c :: r => frac_loop r (u64 (part * 10 + digit c)) (u64 (pow * 10))
  | [] => (part, pow)
  end.

(** The value of a number without exponent. *)
Definition plain_f32 (s : list byte) : float :=
  let '(neg, ds) := take_sign s in
  let '(intPart, r) := int_loop ds 0 in
  let '(fracPart, fracPow) :=
    match r with _ :: r' => frac_loop r' 0 1 | [] => (0, 1)%Z end in
  let v := f32_add (f32_of_Z intPart) (f32_div (f32_of_Z fracPart) (f32_of_Z fracPow)) in
  if neg then SFopp v else v.

Definition readF32 (buf : list byte) (i : nat) : res (float * nat) :=
  let start := skipWs buf i in
  let i := match buf !! start with
           | Some c => if bool_decide (c = "-"%byte \/ c = "+"%byte) then S start else start
           | None => start
           end in
  let '(i, hasExp) := num_loop (length buf - i) buf i false in
  if (i =? start)%nat then Fail ErrMalformed
  else
    s ← slice buf (Z.of_nat start) (Z.of_nat i);
    if hasExp then
      match ParseFloat32 s with
      | Some f => Ok (f, i)
      | None => Fail ErrMalformed
      end
    else Ok (plain_f32 s, i).

(** The bracket-matching loop of [skipVal]: [c] opens, [closer] closes. *)
Fixpoint depth_loop (fuel : nat) (c closer : byte) (buf : list byte) (i : nat) (depth : Z) : nat :=
  match fuel with
  | O => i
  | S f =>
      if (depth <=? 0)%Z then i
      else
        match buf !! i with
        | Some d =>
            let depth := (if decide (d = c) then depth + 1
                          else if decide (d = closer) then depth - 1 else depth)%Z in
            depth_loop f c closer buf (S i) depth
        | None => i
        end
  end.

Definition not_delim (c : byte) : bool :=
  negb (bool_decide (c = ","%byte \/ c = "}"%byte \/ c = "]"%byte)).

Definition skipVal (buf : list byte) (i : nat) : nat :=
  let i := skipWs buf i in
  match buf !! i with
  | None => i
  | Some c =>
      if decide (c = x22) then
        let j := scan not_quote buf (S i) in
        if (j <? length buf)%nat then S j else j
      else if decide (c = "{"%byte \/ c = "["%byte) then
        let closer := if decide (c = "{"%byte) then "}"%byte else "]"%byte in
        depth_loop (length buf - S i) c closer buf (S i) 1
      else scan not_delim buf i
  end.

(** ** Object readers *)

(** [skipWs(buf, i); if peek(buf, *i) == ',' { *i++ }] *)
Definition skipComma (buf : list byte) (i : nat) : nat :=
  let i := skipWs buf i in
  if (peek buf i =? bval ",")%Z then S i else i.

(** The loop every object reader repeats: [}] ends the object, otherwise a key, a
    colon, the field's value and an optional comma. *)
Fixpoint obj_loop (field : list byte -> list byte -> nat -> Payload -> res (nat * Payload))
    (fuel : nat) (buf : list byte) (i : nat) (p : Payload) : res (nat * Payload) :=
  match fuel with
  | O => OutOfFuel
  | S f =>
      let i := skipWs buf i in
      if (peek buf i =? bval "}")%Z then Ok (S i, p)
      else
        '(k, i) ← readKey buf i;
        i ← expect buf i ":"%byte;
        let i := skipWs buf i in
        '(i, p) ← field buf k i p;
        obj_loop field f buf (skipComma buf i) p
  end.

Definition read_object (field : list byte -> list byte -> nat -> Payload -> res (nat * Payload))
    (buf : list byte) (i : nat) (p : Payload) : res (nat * Payload) :=
  i ← expect buf i "{"%byte;
  obj_loop field (S (length buf)) buf i p.

Definition tx_field (buf k : list byte) (i : nat) (p : Payload) : res (nat * Payload) :=
  if eq k (bytes "amount") then
    '(v, i) ← readF32 buf i; Ok (i, set_tx v (Installments p) (RequestedAt p) p)
  else if eq k (bytes "installments") then
    '(v, i) ← readU32 buf i; Ok (i, set_tx (Amount p) v (RequestedAt p) p)
  else if eq k (bytes "requested_at") then
    '(v, i) ← readStr buf i; Ok (i, set_tx (Amount p) (Installments p) v p)
  else Ok (skipVal buf i, p).

Definition readTx := read_object tx_field.

(** The loop of [readKnown]: names beyond the 16 slots are read and dropped. *)
Fixpoint known_loop (fuel : nat) (buf : list byte) (i : nat) (p : Payload) : res (nat * Payload) :=
  match fuel with
  | O => OutOfFuel
  | S f =>
      let i := skipWs buf i in
      if (peek buf i =? bval "]")%Z then Ok (S i, p)
      else
        '(s, i) ← readStr buf i;
        p ← (if (KnownN p <? Z.of_nat (length (KnownMerchants p)))%Z then
               ks ← set (KnownMerchants p) (Z.to_nat (KnownN p)) s;
               Ok (set_cust (AvgAmount p) (TxCount24h p) ks (u32 (KnownN p + 1)) p)
             else Ok p);
        known_loop f buf (skipComma buf i) p
  end.

Definition readKnown (buf : list byte) (i : nat) (p : Payload) : res (nat * Payload) :=
  i ← expect buf i "["%byte;
  known_loop (S (length buf)) buf i (set_cust (AvgAmount p) (TxCount24h p) (KnownMerchants p) 0 p).

Definition cust_field (buf k : list byte) (i : nat) (p : Payload) : res (nat * Payload) :=
  if eq k (bytes "avg_amount") then
    '(v, i) ← readF32 buf i; Ok (i, set_cust v (TxCount24h p) (KnownMerchants p) (KnownN p) p)
  else if eq k (bytes "tx_count_24h") then
    '(v, i) ← readU32 buf i; Ok (i, set_cust (AvgAmount p) v (KnownMerchants p) (KnownN p) p)
  else if eq k (bytes "known_merchants") then readKnown buf i p
  else Ok (skipVal buf i, p).

Definition readCust := read_object cust_field.

Definition mer_field (buf k : list byte) (i : nat) (p : Payload) : res (nat * Payload) :=
  if eq k (bytes "id") then
    '(v, i) ← readStr buf i; Ok (i, set_mer v (MCC p) (MerchantAvgAmount p) p)
  else if eq k (bytes "mcc") then
    '(v, i) ← readStr buf i; Ok (i, set_mer (MerchantID p) v (MerchantAvgAmount p) p)
  else if eq k (bytes "avg_amount") then
    '(v, i) ← readF32 buf i; Ok (i, set_mer (MerchantID p) (MCC p) v p)
  else Ok (skipVal buf i, p).

Definition readMer := read_object mer_field.

Definition term_field (buf k : list byte) (i : nat) (p : Payload) : res (nat * Payload) :=
  if eq k (bytes "is_online") then
    '(v, i) ← readBool buf i; Ok (i, set_term v (CardPresent p) (KmFromHome p) p)
  else if eq k (bytes "card_present") then
    '(v, i) ← readBool buf i; Ok (i, set_term (IsOnline p) v (KmFromHome p) p)
  else if eq k (bytes "km_from_home") then
    '(v, i) ← readF32 buf i; Ok (i, set_term (IsOnline p) (CardPresent p) v p)
  else Ok (skipVal buf i, p).

Definition readTerm := read_object term_field.

Definition last_field (buf k : list byte) (i : nat) (p : Payload) : res (nat * Payload) :=
  if eq k (bytes "timestamp") then
    '(v, i) ← readStr buf i; Ok (i, set_last (HasLast p) v (LastKmFromCurrent p) p)
  else if eq k (bytes "km_from_current") then
    '(v, i) ← readF32 buf i; Ok (i, set_last (HasLast p) (LastTimestamp p) v p)
  else Ok (skipVal buf i, p).

Definition readLast (buf : list byte) (i : nat) (p : Payload) : res (nat * Payload) :=
  if looking_at buf i (bytes "null") then
    Ok ((i + 4)%nat, set_last false (LastTimestamp p) (LastKmFromCurrent p) p)
  else
    i ← expect buf i "{"%byte;
    obj_loop last_field (S (length buf)) buf i (set_last true (LastTimestamp p) (LastKmFromCurrent p) p).

Definition top_field (buf k : list byte) (i : nat) (p : Payload) : res (nat * Payload) :=
  if eq k (bytes "transaction") then readTx buf i p
  else if eq k (bytes "customer") then readCust buf i p
  else if eq k (bytes "merchant") then readMer buf i p
  else if eq k (bytes "terminal") then readTerm buf i p
  else if eq k (bytes "last_transaction") then readLast buf i p
  else Ok (skipVal buf i, p).

(** [Parse]: the payload is reset first; bytes after the closing brace are ignored. *)
Definition Parse (buf : list byte) : res Payload :=
  '(_, p) ← read_object top_field buf 0 emptyPayload; Ok p.

(** ** Progress and safety of the readers *)

Definition malformed (e : error) : Prop := e = ErrMalformed.

(** [s] is a slice of [buf]. *)
Definition slice_of (buf s : list byte) : Prop := exists l r, buf = l ++ s ++ r.

Lemma slice_of_nil buf : slice_of buf [].
Proof. by exists [], buf. Qed.

Lemma slice_of_take_drop buf n m : slice_of buf (take n (drop m buf)).
Proof.
  exists (take m buf), (drop n (drop m buf)). by rewrite !take_drop.
Qed.

Lemma skipWs_bounds buf i : i <= length buf -> i <= skipWs buf i <= length buf.
Proof. intros Hi. destruct (scan_ok is_ws buf i). unfold skipWs. lia. Qed.

Lemma wp_expect buf i c (Q : nat -> Prop) :
  i <= length buf -> (forall j, i < j <= length buf -> Q j) -> wp (expect buf i c) Q malformed.
Proof.
  intros Hi HQ. unfold expect. pose proof (skipWs_bounds buf i Hi).
  destruct (buf !! skipWs buf i) as [d|] eqn:E; [|done].
  apply lookup_lt_Some in E. destruct (decide (d = c)); [|done].
  apply HQ. lia.
Qed.

Lemma wp_readStr buf i (Q : list byte * nat -> Prop) :
  i <= length buf -> (forall s j, i < j <= length buf -> slice_of buf s -> Q (s, j)) ->
  wp (readStr buf i) Q malformed.
Proof.
  intros Hi HQ. unfold readStr. pose proof (skipWs_bounds buf i Hi).
  destruct (buf !! skipWs buf i) as [d|] eqn:E; [|done].
  apply lookup_lt_Some in E. destruct (decide (d = x22)); [|done].
  destruct (scan_ok not_quote buf (S (skipWs buf i))) as [H1 H2 _ _].
  destruct (Nat.leb_spec (length buf) (scan not_quote buf (S (skipWs buf i)))); [done|].
  rewrite slice_ok by lia. apply wp_bind, wp_ok, wp_ok.
  apply HQ; [lia|apply slice_of_take_drop].
Qed.

Lemma looking_at_le buf i lit : looking_at buf i lit = true -> i + length lit <= length buf.
Proof. unfold looking_at. by intros [H%Nat.leb_le _]%andb_prop. Qed.

Lemma wp_readBool buf i (Q : bool * nat -> Prop) :
  i <= length buf -> (forall b j, i < j <= length buf -> Q (b, j)) ->
  wp (readBool buf i) Q malformed.
Proof.
  intros Hi HQ. unfold readBool. pose proof (skipWs_bounds buf i Hi).
  destruct (looking_at buf (skipWs buf i) (bytes "true")) eqn:E1.
  { apply looking_at_le in E1. simpl in E1. apply wp_ok, HQ. lia. }
  destruct (looking_at buf (skipWs buf i) (bytes "false")) eqn:E2; [|done].
  apply looking_at_le in E2. simpl in E2. apply wp_ok, HQ. lia.
Qed.

Lemma u32_loop_bounds buf fuel i v saw :
  i <= length buf -> (0 <= v < 4294967296)%Z ->
  let '(v', saw', j) := u32_loop fuel buf i v saw in
  i <= j <= length buf /\ (0 <= v' < 4294967296)%Z /\ (saw' = true -> saw = true \/ i < j).
Proof.
  revert i v saw. induction fuel as [|f IH]; intros i v saw Hi Hv; simpl; [intuition lia|].
  destruct (buf !! i) as [c|] eqn:E; [|intuition lia].
  apply lookup_lt_Some in E. destruct (is_digit c); [|intuition lia].
  specialize (IH (S i) (u32 (v * 10 + digit c)) true ltac:(lia) (u32_range _)).
  destruct u32_loop as [[v' saw'] j]. intuition lia.
Qed.

Lemma wp_readU32 buf i (Q : Z * nat -> Prop) :
  i <= length buf ->
  (forall v j, i < j <= length buf -> (0 <= v < 4294967296)%Z -> Q (v, j)) ->
  wp (readU32 buf i) Q malformed.
Proof.
  intros Hi HQ. unfold readU32. pose proof (skipWs_bounds buf i Hi).
  pose proof (u32_loop_bounds buf (length buf - skipWs buf i) (skipWs buf i) 0 false) as HL.
  destruct u32_loop as [[v saw] j]. destruct HL as (? & ? & Hs); [lia..|].
  destruct saw; [|done]. destruct Hs as [|]; [done..|]. apply HQ; lia.
Qed.

Lemma num_loop_bounds buf fuel i h :
  i <= length buf -> i <= (num_loop fuel buf i h).1 <= length buf.
Proof.
  revert i h. induction fuel as [|f IH]; intros i h Hi; simpl; [lia|].
  destruct (buf !! i) as [c|] eqn:E; [|simpl; lia].
  apply lookup_lt_Some in E.
  repeat case_match; simpl; try lia;
    match goal with |- context [num_loop f buf (S i) ?h'] => pose proof (IH (S i) h'); lia end.
Qed.

Lemma wp_readF32 buf i (Q : float * nat -> Prop) :
  i <= length buf -> (forall v j, i < j <= length buf -> Q (v, j)) ->
  wp (readF32 buf i) Q malformed.
Proof.
  intros Hi HQ. unfold readF32. pose proof (skipWs_bounds buf i Hi) as Hw.
  set (st := skipWs buf i) in *.
  set (i1 := match buf !! st with Some _ => _ | None => _ end).
  assert (st <= i1 <= length buf) as Hi1.
  { unfold i1. destruct (buf !! st) as [c|] eqn:E; [|lia].
    apply lookup_lt_Some in E. case_match; lia. }
  pose proof (num_loop_bounds buf (length buf - i1) i1 false) as HL.
  destruct (num_loop (length buf - i1) buf i1 false) as [j h]. simpl in HL.
  destruct (Nat.eqb_spec j st); [done|].
  rewrite slice_ok by lia. apply wp_bind, wp_ok.
  destruct h; [destruct (ParseFloat32 _); [|done]|]; apply wp_ok, HQ; lia.
Qed.

Lemma depth_loop_bounds fuel c closer buf i d :
  i <= length buf -> i <= depth_loop fuel c closer buf i d <= length buf.
Proof.
  revert i d. induction fuel as [|f IH]; intros i d Hi; simpl; [lia|].
  destruct (d <=? 0)%Z; [lia|].
  destruct (buf !! i) as [x|] eqn:E; [|lia]. apply lookup_lt_Some in E.
  match goal with |- context [depth_loop f c closer buf (S i) ?d'] => pose proof (IH (S i) d') end.
  lia.
Qed.

Lemma skipVal_bounds buf i : i <= length buf -> i <= skipVal buf i <= length buf.
Proof.
  intros Hi. unfold skipVal. pose proof (skipWs_bounds buf i Hi).
  destruct (buf !! skipWs buf i) as [c|] eqn:E; [|lia]. apply lookup_lt_Some in E.
  destruct (decide (c = x22)).
  - destruct (scan_ok not_quote buf (S (skipWs buf i))) as [? ? _ _]. cbv zeta.
    case_match eqn:Hlt; [apply Nat.ltb_lt in Hlt|]; lia.
  - destruct (decide _).
    + match goal with |- context [depth_loop ?f ?a ?b ?c ?d ?e] =>
        pose proof (depth_loop_bounds f a b c d e) end. lia.
    + destruct (scan_ok not_delim buf (skipWs buf i)) as [? ? _ _]. lia.
Qed.

Create HintDb jsonp.

(** A field reader is well behaved for a payload invariant [I]: the cursor does not
    move back or out of the buffer, the invariant is kept, errors are [malformed]. *)
Definition field_ok (I : Payload -> Prop) (buf : list byte)
    (field : list byte -> list byte -> nat -> Payload -> res (nat * Payload)) : Prop :=
  forall k i p, i <= length buf -> I p ->
    wp (field buf k i p) (fun '(j, p') => i <= j <= length buf /\ I p') malformed.

Lemma skipComma_bounds buf i : i <= length buf -> i <= skipComma buf i <= length buf.
Proof.
  intros Hi. pose proof (skipWs_bounds buf i Hi). unfold skipComma.
  destruct (peek buf (skipWs buf i) =? bval ",")%Z eqn:E; [|lia].
  unfold peek in E. destruct (buf !! skipWs buf i) as [c|] eqn:E'; [|by vm_compute in E].
  apply lookup_lt_Some in E'. lia.
Qed.

Lemma peek_lt buf i b : peek buf i = bval b -> i < length buf.
Proof.
  unfold peek. destruct (buf !! i) eqn:E; [by apply lookup_lt_Some in E|].
  pose proof (bval_range b). lia.
Qed.

(** The object loop terminates: each round consumes at least the key's quotes. *)
Lemma wp_obj_loop I buf field fuel i p :
  field_ok I buf field -> i <= length buf -> I p -> length buf - i < fuel ->
  wp (obj_loop field fuel buf i p) (fun '(j, p') => i < j <= length buf /\ I p') malformed.
Proof.
  intros Hfield. revert i p. induction fuel as [|f IH]; intros i p Hi HI Hf; [lia|]. simpl.
  pose proof (skipWs_bounds buf i Hi).
  destruct (peek buf (skipWs buf i) =? bval "}")%Z eqn:E.
  { apply Z.eqb_eq, peek_lt in E. apply wp_ok. split; [lia|done]. }
  apply wp_bind, wp_readStr; [lia|]. intros k j Hj _.
  apply wp_bind, wp_expect; [lia|]. intros j2 Hj2.
  pose proof (skipWs_bounds buf j2). apply wp_bind.
  eapply wp_conseq; [apply Hfield; [lia|done]|]. intros [j3 p3] [Hj3 HI3].
  pose proof (skipComma_bounds buf j3). eapply wp_conseq; [apply IH; [lia|done|lia]|].
  intros [j4 p4] [? ?]. split; [lia|done].
Qed.

Lemma wp_read_object I buf field i p :
  field_ok I buf field -> i <= length buf -> I p ->
  wp (read_object field buf i p) (fun '(j, p') => i < j <= length buf /\ I p') malformed.
Proof.
  intros Hf Hi HI. unfold read_object. apply wp_bind, wp_expect; [done|]. intros j Hj.
  eapply wp_conseq; [apply (wp_obj_loop I); [done|lia|done|lia]|].
  intros [j2 p2] [? ?]. split; [lia|done].
Qed.

(** What every payload under construction satisfies: the integer fields fit their
    width, the sixteen slots are there, and every byte slice points into the buffer. *)
Record payload_wf (buf : list byte) (p : Payload) : Prop := {
  wf_inst : (0 <= Installments p < 4294967296)%Z;
  wf_tx : (0 <= TxCount24h p < 4294967296)%Z;
  wf_slots : length (KnownMerchants p) = 16;
  wf_known : (0 <= KnownN p <= 16)%Z;
  wf_merchants : Forall (slice_of buf) (KnownMerchants p);
  wf_requested : slice_of buf (RequestedAt p);
  wf_id : slice_of buf (MerchantID p);
  wf_mcc : slice_of buf (MCC p);
  wf_timestamp : slice_of buf (LastTimestamp p)
}.

Lemma emptyPayload_wf buf : payload_wf buf emptyPayload.
Proof.
  split; simpl; try lia; repeat constructor; apply slice_of_nil.
Qed.

Ltac wf_solve :=
  match goal with H : payload_wf _ _ |- _ => destruct H end; split; simpl; try done; lia.

(** Dispatch on the key of a field switch and apply the reader's rule. *)
Ltac field_step :=
  lazymatch goal with
  | |- wp (if ?b then _ else _) _ _ => destruct b
  | |- wp (readF32 _ _ ≫= _) _ _ => apply wp_bind, wp_readF32; [lia|intros ? ? ?]
  | |- wp (readU32 _ _ ≫= _) _ _ => apply wp_bind, wp_readU32; [lia|intros ? ? ? ?]
  | |- wp (readStr _ _ ≫= _) _ _ => apply wp_bind, wp_readStr; [lia|intros ? ? ? ?]
  | |- wp (readBool _ _ ≫= _) _ _ => apply wp_bind, wp_readBool; [lia|intros ? ? ?]
  | |- wp (Ok (skipVal ?buf ?i, _)) _ _ =>
      apply wp_ok; pose proof (skipVal_bounds buf i); split; [lia|done]
  | |- wp (Ok _) _ _ => apply wp_ok; split; [lia|wf_solve]
  end.

Lemma tx_field_ok buf : field_ok (payload_wf buf) buf tx_field.
Proof. intros k i p Hi HI. unfold tx_field. repeat field_step. Qed.

Lemma mer_field_ok buf : field_ok (payload_wf buf) buf mer_field.
Proof. intros k i p Hi HI. unfold mer_field. repeat field_step. Qed.

Lemma term_field_ok buf : field_ok (payload_wf buf) buf term_field.
Proof. intros k i p Hi HI. unfold term_field. repeat field_step. Qed.

Lemma last_field_ok buf : field_ok (payload_wf buf) buf last_field.
Proof. intros k i p Hi HI. unfold last_field. repeat field_step. Qed.

Lemma known_loop_ok buf fuel i p :
  i <= length buf -> payload_wf buf p -> length buf - i < fuel ->
  wp (known_loop fuel buf i p) (fun '(j, p') => i <= j <= length buf /\ payload_wf buf p') malformed.
Proof.
  revert i p. induction fuel as [|f IH]; intros i p Hi HI Hf; [lia|]. simpl.
  pose proof (skipWs_bounds buf i Hi).
  destruct (peek buf (skipWs buf i) =? bval "]")%Z eqn:E.
  { apply Z.eqb_eq, peek_lt in E. apply wp_ok. split; [lia|done]. }
  apply wp_bind, wp_readStr; [lia|]. intros s j Hj Hs. apply wp_bind.
  apply wp_conseq with (Q := payload_wf buf).
  - destruct HI as [? ? Hslots ? Hm ? ? ? ?].
    destruct (Z.ltb_spec (KnownN p) (Z.of_nat (length (KnownMerchants p)))); [|by split].
    rewrite set_ok by lia. apply wp_bind, wp_ok, wp_ok. split; simpl; try done.
    + by rewrite length_insert.
    + rewrite u32_id by lia. lia.
    + by apply Forall_insert.
  - intros p' HI'. pose proof (skipComma_bounds buf j).
    eapply wp_conseq; [apply IH; [lia|done|lia]|]. intros [j2 p2] [? ?]. split; [lia|done].
Qed.

Lemma cust_field_ok buf : field_ok (payload_wf buf) buf cust_field.
Proof.
  intros k i p Hi HI. unfold cust_field. do 4 try field_step; repeat field_step.
  unfold readKnown. apply wp_bind, wp_expect; [lia|]. intros j Hj.
  eapply wp_conseq; [apply known_loop_ok; [lia|wf_solve|lia]|].
  intros [j2 p2] [? ?]. split; [lia|done].
Qed.

Lemma read_object_field I buf field i p :
  field_ok I buf field -> i <= length buf -> I p ->
  wp (read_object field buf i p) (fun '(j, p') => i <= j <= length buf /\ I p') malformed.
Proof.
  intros. eapply wp_conseq; [by apply (wp_read_object I)|]. intros [j q] [? ?]. split; [lia|done].
Qed.

#[export] Hint Resolve tx_field_ok cust_field_ok mer_field_ok term_field_ok last_field_ok
  read_object_field : jsonp.

Lemma readLast_ok buf i p :
  i <= length buf -> payload_wf buf p ->
  wp (readLast buf i p) (fun '(j, p') => i <= j <= length buf /\ payload_wf buf p') malformed.
Proof.
  intros Hi HI. unfold readLast. destruct (looking_at buf i (bytes "null")) eqn:E.
  - apply looking_at_le in E. simpl in E. apply wp_ok. split; [lia|wf_solve].
  - apply wp_bind, wp_expect; [done|]. intros j Hj.
    eapply wp_conseq; [apply (wp_obj_loop (payload_wf buf));
      [apply last_field_ok|lia|wf_solve|lia]|].
    intros [j2 p2] [? ?]. split; [lia|done].
Qed.

Lemma top_field_ok buf : field_ok (payload_wf buf) buf top_field.
Proof.
  intros k i p Hi HI. unfold top_field, readTx, readCust, readMer, readTerm.
  repeat (lazymatch goal with |- wp (if ?b then _ else _) _ _ => destruct b end);
    eauto with jsonp; [by apply readLast_ok|]. field_step.
Qed.

Lemma Parse_wf buf : wp (Parse buf) (payload_wf buf) malformed.
Proof.
  unfold Parse. apply wp_bind. eapply wp_conseq.
  - apply (wp_read_object (payload_wf buf)); [apply top_field_ok|lia|apply emptyPayload_wf].
  - by intros [j p] [_ Hp].
Qed.

(** ** Properties *)

(** C10: on every input the parser terminates, indexes only inside the buffer (no
    panic), and either fails with [ErrMalformed] or returns a payload whose integer
    fields fit their widths, whose [KnownN] does not exceed the sixteen slots, and
    whose byte slices all point into the input. *)
Theorem Parse_safe buf : wp (Parse buf) (payload_wf buf) malformed.
Proof. apply Parse_wf. Qed.

End Jsonp.
