(* ===== verification/JsonText.v ===== *)
(** * JSON texts and what the parser reads from them

    A printer for the request documents the service accepts, with arbitrary
    whitespace between tokens and the fields of every object in any order, and the
    theorem that [Jsonp.Parse] reads back exactly what was printed. *)

From S2P Require Import Prelude Floats Jsonp.

Module JsonText.
Import Jsonp.

(** ** Cursor lemmas *)

(** [ws] is a run of whitespace. *)
Definition blank (ws : list byte) : Prop := Forall (fun c => is_ws c = true) ws.

Lemma skipWs_at buf i ws rest :
  blank ws -> drop i buf = ws ++ rest -> stops is_ws rest -> skipWs buf i = i + length ws.
Proof. intros. by apply (scan_at is_ws buf i ws rest). Qed.

Lemma skipWs_none buf i rest : drop i buf = rest -> stops is_ws rest -> skipWs buf i = i.
Proof. intros Hd Hs. rewrite <-(Nat.add_0_r i) at 2. by apply (scan_at is_ws buf i [] rest). Qed.

Lemma expect_at buf i ws c rest :
  blank ws -> drop i buf = ws ++ c :: rest -> is_ws c = false ->
  expect buf i c = Ok (S (i + length ws)).
Proof.
  intros Hws Hd Hc. unfold expect. rewrite (skipWs_at _ _ _ _ Hws Hd Hc).
  apply drop_app_inv in Hd. apply drop_cons_inv in Hd as [-> _].
  by rewrite decide_True.
Qed.

Lemma peek_at buf i c rest : drop i buf = c :: rest -> peek buf i = bval c.
Proof. unfold peek. by intros [-> _]%drop_cons_inv. Qed.

(** ** The printer *)

Definition quoted (s : list byte) : list byte := [x22] ++ s ++ [x22].

Section Printer.
(** The whitespace printed between tokens. *)
Context (w : list byte).

(** One member of an object, with whitespace around the colon and after the value. *)
Definition member (kv : list byte * list byte) : list byte :=
  quoted kv.1 ++ w ++ [":"%byte] ++ w ++ kv.2 ++ w.

Fixpoint members (l : list (list byte * list byte)) : list byte :=
  match l with
  | [] => []
  | kv :: l' =>
      member kv ++ match l' with [] => [] | _ => [","%byte] ++ w ++ members l' end
  end.

Definition object (l : list (list byte * list byte)) : list byte :=
  ["{"%byte] ++ w ++ members l ++ ["}"%byte].

Fixpoint elements (l : list (list byte)) : list byte :=
  match l with
  | [] => []
  | s :: l' => quoted s ++ w ++ match l' with [] => [] | _ => [","%byte] ++ w ++ elements l' end
  end.

Definition array (l : list (list byte)) : list byte := ["["%byte] ++ w ++ elements l ++ ["]"%byte].

End Printer.

(** ** The request documents and their meaning *)

Definition plain (s : list byte) : Prop := Forall (fun c => not_quote c = true) s.

(** A number as the printer writes it: an optional minus sign, then digits and dots. *)
Definition numeral (s : list byte) : Prop :=
  exists neg ds, s = (if neg : bool then ["-"%byte] else []) ++ ds /\ ds <> [] /\
    Forall (fun c => is_digit c || bool_decide (c = "."%byte) = true) ds.

(** The value of a digit string in [uint32] arithmetic. *)
Fixpoint u32_value (s : list byte) (acc : Z) : Z :=
  match s with [] => acc | c :: r => u32_value r (u32 (acc * 10 + digit c)) end.

Definition digits (s : list byte) : Prop := s <> [] /\ Forall (fun c => is_digit c = true) s.

(** One name of the array: stored while a slot is free, dropped afterwards. *)
Definition push_known (p : Payload) (s : list byte) : Payload :=
  if (KnownN p <? Z.of_nat (length (KnownMerchants p)))%Z then
    set_cust (AvgAmount p) (TxCount24h p) (<[Z.to_nat (KnownN p) := s]> (KnownMerchants p))
      (u32 (KnownN p + 1)) p
  else p.

(** The payload before the names of an array are read. *)
Definition reset_known (p : Payload) : Payload :=
  set_cust (AvgAmount p) (TxCount24h p) (KnownMerchants p) 0 p.

(** A kind of object member: its key, its value text for a given whitespace run, the
    effect of reading it on the payload, and which items are well formed. *)
Class Items (A : Type) : Type := {
  key : A -> list byte;
  val : list byte -> A -> list byte;
  sem : A -> Payload -> Payload;
  wf : A -> Prop
}.

Definition kv {A} `{Items A} (w : list byte) (a : A) : list byte * list byte := (key a, val w a).

Definition sems {A} `{Items A} (l : list A) (p : Payload) : Payload :=
  foldl (fun p a => sem a p) p l.

Definition bool_text (b : bool) : list byte := bytes (if b then "true" else "false").

Inductive tx_item :=
| TAmount (n : list byte) | TInstallments (n : list byte) | TRequestedAt (s : list byte).
Inductive cust_item :=
| CAvg (n : list byte) | CTxCount (n : list byte) | CKnown (l : list (list byte)).
Inductive mer_item :=
| MId (s : list byte) | MMcc (s : list byte) | MAvg (n : list byte).
Inductive term_item :=
| TmOnline (b : bool) | TmCard (b : bool) | TmKm (n : list byte).
Inductive last_item :=
| LTimestamp (s : list byte) | LKm (n : list byte).
Inductive top_item :=
| Transaction (l : list tx_item)
| Customer (l : list cust_item)
| Merchant (l : list mer_item)
| Terminal (l : list term_item)
| LastNull
| Last (l : list last_item)
| Unknown (k s : list byte).   (* an unknown key with a string value *)

#[export] Instance tx_items : Items tx_item := {
  key a := match a with
           | TAmount _ => bytes "amount" | TInstallments _ => bytes "installments"
           | TRequestedAt _ => bytes "requested_at" end;
  val w a := match a with TAmount n | TInstallments n => n | TRequestedAt s => quoted s end;
  sem a p := match a with
             | TAmount n => set_tx (plain_f32 n) (Installments p) (RequestedAt p) p
             | TInstallments n => set_tx (Amount p) (u32_value n 0) (RequestedAt p) p
             | TRequestedAt s => set_tx (Amount p) (Installments p) s p end;
  wf a := match a with
          | TAmount n => numeral n | TInstallments n => digits n | TRequestedAt s => plain s end
}.

#[export] Instance cust_items : Items cust_item := {
  key a := match a with
           | CAvg _ => bytes "avg_amount" | CTxCount _ => bytes "tx_count_24h"
           | CKnown _ => bytes "known_merchants" end;
  val w a := match a with CAvg n | CTxCount n => n | CKnown l => array w l end;
  sem a p := match a with
             | CAvg n => set_cust (plain_f32 n) (TxCount24h p) (KnownMerchants p) (KnownN p) p
             | CTxCount n => set_cust (AvgAmount p) (u32_value n 0) (KnownMerchants p) (KnownN p) p
             | CKnown l => foldl push_known (reset_known p) l end;
  wf a := match a with CAvg n => numeral n | CTxCount n => digits n | CKnown l => Forall plain l end
}.

#[export] Instance mer_items : Items mer_item := {
  key a := match a with
           | MId _ => bytes "id" | MMcc _ => bytes "mcc" | MAvg _ => bytes "avg_amount" end;
  val w a := match a with MId s | MMcc s => quoted s | MAvg n => n end;
  sem a p := match a with
             | MId s => set_mer s (MCC p) (MerchantAvgAmount p) p
             | MMcc s => set_mer (MerchantID p) s (MerchantAvgAmount p) p
             | MAvg n => set_mer (MerchantID p) (MCC p) (plain_f32 n) p end;
  wf a := match a with MId s | MMcc s => plain s | MAvg n => numeral n end
}.

#[export] Instance term_items : Items term_item := {
  key a := match a with
           | TmOnline _ => bytes "is_online" | TmCard _ => bytes "card_present"
           | TmKm _ => bytes "km_from_home" end;
  val w a := match a with TmOnline b | TmCard b => bool_text b | TmKm n => n end;
  sem a p := match a with
             | TmOnline b => set_term b (CardPresent p) (KmFromHome p) p
             | TmCard b => set_term (IsOnline p) b (KmFromHome p) p
             | TmKm n => set_term (IsOnline p) (CardPresent p) (plain_f32 n) p end;
  wf a := match a with TmOnline _ | TmCard _ => True | TmKm n => numeral n end
}.

#[export] Instance last_items : Items last_item := {
  key a := match a with
           | LTimestamp _ => bytes "timestamp" | LKm _ => bytes "km_from_current" end;
  val w a := match a with LTimestamp s => quoted s | LKm n => n end;
  sem a p := match a with
             | LTimestamp s => set_last (HasLast p) s (LastKmFromCurrent p) p
             | LKm n => set_last (HasLast p) (LastTimestamp p) (plain_f32 n) p end;
  wf a := match a with LTimestamp s => plain s | LKm n => numeral n end
}.

Definition top_keys : list (list byte) :=
  [bytes "transaction"; bytes "customer"; bytes "merchant"; bytes "terminal"; bytes "last_transaction"].

#[export] Instance top_items : Items top_item := {
  key a := match a with
           | Transaction _ => bytes "transaction" | Customer _ => bytes "customer"
           | Merchant _ => bytes "merchant" | Terminal _ => bytes "terminal"
           | LastNull | Last _ => bytes "last_transaction" | Unknown k _ => k end;
  val w a := match a with
           | Transaction l => object w (map (kv w) l) | Customer l => object w (map (kv w) l)
           | Merchant l => object w (map (kv w) l) | Terminal l => object w (map (kv w) l)
           | LastNull => bytes "null" | Last l => object w (map (kv w) l) | Unknown _ s => quoted s end;
  sem a p := match a with
             | Transaction l => sems l p | Customer l => sems l p
             | Merchant l => sems l p | Terminal l => sems l p
             | LastNull => set_last false (LastTimestamp p) (LastKmFromCurrent p) p
             | Last l => sems l (set_last true (LastTimestamp p) (LastKmFromCurrent p) p)
             | Unknown _ _ => p end;
  wf a := match a with
          | Transaction l => Forall wf l | Customer l => Forall wf l
          | Merchant l => Forall wf l | Terminal l => Forall wf l
          | LastNull => True | Last l => Forall wf l
          | Unknown k s => plain k /\ plain s /\ k ∉ top_keys end
}.

(** A request document: an object of top-level items. *)
Definition print (w : list byte) (d : list top_item) : list byte := object w (map (kv w) d).
Definition doc_wf (d : list top_item) : Prop := Forall wf d.

(** The payload a document denotes. *)
Definition eval (d : list top_item) : Payload := sems d emptyPayload.
Section WithWhitespace.
(** The whitespace printed between tokens. *)
Context (w : list byte).


Lemma readStr_at buf i ws s rest :
  blank ws -> plain s -> drop i buf = ws ++ quoted s ++ rest ->
  readStr buf i = Ok (s, i + length ws + length (quoted s)).
Proof.
  intros Hws Hs Hd. unfold readStr, quoted in *.
  assert (stops is_ws (([x22] ++ s ++ [x22]) ++ rest)) as Hst by done.
  rewrite (skipWs_at _ _ _ _ Hws Hd Hst).
  apply drop_app_inv in Hd. simpl in Hd. pose proof Hd as Hd'.
  apply drop_cons_inv in Hd as [-> Hd]. rewrite decide_True by done.
  rewrite <-app_assoc in Hd. simpl in Hd.
  rewrite (scan_at not_quote buf _ s (x22 :: rest)) by done.
  pose proof (drop_app_inv _ _ _ _ Hd) as Hq. apply drop_cons_inv in Hq as [Hq _].
  apply lookup_lt_Some in Hq.
  destruct (Nat.leb_spec (length buf) (S (i + length ws) + length s)); [lia|].
  rewrite (slice_at _ _ _ _ Hd) by lia. rewrite bind_Ok. do 2 f_equal.
  rewrite !length_app. simpl. lia.
Qed.

(** ** Values *)

(** What may follow a value: whitespace, a comma or a closing bracket. *)
Definition delimiter (c : byte) : bool := is_ws c || negb (not_delim c).
Definition delimited (l : list byte) : Prop :=
  match l with [] => False | c :: _ => delimiter c = true end.

Lemma delimited_stops (p : byte -> bool) l :
  delimited l -> Forall (fun c => p c = false) [" "; x09; x0d; x0a; ","; "}"; "]"]%byte ->
  stops p l.
Proof.
  destruct l as [|c l]; [done|]. simpl. intros Hd Hp.
  assert (c ∈ [" "; x09; x0d; x0a; ","; "}"; "]"]%byte) as Hc.
  { unfold delimiter, is_ws, not_delim in Hd. rewrite negb_involutive in Hd.
    apply orb_prop in Hd as [Hd|Hd]; apply bool_decide_eq_true in Hd;
      rewrite !elem_of_cons; tauto. }
  rewrite List.Forall_forall in Hp. by apply Hp, list_elem_of_In.
Qed.

Definition num_char (c : byte) : bool :=
  is_digit c || bool_decide (c = "."%byte) || bool_decide (c = "e"%byte \/ c = "E"%byte).

Lemma num_loop_at buf i s rest :
  drop i buf = s ++ rest -> Forall (fun c => is_digit c || bool_decide (c = "."%byte) = true) s ->
  stops num_char rest ->
  forall fuel, length buf - i <= fuel -> num_loop fuel buf i false = (i + length s, false).
Proof.
  intros Hd Hs Hr. revert i Hd. induction Hs as [|c s Hc Hs IH]; intros i Hd fuel Hf; simpl in Hd.
  - simpl. rewrite Nat.add_0_r. destruct fuel as [|f]; [done|]. simpl. destruct rest as [|c rest].
    + by rewrite (drop_nil_inv _ _ Hd).
    + apply drop_cons_inv in Hd as [-> _]. simpl in Hr. unfold num_char in Hr.
      apply orb_false_elim in Hr as [-> ->]. by rewrite andb_false_r.
  - apply drop_cons_inv in Hd as [Hc' Hd]. pose proof (lookup_lt_Some _ _ _ Hc').
    destruct fuel as [|f]; [lia|]. simpl. rewrite Hc', Hc, (IH (S i)) by (done || lia).
    f_equal. simpl. lia.
Qed.

Lemma readF32_at buf i s rest :
  numeral s -> drop i buf = s ++ rest -> delimited rest ->
  readF32 buf i = Ok (plain_f32 s, i + length s).
Proof.
  intros (neg & ds & Hs & Hne & Hds) Hd Hr.
  assert (stops num_char rest) as Hst by (by apply delimited_stops; repeat constructor).
  destruct ds as [|d ds]; [done|].
  assert (is_ws d = false /\ bool_decide (d = "-"%byte \/ d = "+"%byte) = false) as [Hdw Hdm].
  { apply Forall_cons_iff in Hds as [Hd' _]. clear -Hd'. revert Hd'. by destruct d. }
  assert (i + length s <= length buf) as Hle by (apply (drop_le _ _ _ rest); [subst; by destruct neg|done]).
  assert (0 < length s) by (subst; destruct neg; simpl; lia).
  unfold readF32.
  rewrite (skipWs_none buf i (s ++ rest)) by (subst; by destruct neg).
  set (i1 := match buf !! i with Some _ => _ | None => _ end).
  assert (i1 = i + length (if neg then ["-"%byte] else [])) as Hi1.
  { unfold i1. subst s. destruct neg; simpl in Hd; apply drop_cons_inv in Hd as [-> _].
    - simpl. lia.
    - rewrite Hdm. simpl. lia. }
  clearbody i1. rewrite (num_loop_at buf i1 (d :: ds) rest); [..|done|done|done].
  2: { rewrite Hi1. apply drop_app_inv. rewrite Hd, Hs. by rewrite <-app_assoc. }
  assert (i1 + length (d :: ds) = i + length s) as -> by (rewrite Hi1, Hs, length_app; lia).
  destruct (Nat.eqb_spec (i + length s) i); [lia|].
  by rewrite (slice_at _ _ _ _ Hd) by lia.
Qed.

Lemma u32_loop_at buf i s rest :
  drop i buf = s ++ rest -> Forall (fun c => is_digit c = true) s -> stops is_digit rest ->
  forall fuel v saw, length buf - i <= fuel ->
    u32_loop fuel buf i v saw =
    (u32_value s v, match s with [] => saw | _ => true end, i + length s).
Proof.
  intros Hd Hs Hr. revert i Hd. induction Hs as [|c s Hc Hs IH]; intros i Hd fuel v saw Hf; simpl in Hd.
  - simpl. rewrite Nat.add_0_r. destruct fuel as [|f]; [done|]. simpl. destruct rest as [|c rest].
    + by rewrite (drop_nil_inv _ _ Hd).
    + apply drop_cons_inv in Hd as [-> _]. simpl in Hr. by rewrite Hr.
  - apply drop_cons_inv in Hd as [Hc' Hd]. pose proof (lookup_lt_Some _ _ _ Hc').
    destruct fuel as [|f]; [lia|]. simpl. rewrite Hc', Hc, (IH (S i)) by (done || lia).
    destruct s; simpl; repeat f_equal; lia.
Qed.

Lemma readU32_at buf i s rest :
  digits s -> drop i buf = s ++ rest -> delimited rest ->
  readU32 buf i = Ok (u32_value s 0, i + length s).
Proof.
  intros [Hne Hs] Hd Hr. unfold readU32. destruct s as [|c s]; [done|].
  rewrite (skipWs_none buf i ((c :: s) ++ rest)); [|done|].
  - rewrite (u32_loop_at _ _ _ _ Hd Hs) by (done || by apply delimited_stops; repeat constructor). done.
  - apply Forall_cons_iff in Hs as [Hc _]. simpl. clear -Hc. revert Hc. by destruct c.
Qed.

Lemma looking_at_true buf i lit rest :
  drop i buf = lit ++ rest -> lit <> [] -> looking_at buf i lit = true.
Proof.
  intros Hd Hne. unfold looking_at. rewrite Hd, take_app_length.
  apply andb_true_intro. split; [|by apply bool_decide_eq_true].
  apply Nat.leb_le. by apply (drop_le _ _ _ rest).
Qed.

Lemma looking_at_false buf i lit s :
  drop i buf = s -> take (length lit) s <> lit -> looking_at buf i lit = false.
Proof.
  intros Hd Hne. unfold looking_at. rewrite Hd, (bool_decide_eq_false_2 _ Hne). apply andb_false_r.
Qed.

Lemma readBool_at buf i b rest :
  drop i buf = bool_text b ++ rest -> readBool buf i = Ok (b, i + length (bool_text b)).
Proof.
  intros Hd. unfold readBool. rewrite (skipWs_none buf i _ Hd) by (by destruct b).
  destruct b; simpl in *.
  - by rewrite (looking_at_true _ _ _ rest).
  - rewrite (looking_at_false _ _ (bytes "true") _ Hd) by done.
    by rewrite (looking_at_true _ _ _ rest).
Qed.

(** ** Objects *)

(** The field switch that reads a kind of items; [reads] is what the switch promises to
    the object loop. *)
Class Fields (A : Type) `{Items A} : Type := {
  reader : list byte -> list byte -> nat -> Payload -> res (nat * Payload);
  key_plain : forall a, wf a -> plain (key a);
  val_start : forall a, wf a -> val w a <> [] /\ stops is_ws (val w a);
  reads : forall a buf i p rest, wf a -> drop i buf = val w a ++ rest -> delimited rest ->
    reader buf (key a) i p = Ok (i + length (val w a), sem a p)
}.

Hypothesis Hw : blank w.

Lemma delimited_ws c rest : is_ws c = true \/ not_delim c = false -> delimited (c :: rest).
Proof. unfold delimited, delimiter. by intros [->| ->]; rewrite ?orb_true_r. Qed.

(** After [w] and then a comma, a brace or a bracket. *)
Lemma delimited_w c rest : not_delim c = false -> delimited (w ++ c :: rest).
Proof.
  intros Hc. destruct w as [|d w'] eqn:E; simpl app.
  - apply delimited_ws. by right.
  - apply delimited_ws. left. by apply Forall_cons_iff in Hw as [? _].
Qed.

Lemma skipComma_none buf i c rest :
  drop i buf = w ++ c :: rest -> is_ws c = false -> c <> ","%byte ->
  skipComma buf i = i + length w.
Proof.
  intros Hd Hc Hne. unfold skipComma. rewrite (skipWs_at _ _ _ _ Hw Hd Hc).
  apply drop_app_inv in Hd. rewrite (peek_at _ _ _ _ Hd).
  destruct (Z.eqb_spec (bval c) (bval ",")) as [He|]; [|done].
  by apply bval_inj in He.
Qed.

Lemma skipComma_some buf i rest :
  drop i buf = w ++ ","%byte :: rest -> skipComma buf i = S (i + length w).
Proof.
  intros Hd. unfold skipComma. rewrite (skipWs_at _ _ _ _ Hw Hd) by done.
  apply drop_app_inv in Hd. by rewrite (peek_at _ _ _ _ Hd).
Qed.

(** One member: from the whitespace before the key to just after the value. *)
Lemma member_at {A} `{Fields A} buf i ws a p rest :
  blank ws -> wf a -> drop i buf = ws ++ member w (kv w a) ++ rest -> delimited (w ++ rest) ->
  readKey buf i = Ok (key a, i + length ws + length (quoted (key a))) /\
  expect buf (i + length ws + length (quoted (key a))) ":"%byte =
    Ok (S (i + length ws + length (quoted (key a)) + length w)) /\
  let j := skipWs buf (S (i + length ws + length (quoted (key a)) + length w)) in
  let j' := i + length ws + length (member w (kv w a)) - length w in
  reader buf (key a) j p = Ok (j', sem a p) /\ drop j' buf = w ++ rest.
Proof.
  intros Hws Ha Hd Hr. destruct (val_start a Ha) as [Hv Hvs].
  unfold member, kv in *. cbn [fst snd] in *. rewrite <-!app_assoc in Hd.
  pose proof (drop_app_inv _ _ _ _ Hd) as Hd1. pose proof (drop_app_inv _ _ _ _ Hd1) as Hd2.
  pose proof (drop_app_inv _ _ _ _ Hd2) as Hd3. apply (drop_app_inv _ _ [":"%byte]) in Hd3.
  pose proof (drop_app_inv _ _ _ _ Hd3) as Hd4.
  pose proof (drop_app_inv _ _ _ _ Hd4) as Hd5.
  split; [by apply (readStr_at _ _ _ _ _ Hws (key_plain a Ha) Hd)|].
  split; [by apply (expect_at _ _ w _ _ Hw Hd2)|]. cbv zeta.
  replace (S (i + length ws + length (quoted (key a)) + length w))
    with (i + length ws + length (quoted (key a)) + length w + length [":"%byte]) by (simpl; lia).
  rewrite (skipWs_at _ _ w _ Hw Hd3) by (destruct (val w a); done).
  rewrite (reads a _ _ p _ Ha Hd4 Hr).
  rewrite !length_app in *. split; [repeat f_equal; lia|].
  rewrite <-Hd5. f_equal. lia.
Qed.

Lemma obj_loop_at {A} `{Fields A} buf i ws (l : list A) p rest fuel :
  blank ws -> Forall wf l -> drop i buf = ws ++ members w (map (kv w) l) ++ "}"%byte :: rest ->
  length l < fuel ->
  obj_loop reader fuel buf i p =
  Ok (S (i + length ws + length (members w (map (kv w) l))), sems l p).
Proof.
  intros Hws Hl. revert i ws p fuel Hws. induction Hl as [|a l Ha Hl IH]; intros i ws p fuel Hws Hd Hf;
    (destruct fuel as [|f]; [simpl in Hf; lia|]); cbn [obj_loop].
  - simpl in Hd. rewrite (skipWs_at _ _ _ _ Hws Hd) by done. apply drop_app_inv in Hd.
    rewrite (peek_at _ _ _ _ Hd), Z.eqb_refl. simpl. do 3 f_equal. lia.
  - simpl map in *. cbn [members] in *. rewrite <-app_assoc in Hd.
    set (tl := match map (kv w) l with [] => [] | _ :: _ => _ end) in *.
    assert (delimited (w ++ tl ++ "}"%byte :: rest)) as Hdel.
    { unfold tl. destruct l; simpl; by apply delimited_w. }
    destruct (member_at _ _ _ _ p _ Hws Ha Hd Hdel) as (Hk & He & Hrd & Hdj).
    cbv zeta in Hrd, Hdj.
    assert (drop (skipWs buf i) buf = x22 :: (drop 1 (member w (kv w a)) ++ tl ++ "}"%byte :: rest)) as Hq.
    { rewrite (skipWs_at _ _ _ _ Hws Hd) by done. by rewrite (drop_app_inv _ _ _ _ Hd). }
    rewrite (peek_at _ _ _ _ Hq).
    replace (bval x22 =? bval "}")%Z with false by done.
    assert (readKey buf (skipWs buf i) = readKey buf i) as ->.
    { rewrite (skipWs_at _ _ _ _ Hws Hd) by done. rewrite Hk. unfold readKey.
      pose proof (drop_app_inv _ _ _ _ Hd) as Hd'.
      unfold member in Hd'. rewrite <-!app_assoc in Hd'.
      rewrite (readStr_at _ _ [] _ _ (Forall_nil _) (key_plain a Ha) Hd'). do 2 f_equal. simpl. lia. }
    rewrite Hk, bind_Ok, He, bind_Ok, Hrd, bind_Ok.
    set (j := i + length ws + length (member w (kv w a)) - length w) in *.
    assert (length w <= length (member w (kv w a))) as Hlw by (unfold member; rewrite !length_app; lia).
    unfold tl in *. clear tl. destruct l as [|b l].
    + simpl in Hdj. rewrite (skipComma_none _ _ _ _ Hdj) by done.
      rewrite (IH _ [] _ _ (Forall_nil _)); [..|simpl in *; lia].
      * unfold sems. cbn [foldl map members length]. do 2 f_equal. rewrite app_nil_r. unfold j. lia.
      * by apply drop_app_inv in Hdj.
    + cbn [map] in *. simpl app in Hdj. rewrite (skipComma_some _ _ _ Hdj).
      rewrite <-app_assoc in Hdj.
      rewrite (IH _ w _ _ Hw); [..|simpl in *; lia].
      * unfold sems. cbn [foldl map]. do 2 f_equal. rewrite !length_app. cbn [length]. unfold j. lia.
      * apply drop_app_inv, drop_cons_inv in Hdj as [_ Hdj]. exact Hdj.
Qed.

(** ** The known-merchant array *)

Lemma push_known_nonneg p s : (0 <= KnownN p)%Z -> (0 <= KnownN (push_known p s))%Z.
Proof.
  intros Hp. unfold push_known. destruct (Z.ltb _ _); [|done].
  simpl. pose proof (u32_range (KnownN p + 1)). lia.
Qed.

Lemma known_loop_at buf i ws l p rest fuel :
  (0 <= KnownN p)%Z -> blank ws -> Forall plain l -> drop i buf = ws ++ elements w l ++ "]"%byte :: rest ->
  length l < fuel ->
  known_loop fuel buf i p = Ok (S (i + length ws + length (elements w l)), foldl push_known p l).
Proof.
  intros Hp Hws Hl. revert i ws p fuel Hp Hws.
  induction Hl as [|s l Hs Hl IH]; intros i ws p fuel Hp Hws Hd Hf;
    (destruct fuel as [|f]; [simpl in Hf; lia|]); cbn [known_loop].
  - simpl in Hd. rewrite (skipWs_at _ _ _ _ Hws Hd) by done. apply drop_app_inv in Hd.
    rewrite (peek_at _ _ _ _ Hd), Z.eqb_refl. simpl. do 3 f_equal. lia.
  - cbn [elements] in *. rewrite <-!app_assoc in Hd.
    set (tl := match l with [] => [] | _ :: _ => _ end) in *.
    assert (skipWs buf i = i + length ws) as Hsk by (by apply (skipWs_at _ _ _ _ Hws Hd)).
    pose proof (drop_app_inv _ _ _ _ Hd) as Hd1.
    rewrite Hsk, (peek_at _ _ _ _ Hd1). replace (bval x22 =? bval "]")%Z with false by done.
    rewrite (readStr_at _ _ [] _ _ (Forall_nil _) Hs Hd1), bind_Ok.
    assert ((if (KnownN p <? Z.of_nat (length (KnownMerchants p)))%Z
             then ks ← Prelude.set (KnownMerchants p) (Z.to_nat (KnownN p)) s;
                  Ok (set_cust (AvgAmount p) (TxCount24h p) ks (u32 (KnownN p + 1)) p)
             else Ok p) = Ok (push_known p s)) as ->.
    { unfold push_known. destruct (Z.ltb_spec (KnownN p) (Z.of_nat (length (KnownMerchants p)))); [|done].
      by rewrite set_ok by lia. }
    rewrite bind_Ok. apply drop_app_inv in Hd1.
    replace (i + length ws + length []) with (i + length ws) by (simpl; lia).
    set (j := i + length ws + length (quoted s)) in *.
    pose proof (push_known_nonneg p s Hp) as Hp'.
    unfold tl in *. clear tl. destruct l as [|t l].
    + simpl in Hd1. rewrite (skipComma_none _ _ _ _ Hd1) by done.
      rewrite (IH _ [] _ _ Hp' (Forall_nil _)); [..|simpl in *; lia].
      * cbn [elements length foldl]. do 2 f_equal. rewrite !length_app. cbn [length]. unfold j. lia.
      * by apply drop_app_inv in Hd1.
    + rewrite <-!app_assoc in Hd1. cbn [app] in Hd1. rewrite (skipComma_some _ _ _ Hd1).
      rewrite (IH _ w _ _ Hp' Hw); [..|simpl in *; lia].
      * cbn [foldl]. do 2 f_equal. rewrite !length_app. cbn [length]. unfold j. lia.
      * apply drop_app_inv, drop_cons_inv in Hd1 as [_ Hd1]. exact Hd1.
Qed.

Lemma elements_length l : length l <= length (elements w l).
Proof.
  induction l as [|s l IH]; [done|]. cbn [elements].
  unfold quoted. rewrite !length_app. cbn [length].
  destruct l; [simpl; lia|]. rewrite !length_app. simpl in *. lia.
Qed.

Lemma members_length l : length l <= length (members w l).
Proof.
  induction l as [|s l IH]; [done|]. cbn [members].
  unfold member, quoted. rewrite !length_app. cbn [length].
  destruct l; [simpl; lia|]. rewrite !length_app. simpl in *. lia.
Qed.

Lemma readKnown_at buf i l p rest :
  Forall plain l -> drop i buf = array w l ++ rest ->
  readKnown buf i p = Ok (i + length (array w l), foldl push_known (reset_known p) l).
Proof.
  intros Hl Hd. unfold readKnown, array in *. rewrite <-!app_assoc in Hd. cbn [app] in Hd.
  rewrite (expect_at _ _ [] _ _ (Forall_nil _) Hd) by done. rewrite bind_Ok.
  apply drop_cons_inv in Hd as [Hc Hd]. pose proof (lookup_lt_Some _ _ _ Hc).
  replace (S (i + length [])) with (S i) by (simpl; lia).
  rewrite (known_loop_at _ _ w _ (reset_known p) rest _ ltac:(done) Hw Hl Hd).
  - do 2 f_equal. rewrite !length_app. cbn [length]. lia.
  - apply (f_equal length) in Hd. rewrite length_drop, !length_app in Hd.
    pose proof (elements_length l). lia.
Qed.

(** An object of items read by the loop of its kind. *)
Lemma object_at {A} `{Fields A} buf i (l : list A) p rest :
  Forall wf l -> drop i buf = object w (map (kv w) l) ++ rest ->
  read_object reader buf i p = Ok (i + length (object w (map (kv w) l)), sems l p).
Proof.
  intros Hl Hd. unfold read_object, object in *. rewrite <-!app_assoc in Hd. cbn [app] in Hd.
  rewrite (expect_at _ _ [] _ _ (Forall_nil _) Hd) by done. rewrite bind_Ok.
  apply drop_cons_inv in Hd as [Hc Hd]. pose proof (lookup_lt_Some _ _ _ Hc).
  replace (S (i + length [])) with (S i) by (simpl; lia).
  rewrite (obj_loop_at _ _ w _ _ rest _ Hw Hl Hd).
  - do 2 f_equal. rewrite !length_app. cbn [length]. lia.
  - apply (f_equal length) in Hd. rewrite length_drop, !length_app in Hd.
    pose proof (members_length (map (kv w) l)) as Hm. rewrite length_map in Hm. lia.
Qed.

Lemma object_start l : object w l <> [] /\ stops is_ws (object w l).
Proof. done. Qed.

(** ** The kinds of objects *)

Lemma numeral_start n : numeral n -> n <> [] /\ stops is_ws n.
Proof.
  intros (neg & ds & -> & Hne & Hds). destruct ds as [|d ds]; [done|].
  apply Forall_cons_iff in Hds as [Hd _].
  destruct neg; split; try done. simpl. clear -Hd. revert Hd. by destruct d.
Qed.

Lemma digits_start n : digits n -> n <> [] /\ stops is_ws n.
Proof.
  intros [Hne Hds]. destruct n as [|d ds]; [done|]. apply Forall_cons_iff in Hds as [Hd _].
  split; [done|]. simpl. clear -Hd. revert Hd. by destruct d.
Qed.

Lemma quoted_start s : quoted s <> [] /\ stops is_ws (quoted s).
Proof. done. Qed.

(** The reader of a quoted string at the cursor. *)
Lemma readStr_here buf i s rest :
  plain s -> drop i buf = quoted s ++ rest -> readStr buf i = Ok (s, i + length (quoted s)).
Proof.
  intros Hs Hd. rewrite (readStr_at _ _ [] _ _ (Forall_nil _) Hs Hd). simpl. by rewrite Nat.add_0_r.
Qed.

Lemma skipVal_quoted buf i s rest :
  plain s -> drop i buf = quoted s ++ rest -> skipVal buf i = i + length (quoted s).
Proof.
  intros Hs Hd. unfold skipVal, quoted in *.
  rewrite (skipWs_none _ _ _ Hd) by done. cbn [app] in Hd. rewrite <-app_assoc in Hd. cbn [app] in Hd.
  apply drop_cons_inv in Hd as [-> Hd]. rewrite decide_True by done. cbv zeta.
  rewrite (scan_at not_quote buf _ s (x22 :: rest)) by done.
  pose proof (drop_app_inv _ _ _ _ Hd) as Hq. apply drop_cons_inv in Hq as [Hq _].
  apply lookup_lt_Some in Hq. destruct (Nat.ltb_spec (S i + length s) (length buf)); [|lia].
  rewrite !length_app. simpl. lia.
Qed.

#[local] Arguments quoted : simpl never.
#[local] Arguments array : simpl never.
#[local] Arguments object : simpl never.

Create HintDb fields.
#[local] Hint Resolve quoted_start numeral_start digits_start object_start : fields.

Ltac key_plain_tac := intros a _; destruct a; repeat constructor.
Ltac val_start_tac := intros a Ha; destruct a; simpl in *; eauto with fields.
(** [reads] of a lexical value: unfold the switch, evaluate the key tests, read. *)
Ltac key_tests :=
  repeat match goal with
  | |- context [Jsonp.eq ?a ?b] =>
      let v := eval vm_compute in (Jsonp.eq a b) in change (Jsonp.eq a b) with v
  end; cbv iota.
Ltac reads_tac field :=
  intros a buf i p rest Ha Hd Hr; destruct a; simpl in Ha; simpl val in Hd; unfold field; key_tests;
  first [ erewrite readF32_at by done | erewrite readU32_at by done
        | erewrite readStr_here by done | erewrite readBool_at by done ]; done.

#[local, refine] Instance tx_fields : Fields tx_item := {
  reader := tx_field
}.
Proof.
  - key_plain_tac.
  - val_start_tac.
  - reads_tac tx_field.
Defined.

#[local, refine] Instance mer_fields : Fields mer_item := {
  reader := mer_field
}.
Proof.
  - key_plain_tac.
  - val_start_tac.
  - reads_tac mer_field.
Defined.

Lemma bool_text_start b : bool_text b <> [] /\ stops is_ws (bool_text b).
Proof. by destruct b. Qed.
#[local] Hint Resolve bool_text_start : fields.

#[local, refine] Instance term_fields : Fields term_item := {
  reader := term_field
}.
Proof.
  - key_plain_tac.
  - val_start_tac.
  - reads_tac term_field.
Defined.

#[local, refine] Instance last_fields : Fields last_item := {
  reader := last_field
}.
Proof.
  - key_plain_tac.
  - val_start_tac.
  - reads_tac last_field.
Defined.

#[local, refine] Instance cust_fields : Fields cust_item := {
  reader := cust_field
}.
Proof.
  - key_plain_tac.
  - val_start_tac.
  - intros a buf i p rest Ha Hd Hr; destruct a; simpl in Ha; unfold cust_field; key_tests.
    + by erewrite readF32_at by done.
    + by erewrite readU32_at by done.
    + by rewrite (readKnown_at _ _ _ p _ Ha Hd).
Defined.

#[local, refine] Instance top_fields : Fields top_item := {
  reader := top_field
}.
Proof.
  - intros a Ha; destruct a; try (repeat constructor; fail). by destruct Ha.
  - val_start_tac.
  - intros a buf i p rest Ha Hd Hr; destruct a; unfold top_field.
    1-6: key_tests; unfold readTx, readCust, readMer, readTerm, readLast.
    + exact (object_at _ _ _ p _ Ha Hd).
    + exact (object_at _ _ _ p _ Ha Hd).
    + exact (object_at _ _ _ p _ Ha Hd).
    + exact (object_at _ _ _ p _ Ha Hd).
    + by rewrite (looking_at_true _ _ (bytes "null") _ Hd).
    + rewrite (looking_at_false _ _ (bytes "null") _ Hd) by done.
      exact (object_at buf i l (set_last true (LastTimestamp p) (LastKmFromCurrent p) p) rest Ha Hd).
    + destruct Ha as (Hk & Hs & Hnk). unfold top_keys in Hnk. rewrite !not_elem_of_cons in Hnk.
      destruct Hnk as (? & ? & ? & ? & ? & _). unfold Jsonp.eq.
      rewrite !bool_decide_eq_false_2 by done.
      by rewrite (skipVal_quoted buf i s rest Hs Hd).
Defined.

Lemma Parse_print_gen d rest : doc_wf d -> Parse (print w d ++ rest) = Ok (eval d).
Proof.
  intros Hd. unfold Parse.
  change top_field with (reader (A := top_item)).
  by rewrite (object_at (print w d ++ rest) 0 d emptyPayload rest Hd).
Qed.

End WithWhitespace.

Lemma u32_value_dec s acc : u32_value s (u32 acc) = u32 (dec_value s acc).
Proof.
  revert acc. induction s as [|c s IH]; intros acc; [done|]. simpl.
  rewrite <-IH. f_equal. unfold u32, wrapU.
  rewrite (Z.add_mod (_ * 10)), Z.mul_mod_idemp_l, <-Z.add_mod by done. done.
Qed.

(** ** Properties *)

(** C17: the parser reads back any printed request document: with the members of every
    object in any order (the last one wins), repeated or missing, with any run of
    whitespace between tokens, with unknown string members, and whatever bytes
    follow the closing brace, the result is the payload the document denotes. *)
Theorem Parse_print w d rest :
  blank w -> doc_wf d -> Parse (print w d ++ rest) = Ok (eval d).
Proof. intros Hw Hd. by apply Parse_print_gen. Qed.

Definition sample : list top_item :=
  [ Merchant [MMcc (bytes "5912"); MId (bytes "MERC-001"); MAvg (bytes "298.95")];
    Unknown (bytes "note") (bytes "x{");
    LastNull;
    Customer [CKnown [bytes "MERC-009"; bytes "MERC-001"]; CTxCount (bytes "3")];
    Transaction [TInstallments (bytes "10"); TAmount (bytes "-0.5");
                 TRequestedAt (bytes "2026-03-11T20:23:35Z")];
    Terminal [TmOnline true; TmKm (bytes "13.7")] ].

Lemma numeral_intro n neg ds :
  n = (if neg : bool then ["-"%byte] else []) ++ ds -> ds <> [] ->
  Forall (fun c => is_digit c || bool_decide (c = "."%byte) = true) ds -> numeral n.
Proof. intros -> ? ?. by exists neg, ds. Qed.

Lemma sample_wf : doc_wf sample.
Proof.
  repeat constructor; try (vm_compute; discriminate).
  all: first
    [ by apply (numeral_intro _ true (bytes "0.5")); repeat constructor
    | by apply (numeral_intro _ false (bytes "298.95")); repeat constructor
    | by apply (numeral_intro _ false (bytes "13.7")); repeat constructor
    | apply (bool_decide_unpack (bytes "note" ∉ top_keys)); vm_compute; exact I ].
Qed.

Example Parse_print_witness :
  Parse (print [" "%byte; x0a] sample ++ bytes "garbage") = Ok (eval sample) /\
  MCC (eval sample) = bytes "5912" /\ KnownN (eval sample) = 2%Z.
Proof.
  split; [|split; reflexivity].
  apply Parse_print; [repeat constructor|apply sample_wf].
Defined.

(** [readU32] accepts any run of digits and returns its decimal value modulo 2^32,
    without an error when the value does not fit. *)
Theorem readU32_wraps ds rest :
  digits ds -> delimited rest ->
  readU32 (ds ++ rest) 0 = Ok (dec_value ds 0 mod 4294967296, length ds)%Z.
Proof.
  intros Hds Hr. rewrite (readU32_at (ds ++ rest) 0 ds rest Hds) by done.
  by rewrite <-(u32_id 0), u32_value_dec by done.
Qed.

Example readU32_wraps_witness : readU32 (bytes "4294967297}") 0 = Ok (1%Z, 10).
Proof.
  apply (readU32_wraps (bytes "4294967297") (bytes "}")); [|done].
  split; [done|repeat constructor].
Defined.

End JsonText.
