(* ===== verification/Http.v ===== *)
(** * internal/server: the HTTP request parser

    [ParseRequest], [findContentLength] and [asciiEqlIgnoreCase] of
    [internal/server/http.go], with the functions of package [bytes] they use. *)

From S2P Require Import Prelude.

Module Http.

(** ** Package [bytes] *)

Definition HasPrefix (s p : list byte) : bool := bool_decide (take (length p) s = p).

(** [bytes.Index]: the first position of [sep], [None] for -1. *)
Fixpoint Index (s sep : list byte) : option nat :=
  if HasPrefix s sep then Some 0
  else match s with [] => None | _ :: s' => S <$> Index s' sep end.

(** [bytes.IndexByte]. *)
Fixpoint IndexByte (s : list byte) (c : byte) : option nat :=
  match s with
  | [] => None
  | d :: s' => if decide (d = c) then Some 0 else S <$> IndexByte s' c
  end.

(** ** The code *)

Definition crlf2 : list byte := [x0d; x0a; x0d; x0a].

Definition lower (x : byte) : Z :=
  if (65 <=? bval x)%Z && (bval x <=? 90)%Z then u8 (bval x + 32) else bval x.

Fixpoint eql_loop (a b : list byte) : bool :=
  match a, b with
  | x :: a', y :: b' => (lower x =? lower y)%Z && eql_loop a' b'
  | _, _ => true
  end.

Definition asciiEqlIgnoreCase (a b : list byte) : bool :=
  (length a =? length b) && eql_loop a b.

(** The digits of the header value: an [int] accumulator that wraps. *)
Fixpoint cl_digits (s : list byte) (v : Z) : Z :=
  match s with
  | c :: s' => if is_digit c then cl_digits s' (i64 (v * 10 + digit c)) else v
  | [] => v
  end.

Definition is_blank (c : byte) : bool := bool_decide (c = " "%byte \/ c = x09).

Definition cl_value (line : list byte) : Z :=
  let j := scan is_blank line 15 in cl_digits (drop j line) 0.

Fixpoint findContentLength_loop (fuel : nat) (hdrs : list byte) (i : nat) : res (option Z) :=
  match fuel with
  | O => OutOfFuel
  | S f =>
      if length hdrs <=? i then Ok None
      else
        match IndexByte (drop i hdrs) x0a with
        | None => Ok None
        | Some nl =>
            let nl := nl + i in
            lineEnd ← (if i <? nl then
                         c ← get hdrs (nl - 1);
                         Ok (if decide (c = x0d) then nl - 1 else nl)
                       else Ok nl);
            line ← slice hdrs (Z.of_nat i) (Z.of_nat lineEnd);
            let i := nl + 1 in
            if length line <? 15 then findContentLength_loop f hdrs i
            else if asciiEqlIgnoreCase (take 15 line) (bytes "content-length:")
            then Ok (Some (cl_value line))
            else findContentLength_loop f hdrs i
        end
  end.

Definition findContentLength (hdrs : list byte) : res (option Z) :=
  findContentLength_loop (S (length hdrs)) hdrs 0.

Inductive Method : Type := MethodOther | MethodGetReady | MethodPostScore.

Record Parsed : Type := mkParsed {
  M : Method;
  Body : list byte;
  End_ : Z    (* the field End *)
}.

Definition ParseRequest (buf : list byte) : res Parsed :=
  if length buf <? 16 then Fail ErrIncomplete
  else if HasPrefix buf (bytes "POST /fraud-score") then
    match Index buf crlf2 with
    | None => Fail ErrIncomplete
    | Some hdrEnd =>
        hdrs ← slice buf 0 (Z.of_nat (hdrEnd + 2));
        r ← findContentLength hdrs;
        match r with
        | None => Fail ErrBad
        | Some cl =>
            let bodyStart := Z.of_nat (hdrEnd + 4) in
            let total := i64 (bodyStart + cl) in
            if (Z.of_nat (length buf) <? total)%Z then Fail ErrIncomplete
            else body ← slice buf bodyStart total; Ok (mkParsed MethodPostScore body total)
        end
    end
  else if HasPrefix buf (bytes "GET /ready") then
    match Index buf crlf2 with
    | None => Fail ErrIncomplete
    | Some sep => Ok (mkParsed MethodGetReady [] (Z.of_nat (sep + 4)))
    end
  else
    match Index buf crlf2 with
    | None => Fail ErrIncomplete
    | Some sep => Ok (mkParsed MethodOther [] (Z.of_nat (sep + 4)))
    end.

(** ** Lemmas on the searches *)

Lemma HasPrefix_true s p : HasPrefix s p = true <-> exists r, s = p ++ r.
Proof.
  unfold HasPrefix. rewrite bool_decide_eq_true. split.
  - intros H. exists (drop (length p) s). by rewrite <-H at 1; rewrite take_drop.
  - intros [r ->]. apply take_app_length.
Qed.

Lemma HasPrefix_app s p t : length p <= length s -> HasPrefix (s ++ t) p = HasPrefix s p.
Proof. intros H. unfold HasPrefix. by rewrite take_app_le. Qed.

Lemma Index_some s sep i :
  Index s sep = Some i -> exists r, drop i s = sep ++ r /\ i + length sep <= length s.
Proof.
  revert i. induction s as [|c s IH]; intros i; cbn [Index];
    destruct (HasPrefix _ sep) eqn:E.
  - intros [= <-]. apply HasPrefix_true in E as [r E]. exists r. rewrite E, length_app. simpl. split; [done|lia].
  - done.
  - intros [= <-]. apply HasPrefix_true in E as [r E]. exists r. rewrite E, length_app. simpl. split; [done|lia].
  - intros (j & Hj & ->)%fmap_Some_1. destruct (IH j Hj) as (r & ? & ?). exists r. simpl. split; [done|lia].
Qed.

(** The search finds the first occurrence. *)
Lemma Index_first s sep i j r : Index s sep = Some i -> drop j s = sep ++ r -> i <= j.
Proof.
  revert i j. induction s as [|c s IH]; intros i j; cbn [Index].
  { destruct (HasPrefix _ sep); [intros [= <-]; lia|done]. }
  destruct (HasPrefix _ sep) eqn:E; [intros [= <-]; lia|].
  intros (k & Hk & ->)%fmap_Some_1 Hd. destruct j as [|j].
  - simpl in Hd. assert (HasPrefix (c :: s) sep = true) by (apply HasPrefix_true; eauto). congruence.
  - simpl in Hd. specialize (IH k j Hk Hd). lia.
Qed.

Lemma Index_app s t sep i : Index s sep = Some i -> Index (s ++ t) sep = Some i.
Proof.
  revert i. induction s as [|c s IH]; intros i H; pose proof H as H'; cbn [Index app] in *;
    destruct (HasPrefix _ sep) eqn:E.
  - injection H as <-. destruct sep; [|done]. by destruct t.
  - done.
  - injection H as <-. apply HasPrefix_true in E as [r E].
    replace (HasPrefix (c :: s ++ t) sep) with true; [done|]. symmetry. apply HasPrefix_true.
    exists (r ++ t). rewrite app_assoc, <-E. done.
  - apply fmap_Some_1 in H as (j & Hj & ->).
    destruct (HasPrefix (c :: s ++ t) sep) eqn:E'.
    + apply Index_some in Hj as (r & Hd & Hl).
      change (c :: s ++ t) with ((c :: s) ++ t) in E'.
      rewrite HasPrefix_app in E' by (simpl; lia). congruence.
    + by rewrite (IH _ Hj).
Qed.

Lemma IndexByte_some s c i : IndexByte s c = Some i -> s !! i = Some c /\ i < length s.
Proof.
  revert i. induction s as [|d s IH]; intros i; simpl; [done|]. case_decide.
  - intros [= <-]. subst. split; [done|lia].
  - intros (j & Hj & ->)%fmap_Some_1. destruct (IH j Hj). split; [done|lia].
Qed.

Lemma findContentLength_loop_ok hdrs fuel i :
  i <= length hdrs -> length hdrs - i < fuel ->
  returns (findContentLength_loop fuel hdrs i) (fun _ => True).
Proof.
  revert i. induction fuel as [|f IH]; intros i Hi Hf; [lia|]. cbn [findContentLength_loop].
  destruct (Nat.leb_spec (length hdrs) i); [done|].
  destruct (IndexByte (drop i hdrs) x0a) as [nl|] eqn:E; [|done].
  apply IndexByte_some in E as [_ E]. rewrite length_drop in E. cbv zeta.
  assert (exists le, (if i <? nl + i then c ← get hdrs (nl + i - 1);
            Ok (if decide (c = x0d) then nl + i - 1 else nl + i) else Ok (nl + i)) = Ok le /\
          i <= le <= nl + i) as (le & -> & Hle).
  { destruct (Nat.ltb_spec i (nl + i)); [|exists (nl + i); split; [done|lia]].
    rewrite get_total by lia. rewrite bind_Ok. case_decide; eexists; (split; [done|lia]). }
  rewrite bind_Ok, slice_ok by lia. rewrite bind_Ok.
  repeat case_match; try done; apply IH; lia.
Qed.

Lemma findContentLength_ok hdrs : exists r, findContentLength hdrs = Ok r.
Proof.
  unfold findContentLength.
  pose proof (findContentLength_loop_ok hdrs (S (length hdrs)) 0 ltac:(lia) ltac:(lia)) as H.
  apply returns_inv in H as (r & -> & _). by exists r.
Qed.

(** What a successful parse promises about the request it delimits. *)
Definition parsed_ok (buf : list byte) (r : Parsed) : Prop :=
  (0 < End_ r <= Z.of_nat (length buf))%Z /\
  exists hdrEnd, Index buf crlf2 = Some hdrEnd /\
  match M r with
  | MethodPostScore => exists cl,
      findContentLength (take (hdrEnd + 2) buf) = Ok (Some cl) /\
      End_ r = (Z.of_nat (hdrEnd + 4) + cl)%Z /\ Z.of_nat (length (Body r)) = cl /\
      Body r = take (Z.to_nat cl) (drop (hdrEnd + 4) buf)
  | _ => End_ r = Z.of_nat (hdrEnd + 4) /\ Body r = []
  end.

(** The declared content length, when the buffer is a scoring request that has one. *)
Definition declared_length (buf : list byte) : option Z :=
  hdrEnd ← Index buf crlf2;
  match findContentLength (take (hdrEnd + 2) buf) with Ok r => r | _ => None end.

Lemma Index_crlf2_lt buf i : Index buf crlf2 = Some i -> i + 4 <= length buf.
Proof. intros (r & _ & H)%Index_some. exact H. Qed.

(** The prefix test of a scoring request is not changed by more input, except for the
    sixteen bytes that miss only its last letter, which hold no blank line. *)
Lemma post_prefix_app buf t :
  16 <= length buf -> Index buf crlf2 <> None ->
  HasPrefix (buf ++ t) (bytes "POST /fraud-score") = HasPrefix buf (bytes "POST /fraud-score").
Proof.
  intros Hl HI. destruct (decide (length buf = 16)) as [H16|].
  2: { apply HasPrefix_app. change (length (bytes "POST /fraud-score")) with 17. lia. }
  destruct (HasPrefix (buf ++ t) _) eqn:E.
  - apply HasPrefix_true in E as [r E]. exfalso. apply HI.
    apply (f_equal (take 16)) in E. rewrite take_app_length' in E by done. subst buf. done.
  - destruct (HasPrefix buf _) eqn:E'; [|done].
    apply HasPrefix_true in E' as [r ->]. by rewrite length_app in H16.
Qed.

(** The bounds of a slice expression decide it alone. *)
Lemma slice_app {A} (l t : list A) lo hi :
  (0 <= lo)%Z -> (hi <= Z.of_nat (length l))%Z -> slice (l ++ t) lo hi = slice l lo hi.
Proof.
  intros Hlo Hhi. unfold slice. rewrite length_app.
  destruct (Z.leb_spec lo hi).
  - replace (hi <=? Z.of_nat (length l))%Z with true by lia.
    replace (hi <=? Z.of_nat (length l + length t))%Z with true by lia.
    rewrite drop_app_le, take_app_le by (rewrite ?length_drop; lia). done.
  - by rewrite !andb_false_r.
Qed.

Lemma ParseRequest_app buf t :
  ParseRequest buf <> Fail ErrIncomplete -> ParseRequest (buf ++ t) = ParseRequest buf.
Proof.
  unfold ParseRequest.
  destruct (Nat.ltb_spec (length buf) 16); [done|].
  rewrite length_app. destruct (Nat.ltb_spec (length buf + length t) 16); [lia|].
  destruct (Index buf crlf2) as [he|] eqn:EI; [|by repeat case_match].
  rewrite post_prefix_app by (done || congruence).
  rewrite (HasPrefix_app _ (bytes "GET /ready")) by (change (length (bytes "GET /ready")) with 10; lia).
  rewrite (Index_app _ _ _ _ EI). pose proof (Index_crlf2_lt _ _ EI).
  destruct (HasPrefix buf (bytes "POST /fraud-score")); [|done].
  rewrite slice_app by lia. rewrite slice_ok, !bind_Ok by lia.
  destruct (findContentLength_ok (take (Z.to_nat (Z.of_nat (he + 2) - 0)) (drop (Z.to_nat 0) buf))) as [r Hr].
  rewrite Hr, !bind_Ok. destruct r as [cl|]; [|done]. cbv zeta.
  destruct (Z.ltb_spec (Z.of_nat (length buf)) (i64 (Z.of_nat (he + 4) + cl))); [done|].
  destruct (Z.ltb_spec (Z.of_nat (length buf + length t)) (i64 (Z.of_nat (he + 4) + cl))); [lia|].
  intros _. by rewrite slice_app by lia.
Qed.

(** An accepted request lies inside the buffer and is not empty; the errors are the two
    of the package. *)
Lemma ParseRequest_end buf :
  match ParseRequest buf with
  | Ok r => (0 < End_ r <= Z.of_nat (length buf))%Z
  | Fail e => e = ErrIncomplete \/ e = ErrBad
  | Panic => True
  | OutOfFuel => False
  end.
Proof.
  unfold ParseRequest. destruct (Nat.ltb_spec (length buf) 16); [by left|].
  destruct (HasPrefix buf (bytes "POST /fraud-score")).
  - destruct (Index buf crlf2) as [he|] eqn:EI; [|by left].
    pose proof (Index_crlf2_lt _ _ EI) as Hhe. rewrite slice_ok, bind_Ok by lia.
    destruct (findContentLength_ok (take (Z.to_nat (Z.of_nat (he + 2) - 0)) (drop (Z.to_nat 0) buf))) as [r Hr].
    rewrite Hr, bind_Ok. destruct r as [cl|]; [|by right]. cbv zeta.
    destruct (Z.ltb_spec (Z.of_nat (length buf)) (i64 (Z.of_nat (he + 4) + cl))); [by left|].
    unfold slice. destruct ((0 <=? Z.of_nat (he + 4)) && _ && _)%Z eqn:E; [|done].
    rewrite bind_Ok. simpl. lia.
  - destruct (HasPrefix buf (bytes "GET /ready")); (destruct (Index buf crlf2) as [he|] eqn:EI; [|by left]);
      pose proof (Index_crlf2_lt _ _ EI); simpl; lia.
Qed.

(** ** Properties *)

(** C36: if the declared content length is a natural number below 2^62 the request
    parser never panics: it returns [ErrIncomplete], [ErrBad], or a request that lies
    inside the buffer, whose body is exactly the declared number of bytes after the
    blank line. *)
Theorem ParseRequest_safe buf :
  (Z.of_nat (length buf) < 2 ^ 62)%Z ->
  (forall cl, declared_length buf = Some cl -> (0 <= cl < 2 ^ 62)%Z) ->
  wp (ParseRequest buf) (parsed_ok buf) (fun e => e = ErrIncomplete \/ e = ErrBad).
Proof.
  intros Hlen Hcl. unfold ParseRequest, declared_length in *.
  destruct (Nat.ltb_spec (length buf) 16); [by left|].
  destruct (HasPrefix buf (bytes "POST /fraud-score")).
  - destruct (Index buf crlf2) as [he|] eqn:EI; [|by left].
    pose proof (Index_crlf2_lt _ _ EI) as Hhe. rewrite slice_ok, bind_Ok by lia.
    replace (Z.to_nat (Z.of_nat (he + 2) - 0)) with (he + 2) by lia. change (Z.to_nat 0) with 0. rewrite !drop_0.
    cbn [mbind option_bind] in Hcl.
    destruct (findContentLength_ok (take (he + 2) buf)) as [r Hr]. rewrite Hr in *. rewrite bind_Ok.
    destruct r as [cl|]; [|by right]. specialize (Hcl cl eq_refl).
    rewrite i64_id by lia. cbv zeta.
    destruct (Z.ltb_spec (Z.of_nat (length buf)) (Z.of_nat (he + 4) + cl)); [by left|].
    rewrite slice_ok, bind_Ok by lia.
    replace (Z.of_nat (he + 4) + cl - Z.of_nat (he + 4))%Z with cl by lia. rewrite Nat2Z.id.
    apply wp_ok. split; [simpl; lia|]. exists he. split; [done|]. simpl.
    exists cl. split; [done|]. split; [done|]. split; [|done].
    rewrite length_take, length_drop. lia.
  - destruct (HasPrefix buf (bytes "GET /ready")); (destruct (Index buf crlf2) as [he|] eqn:EI; [|by left]);
      pose proof (Index_crlf2_lt _ _ EI); apply wp_ok; (split; [simpl; lia|]); by exists he.
Qed.

Definition lines (l : list string) : list byte := concat (map (fun s => bytes s ++ [x0d; x0a]) l).

(** The digits of the length header are accumulated in a signed 64-bit integer with
    no overflow check: a request declaring 9223372036854775808 bytes makes the length
    negative and the body slice panics, which ends the process. *)
Theorem ParseRequest_panics :
  exists buf, declared_length buf = Some (-9223372036854775808)%Z /\ ParseRequest buf = Panic.
Proof.
  exists (lines ["POST /fraud-score HTTP/1.1"; "Content-Length: 9223372036854775808"; ""]%string).
  split; vm_compute; reflexivity.
Qed.

(** C19: the parser is stable under more input: once it accepts a request, rejects the
    buffer as bad or panics, it does the same however many bytes follow, so only
    [ErrIncomplete] is ever revised. *)
Theorem ParseRequest_stable buf t :
  ParseRequest buf <> Fail ErrIncomplete -> ParseRequest (buf ++ t) = ParseRequest buf.
Proof. apply ParseRequest_app. Qed.

Example ParseRequest_safe_witness :
  wp (ParseRequest (lines ["POST /fraud-score HTTP/1.1"; "content-length: 2"; ""]%string ++ bytes "{}x"))
    (parsed_ok (lines ["POST /fraud-score HTTP/1.1"; "content-length: 2"; ""]%string ++ bytes "{}x"))
    (fun e => e = ErrIncomplete \/ e = ErrBad).
Proof. apply ParseRequest_safe; [done|]. intros cl [= <-]. done. Defined.

Example ParseRequest_stable_witness :
  ParseRequest (lines ["GET /ready HTTP/1.1"; ""]%string ++ bytes "GET /re") =
  ParseRequest (lines ["GET /ready HTTP/1.1"; ""]%string).
Proof. apply ParseRequest_stable. done. Defined.

(** ** Printing a scoring request *)

Definition no_crlf (l : list byte) : Prop := Forall (fun c => c <> x0d /\ c <> x0a) l.

(** A header line other than the content length. *)
Definition other_header (l : list byte) : Prop :=
  no_crlf l /\ l <> [] /\
  (length l < 15 \/ asciiEqlIgnoreCase (take 15 l) (bytes "content-length:") = false).

Definition header_block (ls : list (list byte)) : list byte :=
  concat (map (fun l => l ++ [x0d; x0a]) ls).

(** The content-length line: its name in any letter case, blanks, and digits. *)
Definition length_line (name blanks ds : list byte) : list byte := name ++ blanks ++ ds.
Definition length_line_ok (name blanks ds : list byte) : Prop :=
  no_crlf name /\ asciiEqlIgnoreCase name (bytes "content-length:") = true /\
  Forall (fun c => is_blank c = true) blanks /\
  ds <> [] /\ Forall (fun c => is_digit c = true) ds.

Definition render_post (before after : list (list byte)) (name blanks ds body : list byte) : list byte :=
  header_block (bytes "POST /fraud-score HTTP/1.1" :: before ++ length_line name blanks ds :: after)
  ++ [x0d; x0a] ++ body.

Lemma Index_no_cr l s : no_crlf l -> Index (l ++ s) crlf2 = Nat.add (length l) <$> Index s crlf2.
Proof.
  induction 1 as [|c l [Hc _] Hl IH].
  { cbn [app length]. by destruct (Index s crlf2). }
  cbn [app Index]. replace (HasPrefix (c :: l ++ s) crlf2) with false.
  - rewrite IH. by destruct (Index s crlf2).
  - unfold HasPrefix. rewrite bool_decide_eq_false_2; [done|]. unfold crlf2. simpl. congruence.
Qed.

Lemma Index_crlf_line c s :
  c <> x0d -> Index (x0d :: x0a :: c :: s) crlf2 = Nat.add 2 <$> Index (c :: s) crlf2.
Proof.
  intros Hc. cbn [Index].
  replace (HasPrefix (x0d :: x0a :: c :: s) crlf2) with false
    by (symmetry; apply bool_decide_eq_false_2; unfold crlf2; simpl; congruence).
  replace (HasPrefix (x0a :: c :: s) crlf2) with false
    by (symmetry; apply bool_decide_eq_false_2; unfold crlf2; simpl; congruence).
  destruct (HasPrefix (c :: s) crlf2); [done|]. by destruct (Index s crlf2).
Qed.

Lemma header_block_cons l ls : header_block (l :: ls) = l ++ x0d :: x0a :: header_block ls.
Proof. unfold header_block. simpl. by rewrite <-app_assoc. Qed.

(** The blank line is found right after the last header line. *)
Lemma Index_header_block l ls rest :
  Forall (fun l => no_crlf l /\ l <> []) (l :: ls) ->
  Index (header_block (l :: ls) ++ x0d :: x0a :: rest) crlf2 =
  Some (length (header_block (l :: ls)) - 2).
Proof.
  revert l. induction ls as [|l' ls IH]; intros l Hls.
  - apply Forall_cons_iff in Hls as [[Hl _] _]. rewrite header_block_cons, <-app_assoc.
    rewrite Index_no_cr by done. cbn [app Index fmap option_fmap option_map header_block map concat].
    replace (HasPrefix (x0d :: x0a :: x0d :: x0a :: rest) crlf2) with true by done.
    simpl. f_equal. rewrite length_app. simpl. lia.
  - pose proof Hls as Hls'. apply Forall_cons_iff in Hls' as [[Hl _] Htl].
    specialize (IH l' Htl). rewrite header_block_cons, <-app_assoc, Index_no_cr by done.
    apply Forall_cons_iff in Htl as [[Hl' Hne] _]. cbn [app].
    destruct (header_block (l' :: ls) ++ x0d :: x0a :: rest) as [|c s] eqn:E.
    { rewrite header_block_cons in E. by destruct l'. }
    rewrite Index_crlf_line.
    + rewrite IH. simpl. f_equal. rewrite length_app. cbn [length].
      rewrite header_block_cons, length_app. cbn [length]. lia.
    + rewrite header_block_cons in E. destruct l' as [|d l']; [done|].
      injection E as <- _. by apply Forall_cons_iff in Hl' as [[? _] _].
Qed.

Lemma IndexByte_line l rest : no_crlf l -> IndexByte (l ++ x0d :: x0a :: rest) x0a = Some (S (length l)).
Proof.
  induction 1 as [|c l [_ Hc] Hl IH]; [done|]. cbn [app IndexByte].
  rewrite decide_False by done. by rewrite IH.
Qed.

(** One line of the header scan. *)
Lemma findContentLength_line f hdrs i l rest :
  drop i hdrs = l ++ x0d :: x0a :: rest -> no_crlf l ->
  findContentLength_loop (S f) hdrs i =
  if length l <? 15 then findContentLength_loop f hdrs (i + length l + 2)
  else if asciiEqlIgnoreCase (take 15 l) (bytes "content-length:") then Ok (Some (cl_value l))
  else findContentLength_loop f hdrs (i + length l + 2).
Proof.
  intros Hd Hl. cbn [findContentLength_loop].
  pose proof (drop_app_inv _ _ _ _ Hd) as Hcr. apply drop_cons_inv in Hcr as [Hcr Hlf].
  apply drop_cons_inv in Hlf as [Hlf _].
  pose proof (lookup_lt_Some _ _ _ Hlf).
  destruct (Nat.leb_spec (length hdrs) i); [lia|].
  rewrite Hd, IndexByte_line by done. cbv zeta.
  replace (i <? S (length l) + i) with true by lia.
  replace (S (length l) + i - 1) with (i + length l) by lia.
  rewrite (get_ok _ _ _ Hcr), !bind_Ok, decide_True by done.
  rewrite (slice_at _ _ _ _ Hd), bind_Ok by lia.
  replace (S (length l) + i + 1) with (i + length l + 2) by lia. done.
Qed.

Lemma findContentLength_skip ls : forall f hdrs i rest,
  Forall other_header ls -> drop i hdrs = header_block ls ++ rest ->
  findContentLength_loop (length ls + f) hdrs i =
  findContentLength_loop f hdrs (i + length (header_block ls)).
Proof.
  induction ls as [|l ls IH]; intros f hdrs i rest Hls Hd; [simpl; by rewrite Nat.add_0_r|].
  apply Forall_cons_iff in Hls as [(Hl & _ & Ho) Hls].
  rewrite header_block_cons, <-app_assoc in Hd. cbn [app] in Hd.
  cbn [length Nat.add]. rewrite (findContentLength_line _ _ _ _ _ Hd Hl).
  assert (drop (i + length l + 2) hdrs = header_block ls ++ rest) as Hd'.
  { apply drop_app_inv in Hd. by apply (drop_app_inv _ _ [x0d; x0a]) in Hd. }
  rewrite (IH _ _ _ _ Hls Hd'), header_block_cons, length_app. cbn [length].
  replace (i + length l + 2 + length (header_block ls))
    with (i + (length l + S (S (length (header_block ls))))) by lia.
  destruct (Nat.ltb_spec (length l) 15); [done|]. by destruct Ho as [|Ho]; [lia|rewrite Ho].
Qed.

Lemma cl_digits_dec s acc :
  Forall (fun c => is_digit c = true) s -> cl_digits s (i64 acc) = i64 (dec_value s acc).
Proof.
  intros Hs. revert acc. induction Hs as [|c s Hc Hs IH]; intros acc; [done|].
  simpl. by rewrite Hc, i64_step, IH.
Qed.

Lemma cl_value_line name blanks ds :
  length_line_ok name blanks ds ->
  cl_value (length_line name blanks ds) = i64 (dec_value ds 0).
Proof.
  intros (_ & Hn & Hb & Hne & Hds). unfold cl_value, length_line.
  assert (length name = 15) as Hlen.
  { unfold asciiEqlIgnoreCase in Hn. apply andb_prop in Hn as [Hn%Nat.eqb_eq _]. exact Hn. }
  assert (drop 15 (name ++ blanks ++ ds) = blanks ++ ds) as Hd.
  { rewrite <-Hlen. apply drop_app_length. }
  rewrite (scan_at _ _ _ blanks ds Hd Hb).
  - cbv zeta. rewrite (drop_app_inv _ _ _ _ Hd).
    rewrite <-(i64_id 0) by done. by rewrite cl_digits_dec.
  - destruct Hds as [|c ds Hc _]; [done|]. simpl. clear -Hc. revert Hc. by destruct c.
Qed.

Lemma length_line_no_crlf name blanks ds :
  length_line_ok name blanks ds -> no_crlf (length_line name blanks ds) /\ length_line name blanks ds <> [].
Proof.
  intros (Hn & Hnm & Hb & Hne & Hds). unfold length_line, no_crlf. split.
  - rewrite !Forall_app. split; [exact Hn|split].
    + eapply Forall_impl; [|exact Hb]. intros c Hc. clear -Hc. revert Hc. by destruct c.
    + eapply Forall_impl; [|exact Hds]. intros c Hc. clear -Hc. revert Hc. by destruct c.
  - destruct name; [|done]. by vm_compute in Hnm.
Qed.

Lemma header_block_length ls : length ls <= length (header_block ls).
Proof.
  induction ls as [|l ls IH]; [done|]. rewrite header_block_cons, length_app. simpl. lia.
Qed.

Lemma header_block_app l1 l2 : header_block (l1 ++ l2) = header_block l1 ++ header_block l2.
Proof. unfold header_block. by rewrite map_app, concat_app. Qed.

(** The first length line of a header block gives the declared length. *)
Lemma findContentLength_block before after name blanks ds :
  Forall other_header before -> length_line_ok name blanks ds ->
  findContentLength (header_block (before ++ length_line name blanks ds :: after)) =
  Ok (Some (i64 (dec_value ds 0))).
Proof.
  intros Hb Hl. pose proof (length_line_no_crlf _ _ _ Hl) as [Hnc _].
  set (hdrs := header_block _).
  assert (hdrs = header_block before ++ length_line name blanks ds ++ x0d :: x0a :: header_block after) as Hh.
  { unfold hdrs. by rewrite header_block_app, header_block_cons. }
  unfold findContentLength.
  assert (length before <= length hdrs) as Hlen.
  { rewrite Hh, length_app. pose proof (header_block_length before). lia. }
  replace (S (length hdrs)) with (length before + S (length hdrs - length before)) by lia.
  rewrite (findContentLength_skip before _ hdrs 0 _ Hb Hh), Nat.add_0_l.
  assert (length name = 15) as Hn.
  { destruct Hl as (_ & Hn & _). by apply andb_prop in Hn as [Hn%Nat.eqb_eq _]. }
  rewrite (findContentLength_line _ hdrs _ (length_line name blanks ds) (header_block after)).
  - replace (length (length_line name blanks ds) <? 15) with false
      by (unfold length_line; rewrite length_app; lia).
    replace (take 15 (length_line name blanks ds)) with name
      by (unfold length_line; by rewrite <-Hn, take_app_length).
    rewrite (cl_value_line _ _ _ Hl). by destruct Hl as (? & -> & ?).
  - rewrite Hh. apply drop_app_length.
  - done.
Qed.

Lemma request_line_other : other_header (bytes "POST /fraud-score HTTP/1.1").
Proof.
  split; [repeat constructor; discriminate|]. split; [done|]. by right.
Qed.

Lemma ParseRequest_post before after name blanks ds body rest :
  Forall other_header before -> Forall other_header after ->
  length_line_ok name blanks ds -> dec_value ds 0 = Z.of_nat (length body) ->
  (Z.of_nat (length (render_post before after name blanks ds body)) < 2 ^ 62)%Z ->
  ParseRequest (render_post before after name blanks ds body ++ rest) =
  Ok (mkParsed MethodPostScore body (Z.of_nat (length (render_post before after name blanks ds body)))).
Proof.
  intros Hb Ha Hl Hdec Hlen.
  set (rl := bytes "POST /fraud-score HTTP/1.1").
  set (ls := before ++ length_line name blanks ds :: after).
  set (hb := header_block (rl :: ls)).
  assert (render_post before after name blanks ds body = hb ++ x0d :: x0a :: body) as Heq by done.
  rewrite Heq in *. clear Heq.
  assert (Forall (fun l => no_crlf l /\ l <> []) (rl :: ls)) as Hls.
  { constructor; [split; [repeat constructor; discriminate|done]|].
    apply Forall_app. split; [by eapply Forall_impl; [|exact Hb]; intros ? (? & ? & _)|].
    constructor; [by apply length_line_no_crlf|].
    by eapply Forall_impl; [|exact Ha]; intros ? (? & ? & _). }
  assert (30 <= length hb + 2) as H30.
  { unfold hb. rewrite header_block_cons, length_app. simpl. lia. }
  rewrite <-app_assoc. cbn [app]. unfold ParseRequest.
  destruct (Nat.ltb_spec (length (hb ++ x0d :: x0a :: body ++ rest)) 16) as [H16|_].
  { rewrite length_app in H16. simpl in H16. lia. }
  assert (HasPrefix (hb ++ x0d :: x0a :: body ++ rest) (bytes "POST /fraud-score") = true) as ->.
  { unfold hb. rewrite header_block_cons. apply HasPrefix_true. by eexists. }
  unfold hb at 1. rewrite (Index_header_block _ _ (body ++ rest) Hls). fold hb.
  rewrite slice_ok, bind_Ok by (rewrite ?length_app; simpl; lia).
  change (Z.to_nat 0) with 0. rewrite drop_0.
  replace (Z.to_nat (Z.of_nat (length hb - 2 + 2) - 0)) with (length hb) by lia.
  rewrite take_app_length.
  assert (findContentLength hb = Ok (Some (i64 (dec_value ds 0)))) as ->.
  { apply (findContentLength_block (rl :: before) after name blanks ds); [|done].
    constructor; [apply request_line_other|done]. }
  rewrite bind_Ok, Hdec. rewrite !length_app in Hlen. cbn [length] in Hlen.
  rewrite (i64_id (Z.of_nat (length body))) by lia. rewrite i64_id by lia.
  cbv zeta. rewrite !length_app. cbn [length]. rewrite length_app.
  replace (Z.of_nat (length hb - 2 + 4) + Z.of_nat (length body))%Z
    with (Z.of_nat (length hb + S (S (length body)))) by lia.
  destruct (Z.ltb_spec (Z.of_nat (length hb + S (S (length body + length rest))))
                       (Z.of_nat (length hb + S (S (length body))))); [lia|].
  replace (length hb - 2 + 4) with (length hb + 2) by lia.
  replace (length hb + S (S (length body))) with (length hb + 2 + length body) by lia.
  assert (drop (length hb + 2) (hb ++ x0d :: x0a :: body ++ rest) = body ++ rest) as Hd.
  { rewrite <-drop_drop, drop_app_length. done. }
  by rewrite (slice_at _ _ _ _ Hd) by (rewrite length_app; simpl; rewrite length_app; lia).
Qed.

(** ** Round trip *)

(** C18: a printed scoring request is parsed back, whatever other headers surround the
    length header, whatever its letter case and the blanks after the colon, and
    whatever bytes follow: the body is the printed body and the end is the first byte
    after it. *)
Theorem ParseRequest_render before after name blanks ds body rest :
  Forall other_header before -> Forall other_header after ->
  length_line_ok name blanks ds -> dec_value ds 0 = Z.of_nat (length body) ->
  (Z.of_nat (length (render_post before after name blanks ds body)) < 2 ^ 62)%Z ->
  ParseRequest (render_post before after name blanks ds body ++ rest) =
  Ok (mkParsed MethodPostScore body (Z.of_nat (length (render_post before after name blanks ds body)))).
Proof. apply ParseRequest_post. Qed.

Example ParseRequest_render_witness :
  ParseRequest (render_post [bytes "Host: api"] [bytes "Accept: */*"] (bytes "cOnTent-Length:")
                  (bytes "  ") (bytes "2") (bytes "{}") ++ bytes "POST") =
  Ok (mkParsed MethodPostScore (bytes "{}") 76).
Proof.
  apply (ParseRequest_render [bytes "Host: api"] [bytes "Accept: */*"] (bytes "cOnTent-Length:")
           (bytes "  ") (bytes "2") (bytes "{}") (bytes "POST")); try done.
  - repeat constructor; discriminate.
  - repeat constructor; discriminate.
  - repeat split; try discriminate; repeat constructor; discriminate.
Defined.

End Http.
