(* ===== verification/TreeData.v ===== *)
(** * internal/tree: the generated tables

    The decision tree, its leaves and the two safety tables of
    [internal/tree/tree.go], row by row as in the source, in chunks of 128 rows. *)

From S2P Require Import Prelude.

Module TreeData.

Local Open Scope Z_scope.

(** [Node]: if [Left] is negative the node is the leaf [-1 - Left]. *)
Record Node : Type := mkNode {
  Feat : Z;    (* uint8 *)
  Thr : Z;     (* int16 *)
  Left : Z;    (* int32 *)
  Right : Z    (* int32 *)
}.

(** [Leaf]: the precomputed prediction of one leaf. *)
Record Leaf : Type := mkLeaf {
  Count : Z;               (* uint8 *)
  PurityMilli : Z;         (* uint16 *)
  PartBitset : list Z      (* [4]uint64 *)
}.

#[export] Instance Node_inhabited : Inhabited Node := populate (mkNode 0 0 0 0).
#[export] Instance Leaf_inhabited : Inhabited Leaf := populate (mkLeaf 0 0 []).

Definition nodes0 : list Node := [
  mkNode 11 5000 1 488;
  mkNode 2 666 2 3;
  mkNode 0 0 (-1) (-1);
  mkNode 5 5413 4 409;
  mkNode 12 3250 5 172;
  mkNode 2 1657 6 25;
  mkNode 8 2750 7 10;
  mkNode 10 5000 8 9;
  mkNode 0 0 (-2) (-2);
  mkNode 0 0 (-3) (-3);
  mkNode 0 630 11 24;
  mkNode 3 3696 12 15;
  mkNode 3 2826 13 14;
  mkNode 0 0 (-4) (-4);
  mkNode 0 0 (-5) (-5);
  mkNode 12 2750 16 21;
  mkNode 2 1068 17 18;
  mkNode 0 0 (-6) (-6);
  mkNode 6 1405 19 20;
  mkNode 0 0 (-7) (-7);
  mkNode 0 0 (-8) (-8);
  mkNode 8 4250 22 23;
  mkNode 0 0 (-9) (-9);
  mkNode 0 0 (-10) (-10);
  mkNode 0 0 (-11) (-11);
  mkNode 2 1699 26 27;
  mkNode 0 0 (-12) (-12);
  mkNode 13 120 28 73;
  mkNode 3 6740 29 58;
  mkNode 0 1450 30 45;
  mkNode 0 1365 31 44;
  mkNode 3 3260 32 35;
  mkNode 1 2916 33 34;
  mkNode 0 0 (-13) (-13);
  mkNode 0 0 (-14) (-14);
  mkNode 3 5000 36 39;
  mkNode 6 2174 37 38;
  mkNode 0 0 (-15) (-15);
  mkNode 0 0 (-16) (-16);
  mkNode 0 1106 40 43;
  mkNode 12 2750 41 42;
  mkNode 0 0 (-17) (-17);
  mkNode 0 0 (-18) (-18);
  mkNode 0 0 (-19) (-19);
  mkNode 0 0 (-20) (-20);
  mkNode 6 2974 46 57;
  mkNode 13 106 47 48;
  mkNode 0 0 (-21) (-21);
  mkNode 7 2809 49 56;
  mkNode 3 3260 50 53;
  mkNode 6 2128 51 52;
  mkNode 0 0 (-22) (-22);
  mkNode 0 0 (-23) (-23);
  mkNode 4 2500 54 55;
  mkNode 0 0 (-24) (-24);
  mkNode 0 0 (-25) (-25);
  mkNode 0 0 (-26) (-26);
  mkNode 0 0 (-27) (-27);
  mkNode 13 54 59 60;
  mkNode 0 0 (-28) (-28);
  mkNode 12 1750 61 62;
  mkNode 0 0 (-29) (-29);
  mkNode 7 1148 63 64;
  mkNode 0 0 (-30) (-30);
  mkNode 0 1414 65 72;
  mkNode 1 5416 66 71;
  mkNode 6 2706 67 70;
  mkNode 12 2750 68 69;
  mkNode 0 0 (-31) (-31);
  mkNode 0 0 (-32) (-32);
  mkNode 0 0 (-33) (-33);
  mkNode 0 0 (-34) (-34);
  mkNode 0 0 (-35) (-35);
  mkNode 7 2208 74 127;
  mkNode 0 615 75 76;
  mkNode 0 0 (-36) (-36);
  mkNode 7 985 77 88;
  mkNode 4 5834 78 87;
  mkNode 13 180 79 82;
  mkNode 2 2710 80 81;
  mkNode 0 0 (-37) (-37);
  mkNode 0 0 (-38) (-38);
  mkNode 0 1175 83 84;
  mkNode 0 0 (-39) (-39);
  mkNode 2 4328 85 86;
  mkNode 0 0 (-40) (-40);
  mkNode 0 0 (-41) (-41);
  mkNode 0 0 (-42) (-42);
  mkNode 5 156 89 98;
  mkNode 2 8739 90 97;
  mkNode 13 152 91 92;
  mkNode 0 0 (-43) (-43);
  mkNode 2 5990 93 96;
  mkNode 7 1069 94 95;
  mkNode 0 0 (-44) (-44);
  mkNode 0 0 (-45) (-45);
  mkNode 0 0 (-46) (-46);
  mkNode 0 0 (-47) (-47);
  mkNode 7 1146 99 104;
  mkNode 5 688 100 103;
  mkNode 0 2592 101 102;
  mkNode 0 0 (-48) (-48);
  mkNode 0 0 (-49) (-49);
  mkNode 0 0 (-50) (-50);
  mkNode 7 2090 105 120;
  mkNode 1 2916 106 109;
  mkNode 4 2500 107 108;
  mkNode 0 0 (-51) (-51);
  mkNode 0 0 (-52) (-52);
  mkNode 10 5000 110 111;
  mkNode 0 0 (-53) (-53);
  mkNode 0 971 112 113;
  mkNode 0 0 (-54) (-54);
  mkNode 0 1920 114 115;
  mkNode 0 0 (-55) (-55);
  mkNode 1 4584 116 119;
  mkNode 5 583 117 118;
  mkNode 0 0 (-56) (-56);
  mkNode 0 0 (-57) (-57);
  mkNode 0 0 (-58) (-58);
  mkNode 12 2250 121 126;
  mkNode 13 252 122 125;
  mkNode 7 2137 123 124;
  mkNode 0 0 (-59) (-59);
  mkNode 0 0 (-60) (-60);
  mkNode 0 0 (-61) (-61);
  mkNode 0 0 (-62) (-62);
  mkNode 3 6740 128 155
].

Definition nodes1 : list Node := [
  mkNode 7 3974 129 154;
  mkNode 13 230 130 135;
  mkNode 6 2814 131 134;
  mkNode 2 2974 132 133;
  mkNode 0 0 (-63) (-63);
  mkNode 0 0 (-64) (-64);
  mkNode 0 0 (-65) (-65);
  mkNode 0 1764 136 145;
  mkNode 1 2916 137 138;
  mkNode 0 0 (-66) (-66);
  mkNode 7 3482 139 142;
  mkNode 13 251 140 141;
  mkNode 0 0 (-67) (-67);
  mkNode 0 0 (-68) (-68);
  mkNode 6 2103 143 144;
  mkNode 0 0 (-69) (-69);
  mkNode 0 0 (-70) (-70);
  mkNode 2 9877 146 151;
  mkNode 0 2031 147 148;
  mkNode 0 0 (-71) (-71);
  mkNode 0 2345 149 150;
  mkNode 0 0 (-72) (-72);
  mkNode 0 0 (-73) (-73);
  mkNode 13 275 152 153;
  mkNode 0 0 (-74) (-74);
  mkNode 0 0 (-75) (-75);
  mkNode 0 0 (-76) (-76);
  mkNode 5 156 156 161;
  mkNode 4 9166 157 160;
  mkNode 9 5000 158 159;
  mkNode 0 0 (-77) (-77);
  mkNode 0 0 (-78) (-78);
  mkNode 0 0 (-79) (-79);
  mkNode 0 2882 162 169;
  mkNode 7 3724 163 168;
  mkNode 7 2727 164 167;
  mkNode 2 3508 165 166;
  mkNode 0 0 (-80) (-80);
  mkNode 0 0 (-81) (-81);
  mkNode 0 0 (-82) (-82);
  mkNode 0 0 (-83) (-83);
  mkNode 8 4750 170 171;
  mkNode 0 0 (-84) (-84);
  mkNode 0 0 (-85) (-85);
  mkNode 7 3918 173 396;
  mkNode 7 841 174 211;
  mkNode 7 377 175 178;
  mkNode 6 632 176 177;
  mkNode 0 0 (-86) (-86);
  mkNode 0 0 (-87) (-87);
  mkNode 6 2561 179 202;
  mkNode 6 2492 180 201;
  mkNode 0 707 181 186;
  mkNode 7 788 182 185;
  mkNode 5 431 183 184;
  mkNode 0 0 (-88) (-88);
  mkNode 0 0 (-89) (-89);
  mkNode 0 0 (-90) (-90);
  mkNode 0 1982 187 192;
  mkNode 5 604 188 189;
  mkNode 0 0 (-91) (-91);
  mkNode 8 3250 190 191;
  mkNode 0 0 (-92) (-92);
  mkNode 0 0 (-93) (-93);
  mkNode 0 2283 193 200;
  mkNode 0 2228 194 199;
  mkNode 10 5000 195 196;
  mkNode 0 0 (-94) (-94);
  mkNode 6 744 197 198;
  mkNode 0 0 (-95) (-95);
  mkNode 0 0 (-96) (-96);
  mkNode 0 0 (-97) (-97);
  mkNode 0 0 (-98) (-98);
  mkNode 0 0 (-99) (-99);
  mkNode 8 3750 203 210;
  mkNode 6 2768 204 209;
  mkNode 8 3250 205 208;
  mkNode 3 5218 206 207;
  mkNode 0 0 (-100) (-100);
  mkNode 0 0 (-101) (-101);
  mkNode 0 0 (-102) (-102);
  mkNode 0 0 (-103) (-103);
  mkNode 0 0 (-104) (-104);
  mkNode 7 889 212 213;
  mkNode 0 0 (-105) (-105);
  mkNode 0 2824 214 387;
  mkNode 13 292 215 380;
  mkNode 13 290 216 379;
  mkNode 13 290 217 378;
  mkNode 13 114 218 219;
  mkNode 0 0 (-106) (-106);
  mkNode 13 124 220 225;
  mkNode 13 118 221 224;
  mkNode 6 1444 222 223;
  mkNode 0 0 (-107) (-107);
  mkNode 0 0 (-108) (-108);
  mkNode 0 0 (-109) (-109);
  mkNode 2 8513 226 339;
  mkNode 7 3448 227 320;
  mkNode 7 3184 228 305;
  mkNode 12 6250 229 262;
  mkNode 7 1196 230 237;
  mkNode 4 2500 231 232;
  mkNode 0 0 (-110) (-110);
  mkNode 8 2750 233 234;
  mkNode 0 0 (-111) (-111);
  mkNode 6 2620 235 236;
  mkNode 0 0 (-112) (-112);
  mkNode 0 0 (-113) (-113);
  mkNode 0 501 238 239;
  mkNode 0 0 (-114) (-114);
  mkNode 2 1873 240 243;
  mkNode 8 3750 241 242;
  mkNode 0 0 (-115) (-115);
  mkNode 0 0 (-116) (-116);
  mkNode 13 288 244 261;
  mkNode 5 264 245 252;
  mkNode 6 1888 246 249;
  mkNode 2 6696 247 248;
  mkNode 0 0 (-117) (-117);
  mkNode 0 0 (-118) (-118);
  mkNode 0 1073 250 251;
  mkNode 0 0 (-119) (-119);
  mkNode 0 0 (-120) (-120);
  mkNode 5 400 253 254;
  mkNode 0 0 (-121) (-121);
  mkNode 6 1846 255 260;
  mkNode 4 2500 256 257
].

Definition nodes2 : list Node := [
  mkNode 0 0 (-122) (-122);
  mkNode 6 858 258 259;
  mkNode 0 0 (-123) (-123);
  mkNode 0 0 (-124) (-124);
  mkNode 0 0 (-125) (-125);
  mkNode 0 0 (-126) (-126);
  mkNode 5 268 263 284;
  mkNode 3 5434 264 275;
  mkNode 2 7034 265 272;
  mkNode 0 1066 266 267;
  mkNode 0 0 (-127) (-127);
  mkNode 7 1664 268 271;
  mkNode 2 5496 269 270;
  mkNode 0 0 (-128) (-128);
  mkNode 0 0 (-129) (-129);
  mkNode 0 0 (-130) (-130);
  mkNode 3 3044 273 274;
  mkNode 0 0 (-131) (-131);
  mkNode 0 0 (-132) (-132);
  mkNode 9 5000 276 283;
  mkNode 6 820 277 282;
  mkNode 7 2660 278 281;
  mkNode 4 5834 279 280;
  mkNode 0 0 (-133) (-133);
  mkNode 0 0 (-134) (-134);
  mkNode 0 0 (-135) (-135);
  mkNode 0 0 (-136) (-136);
  mkNode 0 0 (-137) (-137);
  mkNode 0 1286 285 294;
  mkNode 0 600 286 289;
  mkNode 13 202 287 288;
  mkNode 0 0 (-138) (-138);
  mkNode 0 0 (-139) (-139);
  mkNode 13 179 290 293;
  mkNode 4 7500 291 292;
  mkNode 0 0 (-140) (-140);
  mkNode 0 0 (-141) (-141);
  mkNode 0 0 (-142) (-142);
  mkNode 0 2154 295 302;
  mkNode 6 2542 296 297;
  mkNode 0 0 (-143) (-143);
  mkNode 6 2828 298 299;
  mkNode 0 0 (-144) (-144);
  mkNode 0 1624 300 301;
  mkNode 0 0 (-145) (-145);
  mkNode 0 0 (-146) (-146);
  mkNode 6 1738 303 304;
  mkNode 0 0 (-147) (-147);
  mkNode 0 0 (-148) (-148);
  mkNode 4 5834 306 313;
  mkNode 10 5000 307 310;
  mkNode 6 2138 308 309;
  mkNode 0 0 (-149) (-149);
  mkNode 0 0 (-150) (-150);
  mkNode 2 5222 311 312;
  mkNode 0 0 (-151) (-151);
  mkNode 0 0 (-152) (-152);
  mkNode 2 5588 314 317;
  mkNode 1 4584 315 316;
  mkNode 0 0 (-153) (-153);
  mkNode 0 0 (-154) (-154);
  mkNode 3 7826 318 319;
  mkNode 0 0 (-155) (-155);
  mkNode 0 0 (-156) (-156);
  mkNode 3 3260 321 324;
  mkNode 12 6250 322 323;
  mkNode 0 0 (-157) (-157);
  mkNode 0 0 (-158) (-158);
  mkNode 5 86 325 326;
  mkNode 0 0 (-159) (-159);
  mkNode 1 2916 327 330;
  mkNode 6 1028 328 329;
  mkNode 0 0 (-160) (-160);
  mkNode 0 0 (-161) (-161);
  mkNode 6 543 331 332;
  mkNode 0 0 (-162) (-162);
  mkNode 12 4000 333 336;
  mkNode 10 5000 334 335;
  mkNode 0 0 (-163) (-163);
  mkNode 0 0 (-164) (-164);
  mkNode 7 3861 337 338;
  mkNode 0 0 (-165) (-165);
  mkNode 0 0 (-166) (-166);
  mkNode 8 5250 340 373;
  mkNode 1 5416 341 372;
  mkNode 1 4584 342 361;
  mkNode 0 1954 343 346;
  mkNode 4 9166 344 345;
  mkNode 0 0 (-167) (-167);
  mkNode 0 0 (-168) (-168);
  mkNode 0 2116 347 348;
  mkNode 0 0 (-169) (-169);
  mkNode 7 3536 349 360;
  mkNode 5 586 350 359;
  mkNode 7 3144 351 356;
  mkNode 2 9245 352 355;
  mkNode 8 3000 353 354;
  mkNode 0 0 (-170) (-170);
  mkNode 0 0 (-171) (-171);
  mkNode 0 0 (-172) (-172);
  mkNode 6 1222 357 358;
  mkNode 0 0 (-173) (-173);
  mkNode 0 0 (-174) (-174);
  mkNode 0 0 (-175) (-175);
  mkNode 0 0 (-176) (-176);
  mkNode 0 2389 362 369;
  mkNode 3 5870 363 366;
  mkNode 8 2250 364 365;
  mkNode 0 0 (-177) (-177);
  mkNode 0 0 (-178) (-178);
  mkNode 3 6522 367 368;
  mkNode 0 0 (-179) (-179);
  mkNode 0 0 (-180) (-180);
  mkNode 12 7750 370 371;
  mkNode 0 0 (-181) (-181);
  mkNode 0 0 (-182) (-182);
  mkNode 0 0 (-183) (-183);
  mkNode 6 2704 374 377;
  mkNode 3 4782 375 376;
  mkNode 0 0 (-184) (-184);
  mkNode 0 0 (-185) (-185);
  mkNode 0 0 (-186) (-186);
  mkNode 0 0 (-187) (-187);
  mkNode 0 0 (-188) (-188);
  mkNode 5 268 381 382;
  mkNode 0 0 (-189) (-189);
  mkNode 7 1360 383 384;
  mkNode 0 0 (-190) (-190)
].

Definition nodes3 : list Node := [
  mkNode 1 2916 385 386;
  mkNode 0 0 (-191) (-191);
  mkNode 0 0 (-192) (-192);
  mkNode 6 892 388 395;
  mkNode 13 182 389 394;
  mkNode 12 4750 390 391;
  mkNode 0 0 (-193) (-193);
  mkNode 0 2876 392 393;
  mkNode 0 0 (-194) (-194);
  mkNode 0 0 (-195) (-195);
  mkNode 0 0 (-196) (-196);
  mkNode 0 0 (-197) (-197);
  mkNode 3 8478 397 404;
  mkNode 0 2069 398 403;
  mkNode 0 1958 399 402;
  mkNode 2 4696 400 401;
  mkNode 0 0 (-198) (-198);
  mkNode 0 0 (-199) (-199);
  mkNode 0 0 (-200) (-200);
  mkNode 0 0 (-201) (-201);
  mkNode 3 9348 405 406;
  mkNode 0 0 (-202) (-202);
  mkNode 2 9098 407 408;
  mkNode 0 0 (-203) (-203);
  mkNode 0 0 (-204) (-204);
  mkNode 2 7280 410 427;
  mkNode 12 7750 411 422;
  mkNode 2 6327 412 413;
  mkNode 0 0 (-205) (-205);
  mkNode 1 5416 414 417;
  mkNode 12 6250 415 416;
  mkNode 0 0 (-206) (-206);
  mkNode 0 0 (-207) (-207);
  mkNode 0 2338 418 421;
  mkNode 0 1782 419 420;
  mkNode 0 0 (-208) (-208);
  mkNode 0 0 (-209) (-209);
  mkNode 0 0 (-210) (-210);
  mkNode 2 4894 423 424;
  mkNode 0 0 (-211) (-211);
  mkNode 2 5784 425 426;
  mkNode 0 0 (-212) (-212);
  mkNode 0 0 (-213) (-213);
  mkNode 7 1442 428 463;
  mkNode 8 4250 429 454;
  mkNode 12 2250 430 437;
  mkNode 13 210 431 432;
  mkNode 0 0 (-214) (-214);
  mkNode 13 250 433 436;
  mkNode 1 4584 434 435;
  mkNode 0 0 (-215) (-215);
  mkNode 0 0 (-216) (-216);
  mkNode 0 0 (-217) (-217);
  mkNode 13 198 438 447;
  mkNode 0 1712 439 440;
  mkNode 0 0 (-218) (-218);
  mkNode 8 2750 441 444;
  mkNode 8 2250 442 443;
  mkNode 0 0 (-219) (-219);
  mkNode 0 0 (-220) (-220);
  mkNode 13 169 445 446;
  mkNode 0 0 (-221) (-221);
  mkNode 0 0 (-222) (-222);
  mkNode 0 2806 448 453;
  mkNode 7 686 449 450;
  mkNode 0 0 (-223) (-223);
  mkNode 1 3750 451 452;
  mkNode 0 0 (-224) (-224);
  mkNode 0 0 (-225) (-225);
  mkNode 0 0 (-226) (-226);
  mkNode 0 2484 455 460;
  mkNode 7 1116 456 459;
  mkNode 7 690 457 458;
  mkNode 0 0 (-227) (-227);
  mkNode 0 0 (-228) (-228);
  mkNode 0 0 (-229) (-229);
  mkNode 3 4566 461 462;
  mkNode 0 0 (-230) (-230);
  mkNode 0 0 (-231) (-231);
  mkNode 6 2616 464 487;
  mkNode 3 5000 465 486;
  mkNode 13 132 466 475;
  mkNode 7 3188 467 474;
  mkNode 13 117 468 473;
  mkNode 13 94 469 472;
  mkNode 0 1658 470 471;
  mkNode 0 0 (-232) (-232);
  mkNode 0 0 (-233) (-233);
  mkNode 0 0 (-234) (-234);
  mkNode 0 0 (-235) (-235);
  mkNode 0 0 (-236) (-236);
  mkNode 8 3250 476 481;
  mkNode 6 580 477 478;
  mkNode 0 0 (-237) (-237);
  mkNode 6 879 479 480;
  mkNode 0 0 (-238) (-238);
  mkNode 0 0 (-239) (-239);
  mkNode 7 1554 482 483;
  mkNode 0 0 (-240) (-240);
  mkNode 13 150 484 485;
  mkNode 0 0 (-241) (-241);
  mkNode 0 0 (-242) (-242);
  mkNode 0 0 (-243) (-243);
  mkNode 0 0 (-244) (-244);
  mkNode 3 2826 489 592;
  mkNode 13 100 490 543;
  mkNode 12 6250 491 494;
  mkNode 0 1906 492 493;
  mkNode 0 0 (-245) (-245);
  mkNode 0 0 (-246) (-246);
  mkNode 1 4584 495 500;
  mkNode 7 2465 496 499;
  mkNode 6 (-4806) 497 498;
  mkNode 0 0 (-247) (-247);
  mkNode 0 0 (-248) (-248);
  mkNode 0 0 (-249) (-249);
  mkNode 2 6693 501 502;
  mkNode 0 0 (-250) (-250);
  mkNode 5 299 503 504;
  mkNode 0 0 (-251) (-251);
  mkNode 0 3656 505 542;
  mkNode 6 4758 506 541;
  mkNode 7 5270 507 540;
  mkNode 8 6750 508 539;
  mkNode 1 7916 509 534;
  mkNode 3 1087 510 515;
  mkNode 6 3170 511 514;
  mkNode 1 7084 512 513
].

Definition nodes4 : list Node := [
  mkNode 0 0 (-252) (-252);
  mkNode 0 0 (-253) (-253);
  mkNode 0 0 (-254) (-254);
  mkNode 4 2500 516 521;
  mkNode 13 36 517 518;
  mkNode 0 0 (-255) (-255);
  mkNode 6 4164 519 520;
  mkNode 0 0 (-256) (-256);
  mkNode 0 0 (-257) (-257);
  mkNode 7 2504 522 523;
  mkNode 0 0 (-258) (-258);
  mkNode 13 54 524 529;
  mkNode 13 44 525 528;
  mkNode 7 4636 526 527;
  mkNode 0 0 (-259) (-259);
  mkNode 0 0 (-260) (-260);
  mkNode 0 0 (-261) (-261);
  mkNode 0 3548 530 533;
  mkNode 7 4790 531 532;
  mkNode 0 0 (-262) (-262);
  mkNode 0 0 (-263) (-263);
  mkNode 0 0 (-264) (-264);
  mkNode 1 8750 535 538;
  mkNode 3 1956 536 537;
  mkNode 0 0 (-265) (-265);
  mkNode 0 0 (-266) (-266);
  mkNode 0 0 (-267) (-267);
  mkNode 0 0 (-268) (-268);
  mkNode 0 0 (-269) (-269);
  mkNode 0 0 (-270) (-270);
  mkNode 0 0 (-271) (-271);
  mkNode 6 2418 544 587;
  mkNode 12 4000 545 566;
  mkNode 2 2010 546 547;
  mkNode 0 0 (-272) (-272);
  mkNode 7 3660 548 563;
  mkNode 13 212 549 562;
  mkNode 6 1894 550 561;
  mkNode 13 141 551 556;
  mkNode 1 3750 552 553;
  mkNode 0 0 (-273) (-273);
  mkNode 2 2654 554 555;
  mkNode 0 0 (-274) (-274);
  mkNode 0 0 (-275) (-275);
  mkNode 0 2243 557 558;
  mkNode 0 0 (-276) (-276);
  mkNode 4 4166 559 560;
  mkNode 0 0 (-277) (-277);
  mkNode 0 0 (-278) (-278);
  mkNode 0 0 (-279) (-279);
  mkNode 0 0 (-280) (-280);
  mkNode 13 272 564 565;
  mkNode 0 0 (-281) (-281);
  mkNode 0 0 (-282) (-282);
  mkNode 7 3948 567 586;
  mkNode 6 1779 568 581;
  mkNode 6 857 569 580;
  mkNode 2 9794 570 579;
  mkNode 8 3750 571 576;
  mkNode 2 3949 572 573;
  mkNode 0 0 (-283) (-283);
  mkNode 13 250 574 575;
  mkNode 0 0 (-284) (-284);
  mkNode 0 0 (-285) (-285);
  mkNode 0 2023 577 578;
  mkNode 0 0 (-286) (-286);
  mkNode 0 0 (-287) (-287);
  mkNode 0 0 (-288) (-288);
  mkNode 0 0 (-289) (-289);
  mkNode 7 1050 582 583;
  mkNode 0 0 (-290) (-290);
  mkNode 9 5000 584 585;
  mkNode 0 0 (-291) (-291);
  mkNode 0 0 (-292) (-292);
  mkNode 0 0 (-293) (-293);
  mkNode 0 1472 588 589;
  mkNode 0 0 (-294) (-294);
  mkNode 2 9338 590 591;
  mkNode 0 0 (-295) (-295);
  mkNode 0 0 (-296) (-296);
  mkNode 6 2610 593 948;
  mkNode 6 2240 594 873;
  mkNode 7 537 595 634;
  mkNode 0 2159 596 611;
  mkNode 7 431 597 610;
  mkNode 7 341 598 601;
  mkNode 6 1123 599 600;
  mkNode 0 0 (-297) (-297);
  mkNode 0 0 (-298) (-298);
  mkNode 12 4750 602 607;
  mkNode 13 154 603 606;
  mkNode 13 116 604 605;
  mkNode 0 0 (-299) (-299);
  mkNode 0 0 (-300) (-300);
  mkNode 0 0 (-301) (-301);
  mkNode 5 576 608 609;
  mkNode 0 0 (-302) (-302);
  mkNode 0 0 (-303) (-303);
  mkNode 0 0 (-304) (-304);
  mkNode 2 6303 612 617;
  mkNode 6 1932 613 616;
  mkNode 2 5202 614 615;
  mkNode 0 0 (-305) (-305);
  mkNode 0 0 (-306) (-306);
  mkNode 0 0 (-307) (-307);
  mkNode 2 7268 618 621;
  mkNode 7 339 619 620;
  mkNode 0 0 (-308) (-308);
  mkNode 0 0 (-309) (-309);
  mkNode 13 120 622 625;
  mkNode 6 758 623 624;
  mkNode 0 0 (-310) (-310);
  mkNode 0 0 (-311) (-311);
  mkNode 0 2286 626 627;
  mkNode 0 0 (-312) (-312);
  mkNode 3 4348 628 629;
  mkNode 0 0 (-313) (-313);
  mkNode 12 7750 630 633;
  mkNode 13 269 631 632;
  mkNode 0 0 (-314) (-314);
  mkNode 0 0 (-315) (-315);
  mkNode 0 0 (-316) (-316);
  mkNode 4 834 635 706;
  mkNode 13 209 636 683;
  mkNode 5 701 637 680;
  mkNode 0 2063 638 663;
  mkNode 12 3250 639 644;
  mkNode 6 1939 640 643
].

Definition nodes5 : list Node := [
  mkNode 5 (-4979) 641 642;
  mkNode 0 0 (-317) (-317);
  mkNode 0 0 (-318) (-318);
  mkNode 0 0 (-319) (-319);
  mkNode 0 506 645 646;
  mkNode 0 0 (-320) (-320);
  mkNode 0 566 647 648;
  mkNode 0 0 (-321) (-321);
  mkNode 13 75 649 652;
  mkNode 6 425 650 651;
  mkNode 0 0 (-322) (-322);
  mkNode 0 0 (-323) (-323);
  mkNode 13 114 653 654;
  mkNode 0 0 (-324) (-324);
  mkNode 2 3867 655 658;
  mkNode 0 682 656 657;
  mkNode 0 0 (-325) (-325);
  mkNode 0 0 (-326) (-326);
  mkNode 6 660 659 662;
  mkNode 7 1922 660 661;
  mkNode 0 0 (-327) (-327);
  mkNode 0 0 (-328) (-328);
  mkNode 0 0 (-329) (-329);
  mkNode 3 4130 664 669;
  mkNode 8 2250 665 666;
  mkNode 0 0 (-330) (-330);
  mkNode 0 2565 667 668;
  mkNode 0 0 (-331) (-331);
  mkNode 0 0 (-332) (-332);
  mkNode 13 182 670 679;
  mkNode 10 5000 671 672;
  mkNode 0 0 (-333) (-333);
  mkNode 8 4750 673 678;
  mkNode 8 3250 674 677;
  mkNode 12 1750 675 676;
  mkNode 0 0 (-334) (-334);
  mkNode 0 0 (-335) (-335);
  mkNode 0 0 (-336) (-336);
  mkNode 0 0 (-337) (-337);
  mkNode 0 0 (-338) (-338);
  mkNode 5 768 681 682;
  mkNode 0 0 (-339) (-339);
  mkNode 0 0 (-340) (-340);
  mkNode 0 2520 684 701;
  mkNode 13 250 685 690;
  mkNode 7 1458 686 689;
  mkNode 0 1275 687 688;
  mkNode 0 0 (-341) (-341);
  mkNode 0 0 (-342) (-342);
  mkNode 0 0 (-343) (-343);
  mkNode 2 8332 691 700;
  mkNode 2 5170 692 697;
  mkNode 3 6304 693 696;
  mkNode 8 3750 694 695;
  mkNode 0 0 (-344) (-344);
  mkNode 0 0 (-345) (-345);
  mkNode 0 0 (-346) (-346);
  mkNode 2 7662 698 699;
  mkNode 0 0 (-347) (-347);
  mkNode 0 0 (-348) (-348);
  mkNode 0 0 (-349) (-349);
  mkNode 10 5000 702 703;
  mkNode 0 0 (-350) (-350);
  mkNode 7 1587 704 705;
  mkNode 0 0 (-351) (-351);
  mkNode 0 0 (-352) (-352);
  mkNode 6 1948 707 844;
  mkNode 6 1546 708 825;
  mkNode 6 1460 709 812;
  mkNode 13 72 710 743;
  mkNode 5 306 711 722;
  mkNode 6 1028 712 721;
  mkNode 8 4250 713 720;
  mkNode 12 8250 714 719;
  mkNode 2 3480 715 718;
  mkNode 7 2830 716 717;
  mkNode 0 0 (-353) (-353);
  mkNode 0 0 (-354) (-354);
  mkNode 0 0 (-355) (-355);
  mkNode 0 0 (-356) (-356);
  mkNode 0 0 (-357) (-357);
  mkNode 0 0 (-358) (-358);
  mkNode 3 8913 723 740;
  mkNode 6 545 724 729;
  mkNode 3 6087 725 726;
  mkNode 0 0 (-359) (-359);
  mkNode 13 66 727 728;
  mkNode 0 0 (-360) (-360);
  mkNode 0 0 (-361) (-361);
  mkNode 0 615 730 731;
  mkNode 0 0 (-362) (-362);
  mkNode 13 54 732 733;
  mkNode 0 0 (-363) (-363);
  mkNode 4 7500 734 739;
  mkNode 0 1458 735 738;
  mkNode 1 5416 736 737;
  mkNode 0 0 (-364) (-364);
  mkNode 0 0 (-365) (-365);
  mkNode 0 0 (-366) (-366);
  mkNode 0 0 (-367) (-367);
  mkNode 7 1246 741 742;
  mkNode 0 0 (-368) (-368);
  mkNode 0 0 (-369) (-369);
  mkNode 1 5416 744 765;
  mkNode 8 2250 745 762;
  mkNode 13 178 746 755;
  mkNode 0 952 747 748;
  mkNode 0 0 (-370) (-370);
  mkNode 7 2334 749 752;
  mkNode 12 8250 750 751;
  mkNode 0 0 (-371) (-371);
  mkNode 0 0 (-372) (-372);
  mkNode 5 770 753 754;
  mkNode 0 0 (-373) (-373);
  mkNode 0 0 (-374) (-374);
  mkNode 2 9102 756 757;
  mkNode 0 0 (-375) (-375);
  mkNode 12 2750 758 759;
  mkNode 0 0 (-376) (-376);
  mkNode 0 2450 760 761;
  mkNode 0 0 (-377) (-377);
  mkNode 0 0 (-378) (-378);
  mkNode 0 2946 763 764;
  mkNode 0 0 (-379) (-379);
  mkNode 0 0 (-380) (-380);
  mkNode 6 1394 766 809;
  mkNode 6 328 767 798;
  mkNode 7 2068 768 785
].

Definition nodes6 : list Node := [
  mkNode 7 658 769 770;
  mkNode 0 0 (-381) (-381);
  mkNode 13 250 771 782;
  mkNode 8 2250 772 775;
  mkNode 13 146 773 774;
  mkNode 0 0 (-382) (-382);
  mkNode 0 0 (-383) (-383);
  mkNode 7 1201 776 781;
  mkNode 7 1088 777 780;
  mkNode 6 (-4884) 778 779;
  mkNode 0 0 (-384) (-384);
  mkNode 0 0 (-385) (-385);
  mkNode 0 0 (-386) (-386);
  mkNode 0 0 (-387) (-387);
  mkNode 0 1871 783 784;
  mkNode 0 0 (-388) (-388);
  mkNode 0 0 (-389) (-389);
  mkNode 3 7174 786 787;
  mkNode 0 0 (-390) (-390);
  mkNode 0 1300 788 791;
  mkNode 0 1016 789 790;
  mkNode 0 0 (-391) (-391);
  mkNode 0 0 (-392) (-392);
  mkNode 4 4166 792 797;
  mkNode 13 155 793 794;
  mkNode 0 0 (-393) (-393);
  mkNode 10 5000 795 796;
  mkNode 0 0 (-394) (-394);
  mkNode 0 0 (-395) (-395);
  mkNode 0 0 (-396) (-396);
  mkNode 12 3250 799 806;
  mkNode 13 214 800 805;
  mkNode 13 198 801 804;
  mkNode 5 576 802 803;
  mkNode 0 0 (-397) (-397);
  mkNode 0 0 (-398) (-398);
  mkNode 0 0 (-399) (-399);
  mkNode 0 0 (-400) (-400);
  mkNode 0 2722 807 808;
  mkNode 0 0 (-401) (-401);
  mkNode 0 0 (-402) (-402);
  mkNode 4 2500 810 811;
  mkNode 0 0 (-403) (-403);
  mkNode 0 0 (-404) (-404);
  mkNode 13 272 813 824;
  mkNode 6 1512 814 817;
  mkNode 0 636 815 816;
  mkNode 0 0 (-405) (-405);
  mkNode 0 0 (-406) (-406);
  mkNode 13 206 818 821;
  mkNode 6 1520 819 820;
  mkNode 0 0 (-407) (-407);
  mkNode 0 0 (-408) (-408);
  mkNode 5 702 822 823;
  mkNode 0 0 (-409) (-409);
  mkNode 0 0 (-410) (-410);
  mkNode 0 0 (-411) (-411);
  mkNode 7 640 826 829;
  mkNode 13 144 827 828;
  mkNode 0 0 (-412) (-412);
  mkNode 0 0 (-413) (-413);
  mkNode 7 3812 830 841;
  mkNode 0 908 831 838;
  mkNode 0 671 832 837;
  mkNode 4 4166 833 834;
  mkNode 0 0 (-414) (-414);
  mkNode 13 142 835 836;
  mkNode 0 0 (-415) (-415);
  mkNode 0 0 (-416) (-416);
  mkNode 0 0 (-417) (-417);
  mkNode 7 3740 839 840;
  mkNode 0 0 (-418) (-418);
  mkNode 0 0 (-419) (-419);
  mkNode 2 6584 842 843;
  mkNode 0 0 (-420) (-420);
  mkNode 0 0 (-421) (-421);
  mkNode 12 1750 845 850;
  mkNode 5 430 846 849;
  mkNode 5 104 847 848;
  mkNode 0 0 (-422) (-422);
  mkNode 0 0 (-423) (-423);
  mkNode 0 0 (-424) (-424);
  mkNode 0 512 851 854;
  mkNode 12 3250 852 853;
  mkNode 0 0 (-425) (-425);
  mkNode 0 0 (-426) (-426);
  mkNode 5 94 855 860;
  mkNode 12 6250 856 859;
  mkNode 9 5000 857 858;
  mkNode 0 0 (-427) (-427);
  mkNode 0 0 (-428) (-428);
  mkNode 0 0 (-429) (-429);
  mkNode 0 2972 861 872;
  mkNode 5 142 862 863;
  mkNode 0 0 (-430) (-430);
  mkNode 5 212 864 865;
  mkNode 0 0 (-431) (-431);
  mkNode 13 264 866 867;
  mkNode 0 0 (-432) (-432);
  mkNode 2 5998 868 871;
  mkNode 7 1681 869 870;
  mkNode 0 0 (-433) (-433);
  mkNode 0 0 (-434) (-434);
  mkNode 0 0 (-435) (-435);
  mkNode 0 0 (-436) (-436);
  mkNode 7 3260 874 935;
  mkNode 0 2744 875 930;
  mkNode 5 198 876 887;
  mkNode 6 2300 877 878;
  mkNode 0 0 (-437) (-437);
  mkNode 8 5000 879 884;
  mkNode 8 2750 880 881;
  mkNode 0 0 (-438) (-438);
  mkNode 6 2546 882 883;
  mkNode 0 0 (-439) (-439);
  mkNode 0 0 (-440) (-440);
  mkNode 1 4584 885 886;
  mkNode 0 0 (-441) (-441);
  mkNode 0 0 (-442) (-442);
  mkNode 12 7750 888 927;
  mkNode 12 3250 889 912;
  mkNode 0 2098 890 905;
  mkNode 0 914 891 898;
  mkNode 6 2330 892 895;
  mkNode 2 2252 893 894;
  mkNode 0 0 (-443) (-443);
  mkNode 0 0 (-444) (-444);
  mkNode 5 5396 896 897
].

Definition nodes7 : list Node := [
  mkNode 0 0 (-445) (-445);
  mkNode 0 0 (-446) (-446);
  mkNode 2 9442 899 900;
  mkNode 0 0 (-447) (-447);
  mkNode 3 4348 901 902;
  mkNode 0 0 (-448) (-448);
  mkNode 6 2329 903 904;
  mkNode 0 0 (-449) (-449);
  mkNode 0 0 (-450) (-450);
  mkNode 7 1421 906 909;
  mkNode 13 258 907 908;
  mkNode 0 0 (-451) (-451);
  mkNode 0 0 (-452) (-452);
  mkNode 0 2233 910 911;
  mkNode 0 0 (-453) (-453);
  mkNode 0 0 (-454) (-454);
  mkNode 6 2439 913 920;
  mkNode 6 2422 914 919;
  mkNode 6 2402 915 916;
  mkNode 0 0 (-455) (-455);
  mkNode 8 3000 917 918;
  mkNode 0 0 (-456) (-456);
  mkNode 0 0 (-457) (-457);
  mkNode 0 0 (-458) (-458);
  mkNode 13 221 921 924;
  mkNode 13 80 922 923;
  mkNode 0 0 (-459) (-459);
  mkNode 0 0 (-460) (-460);
  mkNode 5 598 925 926;
  mkNode 0 0 (-461) (-461);
  mkNode 0 0 (-462) (-462);
  mkNode 2 3248 928 929;
  mkNode 0 0 (-463) (-463);
  mkNode 0 0 (-464) (-464);
  mkNode 13 157 931 934;
  mkNode 1 3750 932 933;
  mkNode 0 0 (-465) (-465);
  mkNode 0 0 (-466) (-466);
  mkNode 0 0 (-467) (-467);
  mkNode 9 5000 936 941;
  mkNode 12 3250 937 938;
  mkNode 0 0 (-468) (-468);
  mkNode 6 2328 939 940;
  mkNode 0 0 (-469) (-469);
  mkNode 0 0 (-470) (-470);
  mkNode 7 3442 942 943;
  mkNode 0 0 (-471) (-471);
  mkNode 5 226 944 945;
  mkNode 0 0 (-472) (-472);
  mkNode 5 796 946 947;
  mkNode 0 0 (-473) (-473);
  mkNode 0 0 (-474) (-474);
  mkNode 7 2182 949 1006;
  mkNode 3 9348 950 1003;
  mkNode 3 5000 951 968;
  mkNode 7 475 952 953;
  mkNode 0 0 (-475) (-475);
  mkNode 7 1930 954 965;
  mkNode 3 3696 955 960;
  mkNode 6 2876 956 959;
  mkNode 1 4166 957 958;
  mkNode 0 0 (-476) (-476);
  mkNode 0 0 (-477) (-477);
  mkNode 0 0 (-478) (-478);
  mkNode 13 104 961 964;
  mkNode 7 1460 962 963;
  mkNode 0 0 (-479) (-479);
  mkNode 0 0 (-480) (-480);
  mkNode 0 0 (-481) (-481);
  mkNode 3 3696 966 967;
  mkNode 0 0 (-482) (-482);
  mkNode 0 0 (-483) (-483);
  mkNode 2 2610 969 972;
  mkNode 2 1361 970 971;
  mkNode 0 0 (-484) (-484);
  mkNode 0 0 (-485) (-485);
  mkNode 3 6304 973 982;
  mkNode 13 180 974 977;
  mkNode 3 5434 975 976;
  mkNode 0 0 (-486) (-486);
  mkNode 0 0 (-487) (-487);
  mkNode 12 4750 978 981;
  mkNode 8 4750 979 980;
  mkNode 0 0 (-488) (-488);
  mkNode 0 0 (-489) (-489);
  mkNode 0 0 (-490) (-490);
  mkNode 0 805 983 984;
  mkNode 0 0 (-491) (-491);
  mkNode 6 2707 985 990;
  mkNode 4 2500 986 989;
  mkNode 1 3750 987 988;
  mkNode 0 0 (-492) (-492);
  mkNode 0 0 (-493) (-493);
  mkNode 0 0 (-494) (-494);
  mkNode 8 3750 991 994;
  mkNode 7 1932 992 993;
  mkNode 0 0 (-495) (-495);
  mkNode 0 0 (-496) (-496);
  mkNode 1 3750 995 998;
  mkNode 7 1540 996 997;
  mkNode 0 0 (-497) (-497);
  mkNode 0 0 (-498) (-498);
  mkNode 0 1559 999 1000;
  mkNode 0 0 (-499) (-499);
  mkNode 12 3500 1001 1002;
  mkNode 0 0 (-500) (-500);
  mkNode 0 0 (-501) (-501);
  mkNode 13 216 1004 1005;
  mkNode 0 0 (-502) (-502);
  mkNode 0 0 (-503) (-503);
  mkNode 7 3722 1007 1018;
  mkNode 2 2584 1008 1011;
  mkNode 8 3000 1009 1010;
  mkNode 0 0 (-504) (-504);
  mkNode 0 0 (-505) (-505);
  mkNode 0 2126 1012 1013;
  mkNode 0 0 (-506) (-506);
  mkNode 12 7750 1014 1017;
  mkNode 4 8334 1015 1016;
  mkNode 0 0 (-507) (-507);
  mkNode 0 0 (-508) (-508);
  mkNode 0 0 (-509) (-509);
  mkNode 2 6353 1019 1020;
  mkNode 0 0 (-510) (-510);
  mkNode 4 2500 1021 1022;
  mkNode 0 0 (-511) (-511);
  mkNode 0 0 (-512) (-512)
].

Definition nodes : list Node := nodes0 ++ nodes1 ++ nodes2 ++ nodes3 ++ nodes4 ++ nodes5 ++ nodes6 ++ nodes7.

Definition leaves0 : list Leaf := [
  mkLeaf 0 1000 [576179277460867071; 8791932209151; 0; 0];
  mkLeaf 0 462 [553942754294564352; 3917032720128; 0; 0];
  mkLeaf 1 1000 [369295169528266752; 0; 0; 0];
  mkLeaf 2 750 [288230376218821888; 6597069768192; 0; 0];
  mkLeaf 4 1000 [144115188159742976; 7696581395968; 0; 0];
  mkLeaf 5 600 [117442304; 5497625248768; 0; 0];
  mkLeaf 2 818 [360287970189640960; 7696665281792; 0; 0];
  mkLeaf 3 571 [360287970307081984; 5497558139904; 0; 0];
  mkLeaf 3 1000 [432345564294677504; 7696682059008; 0; 0];
  mkLeaf 2 500 [100664576; 0; 0; 0];
  mkLeaf 4 643 [504403158366160640; 5497658803200; 0; 0];
  mkLeaf 3 875 [432345564345009664; 4398163952640; 0; 0];
  mkLeaf 2 1000 [432345564261123072; 0; 0; 0];
  mkLeaf 3 700 [288230376353039360; 4398113620992; 0; 0];
  mkLeaf 2 737 [432345564294678272; 13194340861440; 0; 0];
  mkLeaf 1 400 [67111936; 0; 0; 0];
  mkLeaf 1 600 [288230376252376576; 6597136876544; 0; 0];
  mkLeaf 4 667 [1024; 4398113620992; 0; 0];
  mkLeaf 2 750 [864691128522247168; 0; 0; 0];
  mkLeaf 3 1000 [864691128522245120; 13194206645248; 0; 0];
  mkLeaf 2 575 [864691128656464896; 13194340862976; 0; 0];
  mkLeaf 2 1000 [288230376353041408; 3072; 0; 0];
  mkLeaf 3 1000 [3072; 0; 0; 0];
  mkLeaf 1 1000 [3072; 0; 0; 0];
  mkLeaf 3 333 [864691128656461824; 201326592; 0; 0];
  mkLeaf 1 1000 [288230376151714816; 13194273751040; 0; 0];
  mkLeaf 3 1000 [864691128522244096; 13194139533312; 0; 0];
  mkLeaf 3 857 [288230376218823680; 67111936; 0; 0];
  mkLeaf 3 414 [864691128656464896; 13194340862976; 0; 0];
  mkLeaf 3 688 [864691128656462848; 13194340862976; 0; 0];
  mkLeaf 1 750 [288230376218823680; 4398113619968; 0; 0];
  mkLeaf 4 500 [67109888; 0; 0; 0];
  mkLeaf 2 1000 [201329664; 83886080; 0; 0];
  mkLeaf 2 1000 [432345564328231936; 4398046512128; 0; 0];
  mkLeaf 2 405 [864691128656464896; 13194340862976; 0; 0];
  mkLeaf 2 800 [360287970307081728; 6597136876544; 0; 0];
  mkLeaf 2 500 [360287970290304512; 0; 0; 0];
  mkLeaf 3 611 [864691128690019328; 1024; 0; 0];
  mkLeaf 3 455 [360287970256751616; 0; 0; 0];
  mkLeaf 4 1000 [288230376151712768; 0; 0; 0];
  mkLeaf 2 472 [864691128656464896; 2048; 0; 0];
  mkLeaf 3 569 [864691128455135232; 15393380896256; 0; 0];
  mkLeaf 4 545 [864691128656464896; 3072; 0; 0];
  mkLeaf 1 667 [67108864; 4398113619968; 0; 0];
  mkLeaf 2 562 [936748722694393344; 13194206645248; 0; 0];
  mkLeaf 4 455 [864691128656464896; 13194340862976; 0; 0];
  mkLeaf 2 680 [864691128656464896; 13194340862976; 0; 0];
  mkLeaf 2 800 [864691128656465408; 13194206645248; 0; 0];
  mkLeaf 3 1000 [576460752504752128; 13194206642176; 0; 0];
  mkLeaf 1 750 [864691128522247168; 0; 0; 0];
  mkLeaf 5 571 [3328; 0; 0; 0];
  mkLeaf 1 429 [864691128656461824; 218106880; 0; 0];
  mkLeaf 3 553 [864691128690019840; 13194374417408; 0; 0];
  mkLeaf 3 667 [288230376252378112; 4398046512128; 0; 0];
  mkLeaf 2 684 [864691128656464896; 13194340860928; 0; 0];
  mkLeaf 1 500 [1024; 201326592; 0; 0];
  mkLeaf 3 1000 [201329664; 13194139533312; 0; 0];
  mkLeaf 2 600 [864691128656464896; 0; 0; 0];
  mkLeaf 4 500 [67111936; 3072; 0; 0];
  mkLeaf 2 1000 [864691128455135232; 4398247840768; 0; 0];
  mkLeaf 3 1000 [864691128455138304; 0; 0; 0];
  mkLeaf 4 875 [864691128656464896; 13194340862976; 0; 0];
  mkLeaf 3 714 [432345564294678272; 6597170431488; 0; 0];
  mkLeaf 3 457 [864691128656464896; 13194340862976; 0; 0];
  mkLeaf 2 571 [201328640; 5497759465472; 0; 0];
  mkLeaf 3 636 [864691128555799552; 4398247839232; 0; 0];
  mkLeaf 1 571 [360287970256750080; 67110400; 0; 0];
  mkLeaf 3 533 [864691128656465664; 13194139536384; 0; 0];
  mkLeaf 4 1000 [288230376151715328; 201327616; 0; 0];
  mkLeaf 1 333 [288230376218821632; 0; 0; 0];
  mkLeaf 2 1000 [864691128656464896; 13194206645248; 0; 0];
  mkLeaf 1 286 [864691128522247168; 13194139536384; 0; 0];
  mkLeaf 2 636 [864691128656464896; 3072; 0; 0];
  mkLeaf 1 500 [864691128656464896; 13194340859904; 0; 0];
  mkLeaf 3 857 [864691128656464896; 13194340862976; 0; 0];
  mkLeaf 2 1000 [288230376218820608; 3072; 0; 0];
  mkLeaf 3 478 [936748722694392832; 201329664; 0; 0];
  mkLeaf 2 688 [864691128673242880; 13194340862976; 0; 0];
  mkLeaf 1 333 [0; 13194340859904; 0; 0];
  mkLeaf 3 1000 [100664832; 67109888; 0; 0];
  mkLeaf 3 480 [864691128656464896; 13194340862976; 0; 0];
  mkLeaf 3 319 [864691128656464896; 13194357640192; 0; 0];
  mkLeaf 3 846 [864691128656464896; 13194139536896; 0; 0];
  mkLeaf 2 1000 [201326592; 8796294348800; 0; 0];
  mkLeaf 4 1000 [0; 8796093025280; 0; 0];
  mkLeaf 1 600 [67111936; 13194340862976; 0; 0];
  mkLeaf 3 571 [864691128656464896; 13194374417408; 0; 0];
  mkLeaf 1 625 [288230376218822144; 4398147174400; 0; 0];
  mkLeaf 3 800 [432345564294678016; 0; 0; 0];
  mkLeaf 0 1000 [67110144; 0; 0; 0];
  mkLeaf 2 517 [1008806316732321536; 15393380895744; 0; 0];
  mkLeaf 4 1000 [201326592; 13194206643200; 0; 0];
  mkLeaf 1 500 [1792; 6597136878592; 0; 0];
  mkLeaf 1 364 [288230376353041408; 13194340862976; 0; 0];
  mkLeaf 3 750 [864691128656464896; 4398113619968; 0; 0];
  mkLeaf 5 1000 [288230376151711744; 4398247840768; 0; 0];
  mkLeaf 1 1000 [201329664; 3072; 0; 0];
  mkLeaf 2 444 [864691128656464896; 13194340862976; 0; 0];
  mkLeaf 2 1000 [864691128690019328; 1024; 0; 0];
  mkLeaf 3 1000 [201326592; 3072; 0; 0];
  mkLeaf 1 1000 [201326592; 13194139534336; 0; 0];
  mkLeaf 4 1000 [1024; 13194206643200; 0; 0];
  mkLeaf 2 667 [201330176; 13194273754112; 0; 0];
  mkLeaf 1 846 [864691128656465152; 13194340862976; 0; 0];
  mkLeaf 3 520 [1008806316732320768; 13194357640192; 0; 0];
  mkLeaf 2 352 [1080863910803803904; 16492892524288; 0; 0];
  mkLeaf 2 571 [360287970390969344; 13194340862976; 0; 0];
  mkLeaf 3 727 [1008806316732321280; 13194340861440; 0; 0];
  mkLeaf 3 565 [1080863910770248704; 13194340863232; 0; 0];
  mkLeaf 1 800 [3072; 0; 0; 0];
  mkLeaf 1 500 [288230376353038336; 100666368; 0; 0];
  mkLeaf 2 846 [864691128522244096; 14293718273024; 0; 0];
  mkLeaf 1 1000 [864691128455135232; 1024; 0; 0];
  mkLeaf 2 778 [100664832; 1792; 0; 0];
  mkLeaf 3 1000 [288230376151713536; 7696581394432; 0; 0];
  mkLeaf 1 600 [360287970189639680; 5497625248768; 0; 0];
  mkLeaf 2 468 [864691128656464896; 13194340863488; 0; 0];
  mkLeaf 1 500 [576460752504753152; 13194340862976; 0; 0];
  mkLeaf 3 500 [864691128522245120; 4398046512128; 0; 0];
  mkLeaf 1 750 [864691128656462848; 13194273754112; 0; 0];
  mkLeaf 3 522 [864691128656464896; 4398247838720; 0; 0];
  mkLeaf 3 700 [3840; 0; 0; 0];
  mkLeaf 2 727 [288230376353039360; 4398247840768; 0; 0];
  mkLeaf 3 353 [288230376218820608; 6597136878592; 0; 0];
  mkLeaf 2 654 [864691128656464896; 4398247838720; 0; 0];
  mkLeaf 3 1000 [67109888; 201326592; 0; 0];
  mkLeaf 3 538 [288230376218821888; 13194206643200; 0; 0];
  mkLeaf 2 500 [288230376218823680; 1024; 0; 0]
].

Definition leaves1 : list Leaf := [
  mkLeaf 4 750 [864691128522247168; 13194139533312; 0; 0];
  mkLeaf 2 857 [864691128656464896; 13194340862976; 0; 0];
  mkLeaf 0 500 [3072; 67111936; 0; 0];
  mkLeaf 3 1000 [3072; 4398247840768; 0; 0];
  mkLeaf 2 600 [360287970390970112; 1024; 0; 0];
  mkLeaf 4 500 [288230376151711744; 5497625248768; 0; 0];
  mkLeaf 1 1000 [201326592; 13194340863488; 0; 0];
  mkLeaf 3 750 [1008806316598100992; 4398247838720; 0; 0];
  mkLeaf 3 684 [936748722694392832; 13194391195136; 0; 0];
  mkLeaf 2 750 [1536; 4398113619968; 0; 0];
  mkLeaf 3 1000 [288230376151712768; 4398113621504; 0; 0];
  mkLeaf 4 700 [288230376218822144; 1024; 0; 0];
  mkLeaf 3 800 [0; 7696682057728; 0; 0];
  mkLeaf 1 483 [360287970441298944; 4398130398208; 0; 0];
  mkLeaf 2 600 [864691128656464896; 13194340863488; 0; 0];
  mkLeaf 3 1000 [3072; 4398046511104; 0; 0];
  mkLeaf 2 1000 [1024; 4398046512128; 0; 0];
  mkLeaf 1 500 [201329664; 4398046511104; 0; 0];
  mkLeaf 1 750 [288230376151714816; 13194340859904; 0; 0];
  mkLeaf 3 500 [864691128656463872; 13194206645248; 0; 0];
  mkLeaf 2 1000 [864691128706797312; 0; 0; 0];
  mkLeaf 1 500 [134220800; 0; 0; 0];
  mkLeaf 4 714 [432345564311455232; 1024; 0; 0];
  mkLeaf 2 600 [864691128656464896; 0; 0; 0];
  mkLeaf 1 300 [0; 5497658805248; 0; 0];
  mkLeaf 1 1000 [0; 4398130398208; 0; 0];
  mkLeaf 2 1000 [0; 13194340859904; 0; 0];
  mkLeaf 3 1000 [576460752303423488; 201329664; 0; 0];
  mkLeaf 4 1000 [864691128589352960; 4398130400256; 0; 0];
  mkLeaf 3 444 [864691128656464896; 4398130398976; 0; 0];
  mkLeaf 3 606 [1008806316765875712; 14293902822912; 0; 0];
  mkLeaf 0 1000 [201329664; 67108864; 0; 0];
  mkLeaf 2 857 [936748722560175104; 13194139534336; 0; 0];
  mkLeaf 1 1000 [67111936; 0; 0; 0];
  mkLeaf 2 1000 [201328128; 67108864; 0; 0];
  mkLeaf 4 1000 [1536; 0; 0; 0];
  mkLeaf 3 516 [936748722727947776; 13194273754112; 0; 0];
  mkLeaf 1 500 [504403158332604416; 0; 0; 0];
  mkLeaf 1 545 [864691128656464896; 13194340862976; 0; 0];
  mkLeaf 3 500 [0; 13194206642176; 0; 0];
  mkLeaf 2 857 [864691128656464896; 201326592; 0; 0];
  mkLeaf 1 750 [201329664; 3072; 0; 0];
  mkLeaf 2 1000 [864691128455138304; 134217728; 0; 0];
  mkLeaf 3 455 [864691128656464896; 13194340860928; 0; 0];
  mkLeaf 1 1000 [864691128589356032; 13194139536384; 0; 0];
  mkLeaf 5 667 [864691128656461824; 0; 0; 0];
  mkLeaf 3 692 [864691128656464896; 13194273754112; 0; 0];
  mkLeaf 2 750 [864691128656464896; 201329664; 0; 0];
  mkLeaf 2 750 [576460752504753152; 13194206643200; 0; 0];
  mkLeaf 4 1000 [864691128656464896; 13194340862976; 0; 0];
  mkLeaf 1 1000 [3072; 3072; 0; 0];
  mkLeaf 3 500 [864691128656464896; 13194340859904; 0; 0];
  mkLeaf 1 333 [864691128656464896; 13194139536384; 0; 0];
  mkLeaf 2 1000 [864691128455138304; 3072; 0; 0];
  mkLeaf 2 474 [864691128656464896; 13194340862976; 0; 0];
  mkLeaf 0 333 [2048; 13194206644224; 0; 0];
  mkLeaf 2 833 [864691128656464896; 3072; 0; 0];
  mkLeaf 4 1000 [201326592; 13194139533312; 0; 0];
  mkLeaf 2 857 [288230376353041408; 3072; 0; 0];
  mkLeaf 3 833 [201329664; 201327616; 0; 0];
  mkLeaf 2 800 [1080863910636030976; 8796160134656; 0; 0];
  mkLeaf 2 1000 [864691128656461824; 0; 0; 0];
  mkLeaf 2 1000 [288230376151711744; 2199140696064; 0; 0];
  mkLeaf 4 588 [864691128656464896; 13194357640704; 0; 0];
  mkLeaf 1 714 [864691128589356032; 4398247840768; 0; 0];
  mkLeaf 2 600 [576460752437644288; 201329664; 0; 0];
  mkLeaf 3 600 [864691128589356032; 13194340862976; 0; 0];
  mkLeaf 3 750 [201329664; 13194340862976; 0; 0];
  mkLeaf 2 340 [864691128656464896; 13194340862976; 0; 0];
  mkLeaf 2 667 [288230376235598848; 4398247838720; 0; 0];
  mkLeaf 1 800 [864691128522247168; 1024; 0; 0];
  mkLeaf 4 667 [576460752504753152; 0; 0; 0];
  mkLeaf 2 900 [864691128656464896; 13194340861952; 0; 0];
  mkLeaf 3 1000 [288230376353039360; 1024; 0; 0];
  mkLeaf 2 750 [288230376353038336; 13194273752064; 0; 0];
  mkLeaf 4 1000 [201327616; 13194273751040; 0; 0];
  mkLeaf 0 986 [576179277595086847; 8792066428927; 0; 0];
  mkLeaf 0 933 [571112728010166265; 8727506718339; 0; 0];
  mkLeaf 0 333 [864691128656465288; 13194139533312; 0; 0];
  mkLeaf 1 500 [504684633443533824; 0; 0; 0];
  mkLeaf 0 1000 [120063552; 1992864825776; 0; 0];
  mkLeaf 2 571 [201329664; 15393364118528; 0; 0];
  mkLeaf 0 921 [575616327507118079; 8791932209151; 0; 0];
  mkLeaf 1 458 [1092122909767634936; 16767807980544; 0; 0];
  mkLeaf 2 483 [887209126793317376; 17042631560192; 0; 0];
  mkLeaf 1 875 [864691128656464896; 8383910383568; 0; 0];
  mkLeaf 3 1000 [288230376353038336; 134220800; 0; 0];
  mkLeaf 4 1000 [3072; 3072; 0; 0];
  mkLeaf 1 667 [864691128455138304; 13194273754112; 0; 0];
  mkLeaf 4 1000 [864691128656464896; 8796227243008; 0; 0];
  mkLeaf 2 1000 [3072; 8796294350848; 0; 0];
  mkLeaf 4 833 [864691128656464896; 4398247840928; 0; 0];
  mkLeaf 3 455 [864691128656464896; 13194340862976; 0; 0];
  mkLeaf 0 1000 [851180329573023744; 3072; 0; 0];
  mkLeaf 3 500 [864691128656461824; 13194340862976; 0; 0];
  mkLeaf 2 500 [0; 13194139536384; 0; 0];
  mkLeaf 1 1000 [576460752504753152; 4398122008576; 0; 0];
  mkLeaf 0 1000 [576460752303426560; 3072; 0; 0];
  mkLeaf 0 400 [864691128522247744; 201327616; 0; 0];
  mkLeaf 3 667 [864691128656464896; 13194273754112; 0; 0];
  mkLeaf 1 1000 [864691128589356032; 1024; 0; 0];
  mkLeaf 1 400 [864691128656463872; 13194340861952; 0; 0];
  mkLeaf 2 909 [864691128656464896; 8796294351872; 0; 0];
  mkLeaf 4 500 [288230376353041408; 0; 0; 0];
  mkLeaf 0 1000 [540431955284462592; 0; 0; 0];
  mkLeaf 1 800 [576460752504750080; 13194340862976; 0; 0];
  mkLeaf 2 800 [288230376353041408; 201326592; 0; 0];
  mkLeaf 2 800 [864691128656464896; 13194340862976; 0; 0];
  mkLeaf 2 571 [576460752504753408; 0; 0; 0];
  mkLeaf 4 1000 [576460752437644288; 13194273751040; 0; 0];
  mkLeaf 1 250 [864691128656464896; 13194340862976; 0; 0];
  mkLeaf 2 1000 [3072; 3072; 0; 0];
  mkLeaf 4 1000 [864691128589352960; 201329664; 0; 0];
  mkLeaf 3 739 [864691128656464896; 13194340862976; 0; 0];
  mkLeaf 2 475 [864691128656464944; 16776343587840; 0; 0];
  mkLeaf 3 472 [864691128656464896; 13194340862976; 0; 0];
  mkLeaf 4 368 [432345564428897280; 13194240198144; 0; 0];
  mkLeaf 3 714 [864691128589356032; 13194340862976; 0; 0];
  mkLeaf 4 667 [1024; 13194206645248; 0; 0];
  mkLeaf 3 857 [864691128656464896; 13194273752064; 0; 0];
  mkLeaf 2 1000 [67109888; 67109888; 0; 0];
  mkLeaf 1 500 [864691128656461824; 1024; 0; 0];
  mkLeaf 5 1000 [18158513701785762816; 277081158122496; 0; 0];
  mkLeaf 4 600 [864691128656468992; 13194609298432; 0; 0];
  mkLeaf 5 833 [576460752504753152; 13194340862976; 0; 0];
  mkLeaf 5 812 [2017612633196207104; 13194609298432; 0; 0];
  mkLeaf 4 1000 [201333760; 0; 0; 0];
  mkLeaf 2 727 [134220800; 0; 0; 0]
].

Definition leaves2 : list Leaf := [
  mkLeaf 4 500 [134223872; 0; 0; 0];
  mkLeaf 3 750 [864691128656464896; 13194340867072; 0; 0];
  mkLeaf 3 778 [864691128656463872; 13194609298432; 0; 0];
  mkLeaf 5 750 [469762048; 13194273751040; 0; 0];
  mkLeaf 2 750 [864691128924899328; 8796294351872; 0; 0];
  mkLeaf 4 625 [864691128656464896; 30786526907392; 0; 0];
  mkLeaf 3 750 [864691128656461824; 4398516276224; 0; 0];
  mkLeaf 2 500 [576460752303423488; 13194273758208; 0; 0];
  mkLeaf 5 900 [2017612633464642560; 30786795345920; 0; 0];
  mkLeaf 3 625 [576460752504753152; 13194340859904; 0; 0];
  mkLeaf 5 986 [2017612633531751424; 30786795346944; 0; 0];
  mkLeaf 5 960 [2017612633531759616; 30786795346944; 0; 0];
  mkLeaf 5 990 [2017612633531751424; 30786795346944; 0; 0];
  mkLeaf 5 995 [2017612633531751424; 30786795346944; 0; 0];
  mkLeaf 5 996 [18158513701785762816; 277081158122496; 0; 0];
  mkLeaf 2 1000 [432345564227568896; 1099612292864; 0; 0];
  mkLeaf 3 1000 [864691128522245632; 4398113623040; 0; 0];
  mkLeaf 3 1000 [288230376218821888; 0; 0; 0];
  mkLeaf 2 778 [864691128656464896; 13194206643200; 0; 0];
  mkLeaf 4 857 [288230376151714816; 4398281392128; 0; 0];
  mkLeaf 1 1000 [134220800; 0; 0; 0];
  mkLeaf 3 500 [864691128589352960; 201329664; 0; 0];
  mkLeaf 2 1000 [288230376353039360; 67110912; 0; 0];
  mkLeaf 3 607 [936748722694392832; 15393397672960; 0; 0];
  mkLeaf 2 1000 [864691128522247168; 13194139536384; 0; 0];
  mkLeaf 3 750 [864691128455138304; 13194206645248; 0; 0];
  mkLeaf 4 857 [288230376218821888; 3298635547648; 0; 0];
  mkLeaf 1 333 [864691128656462848; 4398113623040; 0; 0];
  mkLeaf 4 1000 [288230376353039360; 4398046511104; 0; 0];
  mkLeaf 1 500 [288230376235600896; 4398113621760; 0; 0];
  mkLeaf 2 800 [864691128656462848; 134220800; 0; 0];
  mkLeaf 3 750 [864691128656464896; 13194273754112; 0; 0];
  mkLeaf 2 471 [864691128656464896; 13194340863488; 0; 0];
  mkLeaf 1 400 [288230376353038336; 4398113620992; 0; 0];
  mkLeaf 3 900 [864691128522246144; 13194206645248; 0; 0];
  mkLeaf 1 571 [864691128656464896; 4398113620992; 0; 0];
  mkLeaf 1 1000 [432345564428895232; 0; 0; 0];
  mkLeaf 1 286 [288230376353041664; 1099595514880; 0; 0];
  mkLeaf 2 1000 [288230376353041408; 13194340860928; 0; 0];
  mkLeaf 1 667 [864691128589352960; 201329664; 0; 0];
  mkLeaf 2 857 [288230376353042176; 13194340862976; 0; 0];
  mkLeaf 1 333 [288230376218823680; 67111936; 0; 0];
  mkLeaf 2 400 [144115188277183488; 67111936; 0; 0];
  mkLeaf 4 1000 [288230376353039360; 1024; 0; 0];
  mkLeaf 1 360 [1080863910636030976; 15393397672960; 0; 0];
  mkLeaf 3 857 [288230376403373056; 83887104; 0; 0];
  mkLeaf 2 800 [67111936; 4398046511104; 0; 0];
  mkLeaf 2 683 [1008806316765875200; 4398147178240; 0; 0];
  mkLeaf 3 750 [288230376218821632; 13194139534336; 0; 0];
  mkLeaf 1 833 [201329664; 13194340862976; 0; 0];
  mkLeaf 5 1000 [0; 4398046512128; 0; 0];
  mkLeaf 1 500 [864691128522244096; 13194139535360; 0; 0];
  mkLeaf 2 1000 [864691128455135232; 13194273754112; 0; 0];
  mkLeaf 1 667 [576460752504753152; 13194340861952; 0; 0];
  mkLeaf 3 625 [864691128656464896; 13194340862976; 0; 0];
  mkLeaf 3 800 [864691128455138304; 13194340860928; 0; 0];
  mkLeaf 1 1000 [3072; 13194139533312; 0; 0];
  mkLeaf 2 1000 [864691128656464896; 13194340861952; 0; 0];
  mkLeaf 3 500 [3072; 134217728; 0; 0];
  mkLeaf 3 600 [134220800; 8796294350848; 0; 0];
  mkLeaf 4 500 [3840; 0; 0; 0];
  mkLeaf 3 857 [3072; 0; 0; 0];
  mkLeaf 4 1000 [1024; 0; 0; 0];
  mkLeaf 2 1000 [1792; 0; 0; 0];
  mkLeaf 4 1000 [1792; 0; 0; 0];
  mkLeaf 2 1000 [1536; 0; 0; 0];
  mkLeaf 0 1000 [3328; 0; 0; 0];
  mkLeaf 3 727 [3584; 0; 0; 0];
  mkLeaf 1 1000 [1280; 0; 0; 0];
  mkLeaf 2 857 [1024; 0; 0; 0];
  mkLeaf 1 500 [3072; 0; 0; 0];
  mkLeaf 3 1000 [3072; 0; 0; 0];
  mkLeaf 1 714 [3072; 0; 0; 0];
  mkLeaf 0 1000 [3072; 0; 0; 0];
  mkLeaf 1 750 [3072; 0; 0; 0];
  mkLeaf 2 1000 [3072; 0; 0; 0];
  mkLeaf 2 600 [3072; 0; 0; 0];
  mkLeaf 1 1000 [3072; 0; 0; 0];
  mkLeaf 3 833 [3072; 0; 0; 0];
  mkLeaf 4 714 [3072; 0; 0; 0];
  mkLeaf 2 571 [3072; 0; 0; 0];
  mkLeaf 1 750 [3072; 0; 0; 0];
  mkLeaf 2 1000 [3072; 0; 0; 0];
  mkLeaf 2 417 [3584; 0; 0; 0];
  mkLeaf 4 1000 [3072; 0; 0; 0];
  mkLeaf 2 556 [3072; 0; 0; 0];
  mkLeaf 2 781 [3840; 0; 0; 0];
  mkLeaf 4 833 [3584; 0; 0; 0];
  mkLeaf 1 400 [1280; 0; 0; 0];
  mkLeaf 2 500 [1280; 0; 0; 0];
  mkLeaf 3 846 [3072; 0; 0; 0];
  mkLeaf 4 1000 [3072; 0; 0; 0];
  mkLeaf 2 818 [3072; 0; 0; 0];
  mkLeaf 3 455 [3072; 0; 0; 0];
  mkLeaf 3 667 [3072; 0; 0; 0];
  mkLeaf 4 700 [3072; 0; 0; 0];
  mkLeaf 1 429 [360287970290304512; 4398046512896; 0; 0];
  mkLeaf 3 750 [288230376151711744; 5497642026496; 0; 0];
  mkLeaf 3 850 [1008806316732321280; 13194273754112; 0; 0];
  mkLeaf 1 500 [288230376353039360; 1024; 0; 0];
  mkLeaf 1 357 [864691128656464896; 6597271096320; 0; 0];
  mkLeaf 1 625 [576460752521530368; 13194139536384; 0; 0];
  mkLeaf 1 250 [1008806316648432640; 67111936; 0; 0];
  mkLeaf 2 1000 [864691128522247168; 13194340862976; 0; 0];
  mkLeaf 3 1000 [576460752370535424; 0; 0; 0];
  mkLeaf 1 750 [504403158366160128; 7696581395968; 0; 0];
  mkLeaf 3 875 [864691128455135232; 13194340862976; 0; 0];
  mkLeaf 2 375 [360287970256749568; 1024; 0; 0];
  mkLeaf 1 1000 [67108864; 67110144; 0; 0];
  mkLeaf 3 667 [864691128656464896; 3072; 0; 0];
  mkLeaf 1 400 [0; 13194340860928; 0; 0];
  mkLeaf 4 1000 [67108864; 13194340859904; 0; 0];
  mkLeaf 2 857 [1008806316732321024; 13194206643200; 0; 0];
  mkLeaf 3 706 [504403158366160128; 4398163952896; 0; 0];
  mkLeaf 3 520 [864691128656465152; 13194340862976; 0; 0];
  mkLeaf 0 500 [288230376151712768; 67109888; 0; 0];
  mkLeaf 2 765 [864691128690019328; 13194340862976; 0; 0];
  mkLeaf 3 375 [576460752504753152; 13194206645248; 0; 0];
  mkLeaf 2 441 [864691128673242880; 13194357640192; 0; 0];
  mkLeaf 3 1000 [864691128656461824; 3072; 0; 0];
  mkLeaf 3 400 [864691128656461824; 13194206645248; 0; 0];
  mkLeaf 2 1000 [864691128656464896; 0; 0; 0];
  mkLeaf 3 336 [1080863910820581120; 16492926078720; 0; 0];
  mkLeaf 1 471 [864691128656461824; 13194340862976; 0; 0];
  mkLeaf 3 1000 [864691128455135232; 4398247840768; 0; 0];
  mkLeaf 3 1000 [288230376218821632; 4398113623552; 0; 0];
  mkLeaf 1 667 [288230376218821632; 67110400; 0; 0];
  mkLeaf 2 857 [1008806316732320768; 3328; 0; 0]
].

Definition leaves3 : list Leaf := [
  mkLeaf 4 1000 [67109888; 1024; 0; 0];
  mkLeaf 3 500 [864691128455135232; 4398247841280; 0; 0];
  mkLeaf 2 929 [864691128706796544; 5497759468544; 0; 0];
  mkLeaf 3 833 [67111936; 13194223419392; 0; 0];
  mkLeaf 2 667 [0; 13194340862976; 0; 0];
  mkLeaf 3 352 [864691128656464896; 14293902822912; 0; 0];
  mkLeaf 2 667 [288230376151711744; 5497675580416; 0; 0];
  mkLeaf 3 1000 [67109888; 13194240197632; 0; 0];
  mkLeaf 3 1000 [576460752504751104; 0; 0; 0];
  mkLeaf 2 1000 [201329664; 0; 0; 0];
  mkLeaf 1 1000 [576460752504753152; 0; 0; 0];
  mkLeaf 2 875 [1008806316598099968; 13194340862976; 0; 0];
  mkLeaf 2 316 [864691128656464896; 201329664; 0; 0];
  mkLeaf 2 667 [1008806316732320768; 13194357640192; 0; 0];
  mkLeaf 4 750 [864691128455135232; 4398247840768; 0; 0];
  mkLeaf 2 850 [201330176; 13194206643200; 0; 0];
  mkLeaf 2 375 [1080863910820581120; 15393414450176; 0; 0];
  mkLeaf 3 1000 [134220800; 3072; 0; 0];
  mkLeaf 0 500 [3072; 0; 0; 0];
  mkLeaf 3 1000 [201326592; 13194340862976; 0; 0];
  mkLeaf 4 1000 [100664832; 67108864; 0; 0];
  mkLeaf 2 680 [864691128656464896; 13194374417408; 0; 0];
  mkLeaf 3 1000 [864691128455135232; 13194139534336; 0; 0];
  mkLeaf 4 556 [288230376353038336; 15393364118528; 0; 0];
  mkLeaf 1 1000 [288230376218820608; 0; 0; 0];
  mkLeaf 2 1000 [864691128522244096; 4398046511104; 0; 0];
  mkLeaf 1 1000 [864691128455138304; 4398046511104; 0; 0];
  mkLeaf 1 1000 [864691128522244096; 67112192; 0; 0];
  mkLeaf 2 400 [1008806316598103040; 0; 0; 0];
  mkLeaf 3 818 [288230376269154048; 0; 0; 0];
  mkLeaf 4 800 [432345564227567616; 4398130398208; 0; 0];
  mkLeaf 3 556 [432345564227567616; 7696648504832; 0; 0];
  mkLeaf 1 448 [288230376269154048; 15393263455232; 0; 0];
  mkLeaf 3 435 [1008806316782652672; 13194340863232; 0; 0];
  mkLeaf 3 1000 [864691128455136512; 13194139536384; 0; 0];
  mkLeaf 2 1000 [201326592; 4398130397184; 0; 0];
  mkLeaf 1 667 [576460752303426560; 13194340862976; 0; 0];
  mkLeaf 4 500 [1080863910568919040; 0; 0; 0];
  mkLeaf 3 1000 [864691128656464896; 134217728; 0; 0];
  mkLeaf 4 625 [864691128656464896; 15393364118528; 0; 0];
  mkLeaf 4 500 [432345564311455232; 1024; 0; 0];
  mkLeaf 2 923 [360287970290304256; 4398130398208; 0; 0];
  mkLeaf 1 333 [576460752303426560; 3072; 0; 0];
  mkLeaf 5 1000 [201329664; 4398046511104; 0; 0];
  mkLeaf 3 1000 [576460752504751104; 2048; 0; 0];
  mkLeaf 2 778 [864691128656464896; 13194139536384; 0; 0];
  mkLeaf 3 833 [3072; 13194340860928; 0; 0];
  mkLeaf 2 367 [1080863910820580608; 13194391195136; 0; 0];
  mkLeaf 0 1000 [432345564328230912; 0; 0; 0];
  mkLeaf 2 857 [288230376185267456; 13194340861440; 0; 0];
  mkLeaf 4 556 [576460752504752128; 8796294348800; 0; 0];
  mkLeaf 2 1000 [864691128656464896; 13194139533312; 0; 0];
  mkLeaf 3 571 [67109888; 100666368; 0; 0];
  mkLeaf 2 429 [117443584; 4398247840768; 0; 0];
  mkLeaf 4 882 [936748722694393600; 16492875746304; 0; 0];
  mkLeaf 2 500 [201329664; 0; 0; 0];
  mkLeaf 2 1000 [864691128656461824; 0; 0; 0];
  mkLeaf 3 1000 [201327616; 0; 0; 0];
  mkLeaf 4 1000 [288230376218821888; 1024; 0; 0];
  mkLeaf 3 1000 [288230376168490496; 100663296; 0; 0];
  mkLeaf 2 583 [432345564311454976; 4398147175680; 0; 0];
  mkLeaf 1 400 [67110656; 1024; 0; 0];
  mkLeaf 3 641 [432345564445674496; 13194340862976; 0; 0];
  mkLeaf 0 1000 [3072; 13194139533312; 0; 0];
  mkLeaf 4 1000 [1024; 3072; 0; 0];
  mkLeaf 2 667 [201326592; 67111936; 0; 0];
  mkLeaf 4 700 [864691128656464896; 13194340859904; 0; 0];
  mkLeaf 1 1000 [134220800; 13194139533312; 0; 0];
  mkLeaf 1 1000 [864691128455135232; 67108864; 0; 0];
  mkLeaf 2 444 [864691128656464896; 3072; 0; 0];
  mkLeaf 1 286 [864691128656465152; 14293852490752; 0; 0];
  mkLeaf 2 500 [100663296; 0; 0; 0];
  mkLeaf 4 1000 [288230376218823680; 4398046512128; 0; 0];
  mkLeaf 1 833 [201329664; 201326592; 0; 0];
  mkLeaf 1 833 [288230376353041408; 4398113620992; 0; 0];
  mkLeaf 3 682 [1008806316732321536; 4398247840768; 0; 0];
  mkLeaf 1 714 [864691128455136256; 201328640; 0; 0];
  mkLeaf 4 273 [864691128656462848; 13194206645248; 0; 0];
  mkLeaf 2 625 [288230376218821632; 1536; 0; 0];
  mkLeaf 3 643 [864691128656465408; 13194340862976; 0; 0];
  mkLeaf 3 750 [864691128656464896; 13194273753088; 0; 0];
  mkLeaf 2 1000 [201329664; 8796294350848; 0; 0];
  mkLeaf 1 500 [864691128656464896; 13194340862976; 0; 0];
  mkLeaf 3 588 [864691128656465408; 13194223420416; 0; 0];
  mkLeaf 3 667 [288230376151711744; 4398247838720; 0; 0];
  mkLeaf 2 875 [864691128539022848; 13194206645248; 0; 0];
  mkLeaf 2 875 [864691128522247424; 13194357640960; 0; 0];
  mkLeaf 3 1000 [288230376218822144; 0; 0; 0];
  mkLeaf 4 455 [288230376386595840; 4398046514176; 0; 0];
  mkLeaf 2 1000 [134220800; 4398147175424; 0; 0];
  mkLeaf 3 500 [288230376353041408; 13194340860928; 0; 0];
  mkLeaf 4 800 [3072; 67109888; 0; 0];
  mkLeaf 2 750 [432345564428897792; 67111936; 0; 0];
  mkLeaf 3 800 [864691128656464896; 3072; 0; 0];
  mkLeaf 1 1000 [288230376151711744; 13194139536384; 0; 0];
  mkLeaf 2 1000 [288230376151711744; 67111936; 0; 0];
  mkLeaf 2 833 [1008806316765875456; 234884608; 0; 0];
  mkLeaf 2 500 [201326592; 13194340862976; 0; 0];
  mkLeaf 3 857 [864691128522247168; 14293852490752; 0; 0];
  mkLeaf 1 667 [1024; 5497625248768; 0; 0];
  mkLeaf 4 778 [100665088; 4398046511104; 0; 0];
  mkLeaf 4 500 [288230376353038336; 201327616; 0; 0];
  mkLeaf 3 889 [864691128656464896; 4398247840768; 0; 0];
  mkLeaf 2 750 [201329664; 13194139534336; 0; 0];
  mkLeaf 1 1000 [864691128589352960; 67111936; 0; 0];
  mkLeaf 3 714 [864691128455138816; 13194273754112; 0; 0];
  mkLeaf 3 833 [432345564294677504; 6597069767680; 0; 0];
  mkLeaf 4 667 [134221056; 0; 0; 0];
  mkLeaf 2 800 [134220800; 0; 0; 0];
  mkLeaf 1 400 [864691128656462848; 13194340862976; 0; 0];
  mkLeaf 2 750 [864691128656465408; 13194139536384; 0; 0];
  mkLeaf 3 667 [3072; 13194139533312; 0; 0];
  mkLeaf 3 1000 [288230376353038336; 13194340862976; 0; 0];
  mkLeaf 1 500 [288230376353038336; 3072; 0; 0];
  mkLeaf 4 800 [864691128522247168; 4398113619968; 0; 0];
  mkLeaf 0 429 [201329664; 13194206645248; 0; 0];
  mkLeaf 2 750 [288230376353039360; 2048; 0; 0];
  mkLeaf 2 800 [864691128656464896; 13194206643200; 0; 0];
  mkLeaf 4 667 [1024; 201326592; 0; 0];
  mkLeaf 3 1000 [83887616; 0; 0; 0];
  mkLeaf 4 667 [288230376269154048; 5497658803200; 0; 0];
  mkLeaf 2 500 [864691128690020096; 13194340863232; 0; 0];
  mkLeaf 2 486 [864691128656464896; 134220800; 0; 0];
  mkLeaf 4 800 [0; 13194206642176; 0; 0];
  mkLeaf 3 444 [864691128656464896; 13194206644224; 0; 0];
  mkLeaf 2 1000 [864691128522247168; 13194206645248; 0; 0];
  mkLeaf 4 1000 [67111936; 0; 0; 0];
  mkLeaf 2 500 [864691128656461824; 13194340862976; 0; 0]
].

Definition leaves : list Leaf := leaves0 ++ leaves1 ++ leaves2 ++ leaves3.

(** The boolean tables, with 1 for [true] and 0 for [false]. *)
Definition flags (l : list Z) : list bool := map (Z.eqb 1) l.

Definition leafSafeA : list bool := flags [
  1; 0; 0; 0; 0; 0; 0; 0; 1; 0; 0; 0; 0; 0; 0; 0;
  0; 0; 0; 1; 0; 0; 1; 0; 0; 1; 0; 0; 0; 0; 0; 0;
  0; 0; 0; 0; 0; 0; 0; 0; 0; 0; 0; 0; 0; 0; 0; 0;
  0; 0; 0; 0; 0; 0; 0; 0; 0; 0; 0; 0; 0; 0; 0; 0;
  0; 0; 0; 0; 1; 0; 1; 0; 0; 0; 0; 1; 0; 0; 0; 0;
  0; 0; 0; 0; 0; 0; 0; 0; 0; 1; 0; 0; 0; 0; 0; 0;
  0; 0; 0; 0; 0; 1; 0; 0; 0; 0; 0; 0; 0; 0; 0; 0;
  0; 0; 1; 0; 0; 0; 0; 0; 0; 0; 0; 0; 0; 0; 0; 0;
  0; 0; 0; 0; 0; 0; 1; 0; 0; 0; 0; 0; 0; 0; 0; 0;
  1; 0; 0; 0; 1; 0; 0; 0; 0; 0; 1; 1; 0; 0; 0; 0;
  0; 0; 0; 0; 0; 0; 0; 0; 0; 0; 1; 0; 0; 0; 0; 0;
  0; 1; 0; 0; 0; 0; 0; 0; 0; 1; 1; 0; 0; 0; 0; 0;
  0; 0; 0; 0; 0; 0; 0; 0; 0; 0; 0; 1; 0; 0; 0; 0;
  1; 0; 0; 0; 0; 0; 1; 0; 0; 1; 1; 0; 0; 1; 0; 0;
  0; 1; 0; 0; 1; 0; 0; 0; 1; 0; 0; 0; 0; 1; 0; 1;
  1; 0; 0; 0; 0; 0; 0; 0; 0; 0; 0; 0; 0; 0; 1; 0;
  0; 0; 0; 0; 0; 0; 0; 0; 0; 0; 0; 0; 0; 0; 0; 1;
  1; 1; 0; 0; 1; 0; 0; 0; 1; 0; 0; 0; 1; 0; 0; 0;
  0; 0; 0; 0; 1; 0; 1; 0; 0; 0; 0; 0; 0; 0; 0; 0;
  0; 0; 1; 0; 1; 0; 0; 0; 1; 1; 0; 0; 0; 0; 0; 1;
  0; 0; 0; 0; 0; 0; 0; 1; 0; 1; 0; 1; 0; 0; 0; 0;
  0; 0; 0; 0; 1; 0; 0; 0; 0; 0; 0; 1; 0; 0; 0; 0;
  0; 0; 0; 0; 0; 0; 0; 1; 1; 0; 0; 0; 0; 0; 0; 0;
  0; 0; 0; 0; 0; 0; 0; 1; 0; 1; 0; 0; 0; 0; 0; 0;
  1; 0; 0; 0; 0; 0; 0; 1; 1; 1; 1; 0; 0; 0; 0; 0;
  0; 1; 0; 1; 1; 0; 1; 0; 0; 1; 1; 1; 0; 0; 0; 0;
  0; 0; 1; 1; 0; 0; 0; 0; 0; 0; 0; 0; 0; 0; 0; 0;
  1; 0; 0; 1; 0; 0; 0; 0; 0; 1; 1; 1; 0; 0; 0; 1;
  0; 0; 0; 1; 1; 0; 0; 0; 1; 0; 0; 0; 0; 0; 0; 0;
  0; 1; 0; 0; 0; 0; 0; 0; 0; 1; 0; 0; 0; 0; 1; 1;
  0; 0; 0; 0; 0; 0; 0; 0; 1; 0; 0; 0; 0; 0; 0; 0;
  1; 0; 0; 0; 0; 0; 0; 0; 0; 0; 0; 0; 0; 1; 1; 0
].

Definition leafSafeB : list bool := flags [
  1; 0; 0; 1; 0; 0; 0; 0; 0; 1; 1; 1; 0; 1; 0; 0;
  0; 1; 0; 0; 1; 0; 1; 1; 0; 0; 0; 0; 1; 0; 0; 0;
  1; 0; 1; 1; 0; 0; 0; 0; 1; 1; 0; 1; 0; 1; 1; 0;
  0; 1; 1; 0; 0; 1; 1; 0; 1; 0; 0; 1; 0; 1; 1; 1;
  0; 0; 0; 0; 0; 0; 0; 0; 0; 1; 1; 0; 1; 1; 0; 0;
  1; 0; 0; 0; 1; 0; 0; 0; 0; 0; 0; 0; 0; 1; 0; 1;
  1; 1; 1; 0; 0; 1; 0; 1; 0; 0; 0; 0; 0; 0; 0; 0;
  1; 0; 0; 0; 0; 1; 1; 1; 0; 1; 1; 0; 0; 0; 0; 0;
  0; 1; 0; 0; 1; 0; 0; 0; 0; 0; 1; 1; 1; 0; 0; 0;
  1; 0; 0; 0; 1; 0; 0; 1; 0; 0; 0; 0; 0; 1; 0; 0;
  0; 0; 1; 0; 0; 1; 1; 1; 0; 1; 0; 0; 1; 0; 1; 1;
  1; 1; 1; 1; 1; 0; 1; 0; 0; 1; 1; 0; 0; 0; 0; 1;
  0; 1; 1; 0; 1; 0; 0; 1; 0; 0; 0; 1; 1; 1; 1; 1;
  1; 1; 1; 1; 1; 1; 1; 1; 1; 1; 1; 1; 1; 1; 1; 1;
  0; 1; 1; 1; 1; 1; 1; 1; 1; 1; 1; 1; 1; 1; 1; 1;
  1; 1; 1; 1; 0; 0; 1; 0; 0; 0; 1; 1; 1; 1; 1; 1;
  1; 1; 1; 1; 0; 1; 1; 1; 1; 1; 1; 1; 1; 1; 1; 0;
  1; 1; 0; 0; 0; 0; 0; 1; 1; 1; 0; 0; 0; 0; 1; 0;
  0; 1; 0; 1; 1; 0; 1; 0; 0; 0; 1; 0; 0; 0; 1; 0;
  0; 1; 1; 0; 0; 0; 1; 1; 0; 1; 0; 1; 1; 0; 0; 1;
  1; 1; 1; 1; 1; 0; 1; 1; 0; 1; 1; 1; 1; 1; 1; 1;
  1; 1; 0; 0; 0; 1; 1; 1; 1; 1; 1; 1; 1; 1; 1; 1;
  1; 1; 0; 1; 0; 0; 0; 1; 1; 1; 0; 1; 0; 1; 0; 0;
  1; 0; 1; 0; 1; 0; 0; 0; 0; 1; 1; 0; 0; 0; 0; 0;
  1; 1; 0; 0; 0; 0; 0; 1; 1; 1; 1; 1; 0; 1; 1; 0;
  0; 0; 1; 0; 1; 0; 0; 0; 1; 1; 0; 1; 0; 1; 0; 0;
  0; 0; 0; 0; 0; 1; 0; 0; 0; 0; 1; 1; 0; 0; 0; 0;
  0; 1; 0; 0; 0; 0; 0; 0; 0; 0; 1; 1; 1; 1; 1; 1;
  0; 0; 0; 1; 0; 0; 0; 0; 1; 1; 1; 0; 0; 0; 0; 1;
  1; 0; 1; 0; 1; 0; 0; 0; 0; 1; 0; 0; 0; 1; 0; 0;
  0; 0; 1; 0; 0; 0; 1; 0; 0; 0; 1; 0; 1; 1; 0; 1;
  1; 0; 0; 0; 0; 1; 0; 0; 0; 0; 0; 1; 0; 0; 1; 0
].

End TreeData.
