(* ===== verification/Tree.v ===== *)
(** * internal/tree: the decision tree

    [Predict], [LeafSafeA] and [LeafSafeB] of [internal/tree/tree.go] over the tables
    of [TreeData].  The flat node array is proved to be the layout of an inductive
    decision tree, which [Predict] walks. *)

From S2P Require Import Prelude TreeData.

Module Tree.
Import TreeData.

Local Open Scope Z_scope.

(** ** The code *)

Definition NodeCount : nat := 1023.
Definition LeafCount : Z := 512.

Record Result : Type := mkResult {
  LeafID : Z;                (* uint16 *)
  ResCount : Z;              (* Count, uint8 *)
  ResPurityMilli : Z;        (* PurityMilli, uint16 *)
  ResPartBitset : list Z     (* PartBitset, [4]uint64 *)
}.

(** The [for] loop of [Predict]; the fuel bounds the number of nodes visited. *)
Fixpoint Predict_loop (fuel : nat) (q : list Z) (node : Z) : res Result :=
  match fuel with
  | O => OutOfFuel
  | S f =>
      n ← getZ nodes node;
      if Left n <? 0 then
        let leaf := u16 (-1 - Left n) in
        l ← getZ leaves leaf;
        Ok (mkResult leaf (Count l) (PurityMilli l) (PartBitset l))
      else
        x ← getZ q (Feat n);
        if x <=? Thr n then Predict_loop f q (Left n) else Predict_loop f q (Right n)
  end.

Definition Predict (q : list Z) : res Result := Predict_loop NodeCount q 0.

Definition LeafSafeA (leaf : Z) : res bool :=
  if LeafCount <=? leaf then Ok false else getZ leafSafeA leaf.

Definition LeafSafeB (leaf : Z) : res bool :=
  if LeafCount <=? leaf then Ok false else getZ leafSafeB leaf.

(** ** The tree the array lays out *)

Inductive dtree : Type :=
| DLeaf (id : Z)
| DNode (feat thr : Z) (lo hi : dtree).

(** Read the tree rooted at a node, checking every index on the way: children and
    features in range, leaf ids in the leaf table. *)
Fixpoint build (fuel : nat) (node : Z) : option dtree :=
  match fuel with
  | O => None
  | S f =>
      if node <? 0 then None
      else
        n ← nodes !! Z.to_nat node;
        if Left n <? 0 then
          let leaf := u16 (-1 - Left n) in
          if leaf <? LeafCount then Some (DLeaf leaf) else None
        else if (0 <=? Feat n) && (Feat n <? 16) then
          l ← build f (Left n);
          r ← build f (Right n);
          Some (DNode (Feat n) (Thr n) l r)
        else None
  end.

Definition the_tree : dtree := default (DLeaf 0) (build 27 0).

Fixpoint walk (q : list Z) (t : dtree) : Z :=
  match t with
  | DLeaf id => id
  | DNode f thr l r => if q !!! Z.to_nat f <=? thr then walk q l else walk q r
  end.

(** The result record of a leaf. *)
Definition result_of (leaf : Z) : Result :=
  let l := leaves !!! Z.to_nat leaf in
  mkResult leaf (Count l) (PurityMilli l) (PartBitset l).

Lemma result_of_id leaf : LeafID (result_of leaf) = leaf.
Proof. reflexivity. Qed.

(** The tests on the way to every leaf: feature, threshold, and whether the query's
    feature is at most the threshold. *)
Definition test : Type := Z * Z * bool.

Fixpoint paths (t : dtree) : list (Z * list test) :=
  match t with
  | DLeaf id => [(id, [])]
  | DNode f thr l r =>
      map (fun '(id, c) => (id, (f, thr, true) :: c)) (paths l) ++
      map (fun '(id, c) => (id, (f, thr, false) :: c)) (paths r)
  end.

Definition passes (q : list Z) (t : test) : bool :=
  let '(f, thr, low) := t in Bool.eqb (q !!! Z.to_nat f <=? thr) low.
Definition in_box (q : list Z) (c : list test) : bool := forallb (passes q) c.

(** A query is sixteen [int16] values. *)
Definition query (q : list Z) : Prop :=
  length q = 16%nat /\ Forall (fun x => -32768 <= x < 32768) q.

(** ** Lemmas *)

Lemma the_tree_build : build 27 0 = Some the_tree.
Proof. vm_compute. reflexivity. Qed.

Lemma leaves_length : length leaves = 512%nat.
Proof. reflexivity. Qed.

Lemma Predict_halts q : halts (Predict q).
Proof.
  assert (forall fuel node t, build fuel node = Some t ->
    forall fuel', (fuel <= fuel')%nat -> halts (Predict_loop fuel' q node)) as Hloop.
  { induction fuel as [|f IH]; intros node t Hb fuel' Hf; [done|]. cbn [build] in Hb.
    destruct (Z.ltb_spec node 0); [done|]. destruct (nodes !! Z.to_nat node) as [n|] eqn:En; [|done].
    simpl in Hb. destruct fuel' as [|f']; [lia|]. cbn [Predict_loop]. rewrite (getZ_ok nodes node n), bind_Ok by (lia || done).
    destruct (Left n <? 0); [halts_go|]. destruct (_ && _); [|done].
    destruct (build f (Left n)) as [l|] eqn:El; [|done]. simpl in Hb.
    destruct (build f (Right n)) as [r|] eqn:Er; [|done].
    apply halts_bind; [apply halts_getZ|intros x].
    destruct (x <=? Thr n); eapply IH; try done; lia. }
  apply (Hloop 27%nat 0 the_tree the_tree_build). unfold NodeCount. lia.
Qed.

Lemma LeafSafeA_halts leaf : halts (LeafSafeA leaf).
Proof. unfold LeafSafeA. halts_go. Qed.
#[global] Hint Resolve Predict_halts LeafSafeA_halts : halts.

Lemma build_predict fuel node t q :
  build fuel node = Some t -> length q = 16%nat ->
  forall fuel', (fuel <= fuel')%nat -> Predict_loop fuel' q node = Ok (result_of (walk q t)).
Proof.
  revert node t. induction fuel as [|f IH]; intros node t Hb Hq fuel' Hf; [done|].
  cbn [build] in Hb. destruct (Z.ltb_spec node 0); [done|].
  destruct (nodes !! Z.to_nat node) as [n|] eqn:En; [|done]. simpl in Hb.
  destruct fuel' as [|f']; [lia|]. cbn [Predict_loop].
  rewrite (getZ_ok nodes node n), bind_Ok by (done || lia).
  destruct (Left n <? 0).
  - cbv zeta in *. destruct (Z.ltb_spec (u16 (-1 - Left n)) LeafCount) as [Hlt|]; [|done].
    injection Hb as <-. pose proof (wrapU_range 16 (-1 - Left n)) as Hr.
    unfold inU, LeafCount in *. unfold u16 in *.
    rewrite (getZ_ok leaves _ (leaves !!! Z.to_nat (wrapU 16 (-1 - Left n)))); [done|lia|].
    apply list_lookup_lookup_total_lt. rewrite leaves_length. lia.
  - destruct (Z.leb_spec 0 (Feat n)), (Z.ltb_spec (Feat n) 16); try done. simpl in Hb.
    destruct (build f (Left n)) as [l|] eqn:El; [|done].
    destruct (build f (Right n)) as [r|] eqn:Er; [|done].
    simpl in Hb. injection Hb as <-.
    rewrite (getZ_ok q _ (q !!! Z.to_nat (Feat n))); [|lia|apply list_lookup_lookup_total_lt; lia].
    rewrite bind_Ok. cbn [walk].
    destruct (q !!! Z.to_nat (Feat n) <=? Thr n); by apply IH; try lia.
Qed.

Lemma Predict_walk q : length q = 16%nat -> Predict q = Ok (result_of (walk q the_tree)).
Proof.
  intros Hq. apply (build_predict 27 0 the_tree q the_tree_build Hq). unfold NodeCount. lia.
Qed.

Lemma walk_path q t : exists c, (walk q t, c) ∈ paths t /\ in_box q c = true.
Proof.
  induction t as [id|f thr l [cl [Hl Bl]] r [cr [Hr Br]]]; simpl.
  - exists []. split; [by apply list_elem_of_singleton|done].
  - destruct (q !!! Z.to_nat f <=? thr) eqn:E.
    + exists ((f, thr, true) :: cl). split.
      * apply elem_of_app. left. apply list_elem_of_fmap. by exists (walk q l, cl).
      * simpl. by rewrite E.
    + exists ((f, thr, false) :: cr). split.
      * apply elem_of_app. right. apply list_elem_of_fmap. by exists (walk q r, cr).
      * simpl. by rewrite E.
Qed.

Lemma path_walk q t id c : (id, c) ∈ paths t -> in_box q c = true -> walk q t = id.
Proof.
  revert id c. induction t as [i|f thr l IHl r IHr]; intros id c; simpl.
  - intros [= -> ->]%list_elem_of_singleton. done.
  - intros [H|H]%elem_of_app; apply list_elem_of_fmap in H as ([id' c'] & [= -> ->] & H); simpl;
      intros [Hp Hc]%andb_prop; apply eqb_prop in Hp; rewrite Hp; eauto.
Qed.

Lemma the_paths_ids : map fst (paths the_tree) = map Z.of_nat (seq 0 512).
Proof. vm_compute. reflexivity. Qed.

Lemma walk_range q : 0 <= walk q the_tree < 512.
Proof.
  destruct (walk_path q the_tree) as (c & Hc & _).
  apply (list_elem_of_fmap_2 fst) in Hc. change (fst <$> paths the_tree) with (map fst (paths the_tree)) in Hc.
  rewrite the_paths_ids in Hc. apply list_elem_of_fmap in Hc as (n & Hn & Hin%elem_of_seq).
  cbn [fst] in Hn. lia.
Qed.

#[local] Opaque the_tree nodes leaves leafSafeA.

(** The highest value each feature may take on a path: a query that follows it, when
    the tests are consistent. *)
Definition representative (c : list test) : list Z :=
  map (fun f => foldl (fun m '(f', thr, low) =>
                         if (f' =? Z.of_nat f) && (low : bool) then Z.min m thr else m) 32767 c)
    (seq 0 16).

Definition reached (ic : Z * list test) : bool :=
  let '(id, c) := ic in (walk (representative c) the_tree =? id) && in_box (representative c) c.

Lemma the_reached :
  forallb (fun ic => reached ic || (ic.1 =? 186)) (paths the_tree) = true.
Proof. vm_compute. reflexivity. Qed.

(** The tests on the way to leaf 186 contradict each other. *)
Definition clash (c : list test) : bool :=
  existsb (fun '(f, t, low) =>
    existsb (fun '(f', t', low') => (f =? f') && (low : bool) && negb low' && (t <=? t')) c) c.

Lemma clash_unsat q c : clash c = true -> in_box q c = false.
Proof.
  unfold clash, in_box. intros H.
  apply existsb_exists in H as ([[f t] low] & H1 & H).
  apply existsb_exists in H as ([[f' t'] low'] & H2 & H).
  apply andb_prop in H as [H Ht]. apply andb_prop in H as [H Hl'].
  apply andb_prop in H as [Hf Hl]. apply Z.eqb_eq in Hf. subst f'.
  destruct low; [|done]. destruct low'; [done|].
  destruct (forallb (passes q) c) eqn:E; [|done]. rewrite forallb_forall in E.
  pose proof (E _ H1) as P1. pose proof (E _ H2) as P2. unfold passes in P1, P2.
  apply eqb_prop in P1, P2. lia.
Qed.

Lemma the_clash : forallb (fun ic => negb (ic.1 =? 186) || clash ic.2) (paths the_tree) = true.
Proof. vm_compute. reflexivity. Qed.

Lemma walk_not_186 q : walk q the_tree <> 186.
Proof.
  intros H. destruct (walk_path q the_tree) as (c & Hc & Hb). pose proof the_clash as HC.
  rewrite forallb_forall in HC. apply list_elem_of_In in Hc. specialize (HC _ Hc).
  simpl in HC. rewrite H in HC. simpl in HC. rewrite (clash_unsat q c HC) in Hb. done.
Qed.

Lemma the_representatives :
  forallb (fun ic => forallb (fun x => (-32768 <=? x) && (x <? 32768)) (representative ic.2))
    (paths the_tree) = true.
Proof. vm_compute. reflexivity. Qed.

Lemma result_of_inj a b : Ok (result_of a) = Ok (result_of b) -> a = b.
Proof. intros H. exact (f_equal (fun r => match r with Ok x => LeafID x | _ => 0 end) H). Qed.

Lemma the_path_of id : 0 <= id < 512 -> exists c, In (id, c) (paths the_tree).
Proof.
  intros Hid. apply (assoc_in _ _ _ the_paths_ids). apply in_map_iff.
  exists (Z.to_nat id). split; [lia|]. apply in_seq. lia.
Qed.

Lemma the_paths_nodup : NoDup (map fst (paths the_tree)).
Proof. rewrite the_paths_ids. apply (NoDup_fmap_2 Z.of_nat), NoDup_seq. Qed.

Lemma leaves_counts : forallb (fun l => (0 <=? Count l) && (Count l <=? 5)) leaves = true.
Proof. vm_compute. reflexivity. Qed.

Lemma leaf_count_bounds id : 0 <= id < 512 -> 0 <= Count (leaves !!! Z.to_nat id) <= 5.
Proof.
  intros Hid. pose proof leaves_counts as H. rewrite forallb_forall in H.
  assert (In (leaves !!! Z.to_nat id) leaves) as Hin.
  { apply list_elem_of_In, (list_elem_of_lookup_2 _ (Z.to_nat id)), list_lookup_lookup_total_lt.
    rewrite leaves_length. lia. }
  specialize (H _ Hin). lia.
Qed.

(** Every leaf the fast path trusts is pure, the unreachable leaf 186 excepted. *)
Lemma safe_leaves_pure :
  forallb (fun id => negb (default false (leafSafeA !! id)) || (PurityMilli (leaves !!! id) =? 1000)
                     || (id =? 186)%nat) (seq 0 512) = true.
Proof. vm_compute. reflexivity. Qed.

Lemma Predict_ok q :
  length q = 16%nat ->
  returns (Predict q) (fun r =>
    r = result_of (walk q the_tree) /\ 0 <= LeafID r < LeafCount /\ 0 <= ResCount r <= 5).
Proof.
  intros Hq. rewrite (Predict_walk q Hq). pose proof (walk_range q) as Hr.
  split; [done|]. split; [exact Hr|]. by apply leaf_count_bounds.
Qed.

Lemma leafSafeA_length : length leafSafeA = 512%nat.
Proof. reflexivity. Qed.

Lemma LeafSafeA_ok leaf : 0 <= leaf < LeafCount -> LeafSafeA leaf = Ok (leafSafeA !!! Z.to_nat leaf).
Proof.
  unfold LeafSafeA, LeafCount. intros Hl. destruct (Z.leb_spec 512 leaf); [lia|].
  apply getZ_ok; [lia|]. apply list_lookup_lookup_total_lt. rewrite leafSafeA_length. lia.
Qed.

(** ** Properties *)

(** C11: on every query of sixteen features [Predict] terminates without indexing out of
    any table, and what it returns is the record of the leaf that walking the inductive
    decision tree reaches, with an id below 512 and a fraud count of at most five. *)
Theorem Predict_refines_tree q :
  length q = 16%nat ->
  returns (Predict q) (fun r =>
    r = result_of (walk q the_tree) /\ 0 <= LeafID r < LeafCount /\ 0 <= ResCount r <= 5).
Proof. apply Predict_ok. Qed.

Example Predict_refines_tree_witness :
  returns (Predict (repeat 0 16)) (fun r =>
    r = result_of (walk (repeat 0 16) the_tree) /\ 0 <= LeafID r < LeafCount /\ 0 <= ResCount r <= 5).
Proof. apply Predict_refines_tree. reflexivity. Defined.

(** The 512 leaves partition the queries: the paths of the tree carry the leaf ids 0
    to 511 once each, in order, and [Predict] answers a leaf exactly when the query
    passes every threshold test on the way to it. *)
Theorem Predict_partition :
  map fst (paths the_tree) = map Z.of_nat (seq 0 512) /\
  forall q id c, length q = 16%nat -> In (id, c) (paths the_tree) ->
    (Predict q = Ok (result_of id) <-> in_box q c = true).
Proof.
  split; [apply the_paths_ids|]. intros q id c Hq Hin. rewrite (Predict_walk q Hq). split.
  - intros Hid%result_of_inj. destruct (walk_path q the_tree) as (c' & Hc' & Hb).
    rewrite Hid in Hc'. apply list_elem_of_In in Hc'.
    by rewrite (assoc_unique _ _ _ _ the_paths_nodup Hin Hc').
  - intros Hb. apply list_elem_of_In in Hin. by rewrite (path_walk q _ _ _ Hin Hb).
Qed.

(** Exactly one leaf is dead. Every leaf other than 186 is the answer to some [int16]
    query, and no query at all reaches leaf 186, whose path tests one feature against
    the same threshold twice. *)
Theorem Predict_reachable id :
  0 <= id < LeafCount ->
  ((exists q, query q /\ returns (Predict q) (fun r => LeafID r = id)) <-> id <> 186).
Proof.
  intros Hid. split.
  - intros (q & [Hq _] & H). rewrite (Predict_walk q Hq) in H. simpl in H.
    intros ->. by apply (walk_not_186 q).
  - intros Hne. destruct (the_path_of id Hid) as (c & Hc).
    pose proof the_reached as HR. rewrite forallb_forall in HR. specialize (HR _ Hc).
    pose proof the_representatives as HQ. rewrite forallb_forall in HQ. specialize (HQ _ Hc).
    cbn [fst snd reached] in *. exists (representative c). split.
    + split; [by unfold representative; rewrite length_map|].
      rewrite forallb_forall in HQ. apply List.Forall_forall. intros x Hx.
      specialize (HQ x Hx). lia.
    + rewrite (Predict_walk (representative c)); [|by unfold representative; rewrite length_map].
      simpl. destruct (Z.eqb_spec (walk (representative c) the_tree) id); [done|]. simpl in HR. lia.
Qed.

Example Predict_reachable_witness :
  ~ (exists q, query q /\ returns (Predict q) (fun r => LeafID r = 186)).
Proof. intros H. by apply (Predict_reachable 186 ltac:(done)) in H. Defined.

(** The fast path only answers from pure leaves: whenever [LeafSafeA] accepts the
    leaf a query reaches, that leaf's purity is 1000 per mille. *)
Theorem LeafSafeA_pure q :
  length q = 16%nat ->
  returns (Predict q) (fun r => LeafSafeA (LeafID r) = Ok true -> ResPurityMilli r = 1000).
Proof.
  intros Hq. rewrite (Predict_walk q Hq). simpl. pose proof (walk_range q) as Hr.
  pose proof (walk_not_186 q) as Hd. set (id := walk q the_tree) in *. clearbody id.
  unfold LeafSafeA, LeafCount. destruct (Z.leb_spec 512 id); [done|].
  unfold getZ, get. destruct (Z.ltb_spec id 0); [done|].
  pose proof safe_leaves_pure as HP. rewrite forallb_forall in HP.
  specialize (HP (Z.to_nat id)). rewrite in_seq in HP. specialize (HP ltac:(lia)).
  intros Hs. destruct (leafSafeA !! Z.to_nat id) as [b|]; [|done]. injection Hs as ->.
  simpl in HP. lia.
Qed.

Example LeafSafeA_pure_witness :
  returns (Predict (repeat 0 16)) (fun r => LeafSafeA (LeafID r) = Ok true -> ResPurityMilli r = 1000).
Proof. apply LeafSafeA_pure. reflexivity. Defined.

End Tree.
