(* ===== verification/Select.v ===== *)
(** * Selecting the smallest elements

    The specification the nearest-neighbour search refines: a list is a selection of
    elements of least key of a multiset.  Shared by the probe heap, the top-five table
    and the search itself. *)

From S2P Require Import Prelude.
From stdpp Require Import sorting.

Local Open Scope Z_scope.

Section Selection.
Context {A : Type} (key : A -> Z).

Definition key_le (x y : A) : Prop := key x <= key y.

#[global] Instance key_le_dec : RelDecision key_le.
Proof. intros x y. unfold key_le. apply _. Defined.

#[global] Instance key_le_trans : Transitive key_le.
Proof. intros x y z. unfold key_le. lia. Qed.

#[global] Instance key_le_total : Total key_le.
Proof. intros x y. unfold key_le. lia. Qed.

(** [sel] holds elements of [all] of least key: the rest of [all] is no nearer. *)
Definition smallest (sel all : list A) : Prop :=
  exists rest, sel ++ rest ≡ₚ all /\ forall s r, s ∈ sel -> r ∈ rest -> key_le s r.

#[global] Instance smallest_proper :
  Proper (Permutation ==> Permutation ==> iff) smallest.
Proof.
  assert (forall l l' a a', l ≡ₚ l' -> a ≡ₚ a' -> smallest l a -> smallest l' a') as H.
  { intros l l' a a' Hl Ha (rest & Hp & Hr). exists rest. split.
    - by rewrite <-Hl, <-Ha.
    - intros s r Hs. apply Hr. by rewrite Hl. }
  intros l l' Hl a a' Ha. split; [by apply H|]. by apply H.
Qed.

Lemma smallest_refl l : smallest l l.
Proof. exists []. rewrite app_nil_r. split; [done|]. intros s r _ H. by apply not_elem_of_nil in H. Qed.

Lemma smallest_nil : smallest [] [].
Proof. apply smallest_refl. Qed.

(** Elements no nearer than every selected one may be ignored. *)
Lemma smallest_skip sel all xs :
  smallest sel all -> (forall s x, s ∈ sel -> x ∈ xs -> key_le s x) -> smallest sel (all ++ xs).
Proof.
  intros (rest & Hp & Hr) Hx. exists (rest ++ xs). split.
  - by rewrite app_assoc, Hp.
  - intros s r Hs [H|H]%elem_of_app; auto.
Qed.

(** A nearer element replaces the farthest selected one. *)
Lemma smallest_replace m sel all x :
  smallest (m :: sel) all -> (forall s, s ∈ sel -> key_le s m) -> key_le x m ->
  smallest (x :: sel) (all ++ [x]).
Proof.
  intros (rest & Hp & Hr) Hm Hx. exists (m :: rest). split.
  - rewrite <-Hp, <-Permutation_cons_append. simpl.
    by rewrite <-(Permutation_middle sel rest m).
  - intros s r Hs Hr'. assert (key_le s m) as Hsm.
    { apply elem_of_cons in Hs as [->|Hs]; auto. }
    apply elem_of_cons in Hr' as [->|Hr']; [done|].
    etrans; [exact Hsm|]. apply Hr; [apply elem_of_cons; by left|done].
Qed.

Lemma smallest_elem sel all x : smallest sel all -> x ∈ sel -> x ∈ all.
Proof. intros (rest & <- & _) Hx. apply elem_of_app. by left. Qed.

Lemma smallest_incl sel all (P : A -> Prop) :
  smallest sel all -> (forall x, x ∈ all -> P x) -> forall x, x ∈ sel -> P x.
Proof. intros Hs HP x Hx. by apply HP, (smallest_elem sel). Qed.

(** The keys of a sorted list are determined by its elements. *)
Lemma sorted_keys_unique l l' :
  StronglySorted key_le l -> StronglySorted key_le l' -> l ≡ₚ l' -> map key l = map key l'.
Proof.
  assert (forall l, StronglySorted key_le l -> StronglySorted Z.le (map key l)) as Hk.
  { induction 1 as [|x l0 Hl IH Hx]; simpl; constructor; [done|].
    apply List.Forall_map. exact Hx. }
  intros Hl Hl' Hp. apply (StronglySorted_unique Z.le); [by apply Hk|by apply Hk|].
  by apply Permutation_map.
Qed.

(** Two sorted selections of the same size agree on their keys, so the distances of
    the nearest elements are determined even when ties leave the elements open. *)
Lemma smallest_keys sel sel' all :
  smallest sel all -> smallest sel' all -> length sel = length sel' ->
  StronglySorted key_le sel -> StronglySorted key_le sel' -> map key sel = map key sel'.
Proof.
  intros (r & Hp & Hr) (r' & Hp' & Hr') Hlen Hs Hs'.
  assert (map key (sel ++ merge_sort key_le r) = map key (sel' ++ merge_sort key_le r')) as H.
  { apply sorted_keys_unique.
    - apply StronglySorted_app_2; [|done|by apply (StronglySorted_merge_sort _)].
      intros x y Hx Hy. apply Hr; [done|]. by rewrite <-(merge_sort_Permutation key_le r).
    - apply StronglySorted_app_2; [|done|by apply (StronglySorted_merge_sort _)].
      intros x y Hx Hy. apply Hr'; [done|]. by rewrite <-(merge_sort_Permutation key_le r').
    - rewrite !merge_sort_Permutation. by rewrite Hp, Hp'. }
  rewrite !map_app in H. apply app_inj_1 in H as [H _]; [done|]. by rewrite !length_map.
Qed.

(** Stable insertion: behind the elements of the same key. *)
Fixpoint sinsert (x : A) (l : list A) : list A :=
  match l with
  | [] => [x]
  | y :: l' => if key x <? key y then x :: l else y :: sinsert x l'
  end.

Lemma sinsert_perm x l : sinsert x l ≡ₚ x :: l.
Proof.
  induction l as [|y l IH]; simpl; [done|]. destruct (key x <? key y); [done|].
  by rewrite IH, Permutation_swap.
Qed.

Lemma sinsert_length x l : length (sinsert x l) = S (length l).
Proof. by rewrite (sinsert_perm x l). Qed.

Lemma sinsert_sorted x l : StronglySorted key_le l -> StronglySorted key_le (sinsert x l).
Proof.
  induction 1 as [|y l Hl IH Hy]; simpl; [by repeat constructor|].
  destruct (Z.ltb_spec (key x) (key y)) as [Hxy|Hxy].
  - constructor; [by constructor|]. constructor; [unfold key_le; lia|].
    eapply Forall_impl; [exact Hy|]. intros z. unfold key_le. lia.
  - constructor; [done|]. rewrite (sinsert_perm x l). by constructor.
Qed.

(** Keeping the first [n] commutes with inserting. *)
Lemma take_sinsert n x l : take n (sinsert x (take n l)) = take n (sinsert x l).
Proof.
  revert n. induction l as [|y l IH]; intros [|n]; simpl; [done|done|done|].
  destruct (key x <? key y); simpl; f_equal; [|apply IH].
  destruct n; simpl; [done|]. f_equal. rewrite take_take. f_equal. lia.
Qed.

(** An element no nearer than all others goes to the end. *)
Lemma sinsert_last x l : (forall y, y ∈ l -> key_le y x) -> sinsert x l = l ++ [x].
Proof.
  induction l as [|y l IH]; intros H; simpl; [done|].
  assert (key_le y x) as Hy by (apply H; apply elem_of_cons; by left). unfold key_le in Hy.
  destruct (Z.ltb_spec (key x) (key y)); [lia|]. rewrite IH; [done|].
  intros z Hz. apply H. apply elem_of_cons. by right.
Qed.

Lemma sinsert_before x l m : key x < key m -> sinsert x (l ++ [m]) = sinsert x l ++ [m].
Proof.
  intros Hm. induction l as [|y l IH]; simpl.
  - destruct (Z.ltb_spec (key x) (key m)); [done|lia].
  - destruct (key x <? key y); [done|]. by rewrite IH.
Qed.

(** The [n] nearest of a stream, earlier elements first among equals. *)
Definition nearest_of (n : nat) (init l : list A) : list A :=
  take n (foldl (fun s x => sinsert x s) init l).

Lemma nearest_of_step n init l x :
  nearest_of n init (l ++ [x]) = take n (sinsert x (nearest_of n init l)).
Proof. unfold nearest_of. rewrite foldl_app. simpl. by rewrite take_sinsert. Qed.

Lemma nearest_of_app n init l l' :
  nearest_of n init (l ++ l') = nearest_of n (nearest_of n init l) l'.
Proof.
  induction l' as [|x l' IH] using rev_ind.
  - rewrite app_nil_r. unfold nearest_of. simpl. rewrite take_take. f_equal. lia.
  - by rewrite app_assoc, !nearest_of_step, IH.
Qed.

Lemma insertion_sorted init l :
  StronglySorted key_le init -> StronglySorted key_le (foldl (fun s x => sinsert x s) init l).
Proof. revert init. induction l; intros init H; simpl; [done|]. auto using sinsert_sorted. Qed.

Lemma insertion_perm init l : foldl (fun s x => sinsert x s) init l ≡ₚ init ++ l.
Proof.
  revert init. induction l as [|x l IH]; intros init; simpl; [by rewrite app_nil_r|].
  rewrite IH, sinsert_perm. simpl. by rewrite Permutation_middle.
Qed.

Lemma nearest_of_sorted n init l :
  StronglySorted key_le init -> StronglySorted key_le (nearest_of n init l).
Proof.
  intros H. apply (insertion_sorted init l) in H. unfold nearest_of.
  rewrite <-(take_drop n (foldl _ _ _)) in H. by apply StronglySorted_app_1_l in H.
Qed.

Lemma nearest_of_length n init l : (n <= length init)%nat -> length (nearest_of n init l) = n.
Proof.
  intros H. unfold nearest_of. rewrite length_take, (insertion_perm init l), length_app. lia.
Qed.

Lemma nearest_of_smallest n init l :
  StronglySorted key_le init -> smallest (nearest_of n init l) (init ++ l).
Proof.
  intros H. exists (drop n (foldl (fun s x => sinsert x s) init l)). split.
  - unfold nearest_of. by rewrite take_drop, insertion_perm.
  - intros s r Hs Hr. apply (insertion_sorted init l) in H.
    rewrite <-(take_drop n (foldl _ _ _)) in H. by eapply StronglySorted_app_1_elem_of.
Qed.
End Selection.
