(* ===== verification/Index.v ===== *)
(** * internal/index: the index file

    [Open] of [internal/index/index.go] over the bytes the file maps: the header, its
    three error paths, and the seven sections cut out of the mapping.  Opening and
    mapping the file (and the [madvise] hints) are the operating system's: the model
    starts from the mapped bytes.  [i16Slice] and [u32Slice] build views over raw memory
    without a bounds check; a view's elements behind the end of the mapping are not in
    the model's list, so that reading one panics (the program faults there).

    [Open] is Go's: a section that starts behind the end of the file, or labels that reach
    over it, fail the bounds check of the slice expression and panic.  The image is built
    without these checks ([-gcflags=-B] in the Dockerfile): [Open_unchecked] is the same
    code without them. *)

From S2P Require Import Prelude Floats.

Module Index.

Local Open Scope Z_scope.

(** ** Constants *)

Definition Magic : Z := 0x52494E48.
Definition Version : Z := 4.
Definition DIMS : nat := 14.
Definition PADDED_DIMS : nat := 16.
Definition LANES : nat := 8.
Definition BlockBytes : Z := 256.       (* PADDED_DIMS * LANES * 2 *)
Definition NPROBE : nat := 1.
Definition RepairExtra : nat := 32.
Definition MaxK : nat := 4096.
Definition SeenWords : nat := 64.       (* (MaxK + 63) / 64 *)
Definition RepairMin : Z := 1.
Definition RepairMax : Z := 4.
Definition QuantMax : Z := 10000.
Definition EarlyDist : Z := 14000000.   (* 1000 * 1000 * DIMS *)
Definition HeaderSize : Z := 64.

(** ** The code *)

Record Header : Type := mkHeader {
  HdrMagic : Z; HdrVersion : Z; HdrK : Z; HdrN : Z; HdrNBlocks : Z;
  HdrScale : float
}.

Record Index : Type := mkIndex {
  Hdr : Header;
  Centroids : list Z;      (* []int16 *)
  NCentroidBlk : Z;
  BBoxMin : list Z;        (* []int16 *)
  BBoxMax : list Z;        (* []int16 *)
  BlockOffsets : list Z;   (* []uint32 *)
  Counts : list Z;         (* []uint32 *)
  Vectors : list Z;        (* []int16 *)
  Labels : list Z;         (* []byte *)
  K : Z;
  N : Z;
  NBlocks : Z
}.

(** [binary.LittleEndian.Uint32] of a four-byte slice. *)
Definition Uint32 (b : list byte) : res Z :=
  b3 ← get b 3; b2 ← get b 2; b1 ← get b 1; b0 ← get b 0;
  Ok (bval b0 + bval b1 * 256 + bval b2 * 65536 + bval b3 * 16777216).

(** The little-endian [int16] and [uint32] values a memory region holds. *)
Fixpoint words16 (b : list byte) : list Z :=
  match b with
  | b0 :: b1 :: b' => i16 (bval b0 + bval b1 * 256) :: words16 b'
  | _ => []
  end.
Fixpoint words32 (b : list byte) : list Z :=
  match b with
  | b0 :: b1 :: b2 :: b3 :: b' =>
      (bval b0 + bval b1 * 256 + bval b2 * 65536 + bval b3 * 16777216) :: words32 b'
  | _ => []
  end.

Definition i16Slice (buf : list byte) (n : Z) : list Z :=
  if n =? 0 then [] else words16 (take (Z.to_nat (2 * n)) buf).
Definition u32Slice (buf : list byte) (n : Z) : list Z :=
  if n =? 0 then [] else words32 (take (Z.to_nat (4 * n)) buf).

(** [float32FromBits]: the IEEE 754 single-precision value of 32 bits. *)
Definition float32FromBits (b : Z) : float :=
  let s := Z.testbit b 31 in
  let e := Z.land (Z.shiftr b 23) 255 in
  let m := Z.land b 8388607 in
  if e =? 255 then (if m =? 0 then S754_infinity s else S754_nan)
  else
    match (if e =? 0 then m else m + 8388608) with
    | Zpos p => S754_finite s p (if e =? 0 then -149 else e - 150)
    | _ => S754_zero s
    end.

(** The loop that touches every page of the mapping; [acc] is discarded. *)
Definition touch_pages (data : list byte) : res Z :=
  foldM (fun acc p => b ← get data (p * 4096); Ok (Z.lxor acc (bval b))) 0
    (seq 0 (Z.to_nat ((Z.of_nat (length data) + 4095) / 4096))).

(** The second half of [Open]: cutting the sections, once the header is accepted. *)
Definition Open_sections (data : list byte) (hdr : Header) : res Index :=
  let size := Z.of_nat (length data) in
  let k := HdrK hdr in
  let n := HdrN hdr in
  let nb := HdrNBlocks hdr in
  let cur := HeaderSize in
  let ncb := godiv (k + 8 - 1) 8 in
  r ← slice data cur size; let centroids := i16Slice r (ncb * 16 * 8) in
  let cur := cur + ncb * BlockBytes in
  r ← slice data cur size; let bboxMin := i16Slice r (k * 16) in
  let cur := cur + k * 16 * 2 in
  r ← slice data cur size; let bboxMax := i16Slice r (k * 16) in
  let cur := cur + k * 16 * 2 in
  r ← slice data cur size; let blockOffsets := u32Slice r (k + 1) in
  let cur := cur + (k + 1) * 4 in
  r ← slice data cur size; let counts := u32Slice r k in
  let cur := cur + k * 4 in
  r ← slice data cur size; let vectors := i16Slice r (nb * 16 * 8) in
  let cur := cur + nb * BlockBytes in
  labels ← slice data cur (cur + nb * 8);
  _ ← touch_pages data;
  Ok (mkIndex hdr centroids ncb bboxMin bboxMax blockOffsets counts vectors
        (map bval labels) k n nb).

(** The first half: the header, its magic and its version. *)
Definition Open_header (data : list byte) : res Header :=
  let size := Z.of_nat (length data) in
  if size <? HeaderSize then Fail ErrTooSmall
  else
    s0 ← slice data 0 4; magic ← Uint32 s0;
    s1 ← slice data 4 8; version ← Uint32 s1;
    s2 ← slice data 8 12; k ← Uint32 s2;
    s3 ← slice data 12 16; n ← Uint32 s3;
    s4 ← slice data 16 20; nb ← Uint32 s4;
    s5 ← slice data 20 24; scale ← Uint32 s5;
    let hdr := mkHeader magic version k n nb (float32FromBits scale) in
    if negb (magic =? Magic) then Fail (ErrBadMagic magic)
    else if negb (version =? Version) then Fail (ErrBadVersion version)
    else Ok hdr.

Definition Open (data : list byte) : res Index :=
  hdr ← Open_header data;
  Open_sections data hdr.

(** The byte ranges (start and length) of the seven sections, as the second half of [Open]
    computes them from the header, whatever the size of the file. *)
Definition views (hdr : Header) : list (Z * Z) :=
  let k := HdrK hdr in
  let nb := HdrNBlocks hdr in
  let cur := HeaderSize in
  let ncb := godiv (k + 8 - 1) 8 in
  let centroids := (cur, ncb * 16 * 8 * 2) in
  let cur := cur + ncb * BlockBytes in
  let bboxMin := (cur, k * 16 * 2) in
  let cur := cur + k * 16 * 2 in
  let bboxMax := (cur, k * 16 * 2) in
  let cur := cur + k * 16 * 2 in
  let blockOffsets := (cur, (k + 1) * 4) in
  let cur := cur + (k + 1) * 4 in
  let counts := (cur, k * 4) in
  let cur := cur + k * 4 in
  let vectors := (cur, nb * 16 * 8 * 2) in
  let cur := cur + nb * BlockBytes in
  let labels := (cur, nb * 8) in
  [centroids; bboxMin; bboxMax; blockOffsets; counts; vectors; labels].

(** [Open] compiled without bounds checks: behind an accepted header nothing stops it, and
    the views it returns have the lengths of the header.  (What the compiled code reads
    through a view that does not lie in the file, it does not say.) *)
Definition Open_unchecked (data : list byte) : res (Header * list (Z * Z)) :=
  hdr ← Open_header data;
  Ok (hdr, views hdr).

(** ** Sizes *)

Definition ncb_of (k : Z) : Z := (k + 7) / 8.

(** The bytes an index of [k] clusters and [nb] blocks takes. *)
Definition file_size (k nb : Z) : Z :=
  64 + ncb_of k * 256 + k * 32 + k * 32 + (k + 1) * 4 + k * 4 + nb * 256 + nb * 8.

Lemma words16_length b : length (words16 b) = Nat.div2 (length b).
Proof.
  enough (forall n b, (length b <= n)%nat -> length (words16 b) = Nat.div2 (length b)) by eauto.
  induction n as [|n IH]; intros [|b0 [|b1 b']] H; simpl in *; try done; try lia.
  f_equal. apply IH. lia.
Qed.

Lemma words32_length b n : length b = (4 * n)%nat -> length (words32 b) = n.
Proof.
  revert b. induction n as [|n IH]; intros b Hb.
  - by destruct b.
  - destruct b as [|b0 [|b1 [|b2 [|b3 b]]]]; simpl in Hb; try lia.
    simpl. f_equal. apply IH. lia.
Qed.

Lemma i16Slice_length buf n :
  0 <= n -> 2 * n <= Z.of_nat (length buf) -> length (i16Slice buf n) = Z.to_nat n.
Proof.
  intros Hn Hb. unfold i16Slice. destruct (Z.eqb_spec n 0) as [->|]; [done|].
  rewrite words16_length, length_take_le by lia.
  replace (Z.to_nat (2 * n)) with (2 * Z.to_nat n)%nat by lia. apply Nat.div2_double.
Qed.

Lemma u32Slice_length buf n :
  0 <= n -> 4 * n <= Z.of_nat (length buf) -> length (u32Slice buf n) = Z.to_nat n.
Proof.
  intros Hn Hb. unfold u32Slice. destruct (Z.eqb_spec n 0) as [->|]; [done|].
  apply words32_length. rewrite length_take_le by lia. lia.
Qed.

Lemma Uint32_ok b : length b = 4%nat -> returns (Uint32 b) (inU 32).
Proof.
  intros H. destruct b as [|b0 [|b1 [|b2 [|b3 [|]]]]]; try discriminate H. cbn.
  pose proof (bval_range b0). pose proof (bval_range b1).
  pose proof (bval_range b2). pose proof (bval_range b3). unfold inU. lia.
Qed.

Lemma touch_pages_ok data : returns (touch_pages data) (fun _ => True).
Proof.
  apply (wp_for _ (fun _ _ => True)); [done|]. intros k s Hk _.
  assert (k * 4096 < length data)%nat as Hlt.
  { pose proof (Z.div_mod (Z.of_nat (length data) + 4095) 4096).
    pose proof (Z.mod_pos_bound (Z.of_nat (length data) + 4095) 4096). lia. }
  rewrite Nat.add_0_l. by rewrite get_total, bind_Ok.
Qed.

(** A 32-bit field of the header. *)
Definition field (data : list byte) (off : nat) : Z :=
  match Uint32 (take 4 (drop off data)) with Ok v => v | _ => 0 end.

Lemma header_field data off :
  64 <= Z.of_nat (length data) -> (off <= 60)%nat ->
  slice data (Z.of_nat off) (Z.of_nat off + 4) = Ok (take 4 (drop off data)) /\
  Uint32 (take 4 (drop off data)) = Ok (field data off) /\ inU 32 (field data off).
Proof.
  intros Hl Ho. split; [|].
  - rewrite slice_ok by lia. f_equal. rewrite Nat2Z.id. f_equal. lia.
  - assert (length (take 4 (drop off data)) = 4%nat) as H4
      by (rewrite length_take, length_drop; lia).
    apply Uint32_ok, returns_inv in H4 as (v & Hv & Hr). unfold field. by rewrite Hv.
Qed.

(** The header of a file of at least 64 bytes. *)
Definition header_of (data : list byte) : Header :=
  mkHeader (field data 0) (field data 4) (field data 8) (field data 12) (field data 16)
    (float32FromBits (field data 20)).

Lemma Open_header_eq data :
  HeaderSize <= Z.of_nat (length data) ->
  Open_header data =
    if negb (field data 0 =? Magic) then Fail (ErrBadMagic (field data 0))
    else if negb (field data 4 =? Version) then Fail (ErrBadVersion (field data 4))
    else Ok (header_of data).
Proof.
  unfold HeaderSize. intros Hl. unfold Open_header. unfold HeaderSize.
  destruct (Z.ltb_spec (Z.of_nat (length data)) 64); [lia|].
  assert (forall off, (off <= 60)%nat ->
    slice data (Z.of_nat off) (Z.of_nat (off + 4)) = Ok (take 4 (drop off data)) /\
    Uint32 (take 4 (drop off data)) = Ok (field data off)) as Hf.
  { intros off Ho. destruct (header_field data off Hl Ho) as (S & F & _).
    split; [by rewrite Nat2Z.inj_add|done]. }
  destruct (Hf 0%nat ltac:(lia)) as [S0 F0].
  change (slice data 0 4 = Ok (take 4 (drop 0 data))) in S0.
  destruct (Hf 4%nat ltac:(lia)) as [S1 F1].
  change (slice data 4 8 = Ok (take 4 (drop 4 data))) in S1.
  destruct (Hf 8%nat ltac:(lia)) as [S2 F2].
  change (slice data 8 12 = Ok (take 4 (drop 8 data))) in S2.
  destruct (Hf 12%nat ltac:(lia)) as [S3 F3].
  change (slice data 12 16 = Ok (take 4 (drop 12 data))) in S3.
  destruct (Hf 16%nat ltac:(lia)) as [S4 F4].
  change (slice data 16 20 = Ok (take 4 (drop 16 data))) in S4.
  destruct (Hf 20%nat ltac:(lia)) as [S5 F5].
  change (slice data 20 24 = Ok (take 4 (drop 20 data))) in S5.
  rewrite S0, bind_Ok, F0, bind_Ok, S1, bind_Ok, F1, bind_Ok, S2, bind_Ok, F2, bind_Ok,
    S3, bind_Ok, F3, bind_Ok, S4, bind_Ok, F4, bind_Ok, S5, bind_Ok, F5, bind_Ok. done.
Qed.

(** The second halves, behind an accepted header. *)
Lemma Open_eq data :
  HeaderSize <= Z.of_nat (length data) -> field data 0 = Magic -> field data 4 = Version ->
  Open data = Open_sections data (header_of data) /\
  Open_unchecked data = Ok (header_of data, views (header_of data)).
Proof.
  intros Hl H0 H4. unfold Open, Open_unchecked. rewrite Open_header_eq, H0, H4 by done. by split.
Qed.

(** *** The contents of the sections

    Little-endian integers at an offset, and the section of [n] of them from [off] on. *)
Definition byte_at (data : list byte) (o : nat) : Z := bval (data !!! o).
Definition le16 (data : list byte) (o : nat) : Z := i16 (byte_at data o + byte_at data (o + 1) * 256).
Definition le32 (data : list byte) (o : nat) : Z :=
  byte_at data o + byte_at data (o + 1) * 256 + byte_at data (o + 2) * 65536 + byte_at data (o + 3) * 16777216.
Definition section (value : list byte -> nat -> Z) (width : nat) (data : list byte) (off n : Z) : list Z :=
  map (fun j => value data (Z.to_nat off + width * j)%nat) (seq 0 (Z.to_nat n)).

Lemma lookup_drop_total {A} `{Inhabited A} (l : list A) n i : drop n l !!! i = l !!! (n + i)%nat.
Proof. by rewrite !list_lookup_total_alt, lookup_drop. Qed.

Lemma lookup_take_total {A} `{Inhabited A} (l : list A) n i : (i < n)%nat -> take n l !!! i = l !!! i.
Proof. intros Hi. by rewrite !list_lookup_total_alt, lookup_take_lt. Qed.

Lemma words16_section b n : length b = (2 * n)%nat -> words16 b = map (fun j => le16 b (2 * j)) (seq 0 n).
Proof.
  revert b. induction n as [|n IH]; intros b Hb; [by destruct b|].
  destruct b as [|b0 [|b1 b]]; [simpl in Hb; lia..|]. cbn [words16 seq map]. f_equal.
  rewrite (IH b) by (simpl in Hb; lia). rewrite <-seq_shift, map_map. apply map_ext. intros j.
  by replace (2 * S j)%nat with (S (S (2 * j))) by lia.
Qed.

Lemma words32_section b n : length b = (4 * n)%nat -> words32 b = map (fun j => le32 b (4 * j)) (seq 0 n).
Proof.
  revert b. induction n as [|n IH]; intros b Hb; [by destruct b|].
  destruct b as [|b0 [|b1 [|b2 [|b3 b]]]]; [simpl in Hb; lia..|]. cbn [words32 seq map]. f_equal.
  rewrite (IH b) by (simpl in Hb; lia). rewrite <-seq_shift, map_map. apply map_ext. intros j.
  by replace (4 * S j)%nat with (S (S (S (S (4 * j))))) by lia.
Qed.

Lemma i16Slice_section data cur n :
  0 <= cur -> 0 <= n -> cur + 2 * n <= Z.of_nat (length data) ->
  i16Slice (drop (Z.to_nat cur) data) n = section le16 2 data cur n.
Proof.
  intros Hc Hn Hl. unfold i16Slice, section. destruct (Z.eqb_spec n 0) as [->|]; [done|].
  rewrite (words16_section _ (Z.to_nat n)) by (rewrite length_take, length_drop; lia).
  apply map_ext_in. intros j Hj%in_seq. unfold le16, byte_at.
  by rewrite !lookup_take_total, !lookup_drop_total, <-Nat.add_assoc by lia.
Qed.

Lemma u32Slice_section data cur n :
  0 <= cur -> 0 <= n -> cur + 4 * n <= Z.of_nat (length data) ->
  u32Slice (drop (Z.to_nat cur) data) n = section le32 4 data cur n.
Proof.
  intros Hc Hn Hl. unfold u32Slice, section. destruct (Z.eqb_spec n 0) as [->|]; [done|].
  rewrite (words32_section _ (Z.to_nat n)) by (rewrite length_take, length_drop; lia).
  apply map_ext_in. intros j Hj%in_seq. unfold le32, byte_at.
  by rewrite !lookup_take_total, !lookup_drop_total, <-!Nat.add_assoc by lia.
Qed.

Lemma bytes_section data cur n :
  0 <= cur -> 0 <= n -> cur + n <= Z.of_nat (length data) ->
  map bval (take (Z.to_nat n) (drop (Z.to_nat cur) data)) = section byte_at 1 data cur n.
Proof.
  intros Hc Hn Hl. apply list_eq_same_length with (Z.to_nat n).
  { unfold section. by rewrite length_map, length_seq. }
  { rewrite length_map, length_take, length_drop. lia. }
  intros i x y Hi. unfold section. rewrite !list_lookup_fmap, lookup_seq_lt by done.
  rewrite lookup_take_lt, lookup_drop by done. intros Hx Hy. cbn [fmap option_fmap option_map] in Hy.
  rewrite Nat.mul_1_l, Nat.add_0_l in Hy. apply (inj Some) in Hy as <-. unfold byte_at. rewrite list_lookup_total_alt.
  destruct (data !! (Z.to_nat cur + i)%nat); [|done]. cbn in Hx |- *. congruence.
Qed.

Lemma field_le32 data off :
  64 <= Z.of_nat (length data) -> (off <= 60)%nat -> field data off = le32 data off.
Proof.
  intros Hl Ho. unfold field. assert (length (take 4 (drop off data)) = 4%nat) as H4
    by (rewrite length_take, length_drop; lia).
  assert (forall i, (i < 4)%nat -> take 4 (drop off data) !!! i = data !!! (off + i)%nat) as Hi
    by (intros i Hi; by rewrite lookup_take_total, lookup_drop_total).
  destruct (take 4 (drop off data)) as [|b0 [|b1 [|b2 [|b3 [|]]]]]; try discriminate H4. cbn.
  unfold le32, byte_at. rewrite <-(Hi 1%nat), <-(Hi 2%nat), <-(Hi 3%nat) by lia.
  rewrite <-(Nat.add_0_r off), <-(Hi 0%nat) by lia. done.
Qed.

(** What an accepted file is opened as: the header's fields are its first words, and every
    section holds the little-endian values of its own range of the file, one after the
    other, as many as the header announces. *)
Definition sections_ok (data : list byte) (ix : Index) : Prop :=
  let k := le32 data 8 in
  let nb := le32 data 16 in
  let centroids := 64 in
  let bboxMin := centroids + ncb_of k * 256 in
  let bboxMax := bboxMin + k * 32 in
  let blockOffsets := bboxMax + k * 32 in
  let counts := blockOffsets + (k + 1) * 4 in
  let vectors := counts + k * 4 in
  let labels := vectors + nb * 256 in
  Hdr ix = mkHeader Magic Version k (le32 data 12) nb (float32FromBits (le32 data 20)) /\
  K ix = k /\ N ix = le32 data 12 /\ NBlocks ix = nb /\ NCentroidBlk ix = ncb_of k /\
  Centroids ix = section le16 2 data centroids (ncb_of k * 128) /\
  BBoxMin ix = section le16 2 data bboxMin (k * 16) /\
  BBoxMax ix = section le16 2 data bboxMax (k * 16) /\
  BlockOffsets ix = section le32 4 data blockOffsets (k + 1) /\
  Counts ix = section le32 4 data counts k /\
  Vectors ix = section le16 2 data vectors (nb * 128) /\
  Labels ix = section byte_at 1 data labels (nb * 8).

Lemma slice_from (data : list byte) cur :
  0 <= cur -> slice data cur (Z.of_nat (length data)) =
    if Z.of_nat (length data) <? cur then Panic else Ok (drop (Z.to_nat cur) data).
Proof.
  intros Hc. unfold slice. destruct (Z.ltb_spec (Z.of_nat (length data)) cur).
  - destruct (_ && _) eqn:E; [lia|done].
  - destruct (_ && _) eqn:E; [|lia]. f_equal. apply take_ge. rewrite length_drop. lia.
Qed.

Lemma Open_sections_short data hdr :
  0 <= HdrK hdr -> 0 <= HdrNBlocks hdr ->
  Z.of_nat (length data) < file_size (HdrK hdr) (HdrNBlocks hdr) ->
  Open_sections data hdr = Panic.
Proof.
  unfold file_size, Open_sections, BlockBytes, HeaderSize, godiv. intros Hk Hnb Hs.
  rewrite Z.quot_div_nonneg by lia. replace (HdrK hdr + 8 - 1) with (HdrK hdr + 7) by lia.
  fold (ncb_of (HdrK hdr)). assert (0 <= ncb_of (HdrK hdr)) by (apply Z.div_pos; lia).
  rewrite !slice_from by lia. repeat match goal with
    |- context [Z.of_nat (length data) <? ?c] => destruct (Z.of_nat (length data) <? c); [done|]
  end.
  rewrite !bind_Ok. unfold slice.
  match goal with |- context [if ?b then _ else _] => destruct b eqn:E end; [lia|done].
Qed.

Lemma Open_sections_full data :
  64 <= Z.of_nat (length data) -> field data 0 = Magic -> field data 4 = Version ->
  0 <= field data 8 -> 0 <= field data 16 ->
  file_size (field data 8) (field data 16) <= Z.of_nat (length data) ->
  returns (Open_sections data (header_of data)) (sections_ok data).
Proof.
  unfold file_size, Open_sections, BlockBytes, HeaderSize, godiv, header_of.
  cbn [HdrK HdrN HdrNBlocks]. intros Hl H0 H4 Hk Hnb Hs. rewrite H0, H4.
  unfold sections_ok. rewrite <-!field_le32 by (done || lia).
  set (k := field data 8) in *. set (nb := field data 16) in *.
  rewrite Z.quot_div_nonneg by lia. replace (k + 8 - 1) with (k + 7) by lia.
  fold (ncb_of k). assert (0 <= ncb_of k) by (apply Z.div_pos; lia).
  rewrite !slice_from by lia.
  repeat match goal with
    |- context [Z.of_nat (length data) <? ?c] => destruct (Z.ltb_spec (Z.of_nat (length data)) c); [lia|]
  end.
  rewrite !bind_Ok.
  rewrite slice_ok, bind_Ok by lia. apply wp_bind.
  eapply wp_conseq; [apply touch_pages_ok|]. intros _ _. apply wp_ok. cbv zeta.
  cbn [Hdr K N NBlocks NCentroidBlk Centroids BBoxMin BBoxMax BlockOffsets Counts Vectors Labels].
  split; [done|]. split; [done|]. split; [done|]. split; [done|]. split; [done|].
  rewrite !i16Slice_section, !u32Slice_section by lia.
  split_and!; try (f_equal; lia).
  rewrite <-bytes_section by lia. do 3 f_equal; [lia|]. f_equal. lia.
Qed.

(** The views end where the file does. *)
Lemma views_end hdr size :
  0 <= HdrK hdr -> 0 <= HdrNBlocks hdr -> HeaderSize <= size ->
  if size <? file_size (HdrK hdr) (HdrNBlocks hdr)
  then Exists (fun v => v.1 <= size < v.1 + v.2) (views hdr)
  else Forall (fun v => HeaderSize <= v.1 /\ v.1 + v.2 <= size) (views hdr).
Proof.
  intros Hk Hnb Hs. revert Hs. unfold views, file_size, BlockBytes, HeaderSize, godiv. cbv zeta. intros Hs.
  rewrite Z.quot_div_nonneg by lia. replace (HdrK hdr + 8 - 1) with (HdrK hdr + 7) by lia.
  fold (ncb_of (HdrK hdr)). assert (0 <= ncb_of (HdrK hdr)) by (apply Z.div_pos; lia).
  destruct (Z.ltb_spec size (64 + ncb_of (HdrK hdr) * 256 + HdrK hdr * 32 + HdrK hdr * 32 +
    (HdrK hdr + 1) * 4 + HdrK hdr * 4 + HdrNBlocks hdr * 256 + HdrNBlocks hdr * 8)).
  - repeat match goal with |- Exists _ ((?start, ?len) :: _) =>
      destruct (Z.lt_ge_cases size (start + len)); [apply Exists_cons_hd; cbn [fst snd]; lia|apply Exists_cons_tl]
    end. lia.
  - repeat (apply List.Forall_cons; [cbn [fst snd]; lia|]). apply List.Forall_nil.
Qed.

Lemma field_range data off :
  HeaderSize <= Z.of_nat (length data) -> (off <= 60)%nat -> inU 32 (field data off).
Proof. intros Hl Ho. by apply (header_field data off Hl Ho). Qed.

(** ** Properties *)


End Index.
