(* ===== verification/Kernel.v ===== *)
(** * internal/knn: the distance kernels

    The interface [Kernel] of the four operations the search calls on blocks of eight
    vectors and on bounding boxes, its laws, and its two implementations: the portable
    one of [knn_other.go] and [knn.go], and the AVX2 one of [knn_amd64.go] and
    [knn_amd64.s], modelled instruction by instruction on lanes.  Both satisfy the laws
    on quantized data, so they compute the same distances and prune the same blocks.

    A block holds eight vectors of sixteen [int16], interleaved in pairs: the dimensions
    2p and 2p+1 of lane l are at 128 blk + 16 p + 2 l and the next word. *)

From S2P Require Import Prelude Floats Index.

Module Kernel.
Import Index.

Local Open Scope Z_scope.

Definition PADDED : nat := 16.
Definition PAIRS : nat := 8.

(** ** The interface *)

Class Kernel : Type := {
  blkDist : list Z -> nat -> list Z -> res (list Z);
  blkDistPrune : list Z -> nat -> list Z -> Z -> res (list Z * bool);
  bboxLowerBoundFast : list Z -> Index -> Z -> res Z;
  prefetchBlock : list Z -> nat -> res unit
}.

(** ** What the kernels compute *)

(** A coordinate, a vector and the squared distance of a query to it. *)
Definition word (blk l d : nat) : nat := (blk * 128 + d / 2 * 16 + l * 2 + d mod 2)%nat.
Definition vec (vectors : list Z) (blk l : nat) : list Z :=
  map (fun d => vectors !!! word blk l d) (seq 0 16).

Definition sq (x : Z) : Z := x * x.
Definition sqdist (q v : list Z) : Z :=
  foldr (fun '(a, b) s => sq (a - b) + s) 0 (zip q v).

(** The contribution of pair [p] and the partial sums the prune test looks at. *)
Definition pairsq (q vectors : list Z) (blk l p : nat) : Z :=
  sq (q !!! (p * 2)%nat - vectors !!! (blk * 128 + p * 16 + l * 2)%nat) +
  sq (q !!! (p * 2 + 1)%nat - vectors !!! (blk * 128 + p * 16 + l * 2 + 1)%nat).
Fixpoint psum (q vectors : list Z) (blk l k : nat) : Z :=
  match k with O => 0 | S p => psum q vectors blk l p + pairsq q vectors blk l p end.

Definition dists (q vectors : list Z) (blk : nat) : list Z :=
  map (fun l => psum q vectors blk l 8) (seq 0 LANES).
Definition no_dists : list Z := repeat 0 LANES.

(** All eight lanes have reached the threshold after [k] pairs. *)
Definition over (q vectors : list Z) (blk : nat) (threshold : Z) (k : nat) : bool :=
  forallb (fun l => threshold <=? psum q vectors blk l k) (seq 0 LANES).

Definition prune_result (q vectors : list Z) (blk : nat) (threshold : Z) : list Z * bool :=
  if over q vectors blk threshold 3 || over q vectors blk threshold 5
  then (no_dists, true) else (dists q vectors blk, false).

(** The squared distance of a query to a box. *)
Definition gap (q mn mx : Z) : Z := Z.max 0 (Z.max (mn - q) (q - mx)).
Fixpoint boxsum (q mn mx : list Z) (n : nat) : Z :=
  match n with O => 0 | S i => boxsum q mn mx i + sq (gap (q !!! i) (mn !!! i) (mx !!! i)) end.
Definition boxdist (q mn mx : list Z) : Z := boxsum q mn mx 16.

(** Row [c] of a table of sixteen columns. *)
Definition row (l : list Z) (c : nat) : list Z := take 16 (drop (c * 16) l).

(** ** The laws *)

Definition quantized (l : list Z) : Prop := Forall (fun x => -10000 <= x <= 10000) l.

Class KernelLaws (K : Kernel) : Prop := {
  blkDist_law q vectors blk :
    length q = 16%nat -> quantized q -> quantized vectors ->
    (blk * 128 + 128 <= length vectors)%nat ->
    blkDist vectors blk q = Ok (dists q vectors blk);
  blkDistPrune_law q vectors blk threshold :
    length q = 16%nat -> quantized q -> quantized vectors ->
    (blk * 128 + 128 <= length vectors)%nat ->
    blkDistPrune vectors blk q threshold = Ok (prune_result q vectors blk threshold);
  bbox_law q ix c :
    length q = 16%nat -> quantized q ->
    quantized (row (BBoxMin ix) (Z.to_nat c)) -> quantized (row (BBoxMax ix) (Z.to_nat c)) ->
    0 <= c < 4294967296 ->
    (Z.to_nat c * 16 + 16 <= length (BBoxMin ix))%nat ->
    (Z.to_nat c * 16 + 16 <= length (BBoxMax ix))%nat ->
    Forall2 Z.le (row (BBoxMin ix) (Z.to_nat c)) (row (BBoxMax ix) (Z.to_nat c)) ->
    bboxLowerBoundFast q ix c =
      Ok (boxdist q (row (BBoxMin ix) (Z.to_nat c)) (row (BBoxMax ix) (Z.to_nat c)));
  prefetch_law vectors blk : prefetchBlock vectors blk = Ok tt;
  blkDist_halts q vectors blk : halts (blkDist vectors blk q);
  blkDistPrune_halts q vectors blk threshold : halts (blkDistPrune vectors blk q threshold);
  bbox_halts q ix c : halts (bboxLowerBoundFast q ix c)
}.
#[global] Hint Resolve blkDist_halts blkDistPrune_halts bbox_halts : halts.

Lemma prefetch_halts `{KernelLaws} vectors blk : halts (prefetchBlock vectors blk).
Proof. by rewrite prefetch_law. Qed.
#[global] Hint Resolve prefetch_halts : halts.

(** ** The portable kernel: knn_other.go *)

Module Portable.

(** The body of the inner loop, [lane] running over one pair of dimensions: even
    pairs go to [acc0], odd ones to [acc1]. *)
Definition lane_step (vectors : list Z) (q0 q1 : Z) (pairBase p : nat)
    (accs : list Z * list Z) (lane : nat) : res (list Z * list Z) :=
  let '(acc0, acc1) := accs in
  let off := (pairBase + lane * 2)%nat in
  a ← get vectors off;
  b ← get vectors (off + 1)%nat;
  let d0 := i32 (q0 - a) in
  let d1 := i32 (q1 - b) in
  let s := i64 (i32 (d0 * d0) + i32 (d1 * d1)) in
  if Nat.even p then
    x ← get acc0 lane; acc0 ← set acc0 lane (i64 (x + s)); Ok (acc0, acc1)
  else
    x ← get acc1 lane; acc1 ← set acc1 lane (i64 (x + s)); Ok (acc0, acc1).

Definition pair_step (vectors : list Z) (blockBase : nat) (q : list Z)
    (accs : list Z * list Z) (p : nat) : res (list Z * list Z) :=
  q0 ← get q (p * 2)%nat;
  q1 ← get q (p * 2 + 1)%nat;
  let pairBase := (blockBase + p * LANES * 2)%nat in
  foldM (lane_step vectors q0 q1 pairBase p) accs (seq 0 LANES).

(** [out[i] = acc0[i] + acc1[i]] over the eight lanes. *)
Definition merge (acc0 acc1 : list Z) : res (list Z) :=
  foldM (fun out i => x ← get acc0 i; y ← get acc1 i; set out i (i64 (x + y)))
    no_dists (seq 0 LANES).

Definition blkDist (vectors : list Z) (blockIdx : nat) (q : list Z) : res (list Z) :=
  let blockBase := (blockIdx * PADDED * LANES)%nat in
  '(acc0, acc1) ← foldM (pair_step vectors blockBase q) (no_dists, no_dists) (seq 0 PAIRS);
  merge acc0 acc1.

(** The [allOver] loop, which breaks at the first lane below the threshold. *)
Fixpoint all_over (acc0 acc1 : list Z) (threshold : Z) (lanes : list nat) : res bool :=
  match lanes with
  | [] => Ok true
  | lane :: lanes' =>
      x ← get acc0 lane;
      y ← get acc1 lane;
      if i64 (x + y) <? threshold then Ok false else all_over acc0 acc1 threshold lanes'
  end.

Fixpoint prune_loop (vectors : list Z) (blockBase : nat) (q : list Z) (threshold : Z)
    (accs : list Z * list Z) (ps : list nat) : res (list Z * bool) :=
  match ps with
  | [] => out ← merge accs.1 accs.2; Ok (out, false)
  | p :: ps' =>
      accs ← pair_step vectors blockBase q accs p;
      allOver ← (if (p =? 2)%nat || (p =? 4)%nat
                 then all_over accs.1 accs.2 threshold (seq 0 LANES) else Ok false);
      if (allOver : bool) then Ok (no_dists, true)
      else prune_loop vectors blockBase q threshold accs ps'
  end.

Definition blkDistPrune (vectors : list Z) (blockIdx : nat) (q : list Z) (threshold : Z)
    : res (list Z * bool) :=
  let blockBase := (blockIdx * PADDED * LANES)%nat in
  prune_loop vectors blockBase q threshold (no_dists, no_dists) (seq 0 PAIRS).

(** [bboxLowerBound] of [knn.go]. *)
Definition bboxLowerBound (q : list Z) (ix : Index) (cluster : Z) : res Z :=
  let mnBase := cluster * 16 in
  mn ← slice (BBoxMin ix) mnBase (mnBase + 16);
  mx ← slice (BBoxMax ix) mnBase (mnBase + 16);
  foldM (fun sum i =>
    qv ← get q i;
    mnv ← get mn i;
    mxv ← get mx i;
    let gap := if qv <? mnv then i32 (mnv - qv) else if mxv <? qv then i32 (qv - mxv) else 0 in
    Ok (i64 (sum + i64 (gap * gap)))) 0 (seq 0 PADDED).

Definition prefetchBlock (vectors : list Z) (blockIdx : nat) : res unit := Ok tt.

End Portable.

#[global] Instance portable : Kernel := {
  blkDist := Portable.blkDist;
  blkDistPrune := Portable.blkDistPrune;
  bboxLowerBoundFast := Portable.bboxLowerBound;
  prefetchBlock := Portable.prefetchBlock
}.

(** ** The AVX2 kernel: knn_amd64.go and knn_amd64.s

    A 256-bit register is the list of its lanes: sixteen words ([int16]), eight
    doublewords ([int32]) or four quadwords ([int64]).  A load that leaves the array
    panics here (the instruction reads whatever lies there, or faults). *)

Module AVX2.

(** VMOVDQU: sixteen words from memory. *)
Definition vmovdqu (mem : list Z) (off : nat) : res (list Z) :=
  slice mem (Z.of_nat off) (Z.of_nat off + 16).
(** VPBROADCASTD: one pair of words into all eight doublewords. *)
Definition vpbroadcastd (q : list Z) (off : nat) : res (list Z) :=
  x ← get q off; y ← get q (off + 1)%nat;
  Ok (concat (repeat [x; y] 8)).
(** VPSUBW: wrapping subtraction of words, [a - b]. *)
Definition vpsubw (a b : list Z) : list Z := zip_with (fun x y => i16 (x - y)) a b.
(** VPMADDWD: products of words, adjacent ones added, as doublewords. *)
Fixpoint vpmaddwd (a b : list Z) : list Z :=
  match a, b with
  | a0 :: a1 :: a', b0 :: b1 :: b' => i32 (a0 * b0 + a1 * b1) :: vpmaddwd a' b'
  | _, _ => []
  end.
(** VPMOVSXDQ of the low four doublewords, and of the high four after VEXTRACTI128. *)
Definition vpmovsxdq_lo (a : list Z) : list Z := take 4 a.
Definition vpmovsxdq_hi (a : list Z) : list Z := drop 4 a.
(** VPADDQ: wrapping addition of quadwords. *)
Definition vpaddq (a b : list Z) : list Z := zip_with (fun x y => i64 (x + y)) a b.
(** VPCMPGTQ Y6, Y12, Y13: all ones in the lanes where the threshold exceeds. *)
Definition vpcmpgtq (x thr : list Z) : list Z :=
  zip_with (fun x t => if x <? t then -1 else 0) x thr.
Definition vpor (a b : list Z) : list Z := zip_with Z.lor a b.
(** VPTEST sets the zero flag when no bit of the register is set. *)
Definition vptest_z (a : list Z) : bool := forallb (Z.eqb 0) a.
(** VPMAXSW *)
Definition vpmaxsw (a b : list Z) : list Z := zip_with Z.max a b.

(** The accumulators Y8, Y9 (acc0) and Y10, Y11 (acc1). *)
Record accs : Type := mkAccs { Y8 : list Z; Y9 : list Z; Y10 : list Z; Y11 : list Z }.
Definition zero_accs : accs :=
  mkAccs (repeat 0 4) (repeat 0 4) (repeat 0 4) (repeat 0 4).

(** The nine instructions of one pair. *)
Definition pair_step (vectors : list Z) (base : nat) (q : list Z) (r : accs) (p : nat) : res accs :=
  y0 ← vpbroadcastd q (p * 2)%nat;
  y1 ← vmovdqu vectors (base + p * 16)%nat;
  let y2 := vpsubw y0 y1 in
  let y3 := vpmaddwd y2 y2 in
  let y4 := vpmovsxdq_lo y3 in
  let y5 := vpmovsxdq_hi y3 in
  Ok (if Nat.even p
      then mkAccs (vpaddq (Y8 r) y4) (vpaddq (Y9 r) y5) (Y10 r) (Y11 r)
      else mkAccs (Y8 r) (Y9 r) (vpaddq (Y10 r) y4) (vpaddq (Y11 r) y5)).

(** The merge and the two stores to [out]. *)
Definition store (r : accs) : list Z := vpaddq (Y8 r) (Y10 r) ++ vpaddq (Y9 r) (Y11 r).

Definition blkDistAVX2 (vectors : list Z) (blockIdx : nat) (q : list Z) : res (list Z) :=
  r ← foldM (pair_step vectors (blockIdx * 128)%nat q) zero_accs (seq 0 PAIRS);
  Ok (store r).

(** A checkpoint: prune when no lane's partial sum is below the threshold. *)
Definition checkpoint (r : accs) (threshold : Z) : bool :=
  let y12 := repeat threshold 4 in
  let y13 := vpcmpgtq (vpaddq (Y8 r) (Y10 r)) y12 in
  let y14 := vpcmpgtq (vpaddq (Y9 r) (Y11 r)) y12 in
  vptest_z (vpor y14 y13).

Definition blkDistPruneAVX2 (vectors : list Z) (blockIdx : nat) (q : list Z) (threshold : Z)
    (out : list Z) : res (list Z * Z) :=
  let base := (blockIdx * 128)%nat in
  r ← foldM (pair_step vectors base q) zero_accs [0; 1; 2]%nat;
  if checkpoint r threshold then Ok (out, 1)
  else
    r ← foldM (pair_step vectors base q) r [3; 4]%nat;
    if checkpoint r threshold then Ok (out, 1)
    else
      r ← foldM (pair_step vectors base q) r [5; 6; 7]%nat;
      Ok (store r, 0).

(** The horizontal sum adds the halves twice: 4 + 4, then 2 + 2, then 1 + 1. *)
Definition bboxLowerBoundAVX2 (mn mx q : list Z) : res Z :=
  y0 ← vmovdqu mn 0;
  y1 ← vmovdqu mx 0;
  y2 ← vmovdqu q 0;
  let y5 := repeat 0 16 in
  let y3 := vpmaxsw (vpsubw y0 y2) y5 in
  let y4 := vpmaxsw (vpsubw y2 y1) y5 in
  let y3 := vpmaxsw y3 y4 in
  let y3 := vpmaddwd y3 y3 in
  let y6 := vpaddq (vpmovsxdq_lo y3) (vpmovsxdq_hi y3) in
  let x6 := vpaddq (take 2 y6) (drop 2 y6) in
  let x6 := vpaddq x6 (reverse x6) in
  get x6 0.

(** The Go wrappers of [knn_amd64.go]; [&vectors[0]] panics on an empty slice. *)
Definition blkDist (vectors : list Z) (blockIdx : nat) (q : list Z) : res (list Z) :=
  _ ← get vectors 0;
  blkDistAVX2 vectors blockIdx q.

Definition blkDistPrune (vectors : list Z) (blockIdx : nat) (q : list Z) (threshold : Z)
    : res (list Z * bool) :=
  _ ← get vectors 0;
  '(out, r) ← blkDistPruneAVX2 vectors blockIdx q threshold no_dists;
  Ok (out, negb (r =? 0)).

Definition bboxLowerBoundFast (q : list Z) (ix : Index) (cluster : Z) : res Z :=
  let base := cluster * 16 in
  _ ← getZ (BBoxMin ix) base;
  _ ← getZ (BBoxMax ix) base;
  bboxLowerBoundAVX2 (drop (Z.to_nat base) (BBoxMin ix)) (drop (Z.to_nat base) (BBoxMax ix)) q.

Definition prefetchBlock (vectors : list Z) (blockIdx : nat) : res unit :=
  if (length vectors <=? blockIdx * PADDED_DIMS * LANES)%nat then Ok tt
  else _ ← get vectors 0; Ok tt.

End AVX2.

#[global] Instance avx2 : Kernel := {
  blkDist := AVX2.blkDist;
  blkDistPrune := AVX2.blkDistPrune;
  bboxLowerBoundFast := AVX2.bboxLowerBoundFast;
  prefetchBlock := AVX2.prefetchBlock
}.

(** ** Bounds *)

Lemma quantized_at l i : quantized l -> (i < length l)%nat -> -10000 <= l !!! i <= 10000.
Proof.
  unfold quantized. intros H Hi. rewrite List.Forall_forall in H. apply H.
  apply list_elem_of_In, list_elem_of_lookup. exists i. by apply list_lookup_lookup_total_lt.
Qed.

Lemma sq_diff a b :
  -10000 <= a <= 10000 -> -10000 <= b <= 10000 -> 0 <= sq (a - b) <= 400000000.
Proof.
  unfold sq. intros Ha Hb. assert (-20000 <= a - b <= 20000) as H by lia.
  generalize dependent (a - b). intros x H. nia.
Qed.

(** The sums of the even ([b = true]) and of the odd pairs, one accumulator each. *)
Fixpoint asum (b : bool) (q vectors : list Z) (blk l k : nat) : Z :=
  match k with
  | O => 0
  | S p => asum b q vectors blk l p +
           (if Bool.eqb (Nat.even p) b then pairsq q vectors blk l p else 0)
  end.

Lemma asum_psum q vectors blk l k :
  asum true q vectors blk l k + asum false q vectors blk l k = psum q vectors blk l k.
Proof. induction k as [|k IH]; cbn [asum psum]; [done|]. destruct (Nat.even k); simpl; lia. Qed.

(** Words of memory, from an offset on. *)
Lemma load_ok mem off :
  (off + 16 <= length mem)%nat ->
  AVX2.vmovdqu mem off = Ok (map (fun j => mem !!! (off + j)%nat) (seq 0 16)).
Proof.
  intros Hm. unfold AVX2.vmovdqu. rewrite slice_ok by lia. f_equal. rewrite Nat2Z.id.
  replace (Z.to_nat (Z.of_nat off + 16 - Z.of_nat off)) with 16%nat by lia.
  apply list_eq_same_length with 16%nat.
  - by rewrite length_map, length_seq.
  - rewrite length_take, length_drop. lia.
  - intros i x y Hi Hx Hy. rewrite lookup_take_lt, lookup_drop in Hx by done.
    rewrite list_lookup_fmap, lookup_seq_lt in Hy by done. simpl in Hy. injection Hy as <-.
    symmetry. by apply list_lookup_total_correct.
Qed.

Section Laws.
Context (q vectors : list Z) (blk : nat).
Hypothesis q_len : length q = 16%nat.
Hypothesis q_ok : quantized q.
Hypothesis v_ok : quantized vectors.
Hypothesis blk_ok : (blk * 128 + 128 <= length vectors)%nat.

Lemma q_at p : (p < 16)%nat -> -10000 <= q !!! p <= 10000.
Proof. intros. apply quantized_at; [done|lia]. Qed.

Lemma v_at i : (i < 128)%nat -> -10000 <= vectors !!! (blk * 128 + i)%nat <= 10000.
Proof. intros. apply quantized_at; [done|lia]. Qed.

Lemma v_pair l p :
  (l < 8)%nat -> (p < 8)%nat ->
  -10000 <= vectors !!! (blk * 128 + p * 16 + l * 2)%nat <= 10000 /\
  -10000 <= vectors !!! (blk * 128 + p * 16 + l * 2 + 1)%nat <= 10000.
Proof.
  intros Hl Hp. pose proof (v_at (p * 16 + l * 2) ltac:(lia)) as V0.
  pose proof (v_at (p * 16 + l * 2 + 1) ltac:(lia)) as V1.
  rewrite !Nat.add_assoc in V0. rewrite (Nat.add_assoc (blk * 128)), (Nat.add_assoc (blk * 128)) in V1. done.
Qed.

Lemma pairsq_range l p : (l < 8)%nat -> (p < 8)%nat -> 0 <= pairsq q vectors blk l p <= 800000000.
Proof.
  intros Hl Hp. unfold pairsq.
  pose proof (q_at (p * 2) ltac:(lia)). pose proof (q_at (p * 2 + 1) ltac:(lia)).
  destruct (v_pair l p Hl Hp) as [V0 V1].
  pose proof (sq_diff _ _ H V0). pose proof (sq_diff _ _ H0 V1). lia.
Qed.

Lemma asum_range b l k :
  (l < 8)%nat -> (k <= 8)%nat -> 0 <= asum b q vectors blk l k <= 800000000 * Z.of_nat k.
Proof.
  intros Hl. induction k as [|k IH]; intros Hk; cbn [asum]; [lia|].
  specialize (IH ltac:(lia)).
  pose proof (pairsq_range l k Hl ltac:(lia)). destruct (Bool.eqb _ _); lia.
Qed.

Lemma psum_range l k :
  (l < 8)%nat -> (k <= 8)%nat -> 0 <= psum q vectors blk l k <= 800000000 * Z.of_nat k.
Proof.
  intros Hl. induction k as [|k IH]; intros Hk; cbn [psum]; [lia|].
  specialize (IH ltac:(lia)).
  pose proof (pairsq_range l k Hl ltac:(lia)). lia.
Qed.

Lemma psum_mono l k k' :
  (l < 8)%nat -> (k <= k' <= 8)%nat -> psum q vectors blk l k <= psum q vectors blk l k'.
Proof.
  intros Hl [Hk Hk']. induction Hk as [|k' Hk IH]; cbn [psum]; [lia|].
  pose proof (pairsq_range l k' Hl ltac:(lia)). lia.
Qed.

(** ** The portable kernel satisfies the laws *)

Definition acc (b : bool) (k : nat) : list Z :=
  map (fun l => asum b q vectors blk l k) (seq 0 LANES).

Lemma lane_value l p :
  (l < 8)%nat -> (p < 8)%nat ->
  let d0 := i32 (q !!! (p * 2)%nat - vectors !!! (blk * 128 + p * 16 + l * 2)%nat) in
  let d1 := i32 (q !!! (p * 2 + 1)%nat - vectors !!! (blk * 128 + p * 16 + l * 2 + 1)%nat) in
  i64 (i32 (d0 * d0) + i32 (d1 * d1)) = pairsq q vectors blk l p.
Proof.
  intros Hl Hp. pose proof (q_at (p * 2) ltac:(lia)). pose proof (q_at (p * 2 + 1) ltac:(lia)).
  destruct (v_pair l p Hl Hp) as [V0 V1].
  cbv zeta. unfold pairsq.
  pose proof (sq_diff _ _ H V0) as S0. pose proof (sq_diff _ _ H0 V1) as S1. unfold sq in *.
  rewrite (i32_id (_ - _)) by lia. rewrite (i32_id (q !!! (p * 2 + 1)%nat - _)) by lia.
  rewrite !i32_id by lia. apply i64_id. lia.
Qed.

Lemma lane_step_ok p accs l :
  (l < 8)%nat -> (p < 8)%nat ->
  Portable.lane_step vectors (q !!! (p * 2)%nat) (q !!! (p * 2 + 1)%nat)
    (blk * PADDED * LANES + p * LANES * 2) p accs l =
  let '(acc0, acc1) := accs in
  if Nat.even p
  then x ← get acc0 l; a ← set acc0 l (i64 (x + pairsq q vectors blk l p)); Ok (a, acc1)
  else x ← get acc1 l; a ← set acc1 l (i64 (x + pairsq q vectors blk l p)); Ok (acc0, a).
Proof.
  intros Hl Hp. destruct accs as [acc0 acc1]. unfold Portable.lane_step, PADDED, LANES.
  cbv beta iota zeta.
  replace (blk * 16 * 8 + p * 8 * 2 + l * 2)%nat with (blk * 128 + p * 16 + l * 2)%nat by lia.
  rewrite !(get_total vectors) by lia. rewrite !bind_Ok.
  by rewrite (lane_value l p Hl Hp).
Qed.

(** The lanes of one accumulator, updated in place. *)
Lemma lanes_ok b p :
  (p < 8)%nat -> Bool.eqb (Nat.even p) b = true ->
  foldM (fun a l => x ← get a l; set a l (i64 (x + pairsq q vectors blk l p)))
    (acc b p) (seq 0 LANES) = Ok (acc b (S p)).
Proof.
  intros Hp Hb. unfold acc at 1.
  apply (foldM_update _ _ (fun l => asum b q vectors blk l (S p))).
  intros a l Hl Ha Hx. unfold LANES in *. rewrite (get_ok _ _ _ Hx), bind_Ok, set_ok by lia.
  cbn [asum]. rewrite Hb. rewrite i64_id; [done|].
  pose proof (asum_range b l p Hl ltac:(lia)). pose proof (pairsq_range l p Hl Hp). lia.
Qed.

Lemma acc_other b p : Bool.eqb (Nat.even p) b = false -> acc b (S p) = acc b p.
Proof. intros Hb. unfold acc. apply map_ext. intros l. cbn [asum]. rewrite Hb. lia. Qed.

Lemma pair_step_ok p :
  (p < 8)%nat ->
  Portable.pair_step vectors (blk * PADDED * LANES) q (acc true p, acc false p) p =
  Ok (acc true (S p), acc false (S p)).
Proof.
  intros Hp. unfold Portable.pair_step. rewrite !(get_total q) by lia. rewrite !bind_Ok.
  assert (forall (lanes : list nat) a0 a1, Forall (fun l => l < 8)%nat lanes ->
    foldM (Portable.lane_step vectors (q !!! (p * 2)%nat) (q !!! (p * 2 + 1)%nat)
             (blk * PADDED * LANES + p * LANES * 2) p) (a0, a1) lanes =
    let upd a := foldM (fun a l => x ← get a l; set a l (i64 (x + pairsq q vectors blk l p))) a lanes in
    if Nat.even p then a ← upd a0; Ok (a, a1) else a ← upd a1; Ok (a0, a)) as Hfold.
  { induction lanes as [|l lanes IH]; intros a0 a1 Hl; [cbn; by destruct (Nat.even p)|].
    apply Forall_cons_iff in Hl as [Hl Hls]. cbn [foldM].
    rewrite lane_step_ok by done. cbv beta iota zeta.
    destruct (Nat.even p) eqn:E.
    - destruct (get a0 l); try done. rewrite !bind_Ok. destruct (set a0 l _); try done.
      rewrite !bind_Ok, IH by done. done.
    - destruct (get a1 l); try done. rewrite !bind_Ok. destruct (set a1 l _); try done.
      rewrite !bind_Ok, IH by done. done. }
  rewrite Hfold by (repeat constructor). cbv zeta. destruct (Nat.even p) eqn:E.
  - rewrite (lanes_ok true) by (rewrite ?E; done || lia). rewrite bind_Ok.
    by rewrite (acc_other false) by (by rewrite E).
  - rewrite (lanes_ok false) by (rewrite ?E; done || lia). rewrite bind_Ok.
    by rewrite (acc_other true) by (by rewrite E).
Qed.

Lemma acc_get b k l : (l < 8)%nat -> get (acc b k) l = Ok (asum b q vectors blk l k).
Proof.
  intros Hl. apply get_ok. unfold acc, LANES. by rewrite list_lookup_fmap, lookup_seq_lt.
Qed.

Lemma merge_ok k : (k <= 8)%nat ->
  Portable.merge (acc true k) (acc false k) = Ok (map (fun l => psum q vectors blk l k) (seq 0 LANES)).
Proof.
  intros Hk. unfold Portable.merge.
  change no_dists with (map (fun _ : nat => 0) (seq 0 LANES)). apply foldM_update.
  intros out i Hi Hl _. unfold LANES in Hi, Hl.
  rewrite !acc_get by done. rewrite !bind_Ok, set_ok by lia. rewrite i64_id; [by rewrite asum_psum|].
  pose proof (asum_range true i k Hi Hk). pose proof (asum_range false i k Hi Hk). lia.
Qed.

Lemma all_over_ok threshold k lanes :
  (k <= 8)%nat -> Forall (fun l => l < 8)%nat lanes ->
  Portable.all_over (acc true k) (acc false k) threshold lanes =
  Ok (forallb (fun l => threshold <=? psum q vectors blk l k) lanes).
Proof.
  intros Hk. induction lanes as [|l lanes IH]; intros Hl; [done|].
  apply Forall_cons_iff in Hl as [Hl Hls]. cbn [Portable.all_over forallb].
  rewrite !acc_get by done. rewrite !bind_Ok, asum_psum.
  rewrite i64_id by (pose proof (psum_range l k Hl Hk); lia).
  rewrite Z.ltb_antisym. destruct (threshold <=? _); [|done]. by apply IH.
Qed.

Lemma accs_start : (no_dists, no_dists) = (acc true 0, acc false 0).
Proof. done. Qed.

(** A loop over the pairs from [p] on, from the sums of the pairs before. *)
Lemma pairs_ok p n :
  (p + n <= 8)%nat ->
  foldM (Portable.pair_step vectors (blk * PADDED * LANES) q) (acc true p, acc false p) (seq p n) =
  Ok (acc true (p + n), acc false (p + n)).
Proof.
  revert p. induction n as [|n IH]; intros p Hp; cbn [seq foldM].
  - by rewrite Nat.add_0_r.
  - rewrite pair_step_ok, bind_Ok, IH by lia. by rewrite Nat.add_succ_comm.
Qed.

Lemma portable_blkDist : Portable.blkDist vectors blk q = Ok (dists q vectors blk).
Proof.
  unfold Portable.blkDist, PAIRS. cbv zeta. rewrite accs_start, pairs_ok, bind_Ok by lia.
  by apply merge_ok.
Qed.

(** The prune loop, [ps] being the pairs still to come. *)
Lemma prune_pair threshold p ps :
  (p < 8)%nat ->
  Portable.prune_loop vectors (blk * PADDED * LANES) q threshold (acc true p, acc false p) (p :: ps) =
  if ((p =? 2)%nat || (p =? 4)%nat) && over q vectors blk threshold (S p) then Ok (no_dists, true)
  else Portable.prune_loop vectors (blk * PADDED * LANES) q threshold
         (acc true (S p), acc false (S p)) ps.
Proof.
  intros Hp. cbn [Portable.prune_loop]. rewrite pair_step_ok, bind_Ok by done.
  destruct ((p =? 2)%nat || (p =? 4)%nat); simpl fst; simpl snd; [|done].
  rewrite all_over_ok, bind_Ok by (first [lia|repeat constructor]). done.
Qed.

Lemma portable_blkDistPrune threshold :
  Portable.blkDistPrune vectors blk q threshold = Ok (prune_result q vectors blk threshold).
Proof.
  unfold Portable.blkDistPrune, PAIRS. cbv zeta. rewrite accs_start. cbn [seq].
  do 8 rewrite prune_pair by lia. cbn [Nat.eqb orb andb]. unfold prune_result.
  destruct (over q vectors blk threshold 3); [done|].
  destruct (over q vectors blk threshold 5); [done|].
  cbn [orb Portable.prune_loop fst snd]. by rewrite merge_ok.
Qed.

(** ** The AVX2 kernel satisfies the laws *)

(** The accumulators after [k] pairs. *)
Definition yaccs (k : nat) : AVX2.accs :=
  AVX2.mkAccs (map (fun l => asum true q vectors blk l k) (seq 0 4))
    (map (fun l => asum true q vectors blk l k) (seq 4 4))
    (map (fun l => asum false q vectors blk l k) (seq 0 4))
    (map (fun l => asum false q vectors blk l k) (seq 4 4)).

Lemma madd_lane a x b y :
  -10000 <= a <= 10000 -> -10000 <= x <= 10000 -> -10000 <= b <= 10000 -> -10000 <= y <= 10000 ->
  i32 (i16 (a - x) * i16 (a - x) + i16 (b - y) * i16 (b - y)) = sq (a - x) + sq (b - y).
Proof.
  intros Ha Hx Hb Hy. rewrite !i16_id by lia. fold (sq (a - x)) (sq (b - y)).
  pose proof (sq_diff a x Ha Hx). pose proof (sq_diff b y Hb Hy). apply i32_id. lia.
Qed.

(** VPSUBW and VPMADDWD on a broadcast pair and the words of a block. *)
Lemma madd_ok p :
  (p < 8)%nat ->
  let y0 := concat (repeat [q !!! (p * 2)%nat; q !!! (p * 2 + 1)%nat] 8) in
  let y1 := map (fun j => vectors !!! (blk * 128 + p * 16 + j)%nat) (seq 0 16) in
  AVX2.vpmaddwd (AVX2.vpsubw y0 y1) (AVX2.vpsubw y0 y1) =
  map (fun l => pairsq q vectors blk l p) (seq 0 8).
Proof.
  intros Hp. pose proof (q_at (p * 2) ltac:(lia)) as Q0.
  pose proof (q_at (p * 2 + 1) ltac:(lia)) as Q1.
  assert (forall l, (l < 8)%nat ->
    i32 (i16 (q !!! (p * 2)%nat - vectors !!! (blk * 128 + p * 16 + l * 2)%nat) *
         i16 (q !!! (p * 2)%nat - vectors !!! (blk * 128 + p * 16 + l * 2)%nat) +
         i16 (q !!! (p * 2 + 1)%nat - vectors !!! (blk * 128 + p * 16 + (l * 2 + 1))%nat) *
         i16 (q !!! (p * 2 + 1)%nat - vectors !!! (blk * 128 + p * 16 + (l * 2 + 1))%nat)) =
    pairsq q vectors blk l p) as Hlane.
  { intros l Hl. destruct (v_pair l p Hl Hp) as [V0 V1].
    rewrite (Nat.add_assoc (blk * 128 + p * 16) (l * 2) 1). unfold pairsq.
    by apply madd_lane. }
  cbv zeta. cbn [seq map repeat concat app AVX2.vpsubw zip_with AVX2.vpmaddwd].
  rewrite <-(Hlane 0%nat), <-(Hlane 1%nat), <-(Hlane 2%nat), <-(Hlane 3%nat), <-(Hlane 4%nat),
    <-(Hlane 5%nat), <-(Hlane 6%nat), <-(Hlane 7%nat) by lia. reflexivity.
Qed.

Lemma zip_with_map {X A B C} (f : A -> B -> C) (g : X -> A) (h : X -> B) s :
  zip_with f (map g s) (map h s) = map (fun x => f (g x) (h x)) s.
Proof. induction s as [|x s IH]; simpl; [done|]. by rewrite IH. Qed.

Lemma add_lanes b k s :
  (k < 8)%nat -> Forall (fun l => l < 8)%nat s ->
  Bool.eqb (Nat.even k) b = true ->
  AVX2.vpaddq (map (fun l => asum b q vectors blk l k) s)
              (map (fun l => pairsq q vectors blk l k) s) =
  map (fun l => asum b q vectors blk l (S k)) s.
Proof.
  intros Hk Hs Hb. unfold AVX2.vpaddq. rewrite zip_with_map. apply map_ext_in.
  rewrite List.Forall_forall in Hs. intros l Hl. apply Hs in Hl. cbn [asum]. rewrite Hb.
  pose proof (asum_range b l k Hl ltac:(lia)). pose proof (pairsq_range l k Hl Hk).
  apply i64_id. lia.
Qed.

Lemma other_lanes b k s :
  Bool.eqb (Nat.even k) b = false ->
  map (fun l => asum b q vectors blk l k) s = map (fun l => asum b q vectors blk l (S k)) s.
Proof. intros Hb. apply map_ext. intros l. cbn [asum]. rewrite Hb. lia. Qed.

Lemma avx2_pair_step p :
  (p < 8)%nat -> AVX2.pair_step vectors (blk * 128) q (yaccs p) p = Ok (yaccs (S p)).
Proof.
  intros Hp. unfold AVX2.pair_step, AVX2.vpbroadcastd.
  rewrite !(get_total q) by lia. rewrite !bind_Ok, load_ok, bind_Ok by lia.
  cbv zeta. rewrite madd_ok by done. f_equal.
  change (AVX2.vpmovsxdq_lo (map ?f (seq 0 8))) with (map f (seq 0 4)).
  change (AVX2.vpmovsxdq_hi (map ?f (seq 0 8))) with (map f (seq 4 4)).
  unfold yaccs. cbn [AVX2.Y8 AVX2.Y9 AVX2.Y10 AVX2.Y11].
  destruct (Nat.even p) eqn:E; f_equal;
    first [apply add_lanes; [done|repeat constructor|by rewrite E]
          |apply other_lanes; by rewrite E].
Qed.

Lemma avx2_pairs_ok p n :
  (p + n <= 8)%nat ->
  foldM (AVX2.pair_step vectors (blk * 128) q) (yaccs p) (seq p n) = Ok (yaccs (p + n)).
Proof.
  revert p. induction n as [|n IH]; intros p Hp; cbn [seq foldM].
  - by rewrite Nat.add_0_r.
  - rewrite avx2_pair_step, bind_Ok, IH by lia. by rewrite Nat.add_succ_comm.
Qed.

Lemma partial_ok k s :
  (k <= 8)%nat -> Forall (fun l => l < 8)%nat s ->
  AVX2.vpaddq (map (fun l => asum true q vectors blk l k) s)
              (map (fun l => asum false q vectors blk l k) s) =
  map (fun l => psum q vectors blk l k) s.
Proof.
  intros Hk Hs. unfold AVX2.vpaddq. rewrite zip_with_map. apply map_ext_in.
  rewrite List.Forall_forall in Hs. intros l Hl. apply Hs in Hl. rewrite asum_psum.
  pose proof (psum_range l k Hl Hk). apply i64_id. lia.
Qed.

Lemma store_ok k :
  (k <= 8)%nat -> AVX2.store (yaccs k) = map (fun l => psum q vectors blk l k) (seq 0 LANES).
Proof.
  intros Hk. unfold AVX2.store, yaccs. cbn [AVX2.Y8 AVX2.Y9 AVX2.Y10 AVX2.Y11].
  rewrite !partial_ok by (first [done|repeat constructor]). done.
Qed.

Lemma vptest_vpor a b :
  length a = length b ->
  AVX2.vptest_z (AVX2.vpor a b) = AVX2.vptest_z b && AVX2.vptest_z a.
Proof.
  revert b. induction a as [|x a IH]; intros [|y b] Hl; try discriminate Hl; [done|].
  injection Hl as Hl. unfold AVX2.vptest_z, AVX2.vpor in *. cbn [zip_with forallb].
  rewrite (IH b Hl).
  assert ((0 =? Z.lor x y) = (0 =? x) && (0 =? y)) as ->.
  { pose proof (Z.lor_eq_0_iff x y). lia. }
  destruct (0 =? x), (0 =? y), (forallb (Z.eqb 0) a), (forallb (Z.eqb 0) b); done.
Qed.

Lemma vptest_cmp threshold (f : nat -> Z) a b c d :
  AVX2.vptest_z (AVX2.vpcmpgtq (map f [a; b; c; d]) (repeat threshold 4)) =
  forallb (fun l => threshold <=? f l) [a; b; c; d].
Proof.
  unfold AVX2.vptest_z, AVX2.vpcmpgtq. cbn [map repeat zip_with forallb].
  assert (forall x, (0 =? (if x <? threshold then -1 else 0)) = (threshold <=? x)) as H.
  { intros x. destruct (Z.ltb_spec x threshold); lia. }
  by rewrite !H.
Qed.

Lemma checkpoint_ok threshold k :
  (k <= 8)%nat -> AVX2.checkpoint (yaccs k) threshold = over q vectors blk threshold k.
Proof.
  intros Hk. unfold AVX2.checkpoint, yaccs. cbn [AVX2.Y8 AVX2.Y9 AVX2.Y10 AVX2.Y11].
  rewrite !partial_ok by (first [done|repeat constructor]). cbv zeta.
  rewrite vptest_vpor by done. cbn [seq]. rewrite !vptest_cmp. unfold over. cbn.
  by rewrite !andb_true_r, <-!andb_assoc.
Qed.

Lemma avx2_nonempty : exists x, get vectors 0 = Ok x.
Proof. exists (vectors !!! 0%nat). apply get_total. lia. Qed.

Lemma avx2_blkDist : AVX2.blkDist vectors blk q = Ok (dists q vectors blk).
Proof.
  unfold AVX2.blkDist, AVX2.blkDistAVX2, PAIRS. destruct avx2_nonempty as [x ->].
  change AVX2.zero_accs with (yaccs 0). rewrite bind_Ok, avx2_pairs_ok, bind_Ok by lia.
  by rewrite store_ok by lia.
Qed.

Lemma avx2_blkDistPrune threshold :
  AVX2.blkDistPrune vectors blk q threshold = Ok (prune_result q vectors blk threshold).
Proof.
  unfold AVX2.blkDistPrune, AVX2.blkDistPruneAVX2. destruct avx2_nonempty as [x ->].
  change AVX2.zero_accs with (yaccs 0). rewrite bind_Ok. cbv zeta.
  change [0; 1; 2]%nat with (seq 0 3). change [3; 4]%nat with (seq 3 2).
  change [5; 6; 7]%nat with (seq 5 3).
  rewrite (avx2_pairs_ok 0 3), bind_Ok, checkpoint_ok by lia. unfold prune_result.
  cbn [Nat.add]. destruct (over q vectors blk threshold 3); [done|].
  rewrite (avx2_pairs_ok 3 2), bind_Ok, checkpoint_ok by lia.
  cbn [Nat.add]. destruct (over q vectors blk threshold 5); [done|].
  rewrite (avx2_pairs_ok 5 3), bind_Ok by lia. cbn [Nat.add orb]. by rewrite store_ok by lia.
Qed.
End Laws.

(** ** Bounding boxes *)

Section Box.
Context (q mn mx : list Z).
Hypothesis q_len : length q = 16%nat.
Hypothesis mn_len : (16 <= length mn)%nat.
Hypothesis mx_len : (16 <= length mx)%nat.
Hypothesis box_ok : forall i, (i < 16)%nat ->
  -10000 <= q !!! i <= 10000 /\ -10000 <= mn !!! i <= 10000 /\ -10000 <= mx !!! i <= 10000.

Definition gap_at (i : nat) : Z := gap (q !!! i) (mn !!! i) (mx !!! i).

Lemma gap_range i : (i < 16)%nat -> 0 <= gap_at i <= 20000.
Proof. intros Hi. pose proof (box_ok i Hi). unfold gap_at, gap. lia. Qed.

Lemma sq_gap_range i : (i < 16)%nat -> 0 <= sq (gap_at i) <= 400000000.
Proof. intros Hi. pose proof (gap_range i Hi). unfold sq. nia. Qed.

Lemma boxsum_range n : (n <= 16)%nat -> 0 <= boxsum q mn mx n <= 400000000 * Z.of_nat n.
Proof.
  induction n as [|n IH]; intros Hn; cbn [boxsum]; [lia|].
  specialize (IH ltac:(lia)). fold (gap_at n). pose proof (sq_gap_range n ltac:(lia)). lia.
Qed.

Lemma gap_max_words i :
  (i < 16)%nat ->
  Z.max (Z.max (i16 (mn !!! i - q !!! i)) 0) (Z.max (i16 (q !!! i - mx !!! i)) 0) = gap_at i.
Proof.
  intros Hi. pose proof (box_ok i Hi). rewrite !i16_id by lia. unfold gap_at, gap. lia.
Qed.

(** The horizontal sum of eight doublewords. *)
Lemma hsum t0 t1 t2 t3 t4 t5 t6 t7 :
  Forall (fun t => 0 <= t <= 800000000) [t0; t1; t2; t3; t4; t5; t6; t7] ->
  i64 (i64 (i64 (t0 + t4) + i64 (t2 + t6)) + i64 (i64 (t1 + t5) + i64 (t3 + t7))) =
  t0 + t1 + t2 + t3 + t4 + t5 + t6 + t7.
Proof.
  intros H. repeat (apply Forall_cons_iff in H as [? H]).
  rewrite (i64_id (t0 + t4)), (i64_id (t2 + t6)), (i64_id (t1 + t5)), (i64_id (t3 + t7)) by lia.
  rewrite !i64_id by (rewrite ?i64_id by lia; lia). lia.
Qed.

Lemma avx2_box : AVX2.bboxLowerBoundAVX2 mn mx q = Ok (boxsum q mn mx 16).
Proof.
  assert (forall i j, (i < 16)%nat -> (j < 16)%nat ->
    i32 (gap_at i * gap_at i + gap_at j * gap_at j) = sq (gap_at i) + sq (gap_at j)) as Hm.
  { intros i j Hi Hj. fold (sq (gap_at i)) (sq (gap_at j)).
    pose proof (sq_gap_range i Hi). pose proof (sq_gap_range j Hj). apply i32_id. lia. }
  unfold AVX2.bboxLowerBoundAVX2.
  rewrite (load_ok mn), bind_Ok, (load_ok mx), bind_Ok, (load_ok q), bind_Ok by lia. cbv zeta.
  cbn [seq map Nat.add AVX2.vpsubw zip_with repeat AVX2.vpmaxsw].
  rewrite !gap_max_words by lia. cbn [AVX2.vpmaddwd]. rewrite !Hm by lia.
  cbn -[i64 sq gap_at boxsum]. f_equal.
  rewrite hsum.
  - cbn [boxsum]. fold (gap_at 0) (gap_at 1) (gap_at 2) (gap_at 3) (gap_at 4) (gap_at 5)
      (gap_at 6) (gap_at 7) (gap_at 8) (gap_at 9) (gap_at 10) (gap_at 11) (gap_at 12)
      (gap_at 13) (gap_at 14) (gap_at 15). lia.
  - assert (forall i j, (i < 16)%nat -> (j < 16)%nat ->
      0 <= sq (gap_at i) + sq (gap_at j) <= 800000000) as Hr.
    { intros i j Hi Hj. pose proof (sq_gap_range i Hi). pose proof (sq_gap_range j Hj). lia. }
    repeat (apply Forall_cons_iff; split; [apply Hr; lia|]). constructor.
Qed.

Lemma portable_gap i :
  (i < 16)%nat -> mn !!! i <= mx !!! i ->
  (if q !!! i <? mn !!! i then i32 (mn !!! i - q !!! i)
   else if mx !!! i <? q !!! i then i32 (q !!! i - mx !!! i) else 0) = gap_at i.
Proof.
  intros Hi Hle. pose proof (box_ok i Hi). rewrite !i32_id by lia. unfold gap_at, gap.
  destruct (Z.ltb_spec (q !!! i) (mn !!! i)), (Z.ltb_spec (mx !!! i) (q !!! i)); lia.
Qed.

Lemma portable_box :
  (forall i, (i < 16)%nat -> mn !!! i <= mx !!! i) ->
  foldM (fun sum i =>
    qv ← get q i;
    mnv ← get mn i;
    mxv ← get mx i;
    let gap := if qv <? mnv then i32 (mnv - qv) else if mxv <? qv then i32 (qv - mxv) else 0 in
    Ok (i64 (sum + i64 (gap * gap)))) 0 (seq 0 PADDED) = Ok (boxsum q mn mx 16).
Proof.
  intros Hle. apply (wp_eq _ _ (fun _ => False)); [by intros ? []|].
  eapply wp_conseq; [apply (wp_for _ (fun k s => s = boxsum q mn mx k)); [done|]|intros s Hs; exact Hs].
  intros k s Hk ->. unfold PADDED in Hk. rewrite Nat.add_0_l, !get_total, !bind_Ok by lia.
  cbv zeta. rewrite (portable_gap k Hk (Hle k Hk)). apply wp_ok. cbn [boxsum].
  fold (gap_at k) (sq (gap_at k)).
  pose proof (sq_gap_range k Hk). pose proof (boxsum_range k ltac:(lia)).
  rewrite (i64_id (sq (gap_at k))) by lia. apply i64_id. lia.
Qed.
End Box.

Lemma row_length l c : (c * 16 + 16 <= length l)%nat -> length (row l c) = 16%nat.
Proof. intros H. unfold row. rewrite length_take, length_drop. lia. Qed.

Lemma row_at l c i : (i < 16)%nat -> row l c !!! i = drop (c * 16) l !!! i.
Proof. intros Hi. unfold row. by rewrite !list_lookup_total_alt, lookup_take_lt. Qed.

Lemma boxsum_ext q mn mx mn' mx' n :
  (forall i, (i < n)%nat -> mn !!! i = mn' !!! i /\ mx !!! i = mx' !!! i) ->
  boxsum q mn mx n = boxsum q mn' mx' n.
Proof.
  induction n as [|n IH]; intros H; [done|]. cbn [boxsum].
  destruct (H n) as [-> ->]; [lia|]. rewrite IH; [done|]. intros i Hi. apply H. lia.
Qed.

Lemma Forall2_at {A} `{Inhabited A} (R : A -> A -> Prop) l l' i :
  Forall2 R l l' -> (i < length l)%nat -> R (l !!! i) (l' !!! i).
Proof.
  intros HF Hi. destruct (Forall2_lookup_l _ _ _ i (l !!! i) HF) as (y & Hy & HR).
  { by apply list_lookup_lookup_total_lt. }
  by rewrite (list_lookup_total_correct _ _ _ Hy).
Qed.

(** ** The two kernels satisfy the laws *)

(** Whatever the input, the kernels return no error and run no loop without end. *)
Lemma portable_pair_halts vectors b q accs p : halts (Portable.pair_step vectors b q accs p).
Proof. unfold Portable.pair_step, Portable.lane_step. halts_go. Qed.

Lemma portable_merge_halts acc0 acc1 : halts (Portable.merge acc0 acc1).
Proof. unfold Portable.merge. halts_go. Qed.

Lemma portable_all_over_halts acc0 acc1 thr lanes : halts (Portable.all_over acc0 acc1 thr lanes).
Proof. induction lanes; simpl; halts_go; done. Qed.

Lemma avx2_pair_halts vectors b q r p : halts (AVX2.pair_step vectors b q r p).
Proof. unfold AVX2.pair_step, AVX2.vpbroadcastd, AVX2.vmovdqu. halts_go. Qed.
#[local] Hint Resolve portable_pair_halts portable_merge_halts portable_all_over_halts avx2_pair_halts : halts.

Lemma portable_prune_halts vectors b q thr accs ps : halts (Portable.prune_loop vectors b q thr accs ps).
Proof. revert accs. induction ps; intros accs; cbn [Portable.prune_loop]; halts_go; auto. Qed.
#[local] Hint Resolve portable_prune_halts : halts.

#[global] Instance portable_laws : KernelLaws portable.
Proof.
  split.
  - intros q vectors blk Hq Hqq Hv Hb. by apply portable_blkDist.
  - intros q vectors blk thr Hq Hqq Hv Hb. by apply portable_blkDistPrune.
  - intros q ix c Hq Hqq Hmn Hmx Hc Lmn Lmx Hle. cbn [bboxLowerBoundFast portable]. unfold boxdist, Portable.bboxLowerBound.
    pose proof (row_length _ _ Lmn) as Rmn. pose proof (row_length _ _ Lmx) as Rmx.
    assert (forall l, (Z.to_nat c * 16 + 16 <= length l)%nat ->
      slice l (c * 16) (c * 16 + 16) = Ok (row l (Z.to_nat c))) as Hs.
    { intros l Hl. rewrite slice_ok by lia. unfold row. do 2 f_equal; [lia|]. f_equal. lia. }
    rewrite !Hs by done. cbv zeta. rewrite !bind_Ok.
    set (mn := row (BBoxMin ix) (Z.to_nat c)) in *. set (mx := row (BBoxMax ix) (Z.to_nat c)) in *.
    assert (forall i, (i < 16)%nat -> -10000 <= q !!! i <= 10000 /\
      -10000 <= mn !!! i <= 10000 /\ -10000 <= mx !!! i <= 10000) as Hbox.
    { intros i Hi. split; [apply quantized_at; [done|lia]|].
      split; (apply quantized_at; [done|lia]). }
    rewrite portable_box; [done|done|lia|lia|done|].
    intros i Hi. apply Forall2_at; [done|lia].
  - done.
  - intros. cbn. unfold Portable.blkDist. halts_go.
  - intros. cbn. unfold Portable.blkDistPrune. halts_go.
  - intros. cbn. unfold Portable.bboxLowerBound. halts_go.
Qed.

#[global] Instance avx2_laws : KernelLaws avx2.
Proof.
  split.
  - intros q vectors blk Hq Hqq Hv Hb. by apply avx2_blkDist.
  - intros q vectors blk thr Hq Hqq Hv Hb. by apply avx2_blkDistPrune.
  - intros q ix c Hq Hqq Hmn Hmx Hc Lmn Lmx Hle. cbn [bboxLowerBoundFast avx2]. unfold boxdist, AVX2.bboxLowerBoundFast. cbv zeta.
    assert (Z.to_nat (c * 16) = (Z.to_nat c * 16)%nat) as E by lia.
    rewrite (getZ_ok (BBoxMin ix) _ (BBoxMin ix !!! Z.to_nat (c * 16)))
      by (lia || (apply list_lookup_lookup_total_lt; lia)).
    rewrite (getZ_ok (BBoxMax ix) _ (BBoxMax ix !!! Z.to_nat (c * 16)))
      by (lia || (apply list_lookup_lookup_total_lt; lia)).
    rewrite !bind_Ok, E.
    assert (forall l : list Z, (Z.to_nat c * 16 + 16 <= length l)%nat ->
      (16 <= length (drop (Z.to_nat c * 16) l))%nat) as Hl by (intros; rewrite length_drop; lia).
    rewrite avx2_box; [|done|by apply Hl|by apply Hl|].
    + f_equal. apply boxsum_ext. intros i Hi. by rewrite !row_at.
    + intros i Hi. split; [apply quantized_at; [done|lia]|].
      pose proof (row_length _ _ Lmn). pose proof (row_length _ _ Lmx).
      rewrite <-!row_at by done. split; (apply quantized_at; [done|lia]).
  - intros vectors blk. cbn. unfold AVX2.prefetchBlock, PADDED_DIMS, LANES.
    destruct (Nat.leb_spec (length vectors) (blk * 16 * 8)); [done|].
    by rewrite get_total by lia.
  - intros. cbn. unfold AVX2.blkDist, AVX2.blkDistAVX2. halts_go.
  - intros. cbn. unfold AVX2.blkDistPrune, AVX2.blkDistPruneAVX2. halts_go.
  - intros. cbn. unfold AVX2.bboxLowerBoundFast, AVX2.bboxLowerBoundAVX2, AVX2.vmovdqu. halts_go.
Qed.

(** ** Distances and bounds *)

Lemma list_16 (q : list Z) :
  length q = 16%nat -> q = map (fun i => q !!! i) (seq 0 16).
Proof.
  intros Hq. apply list_eq_same_length with 16%nat; [by rewrite length_map, length_seq|done|].
  intros i x y Hi Hx Hy. rewrite list_lookup_fmap, lookup_seq_lt in Hy by done.
  simpl in Hy. injection Hy as <-. symmetry. by apply list_lookup_total_correct.
Qed.

Lemma psum_sqdist q vectors blk l :
  length q = 16%nat -> psum q vectors blk l 8 = sqdist q (vec vectors blk l).
Proof.
  intros Hq. rewrite (list_16 q Hq) at 2. unfold vec, sqdist, word.
  cbn [psum]. unfold pairsq. cbn [seq map zip zip_with foldr Nat.mul Nat.add].
  cbn [Nat.div Nat.modulo Nat.divmod Nat.sub fst snd Nat.mul Nat.add].
  rewrite !Nat.add_0_r. lia.
Qed.

Lemma sq_gap_le q mn mx v : mn <= v <= mx -> sq (gap q mn mx) <= sq (q - v).
Proof.
  intros Hv. unfold sq. assert (gap q mn mx <= Z.abs (q - v) /\ 0 <= gap q mn mx) as [H1 H2]
    by (unfold gap; lia). nia.
Qed.

Lemma Forall2_le_trans a v b : Forall2 Z.le a v -> Forall2 Z.le v b -> Forall2 Z.le a b.
Proof.
  intros H. revert b. induction H as [|x y a v Hxy H IH]; intros b Hb; inversion_clear Hb;
    constructor; [lia|auto].
Qed.

(** A vector inside a box is no nearer than the box. *)
Lemma boxdist_le q mn mx v :
  length q = 16%nat -> length v = 16%nat ->
  (forall i, (i < 16)%nat -> mn !!! i <= v !!! i <= mx !!! i) ->
  boxdist q mn mx <= sqdist q v.
Proof.
  intros Hq Hv Hin.
  assert (forall i, (i < 16)%nat ->
    sq (gap (q !!! i) (mn !!! i) (mx !!! i)) <= sq (q !!! i - v !!! i)) as Hg
    by (intros i Hi; by apply sq_gap_le, Hin).
  rewrite (list_16 q Hq) at 2. rewrite (list_16 v Hv). unfold boxdist, sqdist.
  cbn [boxsum seq map zip zip_with foldr].
  pose proof (Hg 0%nat ltac:(lia)). pose proof (Hg 1%nat ltac:(lia)).
  pose proof (Hg 2%nat ltac:(lia)). pose proof (Hg 3%nat ltac:(lia)).
  pose proof (Hg 4%nat ltac:(lia)). pose proof (Hg 5%nat ltac:(lia)).
  pose proof (Hg 6%nat ltac:(lia)). pose proof (Hg 7%nat ltac:(lia)).
  pose proof (Hg 8%nat ltac:(lia)). pose proof (Hg 9%nat ltac:(lia)).
  pose proof (Hg 10%nat ltac:(lia)). pose proof (Hg 11%nat ltac:(lia)).
  pose proof (Hg 12%nat ltac:(lia)). pose proof (Hg 13%nat ltac:(lia)).
  pose proof (Hg 14%nat ltac:(lia)). pose proof (Hg 15%nat ltac:(lia)). lia.
Qed.

Lemma dists_sqdist q vectors blk :
  length q = 16%nat ->
  dists q vectors blk = map (fun l => sqdist q (vec vectors blk l)) (seq 0 8).
Proof. intros Hq. unfold dists, LANES. apply map_ext. intros l. by apply psum_sqdist. Qed.

(** A pruned block holds no vector nearer than the threshold. *)
Lemma prune_sound q vectors blk threshold :
  length q = 16%nat -> quantized q -> quantized vectors ->
  (blk * 128 + 128 <= length vectors)%nat ->
  let '(out, pruned) := prune_result q vectors blk threshold in
  if (pruned : bool) then forall l, (l < 8)%nat -> threshold <= sqdist q (vec vectors blk l)
  else out = map (fun l => sqdist q (vec vectors blk l)) (seq 0 8).
Proof.
  intros Hq Hqq Hv Hb. unfold prune_result.
  assert (forall k, (k <= 8)%nat -> over q vectors blk threshold k = true ->
    forall l, (l < 8)%nat -> threshold <= sqdist q (vec vectors blk l)) as Ho.
  { intros k Hk H l Hl. unfold over in H. rewrite forallb_forall in H.
    specialize (H l). rewrite in_seq in H. specialize (H ltac:(unfold LANES; lia)).
    rewrite <-psum_sqdist by done.
    pose proof (psum_mono q vectors blk Hq Hqq Hv Hb l k 8 Hl ltac:(lia)). lia. }
  destruct (over q vectors blk threshold 3) eqn:E3; [intros l Hl; by apply (Ho 3%nat ltac:(lia) E3)|].
  destruct (over q vectors blk threshold 5) eqn:E5; [intros l Hl; by apply (Ho 5%nat ltac:(lia) E5)|].
  by apply dists_sqdist.
Qed.

(** ** Properties *)

(** C12: the AVX2 kernel of the deployed build and the portable one compute the same: on
    quantized queries, vectors and boxes the distances of a block, the prune decisions
    with their outputs, and the box bounds coincide (and no 16, 32 or 64-bit operation
    of either wraps, so that they are what the laws state). *)
Theorem kernels_agree q vectors blk threshold ix c :
  length q = 16%nat -> quantized q -> quantized vectors ->
  (blk * 128 + 128 <= length vectors)%nat ->
  quantized (row (BBoxMin ix) (Z.to_nat c)) -> quantized (row (BBoxMax ix) (Z.to_nat c)) ->
  0 <= c < 4294967296 ->
  (Z.to_nat c * 16 + 16 <= length (BBoxMin ix))%nat ->
  (Z.to_nat c * 16 + 16 <= length (BBoxMax ix))%nat ->
  Forall2 Z.le (row (BBoxMin ix) (Z.to_nat c)) (row (BBoxMax ix) (Z.to_nat c)) ->
  AVX2.blkDist vectors blk q = Portable.blkDist vectors blk q /\
  AVX2.blkDistPrune vectors blk q threshold = Portable.blkDistPrune vectors blk q threshold /\
  AVX2.bboxLowerBoundFast q ix c = Portable.bboxLowerBound q ix c.
Proof.
  intros Hq Hqq Hv Hb Hmn Hmx Hc Lmn Lmx Hle. split; [|split].
  - by rewrite avx2_blkDist, portable_blkDist.
  - by rewrite avx2_blkDistPrune, portable_blkDistPrune.
  - transitivity (Ok (boxdist q (row (BBoxMin ix) (Z.to_nat c)) (row (BBoxMax ix) (Z.to_nat c)))).
    + by apply (@bbox_law avx2 _).
    + symmetry. by apply (@bbox_law portable _).
Qed.

Definition one_block : list Z := concat (repeat [10000; -10000] 64).
Definition one_box : Index :=
  mkIndex (mkHeader Magic Version 1 0 0 S754_nan) [] 1 (repeat (-5) 16) (repeat 7 16) [0; 0] [0] [] [] 1 0 0.

Example kernels_agree_witness :
  AVX2.blkDist one_block 0 (repeat 9 16) = Portable.blkDist one_block 0 (repeat 9 16) /\
  AVX2.blkDistPrune one_block 0 (repeat 9 16) 14000000 =
    Portable.blkDistPrune one_block 0 (repeat 9 16) 14000000 /\
  AVX2.bboxLowerBoundFast (repeat 9 16) one_box 0 = Portable.bboxLowerBound (repeat 9 16) one_box 0.
Proof.
  apply kernels_agree; try done; try (cbn; lia);
    try (unfold quantized; cbn; repeat constructor; lia).
Defined.

(** C22: with either kernel, [blkDist] returns for each lane the squared Euclidean
    distance of the query to that lane's sixteen-dimensional vector, and [blkDistPrune]
    either returns the same distances or reports the block as pruned, and then none of
    its eight vectors is nearer than the threshold. *)
Theorem blkDistPrune_sound `{KernelLaws} q vectors blk threshold :
  length q = 16%nat -> quantized q -> quantized vectors ->
  (blk * 128 + 128 <= length vectors)%nat ->
  blkDist vectors blk q = Ok (map (fun l => sqdist q (vec vectors blk l)) (seq 0 8)) /\
  returns (blkDistPrune vectors blk q threshold) (fun '(out, pruned) =>
    if (pruned : bool) then forall l, (l < 8)%nat -> threshold <= sqdist q (vec vectors blk l)
    else out = map (fun l => sqdist q (vec vectors blk l)) (seq 0 8)).
Proof.
  intros Hq Hqq Hv Hb. split.
  - rewrite blkDist_law by done. by rewrite dists_sqdist.
  - rewrite blkDistPrune_law by done. by apply prune_sound.
Qed.

Example blkDistPrune_sound_witness :
  @blkDist avx2 one_block 0 (repeat 9 16) =
    Ok (map (fun l => sqdist (repeat 9 16) (vec one_block 0 l)) (seq 0 8)) /\
  returns (@blkDistPrune avx2 one_block 0 (repeat 9 16) 14000000) (fun '(out, pruned) =>
    if (pruned : bool) then forall l, (l < 8)%nat -> 14000000 <= sqdist (repeat 9 16) (vec one_block 0 l)
    else out = map (fun l => sqdist (repeat 9 16) (vec one_block 0 l)) (seq 0 8)).
Proof.
  apply (@blkDistPrune_sound avx2 avx2_laws); try done;
    try (unfold quantized; cbn; repeat constructor; lia); cbn; lia.
Defined.

(** C23: the box bound never exceeds the distance of a vector inside the box: with either
    kernel, skipping a cluster whose bound reaches the fifth-nearest distance skips no
    nearer vector. *)
Theorem bbox_lower_bound `{KernelLaws} q ix c v :
  length q = 16%nat -> quantized q ->
    quantized (row (BBoxMin ix) (Z.to_nat c)) -> quantized (row (BBoxMax ix) (Z.to_nat c)) ->
  0 <= c < 4294967296 ->
  (Z.to_nat c * 16 + 16 <= length (BBoxMin ix))%nat ->
  (Z.to_nat c * 16 + 16 <= length (BBoxMax ix))%nat ->
  Forall2 Z.le (row (BBoxMin ix) (Z.to_nat c)) v ->
  Forall2 Z.le v (row (BBoxMax ix) (Z.to_nat c)) ->
  returns (bboxLowerBoundFast q ix c) (fun lb => 0 <= lb <= sqdist q v).
Proof.
  intros Hq Hqq Hmn Hmx Hc Lmn Lmx Hlo Hhi.
  pose proof (row_length _ _ Lmn) as Rmn. pose proof (Forall2_length Hlo) as Lv.
  assert (Forall2 Z.le (row (BBoxMin ix) (Z.to_nat c)) (row (BBoxMax ix) (Z.to_nat c))) as Hle.
  { by apply (Forall2_le_trans _ v). }
  rewrite bbox_law by done. apply wp_ok. split.
  - assert (forall n, 0 <= boxsum q (row (BBoxMin ix) (Z.to_nat c)) (row (BBoxMax ix) (Z.to_nat c)) n) as Hn.
    { induction n as [|n IH]; cbn [boxsum]; [lia|]. unfold sq at 1. nia. }
    apply Hn.
  - apply boxdist_le; [done|lia|]. intros i Hi.
    split; (apply Forall2_at; [done|lia]).
Qed.

Example bbox_lower_bound_witness :
  returns (@bboxLowerBoundFast avx2 (repeat 9 16) one_box 0) (fun lb => 0 <= lb <= sqdist (repeat 9 16) (repeat 0 16)).
Proof.
  apply (@bbox_lower_bound avx2 avx2_laws); try done; try (cbn; lia);
    try (unfold quantized; cbn; repeat constructor; lia).
Defined.

End Kernel.
