(* ===== verification/ProbeHeap.v ===== *)
(** * internal/knn: the probe heap

    The bounded max-heap of nearest clusters of [internal/knn/knn.go]: [insertProbe],
    [heapSiftUp], [heapSiftDown] and [heapToSorted] over the fixed array of
    [MaxProbes] slots, and the proof that together they keep the nearest clusters seen
    and leave them in order of distance. *)

From S2P Require Import Prelude Select.
From stdpp Require Import sorting.

Module ProbeHeap.

(** ** The code *)

Record Probe : Type := mkProbe {
  Cluster : Z;   (* uint32 *)
  Dist : Z       (* int64 *)
}.
#[global] Instance Probe_inhabited : Inhabited Probe := populate (mkProbe 0 0).

Definition MaxProbes : nat := 33.

(** The parallel assignment [h[i], h[j] = h[j], h[i]]. *)
Definition swap (h : list Probe) (i j : nat) : res (list Probe) :=
  x ← get h i;
  y ← get h j;
  h ← set h i y;
  set h j x.

(** [heapSiftUp(heap, start)]: the fuel bounds the distance to the root. *)
Fixpoint heapSiftUp_loop (fuel : nat) (heap : list Probe) (i : nat) : res (list Probe) :=
  match fuel with
  | O => OutOfFuel
  | S f =>
      if 0 <? i then
        let parent := (i - 1) / 2 in
        a ← get heap i;
        b ← get heap parent;
        if (Dist b <? Dist a)%Z then
          heap ← swap heap i parent;
          heapSiftUp_loop f heap parent
        else Ok heap
      else Ok heap
  end.

Definition heapSiftUp (heap : list Probe) (start : nat) : res (list Probe) :=
  heapSiftUp_loop (S start) heap start.

(** The conditional [if c < size && heap[c].Dist > heap[largest].Dist { largest = c }]. *)
Definition larger (heap : list Probe) (size c largest : nat) : res nat :=
  if c <? size then
    a ← get heap c;
    b ← get heap largest;
    Ok (if (Dist b <? Dist a)%Z then c else largest)
  else Ok largest.

(** [heapSiftDown(heap, start, size)]: the fuel bounds the distance to the leaves. *)
Fixpoint heapSiftDown_loop (fuel : nat) (heap : list Probe) (i size : nat) : res (list Probe) :=
  match fuel with
  | O => OutOfFuel
  | S f =>
      let left := 2 * i + 1 in
      let right := 2 * i + 2 in
      largest ← larger heap size left i;
      largest ← larger heap size right largest;
      if largest =? i then Ok heap
      else
        heap ← swap heap i largest;
        heapSiftDown_loop f heap largest size
  end.

Definition heapSiftDown (heap : list Probe) (start size : nat) : res (list Probe) :=
  heapSiftDown_loop (S size) heap start size.

(** The loop [for n > 1 { n--; ... }] is structural in [n]. *)
Fixpoint heapToSorted (probes : list Probe) (count : nat) : res (list Probe) :=
  match count with
  | S (S _ as n) =>
      probes ← swap probes 0 n;
      probes ← heapSiftDown probes 0 n;
      heapToSorted probes n
  | _ => Ok probes
  end.

Definition insertProbe (probes : list Probe) (count : nat) (cluster dist : Z) : res (list Probe * nat) :=
  if count <? MaxProbes then
    probes ← set probes count (mkProbe cluster dist);
    probes ← heapSiftUp probes count;
    Ok (probes, S count)
  else
    root ← get probes 0;
    if (Dist root <=? dist)%Z then Ok (probes, count)
    else
      probes ← set probes 0 (mkProbe cluster dist);
      probes ← heapSiftDown probes 0 MaxProbes;
      Ok (probes, count).

(** The array [ScoreQ] declares and fills with sentinels. *)
Definition no_probes : list Probe := repeat (mkProbe maxU32 maxI64) MaxProbes.

(** ** Heap order and rearrangement *)

Definition key (h : list Probe) (i : nat) : Z := Dist (h !!! i).
Definition parent (i : nat) : nat := (i - 1) / 2.

(** The first [n] slots are a max-heap. *)
Definition heap_ok (h : list Probe) (n : nat) : Prop :=
  forall i, 0 < i < n -> (key h i <= key h (parent i))%Z.

(** A max-heap except that slot [i] may exceed its parent. *)
Definition up_ok (h : list Probe) (n i : nat) : Prop :=
  (forall j, 0 < j < n -> j <> i -> (key h j <= key h (parent j))%Z) /\
  (forall j, 0 < j < n -> 0 < i -> parent j = i -> (key h j <= key h (parent i))%Z).

(** A max-heap except that slot [i] may be below its children. *)
Definition down_ok (h : list Probe) (n i : nat) : Prop :=
  (forall j, 0 < j < n -> parent j <> i -> (key h j <= key h (parent j))%Z) /\
  (forall j, 0 < j < n -> 0 < i -> parent j = i -> (key h j <= key h (parent i))%Z).

(** [h'] rearranges the first [n] slots of [h] and keeps the others. *)
Definition rearr (n : nat) (h h' : list Probe) : Prop :=
  take n h' ≡ₚ take n h /\ drop n h' = drop n h.

Lemma rearr_refl n h : rearr n h h.
Proof. done. Qed.

Lemma rearr_trans n h1 h2 h3 : rearr n h1 h2 -> rearr n h2 h3 -> rearr n h1 h3.
Proof. intros [P1 D1] [P2 D2]. split; [by rewrite P2|congruence]. Qed.

Lemma rearr_length n h h' : rearr n h h' -> length h' = length h.
Proof.
  intros [P D]. rewrite <-(take_drop n h), <-(take_drop n h'), !length_app, P, D. done.
Qed.

Lemma rearr_mono n m h h' : n <= m -> rearr n h h' -> rearr m h h'.
Proof.
  intros Hnm HR. pose proof (rearr_length _ _ _ HR) as Hl. destruct HR as [P D]. split.
  - replace m with (n + (m - n)) by lia. rewrite <-!take_take_drop, D. by rewrite P.
  - replace m with (n + (m - n)) by lia. by rewrite <-!drop_drop, D.
Qed.

Lemma parent_lt i : 0 < i -> parent i < i.
Proof. unfold parent. intros H. pose proof (Nat.div_mod_eq (i - 1) 2). lia. Qed.

Lemma parent_child j i : 0 < j -> parent j = i <-> j = 2 * i + 1 \/ j = 2 * i + 2.
Proof.
  unfold parent. intros H. pose proof (Nat.div_mod_eq (j - 1) 2).
  pose proof (Nat.mod_upper_bound (j - 1) 2). lia.
Qed.

(** What the parallel assignment does. *)
Definition swapped (h : list Probe) (i j : nat) : list Probe :=
  <[j := h !!! i]> (<[i := h !!! j]> h).

Lemma swap_ok h i j : i < length h -> j < length h -> swap h i j = Ok (swapped h i j).
Proof.
  intros Hi Hj. unfold swap. rewrite (get_total h i), bind_Ok by done.
  rewrite (get_total h j), bind_Ok by done. rewrite set_ok, bind_Ok by done.
  apply set_ok. by rewrite length_insert.
Qed.

Lemma swapped_key h i j k :
  i < length h -> j < length h ->
  key (swapped h i j) k = if k =? j then key h i else if k =? i then key h j else key h k.
Proof.
  intros Hi Hj. unfold key, swapped. destruct (Nat.eqb_spec k j) as [->|Hkj].
  - by rewrite list_lookup_total_insert_eq by (by rewrite length_insert).
  - rewrite list_lookup_total_insert_ne by done. destruct (Nat.eqb_spec k i) as [->|Hki].
    + by rewrite list_lookup_total_insert_eq.
    + by rewrite list_lookup_total_insert_ne.
Qed.

Lemma swapped_rearr h i j n : i < n -> j < n -> n <= length h -> rearr n h (swapped h i j).
Proof.
  intros Hi Hj Hn. unfold swapped. split.
  - rewrite !take_insert by lia. rewrite !decide_True by lia.
    apply Permutation_insert_swap; rewrite lookup_take_lt by lia;
      apply list_lookup_lookup_total_lt; lia.
  - by rewrite !drop_insert_lt by lia.
Qed.

(** ** Sifting *)

(** Case analysis on the slots an exchange moved. *)
Ltac eqb_cases :=
  repeat match goal with |- context [?a =? ?b] => let e := fresh "e" in destruct (Nat.eqb_spec a b) as [e|] end;
  subst; try lia.
Ltac slots := rewrite !swapped_key by lia; eqb_cases.

Lemma up_ok_swapped h n i :
  0 < i < n -> n <= length h -> up_ok h n i -> (key h (parent i) < key h i)%Z ->
  up_ok (swapped h i (parent i)) n (parent i).
Proof.
  intros Hi Hn [H1 H2] Hlt. pose proof (parent_lt i). split.
  - intros j Hj Hne. pose proof (parent_lt j). slots.
    + pose proof (H1 j) as H3. rewrite e in H3. lia.
    + apply H2; lia.
    + apply H1; lia.
  - intros j Hj Hp Hpj. pose proof (parent_lt j). pose proof (parent_lt (parent i)).
    pose proof (H1 (parent i)). slots. pose proof (H1 j). rewrite Hpj in *. lia.
Qed.

Lemma siftUp_ok fuel h n i :
  i < fuel -> i < n -> n <= length h -> up_ok h n i ->
  returns (heapSiftUp_loop fuel h i) (fun h' => heap_ok h' n /\ rearr n h h').
Proof.
  revert h i. induction fuel as [|f IH]; intros h i Hf Hi Hn Hok; [lia|].
  cbn [heapSiftUp_loop]. destruct (Nat.ltb_spec 0 i) as [H0|H0].
  - pose proof (parent_lt i H0). fold (parent i). cbv zeta.
    rewrite !get_total, !bind_Ok by lia. fold (key h i) (key h (parent i)).
    destruct (Z.ltb_spec (key h (parent i)) (key h i)) as [Hk|Hk].
    + rewrite swap_ok, bind_Ok by lia. eapply wp_conseq.
      * apply IH; [lia|lia| |by apply up_ok_swapped].
        rewrite (rearr_length n h); [done|by apply swapped_rearr; lia].
      * intros h' [Hh Hr]. split; [done|]. eapply rearr_trans; [|done].
        apply swapped_rearr; lia.
    + apply wp_ok. split; [|by apply rearr_refl]. intros j Hj.
      destruct (decide (j = i)) as [->|]; [lia|]. by apply Hok.
  - apply wp_ok. split; [|by apply rearr_refl]. intros j Hj. apply Hok; lia.
Qed.

Lemma larger_ok h n c l :
  l < length h -> n <= length h ->
  larger h n c l = Ok (if (c <? n) && (key h l <? key h c)%Z then c else l).
Proof.
  intros Hl Hn. unfold larger. destruct (Nat.ltb_spec c n); [|done].
  rewrite !get_total, !bind_Ok by lia. done.
Qed.

(** The slot the loop of [heapSiftDown] exchanges with: the larger child when it
    exceeds slot [i], or [i] itself. *)
Definition largest (h : list Probe) (n i : nat) : nat :=
  let l := if (2 * i + 1 <? n) && (key h i <? key h (2 * i + 1))%Z then 2 * i + 1 else i in
  if (2 * i + 2 <? n) && (key h l <? key h (2 * i + 2))%Z then 2 * i + 2 else l.

Lemma largest_spec h n i :
  let m := largest h n i in
  (m = i \/ (i < m < n /\ parent m = i /\ (key h i < key h m)%Z)) /\
  (forall j, 0 < j < n -> parent j = i -> (key h j <= key h m)%Z).
Proof.
  assert (parent (2 * i + 1) = i /\ parent (2 * i + 2) = i) as [P1 P2]
    by (split; apply parent_child; lia).
  unfold largest. cbv zeta.
  destruct ((2 * i + 1 <? n) && (key h i <? key h (2 * i + 1))%Z) eqn:E1;
    destruct ((2 * i + 2 <? n) && (key h _ <? key h (2 * i + 2))%Z) eqn:E2;
    (split; [lia|]);
    intros j Hj Hp; apply parent_child in Hp as [-> | ->]; lia.
Qed.

Lemma down_ok_swapped h n i m :
  i < m < n -> n <= length h -> parent m = i -> down_ok h n i -> (key h i < key h m)%Z ->
  (forall j, 0 < j < n -> parent j = i -> (key h j <= key h m)%Z) ->
  down_ok (swapped h i m) n m.
Proof.
  intros Hm Hn Hpm [H1 H2] Hlt Hmax. pose proof (parent_lt i). split.
  - intros j Hj Hne. pose proof (parent_lt j). slots.
    + pose proof (H2 m). lia.
    + by apply Hmax.
    + by apply H1.
  - intros j Hj _ Hpj. rewrite Hpm. pose proof (parent_lt j). slots.
    apply H1; lia.
Qed.

Lemma siftDown_ok fuel h n i :
  n - i < fuel -> i < n -> n <= length h -> down_ok h n i ->
  returns (heapSiftDown_loop fuel h i n) (fun h' => heap_ok h' n /\ rearr n h h').
Proof.
  revert h i. induction fuel as [|f IH]; intros h i Hf Hi Hn Hok; [lia|].
  cbn [heapSiftDown_loop]. cbv zeta. rewrite larger_ok, bind_Ok by lia.
  destruct (largest_spec h n i) as [Hm Hmax].
  rewrite larger_ok, bind_Ok by (try destruct (_ && _) eqn:?; lia).
  fold (largest h n i). set (m := largest h n i) in *. clearbody m.
  destruct (Nat.eqb_spec m i) as [->|Hne].
  - apply wp_ok. split; [|by apply rearr_refl]. intros j Hj.
    destruct (decide (parent j = i)) as [E|]; [rewrite E; by apply Hmax|]. by apply Hok.
  - destruct Hm as [|(Hm & Hpm & Hlt)]; [done|].
    rewrite swap_ok, bind_Ok by lia. eapply wp_conseq.
    + apply IH; [lia|lia| |by apply down_ok_swapped].
      rewrite (rearr_length n h); [done|by apply swapped_rearr; lia].
    + intros h' [Hh Hr]. split; [done|]. eapply rearr_trans; [|done].
      apply swapped_rearr; lia.
Qed.

(** The root of a max-heap is the largest key. *)
Lemma heap_root h n i : heap_ok h n -> i < n -> (key h i <= key h 0)%Z.
Proof.
  intros Hh. induction i as [i IH] using lt_wf_ind. intros Hi.
  destruct (decide (i = 0)) as [->|]; [lia|]. pose proof (parent_lt i).
  pose proof (Hh i). pose proof (IH (parent i)). lia.
Qed.

(** ** Sorting and insertion *)

Lemma rearr_high n h h' i : rearr n h h' -> n <= i -> key h' i = key h i.
Proof.
  intros [_ D] Hi. unfold key. rewrite !list_lookup_total_alt.
  replace i with (n + (i - n)) by lia. by rewrite <-!lookup_drop, D.
Qed.

Lemma rearr_low n h h' i :
  rearr n h h' -> i < n -> n <= length h -> exists k, k < n /\ key h' i = key h k.
Proof.
  intros HR Hi Hn. pose proof (rearr_length _ _ _ HR) as Hl. destruct HR as [P _].
  assert (h' !!! i ∈ take n h) as He.
  { rewrite <-P. apply elem_of_take. exists i. split; [|done].
    apply list_lookup_lookup_total_lt. lia. }
  apply elem_of_take in He as (k & Hk & Hkn). exists k. split; [done|].
  unfold key. by rewrite (list_lookup_total_correct _ _ _ Hk).
Qed.

Lemma heapToSorted_ok c h n :
  n <= c -> c <= length h -> heap_ok h n ->
  (forall i j, i < j < c -> n <= j -> (key h i <= key h j)%Z) ->
  returns (heapToSorted h n)
    (fun h' => rearr c h h' /\ forall i j, i < j < c -> (key h' i <= key h' j)%Z).
Proof.
  intros Hn Hc. revert h Hc. induction n as [|n IH]; intros h Hc Hh Hs.
  { apply wp_ok. split; [apply rearr_refl|]. intros i j Hij. apply Hs; lia. }
  destruct n as [|n].
  { apply wp_ok. split; [apply rearr_refl|]. intros i j Hij. apply Hs; lia. }
  cbn [heapToSorted]. rewrite swap_ok, bind_Ok by lia.
  set (h1 := swapped h 0 (S n)).
  assert (rearr (S (S n)) h h1) as R1 by (apply swapped_rearr; lia).
  pose proof (rearr_length _ _ _ R1) as L1.
  assert (forall k, key h1 k = if k =? S n then key h 0 else if k =? 0 then key h (S n) else key h k) as K1
    by (intros k; apply swapped_key; lia).
  apply wp_bind. eapply wp_conseq.
  { apply (siftDown_ok _ h1 (S n) 0); [lia|lia|lia|]. split; [|lia].
    intros j Hj Hp. pose proof (parent_lt j). rewrite !K1.
    eqb_cases. apply Hh. lia. }
  intros h2 [Hh2 R2]. pose proof (rearr_length _ _ _ R2) as L2.
  eapply wp_conseq.
  { apply IH; [lia|lia|done|]. intros i j Hij Hnj.
    assert (forall k, S n <= k -> key h2 k = key h1 k) as Hhi by (intros; by eapply rearr_high).
    rewrite (Hhi j) by done. destruct (decide (i < S n)) as [Hi|Hi].
    - destruct (rearr_low _ _ _ i R2) as (k & Hk & ->); [done|lia|].
      pose proof (heap_root h (S (S n)) k Hh). pose proof (heap_root h (S (S n)) (S n) Hh).
      rewrite !K1. eqb_cases.
      + apply Hs; lia.
      + apply Hs; lia.
    - rewrite (Hhi i) by lia. rewrite !K1.
      eqb_cases; apply Hs; lia. }
  intros h' [R3 Hsorted]. split; [|done].
  apply (rearr_trans _ _ h1); [eapply rearr_mono; [|done]; lia|].
  apply (rearr_trans _ _ h2); [eapply rearr_mono; [|done]; lia|done].
Qed.

Lemma sorted_of_keys l :
  (forall i j, i < j < length l -> (key l i <= key l j)%Z) -> StronglySorted (key_le Dist) l.
Proof.
  induction l as [|x l IH]; intros H; constructor.
  - apply IH. intros i j Hij. apply (H (S i) (S j)). simpl. lia.
  - apply List.Forall_forall. intros y Hy. apply list_elem_of_In, list_elem_of_lookup in Hy as [i Hi].
    pose proof (lookup_lt_Some _ _ _ Hi). specialize (H 0 (S i) ltac:(simpl; lia)).
    unfold key in H. simpl in H. by rewrite (list_lookup_total_correct _ _ _ Hi) in H.
Qed.

(** What the array holds after [ps] were offered to [insertProbe]: a max-heap of
    [count] nearest ones, and sentinels behind it. *)
Definition holds (ps : list Probe) (st : list Probe * nat) : Prop :=
  let '(h, count) := st in
  length h = MaxProbes /\ count = MaxProbes `min` length ps /\ heap_ok h count /\
  smallest Dist (take count h) ps /\ drop count h = drop count no_probes.

Lemma set_up_ok h n p :
  n < length h -> heap_ok h n -> up_ok (<[n := p]> h) (S n) n.
Proof.
  intros Hn Hh.
  assert (forall k, k < n -> key (<[n := p]> h) k = key h k) as K.
  { intros k Hk. unfold key. by rewrite list_lookup_total_insert_ne by lia. }
  split; intros j Hj.
  - intros Hne. pose proof (parent_lt j). rewrite !K by lia. apply Hh. lia.
  - intros H0 Hp. pose proof (parent_lt j). lia.
Qed.

Lemma set_root_down_ok h n p : heap_ok h n -> down_ok (<[0 := p]> h) n 0.
Proof.
  intros Hh.
  assert (forall k, k <> 0 -> key (<[0 := p]> h) k = key h k) as K.
  { intros k Hk. unfold key. by rewrite list_lookup_total_insert_ne by lia. }
  split; [|lia]. intros j Hj Hp. rewrite !K by lia. by apply Hh.
Qed.

Lemma insertProbe_grow h n ps c d :
  n < MaxProbes -> holds ps (h, n) ->
  returns (insertProbe h n c d) (holds (ps ++ [mkProbe c d])).
Proof.
  intros Hn (Hl & Hc & Hh & Hs & Hd). unfold insertProbe.
  destruct (Nat.ltb_spec n MaxProbes); [|lia].
  rewrite set_ok, bind_Ok by lia. apply wp_bind. eapply wp_conseq.
  { apply (siftUp_ok _ _ (S n)); [lia|lia|rewrite length_insert; lia|].
    apply set_up_ok; [lia|done]. }
  intros h' [Hh' HR]. apply wp_ok.
  pose proof (rearr_length _ _ _ HR) as Hl'. rewrite length_insert in Hl'.
  destruct HR as [P D]. unfold holds. rewrite length_app. cbn [length].
  split; [lia|]. split; [lia|]. split; [done|]. split.
  - rewrite P. rewrite (take_S_r _ n (mkProbe c d)) by (apply list_lookup_insert_eq; lia).
    rewrite take_insert_ge by lia.
    assert (take n h ≡ₚ ps) as ->; [|apply smallest_refl].
    destruct Hs as (rest & Hp & _). destruct rest; [by rewrite app_nil_r in Hp|].
    apply Permutation_length in Hp. rewrite length_app, length_take in Hp. simpl in Hp. lia.
  - rewrite D. rewrite drop_insert_lt by lia.
    replace (S n) with (n + 1) by lia. by rewrite <-!drop_drop, Hd.
Qed.

Lemma insertProbe_full h ps c d :
  holds ps (h, MaxProbes) ->
  returns (insertProbe h MaxProbes c d) (holds (ps ++ [mkProbe c d])).
Proof.
  intros (Hl & Hc & Hh & Hs & Hd). unfold insertProbe.
  destruct (Nat.ltb_spec MaxProbes MaxProbes); [lia|].
  rewrite get_total, bind_Ok by (rewrite Hl; unfold MaxProbes; lia).
  assert (MaxProbes = MaxProbes `min` length (ps ++ [mkProbe c d])) as Hc'
    by (rewrite length_app; lia).
  rewrite take_ge in Hs by lia.
  assert (h = h !!! 0 :: tail h) as Eh.
  { destruct h; [discriminate Hl|done]. }
  assert (forall x, x ∈ h -> key_le Dist x (h !!! 0)) as Hmax.
  { intros x (i & Hi)%list_elem_of_lookup. pose proof (lookup_lt_Some _ _ _ Hi).
    pose proof (heap_root h MaxProbes i Hh) as Hr. unfold key in Hr.
    rewrite (list_lookup_total_correct _ _ _ Hi) in Hr. apply Hr. lia. }
  destruct (Z.leb_spec (Dist (h !!! 0)) d) as [Hle|Hlt].
  - apply wp_ok. unfold holds. rewrite take_ge by lia. repeat (split; [done|]). split; [|done].
    apply smallest_skip; [done|]. intros s x Hsx Hx. apply list_elem_of_singleton in Hx as ->.
    etrans; [by apply Hmax|done].
  - rewrite set_ok, bind_Ok by (rewrite Hl; unfold MaxProbes; lia).
    apply wp_bind. eapply wp_conseq.
    { apply (siftDown_ok _ _ MaxProbes 0); [lia|unfold MaxProbes; lia| |by apply set_root_down_ok].
      rewrite length_insert. lia. }
    intros h' [Hh' HR]. apply wp_ok.
    pose proof (rearr_length _ _ _ HR) as Hl'. rewrite length_insert in Hl'.
    destruct HR as [P D]. unfold holds. split; [lia|]. split; [done|]. split; [done|].
    rewrite !take_ge in P by (rewrite ?length_insert; lia). rewrite !drop_ge in * by (rewrite ?length_insert; lia).
    rewrite take_ge by lia. split; [|done]. rewrite P. rewrite Eh in Hs. rewrite Eh. simpl.
    eapply smallest_replace; [done| |unfold key_le; simpl; lia].
    intros s Hsx. apply Hmax. rewrite Eh. apply elem_of_cons. by right.
Qed.

Lemma insertProbe_ok h n ps c d :
  holds ps (h, n) -> returns (insertProbe h n c d) (holds (ps ++ [mkProbe c d])).
Proof.
  intros H. destruct (decide (n < MaxProbes)); [by apply insertProbe_grow|].
  assert (n = MaxProbes) as -> by (destruct H; lia). by apply insertProbe_full.
Qed.

Lemma no_probes_holds : holds [] (no_probes, 0).
Proof.
  unfold holds. split; [done|]. split; [done|]. split; [intros i; lia|].
  split; [apply smallest_refl|done].
Qed.

(** What [heapToSorted] leaves: the nearest probes in order of distance. *)
Definition nearest_sorted (ps : list Probe) (count : nat) (h : list Probe) : Prop :=
  length h = MaxProbes /\ count = MaxProbes `min` length ps /\
  StronglySorted (key_le Dist) (take count h) /\
  smallest Dist (take count h) ps /\ drop count h = drop count no_probes.

Lemma heapToSorted_spec h count :
  count <= length h -> heap_ok h count ->
  returns (heapToSorted h count) (fun h' =>
    StronglySorted (key_le Dist) (take count h') /\ rearr count h h').
Proof.
  intros Hc Hh. eapply wp_conseq.
  { apply (heapToSorted_ok count); [done|done|done|]. intros i j Hij. lia. }
  intros h' [HR Hsorted]. pose proof (rearr_length _ _ _ HR) as Hl'. split; [|exact HR].
  apply sorted_of_keys. intros i j Hij. rewrite length_take in Hij.
  unfold key. rewrite !list_lookup_total_alt, !lookup_take_lt by lia.
  rewrite <-!list_lookup_total_alt. apply Hsorted. lia.
Qed.

Lemma heapToSorted_holds h n ps :
  holds ps (h, n) -> returns (heapToSorted h n) (nearest_sorted ps n).
Proof.
  intros (Hl & Hc & Hh & Hs & Hd). eapply wp_conseq.
  { apply heapToSorted_spec; [lia|done]. }
  intros h' [Hsorted HR]. pose proof (rearr_length _ _ _ HR) as Hl'. destruct HR as [P D].
  split; [lia|]. split; [done|]. split; [done|]. split; [by rewrite P|congruence].
Qed.

(** Offering a whole sequence of probes, as the centroid loop of [ScoreQ] does. *)
Definition offer_all (st : list Probe * nat) (ps : list Probe) : res (list Probe * nat) :=
  foldM (fun '(h, n) p => insertProbe h n (Cluster p) (Dist p)) st ps.

Lemma offer_all_ok st seen ps :
  holds seen st -> returns (offer_all st ps) (holds (seen ++ ps)).
Proof.
  intros H. apply (wp_foldM _ (fun vis => holds (seen ++ vis))); [by rewrite app_nil_r|].
  intros vis [c d] rest [h n] _ Hst. rewrite app_assoc. by apply insertProbe_ok.
Qed.

(** ** The loops end

    On any array, heap or not, with its slots in range or not: sifting up moves towards
    slot 0, sifting down towards [size]. *)

Lemma swap_halts h i j : halts (swap h i j).
Proof. unfold swap. halts_go. Qed.
#[local] Hint Resolve swap_halts : halts.

Lemma heapSiftUp_halts h i : halts (heapSiftUp h i).
Proof.
  unfold heapSiftUp. assert (i < S i) as Hi by lia. revert Hi. generalize (S i). intros fuel.
  revert h i. induction fuel as [|f IH]; intros h i Hi; [lia|]. cbn [heapSiftUp_loop].
  destruct (Nat.ltb_spec 0 i); [|exact I]. cbv zeta. halts_go. apply IH.
  pose proof (Nat.Div0.div_lt_upper_bound (i - 1) 2 i ltac:(lia)). lia.
Qed.

Lemma larger_halts h size c l : halts (larger h size c l).
Proof. unfold larger. halts_go. Qed.

Lemma larger_cases h size c l x : larger h size c l = Ok x -> x = l \/ (x = c /\ c < size).
Proof.
  unfold larger. destruct (Nat.ltb_spec c size); [|intros [= <-]; by left].
  destruct (get h c); [|done..]. destruct (get h l); [|done..]. cbn.
  destruct (_ <? _)%Z; intros [= <-]; [by right|by left].
Qed.

Lemma heapSiftDown_halts h i size : halts (heapSiftDown h i size).
Proof.
  unfold heapSiftDown. assert (size - i < S size) as Hi by lia. revert Hi. generalize (S size). intros fuel.
  revert h i. induction fuel as [|f IH]; intros h i Hi; [lia|]. cbn [heapSiftDown_loop]. cbv zeta.
  apply halts_bind_eq; [apply larger_halts|intros l Hl].
  apply halts_bind_eq; [apply larger_halts|intros r Hr].
  apply larger_cases in Hl, Hr.
  destruct (Nat.eqb_spec r i); [exact I|]. apply halts_bind; [apply swap_halts|intros h'].
  apply IH. lia.
Qed.
#[global] Hint Resolve heapSiftUp_halts heapSiftDown_halts : halts.

Lemma heapToSorted_halts h n : halts (heapToSorted h n).
Proof. revert h. induction n as [|n IH]; intros h; [exact I|]. destruct n as [|n]; [exact I|]. 
  apply halts_bind; [apply swap_halts|intros h1].
  apply halts_bind; [apply heapSiftDown_halts|intros h2]. apply IH.
Qed.

Lemma insertProbe_halts h n c d : halts (insertProbe h n c d).
Proof. unfold insertProbe. halts_go. Qed.
#[global] Hint Resolve heapToSorted_halts insertProbe_halts : halts.

(** ** Properties *)

(** C24: however many probes are offered, in whatever order and with whatever ties,
    [insertProbe] never indexes out of the 33-slot array, keeps the occupied slots a
    max-heap on [Dist], and the slots always hold a selection of the nearest probes
    offered so far (all of them while at most 33 were offered); [heapToSorted] then
    returns and leaves that same selection in ascending order of [Dist]; the slots
    behind stay sentinels throughout. *)
Theorem insertProbe_keeps_nearest ps :
  returns (
    '(h, n) ← offer_all (no_probes, 0) ps;
    h' ← heapToSorted h n;
    Ok (h, n, h')) (fun '(h, n, h') =>
    n = MaxProbes `min` length ps /\ heap_ok h n /\
    smallest Dist (take n h) ps /\ drop n h = drop n no_probes /\
    StronglySorted (key_le Dist) (take n h') /\
    take n h' ≡ₚ take n h /\ drop n h' = drop n no_probes).
Proof.
  apply wp_bind. eapply wp_conseq; [exact (offer_all_ok _ [] ps no_probes_holds)|].
  intros [h n] (Hl & Hn & Hh & Hs & Hd).
  apply wp_bind. eapply wp_conseq; [apply heapToSorted_spec; [lia|done]|].
  intros h' (Hsorted & HP & HD). apply wp_ok. by rewrite HD.
Qed.

(** [heapToSorted] sorts any max-heap prefix in place: it returns, the first [count]
    slots become a permutation of themselves in ascending order of [Dist], and the
    other slots are untouched. *)
Theorem heapToSorted_sorts h count :
  count <= length h -> heap_ok h count ->
  returns (heapToSorted h count) (fun h' =>
    StronglySorted (key_le Dist) (take count h') /\
    take count h' ≡ₚ take count h /\ drop count h' = drop count h).
Proof. intros Hc Hh. by apply heapToSorted_spec. Qed.

Example heapToSorted_sorts_witness :
  returns (heapToSorted [mkProbe 4 9; mkProbe 1 7; mkProbe 2 8; mkProbe 3 1] 3) (fun h' =>
    StronglySorted (key_le Dist) (take 3 h') /\
    take 3 h' ≡ₚ [mkProbe 4 9; mkProbe 1 7; mkProbe 2 8] /\ drop 3 h' = [mkProbe 3 1]).
Proof.
  apply heapToSorted_sorts; [simpl; lia|].
  intros i Hi. assert (i = 1 \/ i = 2) as [-> | ->] by lia; vm_compute; discriminate.
Defined.

End ProbeHeap.
