(* ===== verification/TopKTable.v ===== *)
(** * internal/knn: the table of the five nearest vectors

    [insertBest] of [internal/knn/knn.go] over the two parallel arrays [bestD] and
    [bestL], proved to be insertion into the list of the [TopK] nearest labelled
    vectors, earlier ones first among equals. *)

From S2P Require Import Prelude Select.
From stdpp Require Import sorting.

Module TopKTable.

Definition TopK : nat := 5.

(** ** The code *)

(** The loop [for pos > 0 && dist < bestD[pos-1]] and the two stores behind it. *)
Fixpoint insertBest_loop (pos : nat) (dist label : Z) (bestD bestL : list Z) : res (list Z * list Z) :=
  let finish :=
    bestD ← set bestD pos dist;
    bestL ← set bestL pos label;
    Ok (bestD, bestL) in
  match pos with
  | O => finish
  | S prev =>
      d ← get bestD prev;
      if (dist <? d)%Z then
        bestD ← set bestD pos d;
        l ← get bestL prev;
        bestL ← set bestL pos l;
        insertBest_loop prev dist label bestD bestL
      else finish
  end.

Definition insertBest (dist label : Z) (bestD bestL : list Z) : res (list Z * list Z) :=
  last ← get bestD (TopK - 1);
  if (last <=? dist)%Z then Ok (bestD, bestL)
  else insertBest_loop (TopK - 1) dist label bestD bestL.

(** Whatever the arrays, the loop ends: its position goes down. *)
Lemma insertBest_halts dist label bestD bestL : halts (insertBest dist label bestD bestL).
Proof.
  assert (forall pos d l bd bl, halts (insertBest_loop pos d l bd bl)) as Hloop.
  { induction pos as [|pos IH]; intros; cbn [insertBest_loop]; halts_go; auto. }
  unfold insertBest. halts_go.
Qed.
#[global] Hint Resolve insertBest_halts : halts.

(** ** The table *)

(** A labelled vector: its distance to the query and its label. *)
Abbreviation cand := (Z * Z)%type.

(** The tables [bestD] and [bestL] of [ScoreQ]: distances start at [maxI64], labels at 0. *)
Definition no_best : list cand := repeat (maxI64, 0%Z) TopK.

(** The arrays [bestD] and [bestL] hold the table [t], which is in order of distance. *)
Definition table (t : list cand) (b : list Z * list Z) : Prop :=
  b = (map fst t, map snd t) /\ length t = TopK /\ StronglySorted (key_le fst) t.

(** The table after the vectors [cs] went by. *)
Definition nearest5 (cs : list cand) : list cand := nearest_of fst TopK no_best cs.

Lemma no_best_sorted : StronglySorted (key_le fst) no_best.
Proof. unfold no_best, key_le. simpl. repeat constructor; simpl; lia. Qed.

Lemma nearest5_sorted cs : StronglySorted (key_le fst) (nearest5 cs).
Proof. apply nearest_of_sorted, no_best_sorted. Qed.

Lemma nearest5_smallest cs : smallest fst (nearest5 cs) (no_best ++ cs).
Proof. apply nearest_of_smallest, no_best_sorted. Qed.

Lemma nearest5_length cs : length (nearest5 cs) = TopK.
Proof. by apply nearest_of_length. Qed.

Lemma nearest5_table cs : table (nearest5 cs) (map fst (nearest5 cs), map snd (nearest5 cs)).
Proof. split; [done|]. split; [apply nearest5_length|apply nearest5_sorted]. Qed.


(** The distance of the farthest vector in the table, [bestD[TopK-1]]. *)
Definition worst (t : list cand) : Z := (t !!! (TopK - 1)).1.

(** [insertBest] on a sorted table: insertion, and the farthest of the six is dropped. *)
Lemma insertBest_table t b dist label :
  table t b ->
  returns (insertBest dist label b.1 b.2) (table (take TopK (sinsert fst (dist, label) t))).
Proof.
  intros (-> & Hl & Hs). assert (StronglySorted (key_le fst) (take TopK (sinsert fst (dist, label) t))) as Hs'.
  { apply (sinsert_sorted fst (dist, label)) in Hs.
    rewrite <-(take_drop TopK (sinsert _ _ _)) in Hs. by apply StronglySorted_app_1_l in Hs. }
  assert (length (take TopK (sinsert fst (dist, label) t)) = TopK) as Hl'.
  { rewrite length_take, sinsert_length. lia. }
  destruct t as [|[a la] [|[b lb] [|[c lc] [|[d ld] [|[e le] [|]]]]]]; try discriminate Hl.
  assert (a <= b /\ b <= c /\ c <= d /\ d <= e)%Z as Ho.
  { repeat match goal with H : StronglySorted _ (_ :: _) |- _ => inversion_clear H end.
    repeat match goal with H : Forall _ (_ :: _) |- _ => inversion_clear H end.
    unfold key_le in *. simpl in *. lia. }
  apply returns_inv. eexists. split; [|split; [reflexivity|done]]. clear Hs Hs' Hl Hl'. unfold insertBest. cbn.
  repeat (match goal with
    |- context [set _ _ _] => rewrite set_ok by (cbn; lia); cbn
  | |- context [(?x <? ?y)%Z] => destruct (Z.ltb_spec x y); try lia; cbn
  | |- context [(?x <=? ?y)%Z] => destruct (Z.leb_spec x y); try lia; cbn end); reflexivity.
Qed.

Lemma worst_max t x :
  length t = TopK -> StronglySorted (key_le fst) t -> x ∈ t -> (x.1 <= worst t)%Z.
Proof.
  intros Hl Hs Hx.
  destruct t as [|a [|b [|c [|d [|e [|]]]]]]; try discriminate Hl. unfold worst. cbn.
  apply (elem_of_app [a; b; c; d] [e]) in Hx as [Hx| ->%list_elem_of_singleton]; [|done].
  apply (StronglySorted_app_1_elem_of _ [a; b; c; d] [e] x e Hs); [done|].
  by apply list_elem_of_singleton.
Qed.

(** A vector no nearer than the farthest of the table leaves it as it is. *)
Lemma table_skip t x :
  length t = TopK -> StronglySorted (key_le fst) t -> (worst t <= x.1)%Z ->
  take TopK (sinsert fst x t) = t.
Proof.
  intros Hl Hs Hw. rewrite sinsert_last.
  - by rewrite <-Hl, take_app_length.
  - intros y Hy. unfold key_le. pose proof (worst_max t y Hl Hs Hy). lia.
Qed.

Lemma worst_get t b : table t b -> get b.1 (TopK - 1) = Ok (worst t).
Proof.
  intros (-> & Hl & _). apply get_ok. simpl.
  destruct t as [|a [|b [|c [|d [|e [|]]]]]]; try discriminate Hl. done.
Qed.

(** ** Properties *)

(** Fed any stream of labelled vectors, starting from the sentinels, [insertBest]
    stays inside its two five-slot arrays, and they end up holding exactly the five
    nearest of the stream in ascending order, ties in favour of the vector seen first:
    the first five entries of the stable insertion sort of the stream. *)
Theorem insertBest_stream (cs : list cand) :
  returns (foldM (fun b c => insertBest c.1 c.2 b.1 b.2)
             (repeat maxI64 TopK, repeat 0%Z TopK) cs)
    (fun b => b = (map fst (nearest5 cs), map snd (nearest5 cs)) /\
              length (nearest5 cs) = TopK /\ StronglySorted (key_le fst) (nearest5 cs) /\
              smallest fst (nearest5 cs) (no_best ++ cs)).
Proof.
  eapply wp_conseq.
  - apply (wp_foldM _ (fun vis b => table (nearest5 vis) b)).
    + exact (nearest5_table []).
    + intros vis [d l] rest b _ Hb. unfold nearest5 at 1. rewrite nearest_of_step.
      by apply insertBest_table.
  - intros b (-> & Hl & Hs). split; [done|]. split; [done|]. split; [done|].
    apply nearest5_smallest.
Qed.

End TopKTable.
