(* ===== verification/Knn.v ===== *)
(** * internal/knn: the nearest-neighbour search

    [ScoreQ] of [internal/knn/knn.go] with [scanCluster], [repairFast] and
    [repairFull], against the kernel interface of [Kernel].  The search is proved equal
    to a pure specification that never mentions blocks, lanes, pruning or 64-bit words,
    and then related to the exact five nearest neighbours. *)

From S2P Require Import Prelude Floats Select Index Kernel ProbeHeap TopKTable.
From stdpp Require Import sorting.

Module Knn.
Import Index Kernel ProbeHeap TopKTable.

Local Open Scope Z_scope.

(** ** The code *)

Section Code.
Context `{Kernel}.
Variable ix : Index.
Variable q : list Z.

(** The arrays [bestD] and [bestL]. *)
Definition best : Type := list Z * list Z.

(** [for j := 0; j < TopK; j++ { frauds += uint32(bestL[j]) }], and the [uint8] sum of
    [repairFast]. *)
Definition fraud_sum (bestL : list Z) : res Z :=
  foldM (fun frauds j => l ← get bestL j; Ok (u32 (frauds + l))) 0 (seq 0 TopK).
Definition fraud_sum8 (bestL : list Z) : res Z :=
  foldM (fun frauds j => l ← get bestL j; Ok (u8 (frauds + l))) 0 (seq 0 TopK).

(** The loop that prefetches the first four blocks. *)
Fixpoint prime (startBlock endBlock : nat) (ps : list nat) : res unit :=
  match ps with
  | [] => Ok tt
  | p :: ps' =>
      let nb := (startBlock + p)%nat in
      if (endBlock <=? nb)%nat then Ok tt
      else _ ← prefetchBlock (Vectors ix) nb; prime startBlock endBlock ps'
  end.

(** One lane of a block that was not pruned. *)
Definition scan_lane (blk : nat) (dists : list Z) (b : best) (lane : nat) : res best :=
  d ← get dists lane;
  last ← get b.1 (TopK - 1);
  if d <? last then
    label ← getZ (Labels ix) (Z.of_nat blk * 8 + Z.of_nat lane);
    insertBest d label b.1 b.2
  else Ok b.

(** One turn of the block loop; the state is [processed] and the table. *)
Definition scan_block (endBlock : nat) (total : Z) (st : Z * best) (blk : nat) : res (Z * best) :=
  let '(processed, b) := st in
  _ ← (if (blk + 4 <? endBlock)%nat then prefetchBlock (Vectors ix) (blk + 4) else Ok tt);
  threshold ← get b.1 (TopK - 1);
  '(dists, pruned) ← blkDistPrune (Vectors ix) blk q threshold;
  let remaining := u32 (total - processed) in
  let laneN := if remaining <? 8 then remaining else 8 in
  let processed := u32 (processed + laneN) in
  if (pruned : bool) then Ok (processed, b)
  else
    b ← foldM (scan_lane blk dists) b (seq 0 (Z.to_nat laneN));
    Ok (processed, b).

Definition scanCluster (cluster : Z) (b : best) : res best :=
  startBlock ← getZ (BlockOffsets ix) cluster;
  endBlock ← getZ (BlockOffsets ix) (u32 (cluster + 1));
  total ← getZ (Counts ix) cluster;
  if total =? 0 then Ok b
  else
    let s := Z.to_nat startBlock in
    let e := Z.to_nat endBlock in
    _ ← prime s e [0; 1; 2; 3]%nat;
    st ← foldM (scan_block e total) (0, b) (seq s (e - s));
    Ok st.2.

(** [repairFast]: the loop over [probes[NPROBE:]], with its [break]s. *)
Fixpoint repairFast_loop (ps : list Probe) (b : best) : res best :=
  match ps with
  | [] => Ok b
  | p :: ps' =>
      if Cluster p =? maxU32 then Ok b
      else
        lb ← bboxLowerBoundFast q ix (Cluster p);
        last ← get b.1 (TopK - 1);
        if last <=? lb then repairFast_loop ps' b
        else
          b ← scanCluster (Cluster p) b;
          frauds ← fraud_sum8 b.2;
          last ← get b.1 (TopK - 1);
          if ((frauds <? RepairMin) || (RepairMax <? frauds)) && (last <=? EarlyDist)
          then Ok b
          else repairFast_loop ps' b
  end.

Definition repairFast (probes : list Probe) (b : best) : res best :=
  repairFast_loop (drop NPROBE probes) b.

(** [seenMask]: one bit per cluster already looked at. *)
Fixpoint mark_seen (ps : list Probe) (seenMask : list Z) : res (list Z) :=
  match ps with
  | [] => Ok seenMask
  | p :: ps' =>
      if Cluster p =? maxU32 then Ok seenMask
      else
        let w := Cluster p / 64 in
        let b := Cluster p mod 64 in
        if w <? Z.of_nat SeenWords then
          m ← get seenMask (Z.to_nat w);
          seenMask ← set seenMask (Z.to_nat w) (Z.lor m (u64 (Z.shiftl 1 b)));
          mark_seen ps' seenMask
        else mark_seen ps' seenMask
  end.

Definition full_step (seenMask : list Z) (b : best) (i : nat) : res best :=
  let ci := Z.of_nat i in
  count ← getZ (Counts ix) ci;
  if count =? 0 then Ok b
  else
    m ← getZ seenMask (ci / 64);
    if negb (Z.land (Z.shiftr m (ci mod 64)) 1 =? 0) then Ok b
    else
      lb ← bboxLowerBoundFast q ix ci;
      last ← get b.1 (TopK - 1);
      if last <=? lb then Ok b else scanCluster ci b.

Definition repairFull (probes : list Probe) (b : best) : res best :=
  seenMask ← mark_seen probes (repeat 0 SeenWords);
  foldM (full_step seenMask) b (seq 0 (Z.to_nat (u32 (K ix)))).

(** The first part of [ScoreQ]: the distances of the centroids, block by block, into
    the probe heap, which is then sorted. *)
Definition centroid_lane (dists : list Z) (ciBase : Z) (st : list Probe * nat) (lane : nat)
    : res (list Probe * nat) :=
  let ci := u32 (ciBase + Z.of_nat lane) in
  count ← getZ (Counts ix) ci;
  if count =? 0 then Ok st
  else d ← get dists lane; insertProbe st.1 st.2 ci d.

Definition centroid_block (st : list Probe * nat) (cb : nat) : res (list Probe * nat) :=
  dists ← blkDist (Centroids ix) cb q;
  let ciBase := u32 (Z.of_nat cb * 8) in
  let remaining := u32 (u32 (K ix) - ciBase) in
  let laneMax := if remaining <? 8 then remaining else 8 in
  foldM (centroid_lane dists ciBase) st (seq 0 (Z.to_nat laneMax)).

Definition selectProbes : res (list Probe * nat) :=
  '(probes, probeCount) ← foldM centroid_block (no_probes, 0%nat) (seq 0 (Z.to_nat (NCentroidBlk ix)));
  probes ← heapToSorted probes probeCount;
  Ok (probes, probeCount).

(** The rest of [ScoreQ]: scan, the early return, and the two repairs. *)
Definition search (probes : list Probe) (probeCount : nat) : res Z :=
  let nInitial := if (probeCount <? NPROBE)%nat then probeCount else NPROBE in
  b ← foldM (fun b pi => p ← get probes pi; scanCluster (Cluster p) b)
        (repeat maxI64 TopK, repeat 0 TopK) (seq 0 nInitial);
  frauds ← fraud_sum b.2;
  last ← get b.1 (TopK - 1);
  if (frauds =? Z.of_nat TopK) && (last <=? EarlyDist) then Ok frauds
  else
    ps ← slice probes 0 (Z.of_nat probeCount);
    b ← repairFast ps b;
    frauds ← fraud_sum b.2;
    if frauds <=? RepairMax then
      b ← repairFull ps b;
      fraud_sum b.2
    else Ok frauds.

Definition ScoreQ : res Z :=
  '(probes, probeCount) ← selectProbes;
  search probes probeCount.
End Code.

(** ** The search ends

    Whatever the index and the query, the search returns or panics: none of its loops
    goes on for ever, and nothing in it returns an error. *)

Section Ends.
Context `{KernelLaws}.
Variable ix : Index.
Variable q : list Z.

Lemma prime_halts s e ps : halts (prime ix s e ps).
Proof. induction ps; cbn [prime]; halts_go; done. Qed.

Lemma scanCluster_halts c b : halts (scanCluster ix q c b).
Proof. unfold scanCluster, scan_block, scan_lane. repeat first [apply prime_halts | cbv beta zeta; halts_step]. Qed.
#[local] Hint Resolve scanCluster_halts : halts.

Lemma repairFast_halts probes b : halts (repairFast ix q probes b).
Proof.
  unfold repairFast. generalize (drop NPROBE probes). intros ps. revert b.
  induction ps as [|p ps IH]; intros b; cbn [repairFast_loop]; unfold fraud_sum8; halts_go; apply IH.
Qed.

Lemma mark_seen_halts ps m : halts (mark_seen ps m).
Proof. revert m. induction ps as [|p ps IH]; intros m; cbn [mark_seen]; halts_go; apply IH. Qed.

Lemma repairFull_halts probes b : halts (repairFull ix q probes b).
Proof. unfold repairFull, full_step. repeat first [apply mark_seen_halts | cbv beta zeta; halts_step]. Qed.
#[local] Hint Resolve repairFast_halts repairFull_halts : halts.

Lemma ScoreQ_halts : halts (ScoreQ ix q).
Proof.
  unfold ScoreQ, selectProbes, search, centroid_block, centroid_lane, fraud_sum.
  repeat first [apply repairFull_halts | cbv beta zeta; halts_step].
Qed.
End Ends.
#[global] Hint Resolve ScoreQ_halts : halts.

(** ** Well-formed indexes *)

Definition off (ix : Index) (c : Z) : Z := BlockOffsets ix !!! Z.to_nat c.
Definition cnt (ix : Index) (c : Z) : Z := Counts ix !!! Z.to_nat c.

(** Where member [j] of a cluster is stored, its vector and its label. *)
Definition blk_of (ix : Index) (c : Z) (j : nat) : nat := (Z.to_nat (off ix c) + j / 8)%nat.
Definition member (ix : Index) (c : Z) (j : nat) : list Z :=
  vec (Vectors ix) (blk_of ix c j) (j mod 8).
Definition label (ix : Index) (c : Z) (j : nat) : Z :=
  Labels ix !!! (blk_of ix c j * 8 + j mod 8)%nat.

(** What the index builder establishes (see [Build]) and the search relies on. *)
Record index_wf (ix : Index) : Prop := {
  wf_K : 0 <= K ix <= Z.of_nat MaxK;
  wf_ncb : NCentroidBlk ix = ncb_of (K ix);
  wf_nb : 0 <= NBlocks ix < 2 ^ 29;
  wf_centroids : length (Centroids ix) = Z.to_nat (ncb_of (K ix) * 128);
  wf_centroids_q : quantized (Centroids ix);
  wf_min : length (BBoxMin ix) = Z.to_nat (K ix * 16);
  wf_max : length (BBoxMax ix) = Z.to_nat (K ix * 16);
  wf_offsets : length (BlockOffsets ix) = Z.to_nat (K ix + 1);
  wf_counts : length (Counts ix) = Z.to_nat (K ix);
  wf_vectors : length (Vectors ix) = Z.to_nat (NBlocks ix * 128);
  wf_vectors_q : quantized (Vectors ix);
  wf_labels : length (Labels ix) = Z.to_nat (NBlocks ix * 8);
  wf_labels_01 : Forall (fun l => 0 <= l <= 1) (Labels ix);
  wf_blocks c : 0 <= c < K ix ->
    0 <= off ix c /\ off ix c <= off ix (c + 1) <= NBlocks ix /\
    0 <= cnt ix c <= 8 * (off ix (c + 1) - off ix c);
  wf_boxes c : 0 <= c < K ix -> 0 < cnt ix c ->
    quantized (row (BBoxMin ix) (Z.to_nat c)) /\ quantized (row (BBoxMax ix) (Z.to_nat c));
  wf_inside c j : 0 <= c < K ix -> (j < Z.to_nat (cnt ix c))%nat ->
    Forall2 Z.le (row (BBoxMin ix) (Z.to_nat c)) (member ix c j) /\
    Forall2 Z.le (member ix c j) (row (BBoxMax ix) (Z.to_nat c))
}.

(** A quantized query. *)
Definition query (q : list Z) : Prop := length q = 16%nat /\ quantized q.

(** ** The specification *)

Section Spec.
Variable ix : Index.
Variable q : list Z.

(** The labelled distances of a cluster's members, and of several clusters. *)
Definition cand_at (c : Z) (j : nat) : cand := (sqdist q (member ix c j), label ix c j).
Definition cluster_cands (c : Z) : list cand := map (cand_at c) (seq 0 (Z.to_nat (cnt ix c))).
Definition cands_of (cs : list Z) : list cand := concat (map cluster_cands cs).

Definition clusters : list Z := map Z.of_nat (seq 0 (Z.to_nat (K ix))).
Definition nonempty : list Z := filter (fun c => cnt ix c <> 0) clusters.

(** Every stored vector. *)
Definition all_cands : list cand := cands_of clusters.

(** Looking at one more cluster. *)
Definition scan (t : list cand) (c : Z) : list cand := nearest_of fst TopK t (cluster_cands c).

Definition frauds (t : list cand) : Z := foldr (fun x s => x.2 + s) 0 t.
Definition box_of (c : Z) : Z :=
  boxdist q (row (BBoxMin ix) (Z.to_nat c)) (row (BBoxMax ix) (Z.to_nat c)).

(** [repairFast]: the clusters in order, the ones whose box is no nearer skipped,
    until a scan leaves a unanimous and tight table. *)
Fixpoint repair (cs : list Z) (t : list cand) : list cand :=
  match cs with
  | [] => t
  | c :: cs' =>
      if worst t <=? box_of c then repair cs' t
      else
        let t := scan t c in
        if ((frauds t <? RepairMin) || (RepairMax <? frauds t)) && (worst t <=? EarlyDist)
        then t else repair cs' t
  end.

(** [repairFull]: every cluster that is not a probe. *)
Definition unseen (probes : list Z) : list Z := filter (fun c => c ∉ probes) nonempty.
Definition repair_full (probes : list Z) (t : list cand) : list cand :=
  foldl scan t (unseen probes).

(** The answer of [ScoreQ], given its probes from the nearest on. *)
Definition score (probes : list Z) : Z :=
  let t := foldl scan no_best (take NPROBE probes) in
  if (frauds t =? 5) && (worst t <=? EarlyDist) then frauds t
  else
    let t := repair (drop NPROBE probes) t in
    if frauds t <=? RepairMax then frauds (repair_full probes t) else frauds t.

(** The probes: the nearest non-empty clusters by centroid. *)
Definition centroid_dist (c : Z) : Z :=
  sqdist q (vec (Centroids ix) (Z.to_nat c / 8) (Z.to_nat c mod 8)).
Definition centroid_probes : list Probe :=
  map (fun c => mkProbe c (centroid_dist c)) nonempty.
End Spec.

(** ** Tables *)

(** A table in order, of labels 0 and 1. *)
Definition good (t : list cand) : Prop :=
  length t = TopK /\ StronglySorted (key_le fst) t /\ Forall (fun x => 0 <= x.2 <= 1) t.

Lemma good_no_best : good no_best.
Proof.
  split; [done|]. split; [apply no_best_sorted|]. unfold no_best. repeat constructor; cbn; lia.
Qed.

Definition arrays (t : list cand) : best := (map fst t, map snd t).

Lemma arrays_table t : good t -> table t (arrays t).
Proof. intros (H1 & H2 & _). by split. Qed.

Lemma table_arrays t b : table t b -> b = arrays t.
Proof. by intros [-> _]. Qed.

Lemma good_nearest t cs :
  good t -> Forall (fun x => 0 <= x.2 <= 1) cs -> good (nearest_of fst TopK t cs).
Proof.
  intros (Hl & Hs & Hf) Hc. split; [apply nearest_of_length; lia|].
  split; [by apply nearest_of_sorted|]. unfold nearest_of. apply Forall_take.
  rewrite (insertion_perm fst t cs). by apply Forall_app.
Qed.

(** Candidates no nearer than the table's worst leave it as it is. *)
Lemma nearest_skip t cs :
  length t = TopK -> StronglySorted (key_le fst) t ->
  (forall x, x ∈ cs -> worst t <= x.1) -> nearest_of fst TopK t cs = t.
Proof.
  intros Hl Hs. induction cs as [|x cs IH] using rev_ind; intros Hx.
  - unfold nearest_of. simpl. apply take_ge. by rewrite Hl.
  - rewrite nearest_of_step, IH.
    + apply table_skip; [done|done|]. apply Hx, elem_of_app. right. by apply list_elem_of_singleton.
    + intros y Hy. apply Hx, elem_of_app. by left.
Qed.

Lemma frauds_range t : good t -> 0 <= frauds t <= 5.
Proof.
  intros (Hl & _ & Hf). destruct t as [|a [|b [|c [|d [|e [|]]]]]]; try discriminate Hl.
  repeat (apply Forall_cons_iff in Hf as [? Hf]). unfold frauds. cbn. lia.
Qed.

Lemma fraud_sums t :
  good t -> fraud_sum (arrays t).2 = Ok (frauds t) /\ fraud_sum8 (arrays t).2 = Ok (frauds t).
Proof.
  intros Hg. pose proof (frauds_range t Hg) as Hr. destruct Hg as (Hl & _ & Hf).
  destruct t as [|a [|b [|c [|d [|e [|]]]]]]; try discriminate Hl.
  repeat (apply Forall_cons_iff in Hf as [? Hf]). unfold frauds in *. cbn -[u32 u8] in *.
  assert (forall x, 0 <= x <= 5 -> u32 x = x /\ u8 x = x) as E
    by (intros x Hx; split; apply wrapU_id; unfold inU; lia).
  destruct (E (0 + a.2)) as [-> ->]; [lia|].
  destruct (E (0 + a.2 + b.2)) as [-> ->]; [lia|].
  destruct (E (0 + a.2 + b.2 + c.2)) as [-> ->]; [lia|].
  destruct (E (0 + a.2 + b.2 + c.2 + d.2)) as [-> ->]; [lia|].
  destruct (E (0 + a.2 + b.2 + c.2 + d.2 + e.2)) as [-> ->]; [lia|].
  split; f_equal; lia.
Qed.

Lemma worst_arrays t : good t -> get (arrays t).1 (TopK - 1) = Ok (worst t).
Proof. intros Hg. by apply worst_get, arrays_table. Qed.

(** [insertBest], guarded as the code guards it. *)
Lemma insert_arrays t d l :
  good t ->
  (if d <? worst t then insertBest d l (arrays t).1 (arrays t).2 else Ok (arrays t)) =
  Ok (arrays (take TopK (sinsert fst (d, l) t))).
Proof.
  intros (Hl & Hs & Hf). destruct (Z.ltb_spec d (worst t)).
  - apply (wp_eq _ _ (fun _ => False)); [by intros ? []|].
    eapply wp_conseq; [apply insertBest_table; by split|]. intros b Hb. by apply table_arrays.
  - by rewrite table_skip.
Qed.

(** ** Scanning *)

Section Search.
Context `{KernelLaws}.
Variable ix : Index.
Variable q : list Z.
Hypothesis wf : index_wf ix.
Hypothesis query_ok : query q.

Lemma count_get c : 0 <= c < K ix -> getZ (Counts ix) c = Ok (cnt ix c).
Proof.
  intros Hc. pose proof (wf_counts ix wf). apply getZ_ok; [lia|].
  apply list_lookup_lookup_total_lt. lia.
Qed.

Lemma offset_get c : 0 <= c <= K ix -> getZ (BlockOffsets ix) c = Ok (off ix c).
Proof.
  intros Hc. pose proof (wf_offsets ix wf). apply getZ_ok; [lia|].
  apply list_lookup_lookup_total_lt. lia.
Qed.

Lemma clusters_elem c : c ∈ clusters ix <-> 0 <= c < K ix.
Proof.
  unfold clusters. rewrite list_elem_of_In, in_map_iff. setoid_rewrite in_seq. split.
  - intros (n & <- & Hn). lia.
  - intros Hc. exists (Z.to_nat c). lia.
Qed.

Lemma nonempty_elem c : c ∈ nonempty ix <-> 0 <= c < K ix /\ 0 < cnt ix c.
Proof.
  unfold nonempty. rewrite list_elem_of_filter, clusters_elem. split.
  - intros [Hn Hc]. destruct (wf_blocks ix wf c Hc) as (_ & _ & Hr). lia.
  - intros [Hc Hn]. split; [lia|done].
Qed.

Section Cluster.
Variable c : Z.
Hypothesis c_ok : 0 <= c < K ix.

Let s := Z.to_nat (off ix c).
Let e := Z.to_nat (off ix (c + 1)).
Let n := Z.to_nat (cnt ix c).

Lemma block_range k : (k < e - s)%nat -> ((s + k) * 128 + 128 <= length (Vectors ix))%nat.
Proof.
  intros Hk. pose proof (wf_vectors ix wf). destruct (wf_blocks ix wf c c_ok) as (H1 & H2 & _).
  unfold s, e in *. lia.
Qed.

Lemma n_blocks : (n <= 8 * (e - s))%nat.
Proof. destruct (wf_blocks ix wf c c_ok) as (H1 & H2 & H3). unfold n, e, s. lia. Qed.

(** Member 8k + l sits in lane l of block k of the cluster. *)
Lemma member_pairs_at k l :
  (l < 8)%nat -> member ix c (8 * k + l) = vec (Vectors ix) (s + k) l /\
                 label ix c (8 * k + l) = Labels ix !!! ((s + k) * 8 + l)%nat.
Proof.
  intros Hl. unfold member, label, blk_of.
  replace ((8 * k + l) / 8)%nat with k by (rewrite (Nat.mul_comm 8), Nat.div_add_l, Nat.div_small; lia).
  replace ((8 * k + l) mod 8)%nat with l; [done|].
  rewrite Nat.add_comm, (Nat.mul_comm 8), Nat.Div0.mod_add. symmetry. by apply Nat.mod_small.
Qed.

Lemma cands_labels : Forall (fun x => 0 <= x.2 <= 1) (cluster_cands ix q c).
Proof.
  unfold cluster_cands. apply List.Forall_map, List.Forall_forall. intros j Hj%in_seq. cbn.
  pose proof (wf_labels_01 ix wf) as Hl. rewrite List.Forall_forall in Hl. apply Hl.
  unfold label. apply list_elem_of_In, list_elem_of_lookup. eexists.
  apply list_lookup_lookup_total_lt. pose proof (wf_labels ix wf) as Hlen.
  destruct (wf_blocks ix wf c c_ok) as (H1 & H2 & H3). unfold blk_of.
  pose proof (Nat.div_mod_eq j 8). pose proof (Nat.mod_upper_bound j 8). lia.
Qed.

(** The members 8k to 8k + m - 1. *)
Definition segment (k m : nat) : list cand := map (cand_at ix q c) (seq (8 * k) m).

Lemma segment_labels k m : (8 * k + m <= n)%nat -> Forall (fun x => 0 <= x.2 <= 1) (segment k m).
Proof.
  intros Hm. pose proof cands_labels as Hl. unfold cluster_cands in Hl. fold n in Hl.
  replace n with (8 * k + (m + (n - 8 * k - m)))%nat in Hl by lia.
  rewrite !seq_app, !map_app, !Forall_app in Hl. exact (proj1 (proj2 Hl)).
Qed.

Lemma lane_loop k m t :
  (k < e - s)%nat -> (m <= 8)%nat -> (8 * k + m <= n)%nat -> good t ->
  foldM (scan_lane ix (s + k) (dists q (Vectors ix) (s + k))) (arrays t) (seq 0 m) =
  Ok (arrays (nearest_of fst TopK t (segment k m))).
Proof.
  intros Hk Hm Hn Hg. induction m as [|m IH].
  - cbn [seq foldM]. unfold segment. cbn [seq map]. rewrite nearest_skip; [done|apply Hg|apply Hg|].
    intros x Hx. by apply not_elem_of_nil in Hx.
  - rewrite seq_S, foldM_app, IH, bind_Ok by lia. cbn [foldM Nat.add].
    unfold segment. rewrite seq_S, map_app. cbn [map]. rewrite nearest_of_step.
    fold (segment k m). set (u := nearest_of fst TopK t (segment k m)).
    assert (good u) as Hu by (apply good_nearest; [done|apply segment_labels; lia]).
    destruct (member_pairs_at k m ltac:(lia)) as [Hmem Hlab]. destruct query_ok as [Hq Hqq].
    unfold scan_lane. rewrite dists_sqdist by done.
    rewrite (get_ok (map _ _) m (sqdist q (member ix c (8 * k + m)))).
    2:{ rewrite list_lookup_fmap, lookup_seq_lt by lia. by rewrite Hmem. }
    rewrite bind_Ok, worst_arrays, bind_Ok by done.
    rewrite (getZ_ok (Labels ix) _ (label ix c (8 * k + m))).
    + rewrite bind_Ok. rewrite insert_arrays by done. done.
    + lia.
    + rewrite Hlab. replace (Z.to_nat _) with ((s + k) * 8 + m)%nat by lia.
      apply list_lookup_lookup_total_lt. pose proof (wf_labels ix wf).
      destruct (wf_blocks ix wf c c_ok) as (H1 & H2 & H3). unfold s, e in *. lia.
Qed.

(** The table after the first [k] blocks, and the members they hold. *)
Definition seen (k : nat) : nat := Nat.min (8 * k) n.
Definition after (t : list cand) (k : nat) : list cand :=
  nearest_of fst TopK t (map (cand_at ix q c) (seq 0 (seen k))).

Lemma after_step t k :
  after t (S k) = nearest_of fst TopK (after t k) (segment k (seen (S k) - seen k)).
Proof.
  unfold after. rewrite <-nearest_of_app. f_equal. unfold segment.
  destruct (decide (8 * k <= n)%nat).
  - replace (seen (S k)) with (seen k + (seen (S k) - seen k))%nat at 1 by (unfold seen; lia).
    rewrite seq_app, map_app. do 3 f_equal. unfold seen. lia.
  - replace (seen (S k) - seen k)%nat with 0%nat by (unfold seen; lia). cbn [seq map].
    rewrite app_nil_r. do 2 f_equal. unfold seen. lia.
Qed.

Lemma after_good t k : good t -> good (after t k).
Proof.
  intros Hg. apply good_nearest; [done|]. apply (segment_labels 0 (seen k)). unfold seen. lia.
Qed.

Lemma cnt_range : 0 <= cnt ix c < 2 ^ 32.
Proof.
  pose proof (wf_nb ix wf). destruct (wf_blocks ix wf c c_ok) as (H1 & H2 & H3). lia.
Qed.

Lemma n_cnt : Z.of_nat n = cnt ix c.
Proof. pose proof cnt_range. unfold n. lia. Qed.

Lemma scan_block_ok t k :
  good t -> (k < e - s)%nat ->
  scan_block ix q e (cnt ix c) (Z.of_nat (seen k), arrays (after t k)) (s + k) =
  Ok (Z.of_nat (seen (S k)), arrays (after t (S k))).
Proof.
  intros Hg Hk. pose proof cnt_range as Hc. pose proof n_cnt as Hn.
  destruct query_ok as [Hq Hqq]. pose proof (wf_vectors_q ix wf) as Hv.
  pose proof (block_range k Hk) as Hb. pose proof (after_good t k Hg) as Hga.
  unfold scan_block.
  assert ((if (s + k + 4 <? e)%nat then prefetchBlock (Vectors ix) (s + k + 4) else Ok tt) = Ok tt)
    as -> by (destruct (_ <? _)%nat; [apply prefetch_law|done]).
  rewrite bind_Ok, worst_arrays, bind_Ok, blkDistPrune_law by done.
  set (m := (seen (S k) - seen k)%nat).
  assert (u32 (cnt ix c - Z.of_nat (seen k)) = cnt ix c - Z.of_nat (seen k)) as ->
    by (apply u32_id; unfold seen; lia).
  assert ((if cnt ix c - Z.of_nat (seen k) <? 8 then cnt ix c - Z.of_nat (seen k) else 8) = Z.of_nat m)
    as -> by (destruct (Z.ltb_spec (cnt ix c - Z.of_nat (seen k)) 8); unfold m, seen in *; lia).
  assert (u32 (Z.of_nat (seen k) + Z.of_nat m) = Z.of_nat (seen (S k))) as ->
    by (rewrite u32_id; unfold m, seen; lia).
  rewrite after_step. fold m.
  pose proof (prune_sound q (Vectors ix) (s + k) (worst (after t k)) Hq Hqq Hv Hb) as Hps.
  unfold prune_result in *. destruct (over _ _ _ _ 3 || over _ _ _ _ 5); rewrite bind_Ok.
  - rewrite nearest_skip; [done|apply Hga|apply Hga|].
    intros x Hx. unfold segment in Hx. apply list_elem_of_fmap in Hx as (j & -> & Hj%elem_of_seq).
    change (worst (after t k) <= sqdist q (member ix c j)).
    destruct (decide (8 * k <= n)%nat); [|unfold m, seen in *; lia].
    destruct (member_pairs_at k (j - 8 * k) ltac:(unfold m, seen in *; lia)) as [Hmem _].
    replace (8 * k + (j - 8 * k))%nat with j in Hmem by lia. rewrite Hmem.
    apply Hps. unfold m, seen in *. lia.
  - rewrite Nat2Z.id. destruct (decide (8 * k <= n)%nat) as [Hle|Hgt].
    + rewrite (lane_loop k m) by (try done; unfold m, seen; lia). done.
    + replace m with 0%nat by (unfold m, seen; lia). cbn [seq foldM]. rewrite bind_Ok.
      unfold segment. cbn [seq map]. rewrite nearest_skip; [done|apply Hga|apply Hga|].
      intros x Hx. by apply not_elem_of_nil in Hx.
Qed.

Lemma prime_ok ps : prime ix s e ps = Ok tt.
Proof.
  induction ps as [|p ps IH]; cbn [prime]; [done|]. cbv zeta.
  destruct (e <=? s + p)%nat; [done|]. rewrite prefetch_law, bind_Ok. done.
Qed.

(** Scanning a cluster, blocks, lanes and pruning included, is inserting all its
    members. *)
Lemma scanCluster_ok t :
  good t -> scanCluster ix q c (arrays t) = Ok (arrays (scan ix q t c)).
Proof.
  intros Hg. unfold scanCluster. pose proof (wf_K ix wf) as HK. unfold MaxK in HK.
  rewrite u32_id by lia. rewrite !offset_get, !bind_Ok by lia.
  rewrite count_get, bind_Ok by lia. cbv zeta. fold s e.
  assert (forall l, seen l = 0%nat -> after t l = t) as H0.
  { intros l Hl. unfold after. rewrite Hl. apply nearest_skip; [apply Hg|apply Hg|].
    intros x Hx. by apply not_elem_of_nil in Hx. }
  assert (scan ix q t c = after t (e - s)) as ->.
  { unfold scan, after, cluster_cands. do 3 f_equal. fold n. pose proof n_blocks.
    unfold seen. lia. }
  destruct (Z.eqb_spec (cnt ix c) 0) as [Hz|Hz].
  - rewrite H0; [done|]. pose proof n_cnt. unfold seen. lia.
  - rewrite prime_ok, bind_Ok.
    change (0, arrays t) with (Z.of_nat 0, arrays t). rewrite <-(H0 0%nat eq_refl) at 1.
    rewrite (foldM_chain _ (fun k => (Z.of_nat (seen k), arrays (after t k)))).
    + done.
    + intros k Hk. by apply scan_block_ok.
Qed.

Lemma scan_good t : good t -> good (scan ix q t c).
Proof. intros Hg. apply good_nearest; [done|apply cands_labels]. Qed.

(** The box of a cluster is no farther than its members. *)
Lemma box_skip t : good t -> worst t <= box_of ix q c -> scan ix q t c = t.
Proof.
  intros Hg Hw. apply nearest_skip; [apply Hg|apply Hg|]. intros x Hx.
  unfold cluster_cands in Hx. apply list_elem_of_fmap in Hx as (j & -> & Hj%elem_of_seq).
  change (worst t <= sqdist q (member ix c j)). etrans; [exact Hw|]. destruct query_ok as [Hq _].
  destruct (wf_inside ix wf c j c_ok ltac:(lia)) as [Hlo Hhi].
  apply boxdist_le; [done|unfold member, vec; by rewrite length_map, length_seq|].
  pose proof (wf_min ix wf). pose proof (Forall2_length _ _ _ Hlo) as Ll.
  unfold member at 1 in Ll. unfold vec in Ll. rewrite length_map, length_seq in Ll.
  assert (length (member ix c j) = 16%nat) by (unfold member, vec; by rewrite length_map, length_seq).
  intros i Hi. split; (apply Forall2_at; [done|lia]).
Qed.

Lemma box_get : 0 < cnt ix c -> bboxLowerBoundFast q ix c = Ok (box_of ix q c).
Proof.
  intros Hn. destruct (wf_boxes ix wf c c_ok Hn) as [Qmn Qmx]. destruct query_ok as [Hq Hqq].
  pose proof (wf_K ix wf) as HK. unfold MaxK in HK.
  pose proof (wf_min ix wf). pose proof (wf_max ix wf).
  destruct (wf_inside ix wf c 0 c_ok ltac:(lia)) as [Hlo Hhi].
  apply bbox_law; [done|done|done|done|lia|lia|lia|]. by apply (Forall2_le_trans _ (member ix c 0)).
Qed.
End Cluster.

(** ** The repairs *)

Lemma cluster_of_nonempty c : c ∈ nonempty ix -> 0 <= c < K ix /\ 0 < cnt ix c /\ c < 4096.
Proof.
  intros [Hc Hn]%nonempty_elem. pose proof (wf_K ix wf) as HK. unfold MaxK in HK. lia.
Qed.

Lemma repairFast_ok ps t :
  good t -> Forall (fun p => Cluster p ∈ nonempty ix) ps ->
  repairFast_loop ix q ps (arrays t) = Ok (arrays (repair ix q (map Cluster ps) t)) /\
  good (repair ix q (map Cluster ps) t).
Proof.
  intros Hg Hps. revert t Hg. induction Hps as [|p ps Hp Hps IH]; intros t Hg; [done|].
  destruct (cluster_of_nonempty _ Hp) as (Hc & Hn & Hlt).
  cbn [repairFast_loop map repair]. unfold maxU32.
  destruct (Z.eqb_spec (Cluster p) 4294967295); [lia|].
  rewrite box_get, bind_Ok, worst_arrays, bind_Ok by done.
  destruct (worst t <=? box_of ix q (Cluster p)); [by apply IH|].
  rewrite scanCluster_ok, bind_Ok by done.
  pose proof (scan_good (Cluster p) Hc t Hg) as Hg'. cbv zeta.
  destruct (fraud_sums _ Hg') as [_ ->]. rewrite bind_Ok, worst_arrays, bind_Ok by done.
  destruct (_ && _); [done|by apply IH].
Qed.

Lemma bit_set m b i :
  0 <= b < 64 -> 0 <= i < 64 ->
  Z.testbit (Z.lor m (u64 (Z.shiftl 1 b))) i = Z.testbit m i || (b =? i).
Proof.
  intros Hb Hi. rewrite Z.shiftl_1_l. rewrite u64_id.
  - by rewrite Z.lor_spec, Z.pow2_bits_eqb by lia.
  - split; [by apply Z.pow_nonneg|]. change 18446744073709551616 with (2 ^ 64).
    apply Z.pow_lt_mono_r; lia.
Qed.

Lemma bit_test m b : 0 <= b -> (Z.land (Z.shiftr m b) 1 =? 0) = negb (Z.testbit m b).
Proof.
  intros Hb. change 1 with (Z.ones 1). rewrite Z.land_ones by lia. change (2 ^ 1) with 2.
  rewrite <-Z.bit0_mod, Z.shiftr_spec, Z.add_0_l by lia. by destruct (Z.testbit m b).
Qed.

Definition bit (mask : list Z) (ci : Z) : bool :=
  Z.testbit (mask !!! Z.to_nat (ci / 64)) (ci mod 64).

Lemma mark_seen_ok ps mask :
  length mask = SeenWords -> Forall (fun p => Cluster p ∈ nonempty ix) ps ->
  returns (mark_seen ps mask) (fun mask' =>
    length mask' = SeenWords /\
    forall ci, 0 <= ci < 4096 -> bit mask' ci = bit mask ci || bool_decide (ci ∈ map Cluster ps)).
Proof.
  intros Hl Hps. revert mask Hl. induction Hps as [|p ps Hp Hps IH]; intros mask Hl.
  { split; [done|]. intros ci _. cbn [map]. rewrite bool_decide_eq_false_2 by apply not_elem_of_nil.
    by rewrite orb_false_r. }
  destruct (cluster_of_nonempty _ Hp) as (Hc & Hn & Hlt).
  cbn [mark_seen map]. unfold maxU32. destruct (Z.eqb_spec (Cluster p) 4294967295); [lia|].
  cbv zeta. unfold SeenWords in *.
  pose proof (Z.div_mod (Cluster p) 64 ltac:(lia)). pose proof (Z.mod_pos_bound (Cluster p) 64 ltac:(lia)).
  destruct (Z.ltb_spec (Cluster p / 64) (Z.of_nat 64)); [|lia].
  rewrite get_total, bind_Ok, set_ok, bind_Ok by lia.
  eapply wp_conseq; [apply IH; by rewrite length_insert|].
  intros mask' [Hl' Hbit]. split; [done|]. intros ci Hci. rewrite Hbit by done.
  assert (bit (<[Z.to_nat (Cluster p / 64) :=
      Z.lor (mask !!! Z.to_nat (Cluster p / 64)) (u64 (Z.shiftl 1 (Cluster p mod 64)))]> mask) ci =
    bit mask ci || (Cluster p =? ci)) as ->.
  { unfold bit. pose proof (Z.div_mod ci 64 ltac:(lia)). pose proof (Z.mod_pos_bound ci 64 ltac:(lia)).
    destruct (decide (ci / 64 = Cluster p / 64)) as [E|E].
    - rewrite E, list_lookup_total_insert_eq by lia. rewrite bit_set by lia. f_equal. lia.
    - rewrite list_lookup_total_insert_ne by lia.
      replace (Cluster p =? ci) with false by (symmetry; apply Z.eqb_neq; congruence).
      by rewrite orb_false_r. }
  rewrite <-orb_assoc. f_equal. destruct (Z.eqb_spec (Cluster p) ci) as [->|Hne]; cbn [orb].
  - symmetry. apply bool_decide_eq_true. apply elem_of_cons. by left.
  - apply bool_decide_ext. rewrite elem_of_cons.
    split; [by right|]. by intros [->|].
Qed.

Lemma no_bits ci : 0 <= ci < 4096 -> bit (repeat 0 SeenWords) ci = false.
Proof.
  intros Hci. unfold bit. rewrite list_lookup_total_alt.
  pose proof (Z.div_mod ci 64 ltac:(lia)). pose proof (Z.mod_pos_bound ci 64 ltac:(lia)).
  destruct (repeat 0 SeenWords !! Z.to_nat (ci / 64)) as [x|] eqn:E; cbn.
  2:{ apply lookup_ge_None in E. rewrite repeat_length in E. unfold SeenWords in E. lia. }
  apply list_elem_of_lookup_2, list_elem_of_In, repeat_spec in E as ->. apply Z.bits_0.
Qed.

Lemma full_step_ok mask i t :
  good t -> length mask = SeenWords -> Z.of_nat i < K ix ->
  full_step ix q mask (arrays t) i =
  Ok (arrays (if (cnt ix (Z.of_nat i) =? 0) || bit mask (Z.of_nat i) then t
              else scan ix q t (Z.of_nat i))).
Proof.
  intros Hg Hl Hi. pose proof (wf_K ix wf) as HK. unfold MaxK, SeenWords in *.
  unfold full_step. cbv zeta. set (c := Z.of_nat i) in *.
  assert (0 <= c < K ix) as Hc by lia. rewrite count_get, bind_Ok by done.
  destruct (Z.eqb_spec (cnt ix c) 0) as [Hz|Hz]; [done|]. cbn [orb].
  pose proof (Z.div_mod c 64 ltac:(lia)). pose proof (Z.mod_pos_bound c 64 ltac:(lia)).
  rewrite (getZ_ok mask _ (mask !!! Z.to_nat (c / 64)))
    by (first [lia | apply list_lookup_lookup_total_lt; lia]).
  rewrite bind_Ok, bit_test, negb_involutive by lia. fold (bit mask c).
  destruct (bit mask c); [done|].
  assert (0 < cnt ix c) by (pose proof (cnt_range c Hc); lia).
  rewrite box_get, bind_Ok, worst_arrays, bind_Ok by done.
  destruct (Z.leb_spec (worst t) (box_of ix q c)) as [Hw|Hw].
  - by rewrite (box_skip c Hc t Hg Hw).
  - by rewrite scanCluster_ok.
Qed.

Lemma full_steps_ok mask (probes : list Z) l t :
  good t -> length mask = SeenWords ->
  (forall ci, 0 <= ci < 4096 -> bit mask ci = bool_decide (ci ∈ probes)) ->
  Forall (fun i => Z.of_nat i < K ix) l ->
  let cs := filter (fun c => c ∉ probes) (filter (fun c => cnt ix c <> 0) (map Z.of_nat l)) in
  foldM (full_step ix q mask) (arrays t) l = Ok (arrays (foldl (scan ix q) t cs)) /\
  good (foldl (scan ix q) t cs).
Proof.
  intros Hg Hl Hbit Hcs. pose proof (wf_K ix wf) as HK. unfold MaxK in HK. revert t Hg.
  induction Hcs as [|i l Hi Hcs IH]; intros t Hg; [done|]. cbn [foldM map].
  rewrite full_step_ok, bind_Ok, Hbit by (done || lia).
  set (c := Z.of_nat i) in *. rewrite filter_cons.
  destruct (Z.eqb_spec (cnt ix c) 0) as [Hz|Hz]; cbn [orb].
  { rewrite decide_False by tauto. by apply IH. }
  rewrite decide_True by done. rewrite filter_cons.
  destruct (decide (c ∈ probes)) as [Hin|Hin].
  - rewrite bool_decide_true, (decide_False (P := c ∉ probes)) by tauto. by apply IH.
  - rewrite bool_decide_false, (decide_True (P := c ∉ probes)) by done. cbn [foldl].
    apply IH. apply scan_good; [lia|done].
Qed.

Lemma repairFull_ok ps t :
  good t -> Forall (fun p => Cluster p ∈ nonempty ix) ps ->
  repairFull ix q ps (arrays t) = Ok (arrays (repair_full ix q (map Cluster ps) t)) /\
  good (repair_full ix q (map Cluster ps) t).
Proof.
  intros Hg Hps. unfold repairFull.
  pose proof (mark_seen_ok ps (repeat 0 SeenWords) eq_refl Hps) as Hm.
  apply returns_inv in Hm as (mask & -> & Hl & Hbit). rewrite bind_Ok.
  pose proof (wf_K ix wf) as HK. unfold MaxK in HK. rewrite u32_id by lia.
  apply (full_steps_ok mask (map Cluster ps)); [done|done| |].
  - intros ci Hci. rewrite Hbit by done. by rewrite no_bits by done.
  - apply List.Forall_forall. intros i Hi%in_seq. lia.
Qed.

(** ** The probes *)

Definition probes_of (l : list nat) : list Probe :=
  map (fun c => mkProbe c (centroid_dist ix q c)) (filter (fun c => cnt ix c <> 0) (map Z.of_nat l)).

Lemma probes_of_app l1 l2 : probes_of (l1 ++ l2) = probes_of l1 ++ probes_of l2.
Proof. unfold probes_of. by rewrite map_app, list.filter_app, map_app. Qed.

Lemma centroid_lanes_ok cb m st :
  (cb * 128 + 128 <= length (Centroids ix))%nat ->
  (m <= 8)%nat -> Z.of_nat (cb * 8 + m) <= K ix ->
  foldM (centroid_lane ix (dists q (Centroids ix) cb) (Z.of_nat cb * 8)) st (seq 0 m) =
  offer_all st (probes_of (seq (8 * cb) m)).
Proof.
  intros Hb Hm HK. pose proof (wf_K ix wf) as HK'. unfold MaxK in HK'.
  destruct query_ok as [Hq Hqq].
  induction m as [|m IH]; [done|].
  rewrite !seq_S, foldM_app, probes_of_app, IH by lia. unfold offer_all. rewrite foldM_app.
  fold (offer_all st (probes_of (seq (8 * cb) m))).
  destruct (offer_all st (probes_of (seq (8 * cb) m))) as [[h n]| | |]; try done.
  rewrite !bind_Ok. cbn [foldM]. unfold centroid_lane. cbv zeta.
  rewrite u32_id by lia. cbn [Nat.add].
  set (c := Z.of_nat cb * 8 + Z.of_nat m).
  assert (Z.of_nat (8 * cb + m) = c) as Ec by lia.
  assert (0 <= c < K ix) as Hc by lia.
  rewrite count_get, bind_Ok by done. unfold probes_of. cbn [map]. rewrite Ec, filter_cons, filter_nil.
  destruct (Z.eqb_spec (cnt ix c) 0) as [Hz|Hz].
  - rewrite decide_False by tauto. done.
  - rewrite decide_True by done. cbn [map foldM Cluster Dist fst snd].
    rewrite dists_sqdist by done.
    rewrite (get_ok (map _ _) m (centroid_dist ix q c)); [done|].
    rewrite list_lookup_fmap, lookup_seq_lt by lia. cbn [fmap option_fmap option_map Nat.add].
    f_equal. unfold centroid_dist.
    replace (Z.to_nat c) with (cb * 8 + m)%nat by lia.
    rewrite Nat.div_add_l, Nat.div_small, Nat.add_0_r by lia.
    by rewrite Nat.add_comm, Nat.Div0.mod_add, Nat.mod_small by lia.
Qed.

Lemma ncb_bounds : 0 <= ncb_of (K ix) /\ K ix <= ncb_of (K ix) * 8 < K ix + 8.
Proof.
  pose proof (wf_K ix wf). unfold ncb_of.
  pose proof (Z.div_mod (K ix + 7) 8 ltac:(lia)). pose proof (Z.mod_pos_bound (K ix + 7) 8 ltac:(lia)). lia.
Qed.

Lemma centroid_block_ok cb st :
  (cb < Z.to_nat (ncb_of (K ix)))%nat ->
  centroid_block ix q st cb =
  offer_all st (probes_of (seq (8 * cb) (Nat.min 8 (Z.to_nat (K ix) - 8 * cb)))).
Proof.
  intros Hcb. pose proof ncb_bounds. pose proof (wf_K ix wf) as HK. unfold MaxK in HK.
  pose proof (wf_centroids ix wf) as Hlen. destruct query_ok as [Hq Hqq].
  unfold centroid_block. rewrite blkDist_law, bind_Ok by (done || apply (wf_centroids_q ix wf) || lia).
  cbv zeta. rewrite (u32_id (Z.of_nat cb * 8)), (u32_id (K ix)), u32_id by lia.
  replace (Z.to_nat _) with (Nat.min 8 (Z.to_nat (K ix) - 8 * cb))
    by (destruct (Z.ltb_spec (K ix - Z.of_nat cb * 8) 8); lia).
  apply centroid_lanes_ok; lia.
Qed.

Lemma selectProbes_eq :
  selectProbes ix q =
  ('(probes, probeCount) ← offer_all (no_probes, 0%nat) (centroid_probes ix q);
   probes ← heapToSorted probes probeCount;
   Ok (probes, probeCount)).
Proof.
  assert (forall m st, (m <= Z.to_nat (ncb_of (K ix)))%nat ->
    foldM (centroid_block ix q) st (seq 0 m) =
    offer_all st (probes_of (seq 0 (Nat.min (8 * m) (Z.to_nat (K ix)))))) as Hb.
  { intros m st. induction m as [|m IH]; intros Hm.
    - by replace (Nat.min (8 * 0) (Z.to_nat (K ix))) with 0%nat by lia.
    - rewrite seq_S, foldM_app, IH by lia. cbn [Nat.add foldM].
      pose proof ncb_bounds.
      replace (Nat.min (8 * S m) (Z.to_nat (K ix))) with
        (Nat.min (8 * m) (Z.to_nat (K ix)) + Nat.min 8 (Z.to_nat (K ix) - 8 * m))%nat by lia.
      rewrite seq_app, probes_of_app. unfold offer_all. rewrite foldM_app.
      fold (offer_all st (probes_of (seq 0 (Nat.min (8 * m) (Z.to_nat (K ix)))))).
      destruct (offer_all st _) as [st'| | |]; try done. rewrite !bind_Ok.
      rewrite centroid_block_ok by lia. fold (offer_all st').
      replace (0 + Nat.min (8 * m) (Z.to_nat (K ix)))%nat with (8 * m)%nat by lia.
      unfold offer_all. match goal with |- ?m ≫= _ = _ => by destruct m end. }
  unfold selectProbes. rewrite (wf_ncb ix wf), Hb by lia. pose proof ncb_bounds.
  replace (Nat.min _ _) with (Z.to_nat (K ix)) by lia. done.
Qed.

Lemma selectProbes_ok :
  returns (selectProbes ix q) (fun '(h, n) => nearest_sorted (centroid_probes ix q) n h).
Proof.
  rewrite selectProbes_eq. apply wp_bind. eapply wp_conseq.
  { apply (offer_all_ok _ []), no_probes_holds. }
  intros [h n] Hh. apply wp_bind. eapply wp_conseq; [by apply heapToSorted_holds|].
  intros h' Hh'. by apply wp_ok.
Qed.

Lemma probe_nonempty p : p ∈ centroid_probes ix q -> Cluster p ∈ nonempty ix.
Proof. intros (c & -> & Hc)%list_elem_of_fmap. done. Qed.

Lemma search_ok h n :
  nearest_sorted (centroid_probes ix q) n h ->
  search ix q h n = Ok (score ix q (map Cluster (take n h))) /\
  0 <= score ix q (map Cluster (take n h)) <= 5.
Proof.
  intros (Hl & Hn & _ & Hs & _).
  assert (Forall (fun p => Cluster p ∈ nonempty ix) (take n h)) as Hps.
  { apply List.Forall_forall. intros p Hp%list_elem_of_In. by apply probe_nonempty, (smallest_elem Dist (take n h)). }
  assert (n <= length h)%nat as Hnl by lia.
  set (t0 := foldl (scan ix q) no_best (take NPROBE (map Cluster (take n h)))).
  assert (foldM (fun b pi => p ← get h pi; scanCluster ix q (Cluster p) b) (arrays no_best)
            (seq 0 (if (n <? NPROBE)%nat then n else NPROBE)) = Ok (arrays t0) /\ good t0) as [Hscan Hg].
  { unfold t0. destruct n as [|n]; [by split; [|apply good_no_best]|].
    destruct h as [|p h]; [simpl in Hnl; lia|]. cbn [take] in Hps. apply Forall_cons_iff in Hps as [Hp _].
    destruct (cluster_of_nonempty _ Hp) as (Hc & _). pose proof good_no_best as Hg0.
    unfold NPROBE. cbn -[arrays]. rewrite scanCluster_ok by done. split; [done|]. by apply scan_good. }
  unfold search. cbv zeta. change (repeat maxI64 TopK, repeat 0 TopK) with (arrays no_best).
  rewrite Hscan, bind_Ok. destruct (fraud_sums t0 Hg) as [-> _].
  rewrite bind_Ok, worst_arrays, bind_Ok by done. unfold score. fold t0. cbv zeta.
  change (Z.of_nat TopK) with 5.
  destruct ((frauds t0 =? 5) && (worst t0 <=? EarlyDist)); [by split; [|apply frauds_range]|].
  rewrite slice_ok, bind_Ok by lia. rewrite Z.sub_0_r, Nat2Z.id. change (drop (Z.to_nat 0) h) with h.
  unfold repairFast. rewrite skipn_map.
  destruct (repairFast_ok (drop NPROBE (take n h)) t0 Hg) as [-> Hg1]; [by apply Forall_drop|].
  rewrite bind_Ok. set (t1 := repair ix q (map Cluster (drop NPROBE (take n h))) t0) in *.
  destruct (fraud_sums t1 Hg1) as [-> _]. rewrite bind_Ok.
  destruct (frauds t1 <=? RepairMax); [|by split; [|apply frauds_range]].
  destruct (repairFull_ok (take n h) t1 Hg1 Hps) as [-> Hg2]. rewrite bind_Ok.
  destruct (fraud_sums _ Hg2) as [-> _]. split; [done|by apply frauds_range].
Qed.
End Search.

(** ** Exactness *)

Section Exact.
Variable ix : Index.
Variable q : list Z.
Hypothesis wf : index_wf ix.

Lemma cands_of_app cs cs' : cands_of ix q (cs ++ cs') = cands_of ix q cs ++ cands_of ix q cs'.
Proof. unfold cands_of. by rewrite map_app, concat_app. Qed.

#[global] Instance cands_of_proper : Proper (Permutation ==> Permutation) (cands_of ix q).
Proof.
  intros l l' Hp. induction Hp as [|c l l' Hp IH|c c' l|l1 l2 l3 _ IH1 _ IH2].
  - done.
  - change (cluster_cands ix q c ++ cands_of ix q l ≡ₚ cluster_cands ix q c ++ cands_of ix q l').
    by rewrite IH.
  - change (cluster_cands ix q c' ++ cluster_cands ix q c ++ cands_of ix q l ≡ₚ
            cluster_cands ix q c ++ cluster_cands ix q c' ++ cands_of ix q l).
    by rewrite !app_assoc, (Permutation_app_comm (cluster_cands ix q c')).
  - by rewrite IH1.
Qed.

(** Empty clusters hold no vectors. *)
Lemma cands_nonempty : cands_of ix q (nonempty ix) = all_cands ix q.
Proof.
  unfold all_cands, nonempty. induction (clusters ix) as [|c cs IH]; [done|].
  rewrite filter_cons. destruct (decide (cnt ix c <> 0)) as [Hc|Hc].
  - change (cluster_cands ix q c ++ cands_of ix q (filter (fun c => cnt ix c <> 0) cs) =
            cluster_cands ix q c ++ cands_of ix q cs). by rewrite IH.
  - rewrite IH. change (cands_of ix q cs = cluster_cands ix q c ++ cands_of ix q cs).
    assert (cnt ix c = 0) as Hz by (destruct (decide (cnt ix c = 0)); tauto).
    unfold cluster_cands at 1. by rewrite Hz.
Qed.

Lemma clusters_nodup : NoDup (clusters ix).
Proof. apply (NoDup_fmap_2 Z.of_nat), NoDup_seq. Qed.

Lemma nonempty_nodup : NoDup (nonempty ix).
Proof. apply NoDup_filter, clusters_nodup. Qed.

(** The table after visiting some clusters. *)
Definition visited (vis : list Z) : list cand := nearest5 (cands_of ix q vis).

Lemma scans_visited vis cs :
  foldl (scan ix q) (visited vis) cs = visited (vis ++ cs).
Proof.
  revert vis. induction cs as [|c cs IH]; intros vis; simpl; [by rewrite app_nil_r|].
  replace (scan ix q (visited vis) c) with (visited (vis ++ [c])).
  - rewrite IH. by rewrite <-app_assoc.
  - unfold visited, nearest5, scan. rewrite cands_of_app, nearest_of_app. do 2 f_equal.
    unfold cands_of. simpl. by rewrite app_nil_r.
Qed.

Lemma scan_visited vis c : scan ix q (visited vis) c = visited (vis ++ [c]).
Proof. apply (scans_visited vis [c]). Qed.

Lemma no_best_visited : no_best = visited [].
Proof. done. Qed.

Lemma visited_smallest vis : smallest fst (visited vis) (no_best ++ cands_of ix q vis).
Proof. apply nearest5_smallest. Qed.

(** A farther-reaching search has no farther fifth neighbour. *)
Lemma worst_mono (t e all : list cand) :
  length t = TopK -> StronglySorted (key_le fst) t -> t ⊆+ all ->
  length e = TopK -> StronglySorted (key_le fst) e -> smallest fst e all ->
  worst e <= worst t.
Proof.
  intros Lt St Ht Le Se (rest & Hp & Hr). destruct (Z.le_gt_cases (worst e) (worst t)); [done|].
  exfalso. set (near := fun x : cand => x.1 < worst e).
  assert (filter near t = t) as Ft.
  { apply filter_all. intros x Hx. unfold near. pose proof (worst_max t x Lt St Hx). lia. }
  assert (filter near rest = []) as Fr.
  { apply filter_none. intros x Hx.
    assert (e !!! (TopK - 1)%nat ∈ e) as Hl.
    { apply list_elem_of_lookup. eexists. apply list_lookup_lookup_total_lt. rewrite Le. unfold TopK. lia. }
    specialize (Hr _ x Hl Hx). unfold key_le in Hr. unfold near, worst. lia. }
  assert (length (filter near e) < TopK)%nat as Fe.
  { destruct e as [|a [|b [|c [|d [|f [|]]]]]]; try discriminate Le.
    change (length (filter near ([a; b; c; d] ++ [f])) < 5)%nat. rewrite list.filter_app.
    assert (filter near [f] = []) as ->.
    { apply filter_none. intros x ->%list_elem_of_singleton. change (~ f.1 < f.1). lia. }
    rewrite app_nil_r. pose proof (length_filter near [a; b; c; d]). simpl in *. lia. }
  assert (length t <= length (filter near (e ++ rest)))%nat as Hlen.
  { rewrite <-Ft. apply submseteq_length. rewrite Hp. by apply filter_submseteq'. }
  rewrite list.filter_app, Fr, app_nil_r in Hlen. lia.
Qed.

Hypothesis query_ok : query q.

Lemma visited_good vis : Forall (fun c => 0 <= c < K ix) vis -> good (visited vis).
Proof.
  intros Hv. apply good_nearest; [apply good_no_best|]. unfold cands_of.
  induction Hv as [|c vis Hc Hv IH]; [constructor|]. cbn [map concat].
  apply Forall_app. split; [by apply cands_labels|done].
Qed.

Lemma repair_visited cs vis :
  Forall (fun c => 0 <= c < K ix) vis -> Forall (fun c => 0 <= c < K ix) cs ->
  exists done rest, cs = done ++ rest /\
    repair ix q cs (visited vis) = visited (vis ++ done) /\
    (rest = [] \/ worst (visited (vis ++ done)) <= EarlyDist).
Proof.
  intros Hv Hcs. revert vis Hv. induction Hcs as [|c cs Hc Hcs IH]; intros vis Hv.
  { exists [], []. rewrite (app_nil_r vis). split; [done|]. split; [done|]. by left. }
  assert (Forall (fun c => 0 <= c < K ix) (vis ++ [c])) as Hv' by (apply Forall_app; auto).
  assert (forall m, vis ++ c :: m = (vis ++ [c]) ++ m) as Ha by (intros; by rewrite <-app_assoc).
  cbn [repair]. destruct (Z.leb_spec (worst (visited vis)) (box_of ix q c)) as [Hw|Hw].
  - pose proof (box_skip ix q wf query_ok c Hc _ (visited_good vis Hv) Hw) as Hs.
    rewrite scan_visited in Hs. rewrite <-Hs.
    destruct (IH _ Hv') as (m & rest & -> & -> & Hr). exists (c :: m), rest. by rewrite (Ha m).
  - cbv zeta. rewrite scan_visited.
    destruct ((_ || _) && _) eqn:E.
    + exists [c], cs. split; [done|]. split; [done|]. right. lia.
    + destruct (IH _ Hv') as (m & rest & -> & -> & Hr). exists (c :: m), rest. by rewrite (Ha m).
Qed.

(** A list of clusters, without repetitions, and the ones it leaves out. *)
Lemma unseen_rest probes :
  probes ⊆+ nonempty ix -> probes ++ unseen ix probes ≡ₚ nonempty ix.
Proof.
  intros (k & Hk)%submseteq_Permutation. rewrite Hk. apply Permutation_app_head.
  unfold unseen. rewrite Hk. rewrite list.filter_app.
  pose proof nonempty_nodup as Hd. rewrite Hk in Hd. apply NoDup_app in Hd as (_ & Hd & _).
  rewrite (filter_none _ probes), (filter_all _ k); [done| |].
  - intros x Hx Hp. by apply (Hd x).
  - intros x Hx. tauto.
Qed.

Lemma cands_of_submseteq vis : vis ⊆+ nonempty ix -> cands_of ix q vis ⊆+ all_cands ix q.
Proof.
  intros (k & Hk)%submseteq_Permutation. rewrite <-cands_nonempty, Hk, cands_of_app.
  by apply submseteq_inserts_r.
Qed.

Lemma visited_worst vis more : worst (visited (vis ++ more)) <= worst (visited vis).
Proof.
  apply (worst_mono _ _ (no_best ++ cands_of ix q (vis ++ more)));
    try apply nearest5_length; try apply nearest5_sorted; [|apply visited_smallest].
  destruct (visited_smallest vis) as (r & Hr & _).
  apply submseteq_trans with (no_best ++ cands_of ix q vis).
  - rewrite <-Hr. by apply submseteq_inserts_r.
  - rewrite cands_of_app, app_assoc. by apply submseteq_inserts_r.
Qed.

(** Which clusters the score of a list of probes comes from. *)
Lemma score_visited probes :
  probes ⊆+ nonempty ix ->
  exists vis, vis ⊆+ nonempty ix /\ score ix q probes = frauds (visited vis) /\
    (vis ≡ₚ nonempty ix \/ worst (visited vis) <= EarlyDist \/ score ix q probes = 5).
Proof.
  intros Hp.
  assert (forall l, l ⊆+ nonempty ix -> Forall (fun c => 0 <= c < K ix) l) as Hin.
  { intros l Hl. apply List.Forall_forall. intros c Hc%list_elem_of_In.
    assert (c ∈ nonempty ix) as Hn by (by eapply elem_of_submseteq).
    apply list_elem_of_filter in Hn as [_ Hn]. by apply clusters_elem in Hn. }
  assert (take NPROBE probes ++ drop NPROBE probes = probes) as Htd by apply take_drop.
  assert (take NPROBE probes ⊆+ nonempty ix) as Ht.
  { etrans; [|exact Hp]. rewrite <-Htd at 2. by apply submseteq_inserts_r. }
  assert (drop NPROBE probes ⊆+ nonempty ix) as Hd.
  { etrans; [|exact Hp]. rewrite <-Htd at 2. by apply submseteq_inserts_l. }
  unfold score. rewrite no_best_visited, scans_visited, app_nil_l. cbv zeta.
  destruct ((frauds _ =? 5) && _) eqn:E.
  { exists (take NPROBE probes). split; [done|]. split; [done|]. right. left. lia. }
  destruct (repair_visited (drop NPROBE probes) (take NPROBE probes)) as (m & rest & Hm & -> & Hr);
    [by apply Hin|by apply Hin|].
  set (v1 := take NPROBE probes ++ m) in *.
  assert (v1 ++ rest = probes) as Hv1 by (unfold v1; by rewrite <-app_assoc, <-Hm).
  pose proof (visited_good v1) as Hg1.
  assert (v1 ⊆+ nonempty ix) as Hs1.
  { etrans; [|exact Hp]. rewrite <-Hv1. by apply submseteq_inserts_r. }
  specialize (Hg1 (Hin _ Hs1)). pose proof (frauds_range _ Hg1) as Hf1. unfold RepairMax.
  destruct (Z.leb_spec (frauds (visited v1)) 4) as [H4|H4].
  - unfold repair_full. rewrite scans_visited. exists (v1 ++ unseen ix probes).
    pose proof (unseen_rest probes Hp) as Hu. split; [|split; [done|]].
    + rewrite <-Hu. apply submseteq_skips_r. rewrite <-Hv1. by apply submseteq_inserts_r.
    + destruct Hr as [-> | Hr].
      * left. rewrite app_nil_r in Hv1. by rewrite Hv1.
      * right. left. pose proof (visited_worst v1 (unseen ix probes)). lia.
  - exists v1. split; [done|]. split; [done|]. right. right. lia.
Qed.
End Exact.

Lemma probes_submseteq ix q h n :
  nearest_sorted (centroid_probes ix q) n h -> map Cluster (take n h) ⊆+ nonempty ix.
Proof.
  intros (_ & _ & _ & (rest & Hp & _) & _).
  apply (Permutation_map Cluster) in Hp. rewrite map_app in Hp.
  assert (map Cluster (centroid_probes ix q) = nonempty ix) as E.
  { unfold centroid_probes. rewrite map_map. apply map_id. }
  rewrite E in Hp. rewrite <-Hp. by apply submseteq_inserts_r.
Qed.

Lemma ScoreQ_range `{KernelLaws} ix q :
  index_wf ix -> query q -> returns (ScoreQ ix q) (fun s => 0 <= s <= 5).
Proof.
  intros wf Hq. unfold ScoreQ. apply wp_bind.
  eapply wp_conseq; [by apply selectProbes_ok|]. intros [h n] Hns.
  by destruct (search_ok ix q wf Hq h n Hns) as [-> Hr].
Qed.

(** ** A decision procedure for well-formedness, and an example *)

Definition within (lo hi : Z) (l : list Z) : bool := forallb (fun x => (lo <=? x) && (x <=? hi)) l.

Definition len_is {A} (l : list A) (n : Z) : bool := Z.of_nat (length l) =? n.

Definition le_all (a b : list Z) : bool :=
  (length a =? length b)%nat && forallb (fun '(x, y) => x <=? y) (zip a b).

Definition cluster_check (ix : Index) (i : nat) : bool :=
  let c := Z.of_nat i in
  (0 <=? off ix c) && (off ix c <=? off ix (c + 1)) && (off ix (c + 1) <=? NBlocks ix) &&
  (0 <=? cnt ix c) && (cnt ix c <=? 8 * (off ix (c + 1) - off ix c)) &&
  ((cnt ix c =? 0) || (within (-10000) 10000 (row (BBoxMin ix) i) && within (-10000) 10000 (row (BBoxMax ix) i))) &&
  forallb (fun j => le_all (row (BBoxMin ix) i) (member ix c j) && le_all (member ix c j) (row (BBoxMax ix) i))
    (seq 0 (Z.to_nat (cnt ix c))).

Definition index_check (ix : Index) : bool :=
  (0 <=? K ix) && (K ix <=? Z.of_nat MaxK) && (NCentroidBlk ix =? ncb_of (K ix)) &&
  (0 <=? NBlocks ix) && (NBlocks ix <? 2 ^ 29) &&
  len_is (Centroids ix) (ncb_of (K ix) * 128) && within (-10000) 10000 (Centroids ix) &&
  len_is (BBoxMin ix) (K ix * 16) && len_is (BBoxMax ix) (K ix * 16) &&
  len_is (BlockOffsets ix) (K ix + 1) && len_is (Counts ix) (K ix) &&
  len_is (Vectors ix) (NBlocks ix * 128) && within (-10000) 10000 (Vectors ix) &&
  len_is (Labels ix) (NBlocks ix * 8) && within 0 1 (Labels ix) &&
  forallb (cluster_check ix) (seq 0 (Z.to_nat (K ix))).

Lemma within_ok lo hi l : within lo hi l = true -> Forall (fun x => lo <= x <= hi) l.
Proof.
  unfold within. rewrite forallb_forall. intros H. apply List.Forall_forall. intros x Hx.
  specialize (H x Hx). lia.
Qed.

Lemma le_all_ok a b : le_all a b = true -> Forall2 Z.le a b.
Proof.
  unfold le_all. revert b. induction a as [|x a IH]; intros [|y b] H; simpl in H; try done; try constructor.
  - lia.
  - apply IH. apply andb_true_iff. split; lia.
Qed.

Lemma index_check_ok ix : index_check ix = true -> index_wf ix.
Proof.
  unfold index_check, len_is. intros H.
  repeat (apply andb_prop in H as [H ?]).
  assert (forall c, 0 <= c < K ix -> cluster_check ix (Z.to_nat c) = true) as Hc.
  { intros c Hc. match goal with E : forallb (cluster_check ix) _ = true |- _ => rename E into Hall end.
    rewrite forallb_forall in Hall. apply Hall, in_seq. lia. }
  split; try lia; try (by apply within_ok).
  - intros c Hr. specialize (Hc c Hr). unfold cluster_check in Hc. rewrite Z2Nat.id in Hc by lia. lia.
  - intros c Hr Hn. specialize (Hc c Hr). unfold cluster_check in Hc. rewrite Z2Nat.id in Hc by lia.
    split; apply within_ok; lia.
  - intros c j Hr Hj. specialize (Hc c Hr). unfold cluster_check in Hc. rewrite Z2Nat.id in Hc by lia.
    apply andb_prop in Hc as [_ Hm]. rewrite forallb_forall in Hm. specialize (Hm j).
    rewrite in_seq in Hm. specialize (Hm ltac:(lia)). split; apply le_all_ok; lia.
Qed.

Definition query_check (q : list Z) : bool := (length q =? 16)%nat && within (-10000) 10000 q.

Lemma query_check_ok q : query_check q = true -> query q.
Proof.
  unfold query_check. intros [Hl Hw]%andb_prop. split; [by apply Nat.eqb_eq|]. by apply within_ok.
Qed.

(** Three clusters of k-means in the plane of the first two dimensions. *)
Definition point (x y : Z) : list Z := [x; y] ++ repeat 0 14.
Definition block_of (vs : list (list Z)) : list Z :=
  concat (map (fun p => concat (map (fun l =>
    let v := nth l vs (repeat 0 16) in [v !!! (2 * p)%nat; v !!! (2 * p + 1)%nat]) (seq 0 8))) (seq 0 8)).

Definition example_index : Index :=
  mkIndex (mkHeader Magic Version 3 20 4 S754_nan)
    (block_of [point 1000 0; point 0 1200; point (-1300) 0]) 1
    (point 1000 0 ++ point 0 900 ++ point (-2000) 0)
    (point 1000 0 ++ point 0 1275 ++ point (-600) 0)
    [0; 1; 2; 4] [5; 5; 10]
    (block_of (repeat (point 1000 0) 5) ++
     block_of (point 0 900 :: repeat (point 0 1275) 4) ++
     block_of (repeat (point (-600) 0) 5 ++ repeat (point (-2000) 0) 3) ++
     block_of (repeat (point (-2000) 0) 2))
    (repeat 0 16 ++ repeat 1 10 ++ repeat 0 6)
    3 20 4.

Lemma example_wf : index_wf example_index.
Proof. apply index_check_ok. vm_compute. reflexivity. Qed.

Lemma origin_query : query (repeat 0 16).
Proof. apply query_check_ok. reflexivity. Qed.

(** The candidates may be given in any order. *)
Lemma ScoreQ_exact_cands `{KernelLaws} ix q cs e :
  index_wf ix -> query q -> all_cands ix q ≡ₚ cs ->
  length e = TopK -> StronglySorted (key_le fst) e ->
  smallest fst e (no_best ++ cs) -> EarlyDist < worst e ->
  returns (ScoreQ ix q) (fun s => s = 5 \/
    exists t, smallest fst t (no_best ++ cs) /\ map fst t = map fst e /\ s = frauds t).
Proof.
  intros wf Hq Hcs Le Se He Hw. rewrite <-Hcs in He.
  eapply wp_conseq with (Q := fun s => s = 5 \/
    exists t, smallest fst t (no_best ++ all_cands ix q) /\ map fst t = map fst e /\ s = frauds t).
  2: { intros s [Hs|(t & Ht & Hr)]; [left; exact Hs|right]. exists t. by rewrite <-Hcs. }
  clear cs Hcs.
  unfold ScoreQ. apply wp_bind.
  eapply wp_conseq; [by apply selectProbes_ok|]. intros [h n] Hns.
  destruct (search_ok ix q wf Hq h n Hns) as [-> _]. apply wp_ok.
  destruct (score_visited ix q wf Hq _ (probes_submseteq _ _ _ _ Hns)) as (vis & Hv & Hs & Hcase).
  pose proof (visited_smallest ix q vis) as Hsm.
  destruct Hcase as [Hp|[Hworst|H5]]; [right| |by left].
  - assert (smallest fst (visited ix q vis) (no_best ++ all_cands ix q)) as Hall.
    { generalize dependent (visited ix q vis). intros t Ht Hsm. by rewrite Hp, cands_nonempty in Hsm. }
    exists (visited ix q vis). split; [done|]. split; [|done].
    apply (smallest_keys fst _ _ (no_best ++ all_cands ix q));
      [done|done|rewrite Le; apply nearest5_length|apply nearest5_sorted|done].
  - exfalso. assert (worst e <= worst (visited ix q vis)); [|lia].
    apply (worst_mono _ _ (no_best ++ all_cands ix q));
      [apply nearest5_length|apply nearest5_sorted| |done|done|done].
    destruct Hsm as (r & Hr & _).
    apply submseteq_trans with (no_best ++ cands_of ix q vis).
    + rewrite <-Hr. by apply submseteq_inserts_r.
    + apply submseteq_skips_l. by apply cands_of_submseteq.
Qed.

(** ** Properties *)

(** C3: the search refines its specification. On every well-formed index and quantized
    query [ScoreQ] returns (no index out of range, no panic), and its answer is the
    specification's for the at most 33 non-empty clusters of nearest centroid, in order
    of distance: block layout, lanes, pruning, the probe heap and the bit mask of seen
    clusters are invisible in the result. *)
Theorem ScoreQ_refines `{KernelLaws} ix q :
  index_wf ix -> query q ->
  returns (ScoreQ ix q) (fun s => 0 <= s <= 5 /\
    exists ps, length ps = Nat.min MaxProbes (length (nonempty ix)) /\
      StronglySorted (key_le Dist) ps /\ smallest Dist ps (centroid_probes ix q) /\
      s = score ix q (map Cluster ps)).
Proof.
  intros wf Hq. unfold ScoreQ. apply wp_bind.
  eapply wp_conseq; [by apply selectProbes_ok|]. intros [h n] Hns.
  destruct (search_ok ix q wf Hq h n Hns) as [-> Hr]. apply wp_ok. split; [done|].
  exists (take n h). destruct Hns as (Hl & Hn & Hs & Hsm & _).
  unfold centroid_probes in Hn. rewrite length_map in Hn.
  split; [|done]. rewrite length_take. lia.
Qed.

Example ScoreQ_refines_witness :
  returns (@ScoreQ avx2 example_index (repeat 0 16)) (fun s => 0 <= s <= 5 /\
    exists ps, length ps = Nat.min MaxProbes (length (nonempty example_index)) /\
      StronglySorted (key_le Dist) ps /\ smallest Dist ps (centroid_probes example_index (repeat 0 16)) /\
      s = score example_index (repeat 0 16) (map Cluster ps)).
Proof. apply (@ScoreQ_refines avx2 avx2_laws); [apply example_wf|apply origin_query]. Defined.

(** C13: [ScoreQ] is exact unless it says so. Its answer is always the number of frauds
    among the five nearest vectors of some set of clusters; either those are the exact
    five nearest of the whole index, or all five lie within [EarlyDist] of the query,
    or the answer is five (the early exits of the code). *)
Theorem ScoreQ_answer `{KernelLaws} ix q :
  index_wf ix -> query q ->
  returns (ScoreQ ix q) (fun s => exists t vis,
    vis ⊆+ nonempty ix /\ length t = TopK /\ StronglySorted (key_le fst) t /\
    smallest fst t (no_best ++ cands_of ix q vis) /\ s = frauds t /\
    (smallest fst t (no_best ++ all_cands ix q) \/ worst t <= EarlyDist \/ s = 5)).
Proof.
  intros wf Hq. unfold ScoreQ. apply wp_bind.
  eapply wp_conseq; [by apply selectProbes_ok|]. intros [h n] Hns.
  destruct (search_ok ix q wf Hq h n Hns) as [-> _]. apply wp_ok.
  destruct (score_visited ix q wf Hq _ (probes_submseteq _ _ _ _ Hns)) as (vis & Hv & Hs & Hcase).
  exists (visited ix q vis), vis. split; [done|]. split; [apply nearest5_length|].
  split; [apply nearest5_sorted|]. split; [apply visited_smallest|]. split; [done|].
  destruct Hcase as [Hp|Hcase]; [left|by right].
  pose proof (visited_smallest ix q vis) as Hsm.
  generalize dependent (visited ix q vis). intros t Ht Hsm. by rewrite Hp, cands_nonempty in Hsm.
Qed.

Example ScoreQ_answer_witness :
  returns (@ScoreQ avx2 example_index (repeat 0 16)) (fun s => exists t vis,
    vis ⊆+ nonempty example_index /\ length t = TopK /\ StronglySorted (key_le fst) t /\
    smallest fst t (no_best ++ cands_of example_index (repeat 0 16) vis) /\ s = frauds t /\
    (smallest fst t (no_best ++ all_cands example_index (repeat 0 16)) \/ worst t <= EarlyDist \/ s = 5)).
Proof. apply (@ScoreQ_answer avx2 avx2_laws); [apply example_wf|apply origin_query]. Defined.

(** C14: when no five vectors lie within [EarlyDist] of the query, [ScoreQ] answers five
    or the exact count: the number of frauds among the exact five nearest vectors of
    the whole index. *)
Theorem ScoreQ_exact `{KernelLaws} ix q e :
  index_wf ix -> query q ->
  length e = TopK -> StronglySorted (key_le fst) e ->
  smallest fst e (no_best ++ all_cands ix q) -> EarlyDist < worst e ->
  returns (ScoreQ ix q) (fun s => s = 5 \/
    exists t, smallest fst t (no_best ++ all_cands ix q) /\ map fst t = map fst e /\ s = frauds t).
Proof. intros wf Hq. by apply ScoreQ_exact_cands. Qed.

Example ScoreQ_exact_witness :
  returns (@ScoreQ avx2 example_index (point 9000 9000)) (fun s => s = 5 \/
    exists t, smallest fst t (no_best ++ all_cands example_index (point 9000 9000)) /\
      map fst t = map fst (nearest5 (all_cands example_index (point 9000 9000))) /\ s = frauds t).
Proof.
  apply (@ScoreQ_exact avx2 avx2_laws); [apply example_wf|apply query_check_ok; reflexivity| | | |].
  - apply nearest5_length.
  - apply nearest5_sorted.
  - apply nearest5_smallest.
  - vm_compute. reflexivity.
Defined.

(** The search does not depend on the kernel: on well-formed indexes the deployed
    AVX2 build and the portable build answer every query alike. *)
Theorem ScoreQ_kernel_independent ix q :
  index_wf ix -> query q -> @ScoreQ avx2 ix q = @ScoreQ portable ix q.
Proof.
  intros wf Hq. unfold ScoreQ. rewrite !selectProbes_eq by done.
  pose proof (@selectProbes_ok portable _ ix q wf Hq) as Hp. rewrite selectProbes_eq in Hp by done.
  match type of Hp with returns ?m _ => destruct m as [[h n]| | |] end; try done.
  rewrite !bind_Ok. by rewrite !(proj1 (search_ok ix q wf Hq h n Hp)).
Qed.

Example ScoreQ_kernel_independent_witness :
  @ScoreQ avx2 example_index (point 9000 9000) = @ScoreQ portable example_index (point 9000 9000).
Proof. apply ScoreQ_kernel_independent; [apply example_wf|apply query_check_ok; reflexivity]. Defined.

(** C38: the early exits make the search inexact, on a well-formed index in which every
    vector is stored in the cluster of its nearest centroid: the five nearest vectors of
    the query are all frauds, and [ScoreQ] answers 0. The [break] of [repairFast] leaves
    the cluster that holds them unscanned, and [repairFull] skips it because the seen
    mask covers every probe, scanned or not. *)
Theorem ScoreQ_misses :
  index_wf example_index /\ query (repeat 0 16) /\
  (forall c j c', 0 <= c < 3 -> 0 <= c' < 3 -> (j < Z.to_nat (cnt example_index c))%nat ->
     centroid_dist example_index (member example_index c j) c <=
     centroid_dist example_index (member example_index c j) c') /\
  frauds (nearest5 (all_cands example_index (repeat 0 16))) = 5 /\
  @ScoreQ avx2 example_index (repeat 0 16) = Ok 0.
Proof.
  split; [apply example_wf|]. split; [apply origin_query|]. split; [|split; vm_compute; reflexivity].
  assert (forallb (fun c => forallb (fun c' => forallb (fun j =>
    centroid_dist example_index (member example_index (Z.of_nat c) j) (Z.of_nat c) <=?
    centroid_dist example_index (member example_index (Z.of_nat c) j) (Z.of_nat c'))
      (seq 0 (Z.to_nat (cnt example_index (Z.of_nat c))))) (seq 0 3)) (seq 0 3) = true) as H
    by (vm_compute; reflexivity).
  intros c j c' Hc Hc' Hj. rewrite forallb_forall in H.
  specialize (H (Z.to_nat c)). rewrite in_seq in H. specialize (H ltac:(lia)).
  rewrite forallb_forall in H. specialize (H (Z.to_nat c')). rewrite in_seq in H. specialize (H ltac:(lia)).
  rewrite forallb_forall in H. specialize (H j). rewrite in_seq, !Z2Nat.id in H by lia.
  specialize (H ltac:(lia)). by apply Z.leb_le.
Qed.

End Knn.
