(* ===== verification/Quantize.v ===== *)
(** * internal/knn: quantization

    [Quantize] and [roundF32] of [internal/knn/knn.go] (and [roundF32] of
    [cmd/buildindex/main.go], the same text): fourteen [float32] features become the
    sixteen [int16] the search works on.  The conversion [int16(x)] of a NaN is
    implementation-dependent: it is the parameter [unspec] of the model. *)

From S2P Require Import Prelude Floats Index Kernel.

Module Quantize.
Import Index Kernel.

Local Open Scope Z_scope.

Section Quantize.
Variable unspec : float -> Z.

(** ** The code *)

Definition QuantScaleF : float := f32_of_Z 10000.
Definition QuantMaxF : float := f32_of_Z 10000.
Definition half : float := ratio 53 1024 false 1 2.

Definition roundF32 (x : float) : float :=
  if f_ge x (S754_zero false)
  then f32_of_f64 (f64_floor (f64_add (f64_of_f32 x) half))
  else f32_of_f64 (f64_ceil (f64_sub (f64_of_f32 x) half)).

(** The body of the loop of [Quantize]. *)
Definition quantize1 (v : float) : Z :=
  let x := f32_mul v QuantScaleF in
  let x := if f_gt x QuantMaxF then QuantMaxF
           else if f_lt x (SFopp QuantMaxF) then SFopp QuantMaxF else x in
  i16_of_float unspec (roundF32 x).

Definition Quantize (v : list float) : res (list Z) :=
  foldM (fun out i => x ← get v i; set out i (quantize1 x)) (repeat 0 PADDED_DIMS) (seq 0 DIMS).

Lemma Quantize_halts v : halts (Quantize v).
Proof. unfold Quantize. halts_go. Qed.
End Quantize.
#[global] Hint Resolve Quantize_halts : halts.

(** ** Bounds *)

Definition not_nan (x : float) : Prop := match x with S754_nan => False | _ => True end.

Lemma QuantMaxF_value : QuantMaxF = S754_finite false 10240000 (-10).
Proof. reflexivity. Qed.

Lemma half_value : half = S754_finite false 4503599627370496 (-53).
Proof. reflexivity. Qed.

Lemma compare_cont_cases m n :
  match Pos.compare_cont Eq m n with
  | Eq => Zpos m = Zpos n | Lt => Zpos m < Zpos n | Gt => Zpos n < Zpos m
  end.
Proof. change (Pos.compare_cont Eq m n) with (Pos.compare m n). destruct (Pos.compare_spec m n); lia. Qed.

(** A clamped float is at most 10000 in magnitude. *)
Lemma clamp_bound (x : float) :
  (match x with S754_finite _ m _ => Zpos m < 2 ^ 24 | S754_nan => False | _ => True end) ->
  let y := if f_gt x QuantMaxF then QuantMaxF
           else if f_lt x (SFopp QuantMaxF) then SFopp QuantMaxF else x in
  match y with S754_finite s m e => fin_le 24 s y 10000 0 | S754_zero _ => True | _ => False end.
Proof.
  assert (fin_le 24 false (S754_finite false 10240000 (-10)) 10000 0 /\
          fin_le 24 true (S754_finite true 10240000 (-10)) 10000 0) as [Hp Hn]
    by (split; (split; [done|]; split; [apply dle_of; [lia|by vm_compute]|lia])).
  rewrite QuantMaxF_value. destruct x as [s|s| |s m e]; intros Hm; try done.
  - by destruct s.
  - unfold f_gt, f_lt, SFltb, SFopp, SFcompare.
    assert (e < -10 \/ (e = -10 /\ Zpos m <= 10240000) -> fin_le 24 s (S754_finite s m e) 10000 0) as Hin.
    { intros He. split; [done|]. split; [|done]. apply dle_of; [lia|].
      destruct He as [He|[-> He]]; [|change (10000 * 2 ^ (0 - -10)) with 10240000; lia].
      assert (2 ^ 11 <= 2 ^ (0 - e)) by (apply Z.pow_le_mono_r; lia). lia. }
    destruct s.
    + cbn [negb]. destruct (Z.compare_spec e (-10)) as [->|He|He]; cbn [CompOpp].
      * pose proof (compare_cont_cases m 10240000) as E. destruct (Pos.compare_cont Eq m 10240000);
          cbn [CompOpp]; [apply Hin; right; split; [done|] | apply Hin; right; split; [done|] | exact Hn].
        -- by rewrite E.
        -- by apply Z.lt_le_incl.
      * apply Hin. lia.
      * exact Hn.
    + cbn [negb]. destruct (Z.compare_spec (-10) e) as [<-|He|He].
      * pose proof (compare_cont_cases 10240000 m) as E. destruct (Pos.compare_cont Eq 10240000 m);
          [apply Hin; right; split; [done|] | exact Hp | apply Hin; right; split; [done|]].
        -- by rewrite <-E.
        -- by apply Z.lt_le_incl.
      * exact Hp.
      * apply Hin. lia.
Qed.


(** Rounding a float of magnitude at most 10000 to an integer stays within 10000. *)
Lemma floor_bound x :
  fin_le 53 false x 20001 (-1) -> fin_le 53 false (f64_floor x) 10000 0.
Proof.
  destruct x as [s| | |s m e]; try done. intros (-> & H & Hm). unfold f64_floor.
  destruct (Z.leb_spec 0 e) as [He|He].
  - split; [done|]. split; [|done]. intros k Hk Hf. rewrite Z.add_0_l in *.
    specialize (H (k + 1) ltac:(lia) ltac:(lia)). replace (-1 + (k + 1)) with k in H by lia.
    assert (Zpos m * 2 ^ e * 2 <= 20001) as H2.
    { replace (e + (k + 1)) with (e + 1 + k) in H by lia. rewrite !Z.pow_add_r in H by lia.
      apply (Z.mul_le_mono_pos_r _ _ (2 ^ k)); [apply Z.pow_pos_nonneg; lia|]. lia. }
    rewrite Z.pow_add_r by lia. rewrite Z.mul_assoc. apply Z.mul_le_mono_nonneg_r; [|lia].
    apply Z.pow_nonneg. lia.
  - cbn [cond_Zopp]. set (z := Zpos m / 2 ^ (- e)).
    assert (0 <= z <= 10000) as Hz.
    { pose proof (Z.pow_pos_nonneg 2 (- e) ltac:(lia) ltac:(lia)) as Hp. split; [apply Z.div_pos; lia|].
      apply Z.lt_succ_r, Z.div_lt_upper_bound; [done|].
      specialize (H (- e) ltac:(lia) ltac:(lia)). replace (e + - e) with 0 in H by lia.
      replace (- e) with (-1 + - e + 1) at 1 by lia. rewrite Z.pow_add_r by lia. lia. }
    pose proof (normalize_bound 53 1024 10000 0 ltac:(lia) ltac:(lia) ltac:(vm_compute; discriminate)
      ltac:(vm_compute; discriminate) ltac:(lia) z 0 false) as HN.
    replace (z <? 0) with false in HN by lia. apply HN. intros k _ _. rewrite !Z.add_0_l.
    rewrite Z.abs_eq by lia. apply Z.mul_le_mono_nonneg_r; [apply Z.pow_nonneg; lia|lia].
Qed.

Lemma ceil_bound x :
  fin_le 53 true x 20001 (-1) -> fin_le 53 true (f64_ceil x) 10000 0.
Proof.
  destruct x as [s| | |s m e]; try done. intros (-> & H & Hm).
  pose proof (floor_bound (S754_finite false m e) ltac:(done)) as HF.
  unfold f64_floor, f64_ceil in *. destruct (Z.leb_spec 0 e) as [He|He].
  - split; [done|]. apply HF.
  - cbn [cond_Zopp] in *. rewrite Z.opp_involutive.
    destruct (Zpos m / 2 ^ (- e)) as [|p|p] eqn:Ep; [done| |].
    + cbn [Z.opp]. apply (normalize_bound 53 1024 10000 0 ltac:(lia) ltac:(lia)
        ltac:(vm_compute; discriminate) ltac:(vm_compute; discriminate) ltac:(lia) (Zneg p) 0 true).
      assert (Zpos p <= 10000); [|intros k _ _; rewrite !Z.add_0_l; cbn [Z.abs];
        apply Z.mul_le_mono_nonneg_r; [apply Z.pow_nonneg; lia|lia]].
      rewrite <-Ep. apply Z.lt_succ_r, Z.div_lt_upper_bound; [apply Z.pow_pos_nonneg; lia|].
      specialize (H (- e) ltac:(lia) ltac:(lia)). replace (e + - e) with 0 in H by lia.
      replace (- e) with (-1 + - e + 1) at 1 by lia. rewrite Z.pow_add_r by lia. lia.
    + pose proof (Z.div_pos (Zpos m) (2 ^ (- e)) ltac:(lia) ltac:(apply Z.pow_pos_nonneg; lia)). lia.
Qed.

(** Adding a half to a float of at most 10000 gives at most 10000.5. *)
Lemma half_sum m e :
  dle (Zpos m) e 10000 0 ->
  let ez := Z.min e (-53) in
  let z := Zpos (fst (shl_align m e ez)) + Zpos (fst (shl_align 4503599627370496 (-53) ez)) in
  0 < z /\ dle z ez 20001 (-1).
Proof.
  intros H. cbv zeta. set (ez := Z.min e (-53)).
  destruct (shl_align_spec m e ez) as [Hm Em]. destruct (shl_align_spec 4503599627370496 (-53) ez) as [Hh Eh].
  rewrite Em in Hm. rewrite Eh in Hh.
  replace (Z.min e ez) with ez in Hm by lia. replace (Z.min (-53) ez) with ez in Hh by lia.
  split; [lia|]. apply dle_of; [lia|]. rewrite Hm, Hh.
  specialize (H (- ez) ltac:(lia) ltac:(lia)). rewrite Z.add_0_l in H.
  replace (e + - ez) with (e - ez) in H by lia.
  replace (- ez) with (-1 - ez + 1) in H by lia. rewrite (Z.pow_add_r 2 (-1 - ez) 1) in H by lia.
  change 4503599627370496 with (2 ^ 52). rewrite <-Z.pow_add_r by lia.
  replace (52 + (-53 - ez)) with (-1 - ez) by lia. lia.
Qed.

Lemma add_half_bound y :
  fin_le 53 false y 10000 0 -> fin_le 53 false (f64_add y half) 20001 (-1).
Proof.
  rewrite half_value. destruct y as [s| | |s m e]; try done.
  - intros _. cbn [f64_add SFadd]. split; [done|]. split; [apply dle_of; [lia|by vm_compute]|by vm_compute].
  - intros (-> & H & _). unfold f64_add, SFadd. cbn [cond_Zopp].
    destruct (half_sum m e H) as [Hz Hd]. cbv zeta in *. set (ez := Z.min e (-53)) in *.
    set (z := _ + _) in *. clearbody z.
    replace false with (z <? 0) at 1 by lia.
    apply (normalize_bound 53 1024); try lia; [by vm_compute|by vm_compute|]. by rewrite Z.abs_eq by lia.
Qed.

Lemma sub_half_bound y :
  fin_le 53 true y 10000 0 -> fin_le 53 true (f64_sub y half) 20001 (-1).
Proof.
  rewrite half_value. destruct y as [s| | |s m e]; try done.
  - intros _. cbn [f64_sub SFsub negb]. split; [done|]. split; [apply dle_of; [lia|by vm_compute]|by vm_compute].
  - intros (-> & H & _). unfold f64_sub, SFsub. cbn [cond_Zopp].
    destruct (half_sum m e H) as [Hz Hd]. cbv zeta in *. set (ez := Z.min e (-53)) in *.
    set (a := Zpos (fst (shl_align m e ez))) in *.
    set (c := Zpos (fst (shl_align 4503599627370496 (-53) ez))) in *.
    replace true with (- a - c <? 0) at 1 by lia.
    apply (normalize_bound 53 1024); try lia; [by vm_compute|by vm_compute|].
    rewrite Z.abs_neq by lia. by replace (- (- a - c)) with (a + c) by lia.
Qed.

Lemma trunc_bound s x : fin_le 24 s x 10000 0 -> exists z, f_trunc x = Some z /\ -10000 <= z <= 10000.
Proof.
  destruct x as [?| | |s' m e]; try done; [by exists 0|]. intros (-> & H & _). unfold f_trunc.
  eexists. split; [done|].
  assert (forall v, 0 <= v <= 10000 -> -10000 <= cond_Zopp s v <= 10000) as Hs
    by (intros v Hv; destruct s; cbn; lia).
  destruct (Z.leb_spec 0 e) as [He|He].
  - specialize (H 0 ltac:(lia) ltac:(lia)). rewrite !Z.add_0_r in H.
    pose proof (Z.pow_nonneg 2 e).
    replace (cond_Zopp s (Zpos m) * 2 ^ e) with (cond_Zopp s (Zpos m * 2 ^ e)) by (destruct s; cbn; lia).
    apply Hs. split; [|lia]. apply Z.mul_nonneg_nonneg; lia.
  - specialize (H (- e) ltac:(lia) ltac:(lia)). replace (e + - e) with 0 in H by lia.
    pose proof (Z.pow_pos_nonneg 2 (- e) ltac:(lia) ltac:(lia)).
    replace (Z.quot (cond_Zopp s (Zpos m)) (2 ^ (- e))) with (cond_Zopp s (Zpos m / 2 ^ (- e))).
    + apply Hs. split; [apply Z.div_pos; lia|]. apply Z.div_le_upper_bound; [done|]. rewrite Z.add_0_l in H. lia.
    + destruct s; cbn [cond_Zopp].
      * rewrite Z.quot_opp_l by lia. by rewrite Z.quot_div_nonneg by lia.
      * by rewrite Z.quot_div_nonneg by lia.
Qed.

Lemma roundF32_bound (x : float) s :
  fin_le 24 s x 10000 0 -> exists s', fin_le 24 s' (roundF32 x) 10000 0.
Proof.
  intros Hx. unfold roundF32.
  assert (forall s p' y, fin_le p' s y 10000 0 -> fin_le 53 s (f64_of_f32 y) 10000 0) as Hup.
  { intros s0 p' y. apply (refloat_bound 53 1024); try lia; by vm_compute. }
  assert (forall s p' y, fin_le p' s y 10000 0 -> fin_le 24 s (f32_of_f64 y) 10000 0) as Hdown.
  { intros s0 p' y. apply (refloat_bound 24 128); try lia; by vm_compute. }
  destruct (f_ge x (S754_zero false)) eqn:E.
  - exists false. eapply Hdown, floor_bound, add_half_bound, Hup.
    destruct x as [?|?| |s' m e]; try done. destruct s'; [done|]. destruct Hx as [<- Hx]. by split.
  - exists true. eapply Hdown, ceil_bound, sub_half_bound, Hup.
    destruct x as [?|?| |s' m e]; try done. destruct s'; [|done]. destruct Hx as [<- Hx]. by split.
Qed.

Lemma f32_mul_digits x y :
  match f32_mul x y with
  | S754_finite _ m _ => Zpos m < 2 ^ 24 | _ => True
  end.
Proof.
  unfold f32_mul, SFmul. destruct x as [?|?| |s m e], y as [?|?| |s' m' e']; try done.
  pose proof (round_aux_digits 24 128 ltac:(lia) (xorb s s') (Zpos (m * m')) (e + e') loc_Exact ltac:(lia)) as H.
  destruct (binary_round_aux _ _ _ _ _ _); try done. apply H.
Qed.

Lemma f32_mul_not_nan x : not_nan x -> not_nan (f32_mul x QuantScaleF).
Proof.
  change QuantScaleF with QuantMaxF. rewrite QuantMaxF_value. unfold f32_mul, SFmul.
  destruct x as [?|?| |s m e]; try done. intros _.
  pose proof (round_aux_digits 24 128 ltac:(lia) (xorb s false) (Zpos (m * 10240000)) (e + -10) loc_Exact ltac:(lia)) as H.
  by destruct (binary_round_aux _ _ _ _ _ _).
Qed.

Lemma quantize1_bound unspec x : not_nan x -> -10000 <= quantize1 unspec x <= 10000.
Proof.
  intros Hx. unfold quantize1. cbv zeta.
  pose proof (f32_mul_digits x QuantScaleF) as Hd. pose proof (f32_mul_not_nan x Hx) as Hn.
  set (y := f32_mul x QuantScaleF) in *. clearbody y.
  pose proof (clamp_bound y ltac:(by destruct y)) as Hc. cbv zeta in Hc.
  set (w := if f_gt y QuantMaxF then _ else _) in *. clearbody w.
  assert (exists s, fin_le 24 s w 10000 0) as [s Hw].
  { destruct w as [s0|s0| |s0 m e]; try done; [by exists s0|by exists s0]. }
  destruct (roundF32_bound w s Hw) as [s' Hr]. destruct (trunc_bound s' _ Hr) as (z & Hz & Hb).
  unfold i16_of_float. rewrite Hz. by replace ((-32768 <=? z) && (z <=? 32767)) with true by lia.
Qed.

Lemma Quantize_ok unspec v :
  length v = DIMS -> Forall not_nan v ->
  returns (Quantize unspec v) (fun q =>
    length q = 16%nat /\ quantized q /\ q !! 14%nat = Some 0 /\ q !! 15%nat = Some 0 /\
    forall i x, v !! i = Some x -> q !! i = Some (quantize1 unspec x)).
Proof.
  intros Hl Hv. unfold Quantize. eapply wp_conseq.
  { apply (wp_for _ (fun k q => length q = 16%nat /\ quantized q /\
      (forall i, (14 <= i < 16)%nat -> q !! i = Some 0) /\
      forall i x, (i < k)%nat -> v !! i = Some x -> q !! i = Some (quantize1 unspec x))).
    - split; [done|]. split; [unfold quantized; cbn; repeat constructor; lia|].
      split; [|intros; lia]. intros i Hi. assert (i = 14 \/ i = 15)%nat as [-> | ->] by lia; done.
    - intros k q Hk (Lq & Qq & Hz & Hq). unfold DIMS in *. rewrite Nat.add_0_l.
      destruct (v !! k) as [x|] eqn:Ex; [|apply lookup_ge_None in Ex; lia].
      rewrite (get_ok _ _ _ Ex), bind_Ok, set_ok by lia. apply wp_ok.
      assert (-10000 <= quantize1 unspec x <= 10000) as Hb.
      { apply quantize1_bound. rewrite List.Forall_forall in Hv. apply Hv.
        apply list_elem_of_In, list_elem_of_lookup. by exists k. }
      rewrite length_insert. split; [done|]. split; [by apply Forall_insert|].
      split; [intros i Hi; rewrite list_lookup_insert_ne by lia; by apply Hz|].
      intros i y Hi Hy. destruct (decide (i = k)) as [->|Hne].
      + rewrite list_lookup_insert_eq by lia. congruence.
      + rewrite list_lookup_insert_ne by done. apply Hq; [lia|done]. }
  intros q (Lq & Qq & Hz & Hq). split; [done|]. split; [done|]. split; [apply Hz; lia|].
  split; [apply Hz; lia|]. intros i x Hx. apply Hq; [|done]. apply lookup_lt_Some in Hx. lia.
Qed.

(** ** Properties *)

(** C34: quantization always produces a query the search is proved for: from fourteen
    features none of which is a NaN (infinities and values far out of range included)
    [Quantize] returns sixteen values, each within the quantization range of plus or
    minus 10000, the two padding dimensions zero; rounding never leaves the range. *)
Theorem Quantize_query unspec v :
  length v = DIMS -> Forall not_nan v ->
  returns (Quantize unspec v) (fun q =>
    length q = 16%nat /\ quantized q /\ q !! 14%nat = Some 0 /\ q !! 15%nat = Some 0 /\
    forall i x, v !! i = Some x -> q !! i = Some (quantize1 unspec x)).
Proof. apply Quantize_ok. Qed.

Example Quantize_query_witness :
  returns (Quantize (fun _ => 0) (repeat (f32_ratio false 1 3) 14)) (fun q =>
    length q = 16%nat /\ quantized q /\ q !! 14%nat = Some 0 /\ q !! 15%nat = Some 0 /\
    forall i x, repeat (f32_ratio false 1 3) 14 !! i = Some x -> q !! i = Some (quantize1 (fun _ => 0) x)).
Proof. apply Quantize_query; [done|]. repeat constructor; by vm_compute. Defined.

End Quantize.
