(* ===== verification/Normalize.v ===== *)
(** * internal/normalize: the feature vector

    [Vectorize] of [internal/normalize/normalize.go] with [clamp01], [mccRisk], [pack]
    and [packLit]: a parsed payload becomes fourteen [float32] features. *)

From S2P Require Import Prelude Floats Timex Jsonp Quantize.

Module Normalize.
Import Jsonp Quantize.

Local Open Scope Z_scope.

(** ** The code *)

Definition DIMS : nat := 14.

(** Go's constants, converted to [float32]. *)
Definition zero : float := S754_zero false.
Definition one : float := f32_of_Z 1.
Definition minus_one : float := f32_of_Z (-1).
Definition MaxAmount : float := f32_of_Z 10000.
Definition MaxInstallments : float := f32_of_Z 12.
Definition AmountVsAvgRatio : float := f32_of_Z 10.
Definition MaxMinutes : float := f32_of_Z 1440.
Definition MaxKm : float := f32_of_Z 1000.
Definition MaxTxCount24h : float := f32_of_Z 20.
Definition MaxMerchantAvgAmount : float := f32_of_Z 10000.

Definition clamp01 (x : float) : float :=
  if f_lt x zero then zero else if f_gt x one then one else x.

(** [pack]: four bytes, big-endian; [packLit] is the same on literals. *)
Definition packLit (a b c d : byte) : Z :=
  Z.lor (Z.lor (Z.lor (u32 (Z.shiftl (bval a) 24)) (u32 (Z.shiftl (bval b) 16)))
          (u32 (Z.shiftl (bval c) 8))) (bval d).
Definition pack (s : list byte) : res Z :=
  a ← get s 0; b ← get s 1; c ← get s 2; d ← get s 3; Ok (packLit a b c d).

(** A decimal constant of hundredths. *)
Definition cents (n : positive) : float := f32_ratio false n 100.

Definition mccRisk (mcc : list byte) : res float :=
  if negb (length mcc =? 4)%nat then Ok (cents 50)
  else
    x ← pack mcc;
    Ok (if x =? packLit "5" "4" "1" "1" then cents 15
        else if x =? packLit "5" "8" "1" "2" then cents 30
        else if x =? packLit "5" "9" "1" "2" then cents 20
        else if x =? packLit "5" "9" "4" "4" then cents 45
        else if x =? packLit "7" "8" "0" "1" then cents 80
        else if x =? packLit "7" "8" "0" "2" then cents 75
        else if x =? packLit "7" "9" "9" "5" then cents 85
        else if x =? packLit "4" "5" "1" "1" then cents 35
        else if x =? packLit "5" "3" "1" "1" then cents 25
        else if x =? packLit "5" "9" "9" "9" then cents 50
        else cents 50).

(** The loop over the known merchants, [break] at the first that is the payload's. *)
Fixpoint known_loop (p : Payload) (idxs : list nat) : res bool :=
  match idxs with
  | [] => Ok false
  | i :: idxs' =>
      m ← get (KnownMerchants p) i;
      if (length m =? length (MerchantID p))%nat && bool_decide (m = MerchantID p)
      then Ok true else known_loop p idxs'
  end.

Definition Vectorize (p : Payload) : res (list float) :=
  ts ← Timex.Parse (RequestedAt p);
  let cur := Timex.EpochSeconds ts in
  dow ← Timex.DayOfWeek (Timex.Year ts) (Timex.Month ts) (Timex.Day ts);
  known ← known_loop p (seq 0 (Z.to_nat (KnownN p)));
  '(d5, d6) ← (if HasLast p then
      lts ← Timex.Parse (LastTimestamp p);
      let last := Timex.EpochSeconds lts in
      let minsRaw := f32_div (f32_of_Z (i64 (cur - last))) (f32_of_Z 60) in
      let mins := if f_lt minsRaw zero then zero else minsRaw in
      Ok (clamp01 (f32_div mins MaxMinutes), clamp01 (f32_div (LastKmFromCurrent p) MaxKm))
    else Ok (minus_one, minus_one));
  let avgAmount := if f_eq (AvgAmount p) zero then one else AvgAmount p in
  let knownVal := if (known : bool) then zero else one in
  let online := if IsOnline p then one else zero in
  let cardPresent := if CardPresent p then one else zero in
  risk ← mccRisk (MCC p);
  Ok [ clamp01 (f32_div (Amount p) MaxAmount);
       clamp01 (f32_div (f32_of_Z (Installments p)) MaxInstallments);
       clamp01 (f32_div (f32_div (Amount p) avgAmount) AmountVsAvgRatio);
       f32_div (f32_of_Z (Timex.Hour ts)) (f32_of_Z 23);
       f32_div (f32_of_Z dow) (f32_of_Z 6);
       d5;
       d6;
       clamp01 (f32_div (KmFromHome p) MaxKm);
       clamp01 (f32_div (f32_of_Z (TxCount24h p)) MaxTxCount24h);
       online;
       cardPresent;
       knownVal;
       risk;
       clamp01 (f32_div (MerchantAvgAmount p) MaxMerchantAvgAmount) ].

Lemma Vectorize_halts p : halts (Vectorize p).
Proof.
  assert (forall idxs, halts (known_loop p idxs)) as Hk.
  { induction idxs as [|i idxs IH]; cbn [known_loop]; halts_go. }
  unfold Vectorize, mccRisk, pack. cbv zeta.
  repeat first [apply Hk | halts_step].
Qed.
#[global] Hint Resolve Vectorize_halts : halts.

(** ** Floats that stay numbers *)

Definition finite (x : float) : Prop :=
  match x with S754_zero _ | S754_finite _ _ _ => True | _ => False end.

(** Zero to one. *)
Definition unit (x : float) : Prop := f_le zero x = true /\ f_le x one = true.

Lemma unit_not_nan x : unit x -> not_nan x.
Proof. intros [H _]. by destruct x. Qed.

Lemma finite_not_nan x : finite x -> not_nan x.
Proof. by destruct x. Qed.

Lemma compare_antisym x y : SFcompare y x = option_map CompOpp (SFcompare x y).
Proof.
  destruct x as [s|s| |s m e], y as [s'|s'| |s' m' e']; try done;
    try (by destruct s, s'); try (by destruct s); try (by destruct s').
  assert (Pos.compare_cont Eq m' m = CompOpp (Pos.compare_cont Eq m m')) as Hc
    by apply (Pos.compare_antisym m m').
  cbn [SFcompare option_map]. rewrite (Z.compare_antisym e e'), Hc. f_equal.
  destruct s, s'; try done; destruct (e ?= e'); cbn [CompOpp]; try done; by rewrite ?CompOpp_involutive.
Qed.

Lemma not_lt_le x y : not_nan x -> not_nan y -> f_lt x y = false -> f_le y x = true.
Proof.
  intros Hx Hy. unfold f_lt, f_le, SFltb, SFleb. rewrite (compare_antisym x y).
  destruct (SFcompare x y) as [[]|] eqn:E; try done. intros _. exfalso.
  destruct x as [s|s| |s m e], y as [s'|s'| |s' m' e']; done.
Qed.

Lemma clamp01_unit x : not_nan x -> unit (clamp01 x).
Proof.
  intros Hx. unfold clamp01. destruct (f_lt x zero) eqn:E0; [done|].
  destruct (f_gt x one) eqn:E1; [done|]. split; by apply not_lt_le.
Qed.

Lemma f32_of_Z_finite z : Z.abs z < 2 ^ 64 -> finite (f32_of_Z z).
Proof.
  intros Hz. unfold f32_of_Z.
  assert (dle (Z.abs z) 0 1 64) as Hd by (apply dle_of; [lia|]; change (1 * 2 ^ (64 - 0)) with (2 ^ 64); lia).
  pose proof (normalize_bound 24 128 1 64 ltac:(lia) ltac:(lia) ltac:(by vm_compute) ltac:(by vm_compute)
    ltac:(lia) z 0 false Hd) as H.
  by destruct (binary_normalize 24 128 z 0 false).
Qed.

Lemma div_core_nonneg m1 e1 m2 e2 q e l :
  0 <= m1 -> 0 < m2 -> SFdiv_core_binary 24 128 m1 e1 m2 e2 = (q, e, l) -> 0 <= q.
Proof.
  intros H1 H2. unfold SFdiv_core_binary.
  set (s := e1 - e2 - _). assert (forall m', 0 <= m' -> 0 <= (Z.div_eucl m' m2).1) as Hq.
  { intros m' Hm'. exact (Z.div_pos m' m2 Hm' H2). }
  set (m' := match s with Zpos _ => Z.shiftl m1 s | Z0 => m1 | Zneg _ => 0 end).
  assert (0 <= m') as Hm'.
  { unfold m'. destruct s as [|d|d]; [done| |done]. by apply Z.shiftl_nonneg. }
  specialize (Hq m' Hm'). destruct (Z.div_eucl m' m2) as [q' r']. by intros [= <- _ _].
Qed.

(** A quotient by a non-zero finite number is a number. *)
Lemma f32_div_not_nan x s m e : not_nan x -> not_nan (f32_div x (S754_finite s m e)).
Proof.
  intros Hx. unfold f32_div, SFdiv. destruct x as [?|?| |s' m' e']; try done.
  destruct (SFdiv_core_binary 24 128 (Zpos m') e' (Zpos m) e) as [[q eq] l] eqn:E.
  apply div_core_nonneg in E; [|lia|lia].
  pose proof (round_aux_digits 24 128 ltac:(lia) (xorb s' s) q eq l E) as H.
  by destruct (binary_round_aux _ _ _ _ _ _).
Qed.

Definition nonzero (x : float) : Prop := match x with S754_finite _ _ _ => True | _ => False end.

Lemma div_not_nan x y : not_nan x -> nonzero y -> not_nan (f32_div x y).
Proof. destruct y; try done. intros Hx _. by apply f32_div_not_nan. Qed.

Lemma unit_div x y : not_nan x -> nonzero y -> unit (clamp01 (f32_div x y)).
Proof. intros Hx Hy. by apply clamp01_unit, div_not_nan. Qed.

Lemma f32_int_not_nan z : Z.abs z < 2 ^ 64 -> not_nan (f32_of_Z z).
Proof. intros Hz. by apply finite_not_nan, f32_of_Z_finite. Qed.

Lemma weekday_unit w : 0 <= w < 7 -> unit (f32_div (f32_of_Z w) (f32_of_Z 6)).
Proof.
  intros Hw.
  assert (w = 0 \/ w = 1 \/ w = 2 \/ w = 3 \/ w = 4 \/ w = 5 \/ w = 6)
    as [-> | [-> | [-> | [-> | [-> | [-> | ->]]]]]] by lia; by vm_compute.
Qed.

Lemma mccRisk_unit mcc : returns (mccRisk mcc) unit.
Proof.
  unfold mccRisk. destruct (Nat.eqb_spec (length mcc) 4) as [Hl|]; [|by vm_compute].
  destruct mcc as [|a [|b [|c [|d [|]]]]]; try discriminate Hl. cbn [negb].
  unfold pack. cbn [get lookup list_lookup]. rewrite !bind_Ok. apply wp_ok.
  repeat match goal with |- unit (if ?b then _ else _) => destruct b end; by vm_compute.
Qed.

(** The loop finds the payload's merchant among the first [KnownN] known ones. *)
Lemma known_merchant_ok p n :
  (n <= length (KnownMerchants p))%nat ->
  known_loop p (seq 0 n) = Ok (bool_decide (MerchantID p ∈ take n (KnownMerchants p))).
Proof.
  intros Hn.
  assert (forall m i, (i + m = n)%nat -> known_loop p (seq i m) =
    Ok (bool_decide (MerchantID p ∈ take m (drop i (KnownMerchants p))))) as H.
  { induction m as [|m IH]; intros i Hi; cbn [seq known_loop].
    - rewrite take_0. by rewrite bool_decide_false by apply not_elem_of_nil.
    - destruct (KnownMerchants p !! i) as [x|] eqn:Ex; [|apply lookup_ge_None in Ex; lia].
      rewrite (get_ok _ _ _ Ex), bind_Ok. rewrite (drop_S _ _ _ Ex). cbn [take].
      rewrite IH by lia. destruct (decide (x = MerchantID p)) as [->|Hne].
      + rewrite Nat.eqb_refl, (bool_decide_true (MerchantID p = MerchantID p)) by done.
        cbn [andb]. by rewrite bool_decide_true by (apply elem_of_cons; by left).
      + rewrite (bool_decide_false (x = MerchantID p)), andb_false_r by done. f_equal.
        apply bool_decide_ext. rewrite elem_of_cons. split; [by right|]. intros [E|]; [by subst|done]. }
  by rewrite H.
Qed.

(** The two features of the last transaction. *)
Lemma last_features p ts :
  finite (LastKmFromCurrent p) ->
  returns (if HasLast p then
      lts ← Timex.Parse (LastTimestamp p);
      let last := Timex.EpochSeconds lts in
      let minsRaw := f32_div (f32_of_Z (i64 (Timex.EpochSeconds ts - last))) (f32_of_Z 60) in
      let mins := if f_lt minsRaw zero then zero else minsRaw in
      Ok (clamp01 (f32_div mins MaxMinutes), clamp01 (f32_div (LastKmFromCurrent p) MaxKm))
    else Ok (minus_one, minus_one))
    (fun '(d5, d6) => if HasLast p then unit d5 /\ unit d6 else d5 = minus_one /\ d6 = minus_one).
Proof.
  intros Fl. destruct (HasLast p); [|done].
  pose proof (Timex.Parse_bounds (LastTimestamp p)) as Hl.
  destruct (Timex.Parse (LastTimestamp p)) as [lts| | |]; try done. rewrite bind_Ok. apply wp_ok.
  split; [|by apply unit_div; [by apply finite_not_nan|]]. apply unit_div; [|done].
  destruct (f_lt _ zero); [done|]. apply div_not_nan; [|done]. apply f32_int_not_nan.
  pose proof (i64_range (Timex.EpochSeconds ts - Timex.EpochSeconds lts)). unfold maxI64 in *. lia.
Qed.

Lemma Vectorize_spec buf p ts :
  payload_wf buf p -> Timex.Parse (RequestedAt p) = Ok ts -> 1 <= Timex.Month ts <= 12 ->
  Forall finite [Amount p; AvgAmount p; MerchantAvgAmount p; KmFromHome p; LastKmFromCurrent p] ->
  returns (Vectorize p) (fun v =>
    length v = DIMS /\ Forall not_nan v /\
    (forall i x, In i [0; 1; 2; 4; 7; 8; 9; 10; 11; 12; 13]%nat -> v !! i = Some x -> unit x) /\
    (if HasLast p then forall i x, In i [5; 6]%nat -> v !! i = Some x -> unit x
     else v !! 5%nat = Some minus_one /\ v !! 6%nat = Some minus_one) /\
    v !! 11%nat = Some (if bool_decide (MerchantID p ∈ take (Z.to_nat (KnownN p)) (KnownMerchants p))
                        then zero else one)).
Proof.
  intros wf Hts Hm Hfin.
  apply Forall_cons_iff in Hfin as [Fa Hfin]. apply Forall_cons_iff in Hfin as [Fv Hfin].
  apply Forall_cons_iff in Hfin as [Fm Hfin]. apply Forall_cons_iff in Hfin as [Fh Hfin].
  apply Forall_cons_iff in Hfin as [Fl _].
  pose proof (Timex.Parse_bounds (RequestedAt p)) as Hb. rewrite Hts in Hb.
  destruct Hb as (_ & _ & _ & Hh & _).
  unfold Vectorize. rewrite Hts, bind_Ok. cbv zeta.
  apply wp_bind. eapply wp_conseq; [by apply Timex.DayOfWeek_returns|]. intros w Hw.
  rewrite known_merchant_ok, bind_Ok by (pose proof (wf_slots _ _ wf); pose proof (wf_known _ _ wf); lia).
  set (known := bool_decide _). apply wp_bind.
  eapply wp_conseq; [by apply (last_features p ts)|].
  intros [d5 d6] Hd. apply wp_bind. eapply wp_conseq; [apply mccRisk_unit|]. intros risk Hrisk. apply wp_ok.
  assert (nonzero (if f_eq (AvgAmount p) zero then one else AvgAmount p)) as Havg.
  { revert Fv. by destruct (AvgAmount p) as [[]|?| |[] ? ?]. }
  pose proof (wf_inst _ _ wf). pose proof (wf_tx _ _ wf).
  pose proof (finite_not_nan _ Fa). pose proof (finite_not_nan _ Fm). pose proof (finite_not_nan _ Fh).
  assert (unit (clamp01 (f32_div (Amount p) MaxAmount))) by (by apply unit_div).
  assert (unit (clamp01 (f32_div (f32_of_Z (Installments p)) MaxInstallments)))
    by (apply unit_div; [apply f32_int_not_nan; lia|done]).
  assert (unit (clamp01 (f32_div (f32_div (Amount p) (if f_eq (AvgAmount p) zero then one else AvgAmount p))
    AmountVsAvgRatio))) by (apply unit_div; [by apply div_not_nan|done]).
  assert (not_nan (f32_div (f32_of_Z (Timex.Hour ts)) (f32_of_Z 23)))
    by (apply div_not_nan; [apply f32_int_not_nan; lia|done]).
  pose proof (weekday_unit w Hw).
  assert (unit (clamp01 (f32_div (KmFromHome p) MaxKm))) by (by apply unit_div).
  assert (unit (clamp01 (f32_div (f32_of_Z (TxCount24h p)) MaxTxCount24h)))
    by (apply unit_div; [apply f32_int_not_nan; lia|done]).
  assert (unit (clamp01 (f32_div (MerchantAvgAmount p) MaxMerchantAvgAmount))) by (by apply unit_div).
  assert (forall b : bool, unit (if b then one else zero) /\ unit (if b then zero else one)) as Hbool by (by intros []).
  destruct (Hbool (IsOnline p)) as [? _]. destruct (Hbool (CardPresent p)) as [? _]. destruct (Hbool known) as [_ ?].
  split; [done|]. split.
  { repeat (apply Forall_cons_iff; split; [first [done|by apply unit_not_nan|
      destruct (HasLast p), Hd as [Hd5 Hd6]; [by apply unit_not_nan|by subst]]|]). constructor. }
  split.
  { intros i x Hi Hx. cbn [In] in Hi.
    repeat (destruct Hi as [<-|Hi]; [cbn [lookup list_lookup] in Hx; injection Hx as <-; done|]). done. }
  split; [|done]. destruct (HasLast p).
  - destruct Hd as [Hd5 Hd6]. intros i x Hi Hx. cbn [In] in Hi.
    repeat (destruct Hi as [<-|Hi]; [cbn [lookup list_lookup] in Hx; injection Hx as <-; done|]). done.
  - by destruct Hd as [-> ->].
Qed.

Lemma Vectorize_numbers buf p ts :
  payload_wf buf p -> Timex.Parse (RequestedAt p) = Ok ts -> 1 <= Timex.Month ts <= 12 ->
  Forall finite [Amount p; AvgAmount p; MerchantAvgAmount p; KmFromHome p; LastKmFromCurrent p] ->
  returns (Vectorize p) (fun v => length v = DIMS /\ Forall not_nan v).
Proof.
  intros wf Hts Hm Hfin. eapply wp_conseq; [by apply (Vectorize_spec buf p ts)|].
  intros v (Hl & Hn & _). done.
Qed.

(** A payload with a timestamp, for the examples. *)
Definition example_time : list byte := bytes "2026-03-11T20:23:35Z".
Definition example_payload : Payload := set_tx (f32_of_Z 100) 3 example_time emptyPayload.
Definition example_stamp : Timex.Stamp := Timex.mkStamp 2026 3 11 20 23 35.

Lemma example_payload_wf : payload_wf example_time example_payload.
Proof.
  split; simpl; try lia; try apply slice_of_nil; [repeat constructor; apply slice_of_nil|].
  exists [], []. by rewrite app_nil_r.
Qed.

Lemma Vectorize_bad_month p ts :
  Timex.Parse (RequestedAt p) = Ok ts -> ~ (1 <= Timex.Month ts <= 12) -> Vectorize p = Panic.
Proof.
  intros Hts Hm. unfold Vectorize. rewrite Hts, bind_Ok. cbv zeta.
  pose proof (Timex.Parse_bounds (RequestedAt p)) as Hb. rewrite Hts in Hb.
  destruct Hb as (_ & HM & _). by rewrite Timex.DayOfWeek_out by (done || lia).
Qed.

(** ** Properties *)

(** What [Vectorize] does with a payload depends only on its month: with the slots of
    a parsed payload it returns fourteen features when the month of [requested_at] is 1
    to 12, and panics (in the weekday table) on any other, in particular on a payload
    without a timestamp. *)
Theorem Vectorize_outcome buf p ts :
  payload_wf buf p -> Timex.Parse (RequestedAt p) = Ok ts ->
  if decide (1 <= Timex.Month ts <= 12)
  then returns (Vectorize p) (fun v => length v = DIMS)
  else Vectorize p = Panic.
Proof.
  intros wf Hts. destruct (decide (1 <= Timex.Month ts <= 12)) as [Hm|Hm].
  - unfold Vectorize. rewrite Hts, bind_Ok. cbv zeta. apply wp_bind. eapply wp_conseq; [by apply Timex.DayOfWeek_returns|]. intros w _.
    rewrite known_merchant_ok, bind_Ok by (pose proof (wf_slots _ _ wf); pose proof (wf_known _ _ wf); lia).
    apply wp_bind. eapply (wp_conseq _ (fun _ => True)).
    { destruct (HasLast p); [|done].
      pose proof (Timex.Parse_bounds (LastTimestamp p)) as Hl.
      by destruct (Timex.Parse (LastTimestamp p)). }
    intros [d5 d6] _. apply wp_bind. eapply wp_conseq; [apply mccRisk_unit|]. by intros r _.
  - by apply (Vectorize_bad_month p ts).
Qed.

Example Vectorize_outcome_witness :
  returns (Vectorize example_payload) (fun v => length v = DIMS) /\ Vectorize emptyPayload = Panic.
Proof.
  split.
  - exact (Vectorize_outcome example_time example_payload example_stamp example_payload_wf eq_refl).
  - exact (Vectorize_outcome [] emptyPayload Timex.zeroStamp (emptyPayload_wf []) eq_refl).
Defined.

(** C33: the features are numbers of the promised ranges. From finite amounts every one of
    the fourteen is a number (no NaN, so that quantization applies), all but the hour and
    the two features of the last transaction lie between 0 and 1, those two are -1
    without a last transaction and between 0 and 1 with one, and the merchant feature is
    0 exactly when the merchant is among the first [KnownN] known ones. *)
Theorem Vectorize_features buf p ts :
  payload_wf buf p -> Timex.Parse (RequestedAt p) = Ok ts -> 1 <= Timex.Month ts <= 12 ->
  Forall finite [Amount p; AvgAmount p; MerchantAvgAmount p; KmFromHome p; LastKmFromCurrent p] ->
  returns (Vectorize p) (fun v =>
    length v = DIMS /\ Forall not_nan v /\
    (forall i x, In i [0; 1; 2; 4; 7; 8; 9; 10; 11; 12; 13]%nat -> v !! i = Some x -> unit x) /\
    (if HasLast p then forall i x, In i [5; 6]%nat -> v !! i = Some x -> unit x
     else v !! 5%nat = Some minus_one /\ v !! 6%nat = Some minus_one) /\
    v !! 11%nat = Some (if bool_decide (MerchantID p ∈ take (Z.to_nat (KnownN p)) (KnownMerchants p))
                        then zero else one)).
Proof. apply Vectorize_spec. Qed.

Example Vectorize_features_witness :
  returns (Vectorize example_payload) (fun v =>
    length v = DIMS /\ Forall not_nan v /\
    (forall i x, In i [0; 1; 2; 4; 7; 8; 9; 10; 11; 12; 13]%nat -> v !! i = Some x -> unit x) /\
    (v !! 5%nat = Some minus_one /\ v !! 6%nat = Some minus_one) /\
    v !! 11%nat = Some (if bool_decide ([] ∈ take 0 (KnownMerchants example_payload)) then zero else one)).
Proof.
  refine (Vectorize_features example_time example_payload example_stamp example_payload_wf eq_refl _ _).
  - simpl. lia.
  - repeat constructor.
Defined.

End Normalize.
