(* ===== verification/Server.v ===== *)
(** * internal/server: answering a request

    The canned responses and [Respond] of [internal/server/http.go]: the whole scoring
    pipeline, from the body of a parsed request to the bytes sent back.  [payload] is
    reused by the caller from request to request; [jsonp.Parse] resets it first, so the
    model takes no payload in. *)

From S2P Require Import Prelude Floats Timex Jsonp JsonText Http Index Kernel Knn Quantize Normalize TreeData Tree.

Module Server.
Import Http Kernel.

Local Open Scope Z_scope.

(** ** The responses *)

Definition crlf : list byte := [x0d; x0a].
Definition quote (s : string) : list byte := [x22] ++ bytes s ++ [x22].

Definition scoreHdr (n : string) : list byte :=
  lines ["HTTP/1.1 200 OK"; "content-type: application/json"]%string ++
  bytes "content-length: " ++ bytes n ++ crlf ++
  lines ["connection: keep-alive"; ""]%string.
Definition approvedHdr : list byte := scoreHdr "35".
Definition deniedHdr : list byte := scoreHdr "36".

Definition scoreBody (approved score : string) : list byte :=
  bytes "{" ++ quote "approved" ++ bytes ":" ++ bytes approved ++ bytes "," ++
  quote "fraud_score" ++ bytes ":" ++ bytes score ++ bytes "}".

Definition scores : list (list byte) :=
  [ approvedHdr ++ scoreBody "true" "0.0";
    approvedHdr ++ scoreBody "true" "0.2";
    approvedHdr ++ scoreBody "true" "0.4";
    deniedHdr ++ scoreBody "false" "0.6";
    deniedHdr ++ scoreBody "false" "0.8";
    deniedHdr ++ scoreBody "false" "1.0" ].

Definition ReadyResp : list byte :=
  lines ["HTTP/1.1 200 OK"; "content-type: text/plain"; "content-length: 2"; "connection: keep-alive"; ""]%string
  ++ bytes "ok".
Definition NotFoundResp : list byte :=
  lines ["HTTP/1.1 404 Not Found"; "content-length: 0"; "connection: keep-alive"; ""]%string.
Definition BadResp : list byte :=
  lines ["HTTP/1.1 400 Bad Request"; "content-length: 0"; "connection: close"; ""]%string.

(** ** The code *)

Section Respond.
Context `{Kernel}.
Variable unspec : float -> Z.   (* int16 of a NaN *)
Variable ix : Index.Index.

(** The fraud count of a parsed payload: the tree's when its leaf is trusted, the
    search's otherwise. *)
Definition fraud_count (payload : Jsonp.Payload) : res Z :=
  v ← Normalize.Vectorize payload;
  qq ← Quantize.Quantize unspec v;
  tr ← Tree.Predict qq;
  safe ← Tree.LeafSafeA (Tree.LeafID tr);
  frauds ← (if (safe : bool) then Ok (u32 (Tree.ResCount tr)) else Knn.ScoreQ ix qq);
  Ok (if 5 <? frauds then 5 else frauds).

Definition Respond (p : Parsed) : res (list byte) :=
  match M p with
  | MethodGetReady => Ok ReadyResp
  | MethodPostScore =>
      match Jsonp.Parse (Body p) with
      | Ok payload => frauds ← fraud_count payload; getZ scores frauds
      | Fail _ => getZ scores 0
      | Panic => Panic
      | OutOfFuel => OutOfFuel
      end
  | MethodOther => Ok NotFoundResp
  end.
End Respond.

(** ** The pipeline *)

#[local] Opaque Tree.walk Tree.result_of Tree.Predict Tree.LeafSafeA Tree.the_tree TreeData.leafSafeA
  Knn.ScoreQ Quantize.Quantize Normalize.Vectorize.

Section Pipeline.
Context `{KernelLaws}.
Variable unspec : float -> Z.
Variable ix : Index.Index.
Hypothesis wf : Knn.index_wf ix.

(** Amounts that are numbers, and a month. *)
Definition scorable (p : Jsonp.Payload) : Prop :=
  Forall Normalize.finite [Jsonp.Amount p; Jsonp.AvgAmount p; Jsonp.MerchantAvgAmount p;
                           Jsonp.KmFromHome p; Jsonp.LastKmFromCurrent p] /\
  exists ts, Timex.Parse (Jsonp.RequestedAt p) = Ok ts /\ 1 <= Timex.Month ts <= 12.

Lemma query_of buf p :
  Jsonp.payload_wf buf p -> scorable p ->
  exists v qq, Normalize.Vectorize p = Ok v /\ Quantize.Quantize unspec v = Ok qq /\ Knn.query qq.
Proof.
  intros Hwf (Hfin & ts & Hts & Hm).
  pose proof (Normalize.Vectorize_numbers buf p ts Hwf Hts Hm Hfin) as Hv.
  apply returns_inv in Hv as (v & Ev & Hl & Hn).
  destruct (proj1 (returns_inv _ _) (Quantize.Quantize_ok unspec v Hl Hn)) as (qq & Eq & Hq & Hqq & _).
  exists v, qq. by split; [|split; [|split]].
Qed.

(** The tree's answer or the search's. *)
Definition decided (qq : list Z) (s : Z) : Prop :=
  if (TreeData.leafSafeA !!! Z.to_nat (Tree.walk qq Tree.the_tree) : bool)
  then s = Tree.ResCount (Tree.result_of (Tree.walk qq Tree.the_tree))
  else Knn.ScoreQ ix qq = Ok s.

Lemma fraud_count_ok buf p :
  Jsonp.payload_wf buf p -> scorable p ->
  exists v qq s, Normalize.Vectorize p = Ok v /\ Quantize.Quantize unspec v = Ok qq /\
    decided qq s /\ 0 <= s <= 5 /\ fraud_count unspec ix p = Ok s.
Proof.
  intros Hwf Hs. destruct (query_of buf p Hwf Hs) as (v & qq & Ev & Eq & Hq).
  pose proof (Tree.Predict_ok qq (proj1 Hq)) as Ht.
  apply returns_inv in Ht as (tr & Et & Etr & Hl & Hc).
  unfold fraud_count. rewrite Ev, bind_Ok, Eq, bind_Ok, Et, bind_Ok, Tree.LeafSafeA_ok, bind_Ok by done.
  exists v, qq. unfold decided.
  pose proof (Tree.result_of_id (Tree.walk qq Tree.the_tree)) as Hid. rewrite <-Etr in Hid |- *.
  rewrite <-Hid.
  destruct (TreeData.leafSafeA !!! Z.to_nat (Tree.LeafID tr)).
  - exists (Tree.ResCount tr). rewrite bind_Ok, u32_id by lia.
    split; [reflexivity|]. split; [exact Eq|]. split; [reflexivity|]. split; [exact Hc|].
    destruct (Z.ltb_spec 5 (Tree.ResCount tr)); [lia|reflexivity].
  - pose proof (Knn.ScoreQ_range ix qq wf Hq) as Hr. apply returns_inv in Hr as (s & Es & Hr).
    exists s. rewrite Es, bind_Ok.
    split; [reflexivity|]. split; [exact Eq|]. split; [reflexivity|]. split; [exact Hr|].
    destruct (Z.ltb_spec 5 s); [lia|reflexivity].
Qed.
End Pipeline.

Lemma scores_get s : 0 <= s <= 5 -> getZ scores s = Ok (scores !!! Z.to_nat s).
Proof.
  intros Hs. apply getZ_ok; [lia|]. apply list_lookup_lookup_total_lt.
  change (length scores) with 6%nat. lia.
Qed.

Lemma Respond_ok `{KernelLaws} unspec ix r p :
  Knn.index_wf ix -> M r = MethodPostScore -> Jsonp.Parse (Body r) = Ok p -> scorable p ->
  exists v qq s, Normalize.Vectorize p = Ok v /\ Quantize.Quantize unspec v = Ok qq /\
    decided ix qq s /\ 0 <= s <= 5 /\ Respond unspec ix r = Ok (scores !!! Z.to_nat s).
Proof.
  intros wf Hm Hp Hs. pose proof (Jsonp.Parse_wf (Body r)) as Hwf. rewrite Hp in Hwf.
  destruct (fraud_count_ok unspec ix wf _ p Hwf Hs) as (v & qq & s & Ev & Eq & Hd & Hr & Hf).
  exists v, qq, s.
  split; [exact Ev|]. split; [exact Eq|]. split; [exact Hd|]. split; [exact Hr|].
  unfold Respond. rewrite Hm, Hp, Hf, bind_Ok. by apply scores_get.
Qed.

(** Whatever the index, [Respond] answers or panics: no request makes it loop. *)
Lemma Respond_halts `{KernelLaws} unspec ix r : halts (Respond unspec ix r).
Proof.
  unfold Respond. pose proof (Jsonp.Parse_wf (Body r)) as Hwf.
  destruct (M r); try exact I.
  destruct (Jsonp.Parse (Body r)) as [p|e| |]; [|apply halts_getZ|done..].
  unfold fraud_count. halts_go.
Qed.

(** A timestamp whose month is no month, as the request parser reads it: a missing
    [requested_at] gives month 0. *)
Definition bad_month (p : Jsonp.Payload) : Prop :=
  exists ts, Timex.Parse (Jsonp.RequestedAt p) = Ok ts /\ ~ (1 <= Timex.Month ts <= 12).

Definition amounts_finite (p : Jsonp.Payload) : Prop :=
  Forall Normalize.finite [Jsonp.Amount p; Jsonp.AvgAmount p; Jsonp.MerchantAvgAmount p;
                           Jsonp.KmFromHome p; Jsonp.LastKmFromCurrent p].

Lemma month_cases p :
  (exists ts, Timex.Parse (Jsonp.RequestedAt p) = Ok ts /\ 1 <= Timex.Month ts <= 12) \/ bad_month p.
Proof.
  destruct (proj1 (returns_inv _ _) (Timex.Parse_bounds (Jsonp.RequestedAt p))) as (ts & Hts & _).
  destruct (decide (1 <= Timex.Month ts <= 12)); [left|right]; by exists ts.
Qed.

Lemma bad_month_panics `{Kernel} unspec ix p : bad_month p -> fraud_count unspec ix p = Panic.
Proof.
  intros (ts & Hts & Hm). unfold fraud_count.
  assert (Normalize.Vectorize p = Panic) as ->; [|reflexivity].
  apply (Normalize.Vectorize_bad_month p ts Hts), Hm.
Qed.

(** A scoring request, for the example. *)
Definition example_request : Parsed := mkParsed MethodPostScore (JsonText.print [" "%byte] JsonText.sample) 0.
Definition example_parsed : Jsonp.Payload := JsonText.eval JsonText.sample.

Lemma example_scorable : scorable example_parsed.
Proof.
  split; [vm_compute; repeat constructor|]. eexists. split; [vm_compute; reflexivity|]. simpl. lia.
Qed.

(** ** Properties *)

(** C4: a well-formed scoring request is answered with one of the six canned responses,
    and the right one: with a well-formed index, a body the JSON parser accepts, finite
    amounts and a real month, the whole pipeline (parse, vectorize, quantize, tree,
    search) returns without a panic, and the response is the one for the fraud count of
    the decision tree when the query's leaf is trusted, and of [ScoreQ] otherwise. *)
Theorem Respond_scores `{KernelLaws} unspec ix r p :
  Knn.index_wf ix -> M r = MethodPostScore -> Jsonp.Parse (Body r) = Ok p -> scorable p ->
  exists v qq s, Normalize.Vectorize p = Ok v /\ Quantize.Quantize unspec v = Ok qq /\
    decided ix qq s /\ 0 <= s <= 5 /\ Respond unspec ix r = Ok (scores !!! Z.to_nat s).
Proof. apply Respond_ok. Qed.

Example Respond_scores_witness :
  exists v qq s, Normalize.Vectorize example_parsed = Ok v /\ Quantize.Quantize (fun _ => 0) v = Ok qq /\
    @decided avx2 Knn.example_index qq s /\ 0 <= s <= 5 /\
    @Respond avx2 (fun _ => 0) Knn.example_index example_request = Ok (scores !!! Z.to_nat s).
Proof.
  apply (@Respond_scores avx2 avx2_laws).
  - apply Knn.example_wf.
  - reflexivity.
  - vm_compute. reflexivity.
  - exact example_scorable.
Defined.

(** The response as a client reads it: a header block that ends in a blank line, with a
    content length, and that many bytes of body. *)
Definition well_framed (resp body : list byte) : Prop :=
  exists hdrEnd, Index resp crlf2 = Some hdrEnd /\ drop (hdrEnd + 4) resp = body /\
    findContentLength (take (hdrEnd + 2) resp) = Ok (Some (Z.of_nat (length body))).

Definition score_text (s : Z) : list byte :=
  scoreBody (if s <? 3 then "true" else "false")
    (["0.0"; "0.2"; "0.4"; "0.6"; "0.8"; "1.0"]%string !!! Z.to_nat s).

(** The canned responses are correctly framed and consistent: the declared content
    length of each is the length of its body, there is one score for each fraud count 0
    to 5 in steps of 0.2, and a transaction is approved exactly below 0.6. *)
Theorem responses_framed :
  length scores = 6%nat /\
  (forall s, (s < 6)%nat -> well_framed (scores !!! s)
     (scoreBody (if (s <? 3)%nat then "true" else "false")
        (["0.0"; "0.2"; "0.4"; "0.6"; "0.8"; "1.0"]%string !!! s))) /\
  well_framed ReadyResp (bytes "ok") /\ well_framed NotFoundResp [] /\ well_framed BadResp [].
Proof.
  split; [done|]. split.
  - intros s Hs. assert (s = 0 \/ s = 1 \/ s = 2 \/ s = 3 \/ s = 4 \/ s = 5)%nat
      as [-> | [-> | [-> | [-> | [-> | ->]]]]] by lia;
      (eexists; split; [vm_compute; reflexivity|]; split; vm_compute; reflexivity).
  - split; [|split]; (eexists; split; [vm_compute; reflexivity|]; split; vm_compute; reflexivity).
Qed.

Lemma score_framed s : 0 <= s <= 5 -> well_framed (scores !!! Z.to_nat s) (score_text s).
Proof.
  intros Hs. destruct responses_framed as (_ & Hf & _).
  pose proof (Hf (Z.to_nat s) ltac:(lia)) as H. unfold score_text.
  assert ((s <? 3) = (Z.to_nat s <? 3)%nat) as ->; [|exact H].
  apply eq_true_iff_eq. rewrite Z.ltb_lt, Nat.ltb_lt. lia.
Qed.

(** A request that ends the process. *)
Definition fatal (r : Parsed) : Prop :=
  M r = MethodPostScore /\ exists p, Jsonp.Parse (Body r) = Ok p /\ bad_month p.

(** C39: every request is answered, except one kind that ends the process. With a
    well-formed index, a request whose amounts (if its body parses) are finite gets a
    response that is correctly framed - its declared content length is the length of its
    body - and whose body is "ok" for the readiness request, empty for an unknown one, and
    for a scoring request the decision text of a fraud count [s] from 0 to 5: 0 when the
    JSON parser rejects the body (so malformed requests are approved), the pipeline's
    count otherwise. The exception is exactly a scoring request whose body parses and whose
    month is not 1 to 12 (a missing [requested_at] has month 0): [Respond] then indexes the
    weekday table out of range. That is a panic of the checked program; the image's build
    drops the index checks ([-gcflags=-B]) and reads whatever lies past the table. *)
Theorem Respond_outcome `{KernelLaws} unspec ix r :
  Knn.index_wf ix -> (forall p, Jsonp.Parse (Body r) = Ok p -> amounts_finite p) ->
  (fatal r /\ Respond unspec ix r = Panic) \/
  (~ fatal r /\ exists resp body, Respond unspec ix r = Ok resp /\ well_framed resp body /\
     match M r with
     | MethodGetReady => body = bytes "ok"
     | MethodOther => body = []
     | MethodPostScore => exists s, body = score_text s /\
         match Jsonp.Parse (Body r) with
         | Ok p => 0 <= s <= 5 /\ fraud_count unspec ix p = Ok s
         | _ => s = 0
         end
     end).
Proof.
  intros wf Hfin. destruct responses_framed as (_ & _ & Hready & Hother & _).
  unfold Respond. destruct (M r) eqn:Em.
  - right. split; [intros [E _]; congruence|]. by exists NotFoundResp, [].
  - right. split; [intros [E _]; congruence|]. by exists ReadyResp, (bytes "ok").
  - pose proof (Jsonp.Parse_wf (Body r)) as Hwf. destruct (Jsonp.Parse (Body r)) as [p|e| |] eqn:Ep; [|right|done..].
    + destruct (month_cases p) as [(ts & Hts & Hm)|Hb].
      * right. split. { intros (_ & p' & Ep' & ts' & Hts' & Hm'). assert (ts' = ts) by congruence. by subst. }
        destruct (fraud_count_ok unspec ix wf _ p Hwf) as (v & qq & s & _ & _ & _ & Hs & Hc).
        { split; [by apply Hfin|by exists ts]. }
        exists (scores !!! Z.to_nat s), (score_text s). rewrite Hc, bind_Ok.
        split; [by apply scores_get|]. split; [by apply score_framed|]. by exists s.
      * left. split; [split; [done|by exists p]|]. by rewrite bad_month_panics.
    + split; [intros (_ & p' & Ep' & _); congruence|].
      exists (scores !!! Z.to_nat 0), (score_text 0). split; [by apply scores_get|].
      split; [by apply (score_framed 0)|]. by exists 0.
Qed.

(** An empty JSON object ends the process. *)
Example Respond_outcome_witness :
  @Respond avx2 (fun _ => 0) Knn.example_index (mkParsed MethodPostScore (bytes "{}") 2) = Panic.
Proof.
  destruct (@Respond_outcome avx2 avx2_laws (fun _ => 0) Knn.example_index (mkParsed MethodPostScore (bytes "{}") 2))
    as [[_ H]|[Hn _]]; [apply Knn.example_wf| |exact H|].
  - intros p. vm_compute. intros [= <-]. repeat constructor.
  - destruct Hn. split; [reflexivity|]. eexists. split; [vm_compute; reflexivity|].
    eexists. split; [vm_compute; reflexivity|]. simpl. lia.
Defined.

End Server.
