(* ===== verification/Conn.v ===== *)
(** * cmd/api: serving a connection

    [handleRawConn] and [writeAll] of [cmd/api/conn_linux.go] and [handleConn] of
    [cmd/api/main.go]: the loops that read from a socket into a pooled buffer, answer
    every complete request in it and move the rest to the front.  The socket is the list
    of the outcomes of the system calls to come; the buffer keeps the stale bytes of
    earlier requests, and of the connection that used it before. *)

From S2P Require Import Prelude Floats Http Index Kernel Knn Server.

Module Conn.
Import Http Kernel.

(** ** The system calls *)

(** What the next [read] finds: bytes, an interruption (EINTR), another error, or nothing
    yet.  Past the end of the list, and at an empty [Data], the peer has closed. *)
Inductive event : Type :=
| Data (d : list byte)
| Intr
| Again
| Fault.

(** What the next [write] does: it takes some of the bytes, is interrupted, or fails.  Past
    the end of the list it takes all of them. *)
Inductive wres : Type :=
| Wrote (n : nat)
| WIntr
| WErr.

(** A blocking [read] into [room] bytes: it waits while there is nothing yet, and what
    does not fit stays in the socket. *)
Fixpoint recv (evs : list event) (room : nat) : event * list event :=
  match evs with
  | [] => (Data [], [])
  | Data [] :: _ => (Data [], evs)
  | Again :: evs' => recv evs' room
  | Data d :: evs' =>
      (Data (take room d), if decide (drop room d = []) then evs' else Data (drop room d) :: evs')
  | e :: evs' => (e, evs')
  end.

(** The bytes a socket delivers before it closes or fails. *)
Fixpoint stream (evs : list event) : list byte :=
  match evs with
  | [] => []
  | Data [] :: _ => []
  | Data d :: evs' => d ++ stream evs'
  | Intr :: evs' | Again :: evs' => stream evs'
  | Fault :: _ => []
  end.

Definition cost (e : event) : nat := match e with Data d => S (length d) | _ => 1 end.
Definition pending (evs : list event) : nat := sum_list_with cost evs.

(** ** The code *)

Definition readBufSize : nat := Z.to_nat 8192.

(** The bytes written, whether all were, and the outcomes left. *)
Fixpoint writeAll (ws : list wres) (p : list byte) : list byte * bool * list wres :=
  match p with
  | [] => ([], true, ws)
  | _ =>
      match ws with
      | [] => (p, true, [])
      | WIntr :: ws' => writeAll ws' p
      | WErr :: ws' => ([], false, ws')
      | Wrote n :: ws' =>
          let '(w, ok, ws'') := writeAll ws' (drop n p) in (take n p ++ w, ok, ws'')
      end
  end.

(** [copy(dst, src)]; the source is read before the destination is written. *)
Definition copy (dst src : list byte) : list byte := take (length dst) src ++ drop (length src) dst.

(** [buf[pos:]] after a read of [d] into it. *)
Definition fill (buf : list byte) (pos : nat) (d : list byte) : list byte :=
  take pos buf ++ d ++ drop (pos + length d) buf.

Record conn : Type := mkConn {
  Buf : list byte;
  Pos : nat;
  Out : list byte;      (* the bytes written so far *)
  Ws : list wres        (* the writes to come *)
}.

(** Whether the handler reads on or has ended, by returning or by a panic. *)
Inductive flow : Type :=
| Continue
| Stop (r : res unit).

Section Code.
Context `{Kernel}.
Variable unspec : float -> Z.
Variable ix : Index.Index.

(** The end of the inner loop: drop the request that was answered. *)
Definition consume (st : conn) (e : Z) : res conn :=
  if (Z.of_nat (Pos st) <=? e)%Z then Ok (mkConn (Buf st) 0 (Out st) (Ws st))
  else
    rest ← slice (Buf st) e (Z.of_nat (Pos st));
    Ok (mkConn (copy (Buf st) rest) (Pos st - Z.to_nat e) (Out st) (Ws st)).

(** One turn of the inner loop: answer the request at the head of the buffer.  No flow: the
    loop goes round. *)
Definition answer_one (st : conn) : conn * option flow :=
  if (Pos st =? 0)%nat then (st, Some Continue)
  else
    match (b ← slice (Buf st) 0 (Z.of_nat (Pos st)); ParseRequest b) with
    | Fail e => (st, Some (if decide (e = ErrIncomplete) then Continue else Stop (Ok tt)))
    | Panic => (st, Some (Stop Panic))
    | OutOfFuel => (st, Some (Stop OutOfFuel))
    | Ok req =>
        match Server.Respond unspec ix req with
        | Ok resp =>
            let '(w, ok, ws) := writeAll (Ws st) resp in
            let st := mkConn (Buf st) (Pos st) (Out st ++ w) ws in
            if (ok : bool) then
              match consume st (End_ req) with
              | Ok st => (st, None)
              | _ => (st, Some (Stop Panic))
              end
            else (st, Some (Stop (Ok tt)))
        | Fail e => (st, Some (Stop (Fail e)))
        | Panic => (st, Some (Stop Panic))
        | OutOfFuel => (st, Some (Stop OutOfFuel))
        end
    end.

(** The inner loop: answer every complete request in the buffer. *)
Fixpoint drain (fuel : nat) (st : conn) : conn * flow :=
  match fuel with
  | O => (st, Stop OutOfFuel)
  | S fuel =>
      match answer_one st with
      | (st, None) => drain fuel st
      | (st, Some fl) => (st, fl)
      end
  end.

(** The read of both handlers: [None] when the handler returns, because the buffer is
    full, the peer has closed or the read has failed. *)
Definition read_more (st : conn) (evs : list event) : option (conn * list event) :=
  if (Pos st =? length (Buf st))%nat then None
  else
    match recv evs (length (Buf st) - Pos st) with
    | (Intr, evs') => Some (st, evs')
    | (Fault, _) | (Again, _) => None
    | (Data [], _) => None
    | (Data d, evs') =>
        Some (mkConn (fill (Buf st) (Pos st) d) (Pos st + length d) (Out st) (Ws st), evs')
    end.

(** The outer loop of [handleRawConn]: answer, then read. *)
Fixpoint raw_loop (fuel : nat) (st : conn) (evs : list event) : list byte * res unit :=
  match fuel with
  | O => (Out st, OutOfFuel)
  | S fuel =>
      match drain (S (Pos st)) st with
      | (st, Stop r) => (Out st, r)
      | (st, Continue) =>
          match read_more st evs with
          | None => (Out st, Ok tt)
          | Some (st, evs') => raw_loop fuel st evs'
          end
      end
  end.

Definition handleRawConn (buf prefix : list byte) (evs : list event) (ws : list wres)
    : list byte * res unit :=
  let fuel := S (pending evs) in
  if (0 <? length prefix)%nat then
    if (length buf <? length prefix)%nat then ([], Ok tt)
    else raw_loop fuel (mkConn (copy buf prefix) (length prefix) [] ws) evs
  else raw_loop fuel (mkConn buf 0 [] ws) evs.

(** The loop of [handleConn]: read, then answer.  The [net] package retries an interrupted
    read itself; passing through the inner loop on the way changes nothing. *)
Fixpoint conn_loop (fuel : nat) (st : conn) (evs : list event) : list byte * res unit :=
  match fuel with
  | O => (Out st, OutOfFuel)
  | S fuel =>
      match read_more st evs with
      | None => (Out st, Ok tt)
      | Some (st, evs') =>
          match drain (S (Pos st)) st with
          | (st, Stop r) => (Out st, r)
          | (st, Continue) => conn_loop fuel st evs'
          end
      end
  end.

Definition handleConn (buf : list byte) (evs : list event) (ws : list wres) : list byte * res unit :=
  conn_loop (S (pending evs)) (mkConn buf 0 [] ws) evs.

(** ** The specification *)

(** What a server that sees the whole stream at once answers: request after request, as
    far as the parser accepts the first [cap] bytes of what is left. *)
Fixpoint serve (cap fuel : nat) (s : list byte) : list byte * res unit :=
  match fuel with
  | O => ([], OutOfFuel)
  | S fuel =>
      match ParseRequest (take cap s) with
      | Fail _ => ([], Ok tt)
      | Panic => ([], Panic)
      | OutOfFuel => ([], OutOfFuel)
      | Ok req =>
          match Server.Respond unspec ix req with
          | Ok resp => let '(o, r) := serve cap fuel (drop (Z.to_nat (End_ req)) s) in (resp ++ o, r)
          | Fail e => ([], Fail e)
          | Panic => ([], Panic)
          | OutOfFuel => ([], OutOfFuel)
          end
      end
  end.

Definition served (cap : nat) (s : list byte) : list byte * res unit := serve cap (S (length s)) s.

End Code.

(** ** Lemmas on the system calls *)

Definition no_error (ws : list wres) : Prop := Forall (fun w => w <> WErr) ws.

Lemma writeAll_ok ws p :
  let '(w, ok, ws') := writeAll ws p in
  w `prefix_of` p /\ (ok = true -> w = p) /\ (no_error ws -> ok = true /\ no_error ws').
Proof.
  revert p. induction ws as [|[n| |] ws IH]; intros [|b p]; cbn [writeAll]; try done.
  - specialize (IH (drop n (b :: p))). destruct (writeAll ws (drop n (b :: p))) as [[w ok] ws'].
    destruct IH as ([k Hk] & Hok & Hn). split; [|split].
    + exists k. by rewrite <-app_assoc, <-Hk, take_drop.
    + intros E. by rewrite (Hok E), take_drop.
    + intros [_ H]%Forall_cons_iff. auto.
  - specialize (IH (b :: p)). destruct (writeAll ws (b :: p)) as [[w ok] ws'].
    destruct IH as (H1 & H2 & H3). split; [done|]. split; [done|]. intros [_ H]%Forall_cons_iff. auto.
  - split; [apply prefix_nil|]. split; [done|]. by intros [H _]%Forall_cons_iff.
Qed.

Lemma recv_ok evs room :
  (0 < room)%nat ->
  match recv evs room with
  | (Data [], evs') => stream evs = [] /\ stream evs' = []
  | (Data d, evs') => stream evs = d ++ stream evs' /\ (length d <= room)%nat /\ (pending evs' < pending evs)%nat
  | (Intr, evs') => stream evs = stream evs' /\ (pending evs' < pending evs)%nat
  | (Fault, _) => stream evs = []
  | (Again, _) => False
  end.
Proof.
  intros Hr. induction evs as [|[[|b d]| | |] evs IH]; cbn [recv]; try done;
    [|split; [done|unfold pending; simpl; lia]|].
  - destruct (take room (b :: d)) as [|b' d'] eqn:Et.
    { destruct room; [lia|done]. }
    pose proof (take_drop room (b :: d)) as Hsplit.
    pose proof (length_take (b :: d) room) as Hlen. rewrite Et in Hsplit, Hlen.
    change (stream (Data (b :: d) :: evs)) with ((b :: d) ++ stream evs).
    destruct (decide (drop room (b :: d) = [])) as [E|E].
    + rewrite E, app_nil_r in Hsplit. rewrite Hsplit in Hlen |- *. split; [done|].
      split; [lia|]. unfold pending. simpl. lia.
    + split; [|split; [lia|]].
      * destruct (drop room (b :: d)) as [|c l] eqn:Ed; [done|].
        change (stream (Data (c :: l) :: evs)) with ((c :: l) ++ stream evs).
        by rewrite app_assoc, Hsplit.
      * unfold pending. cbn [sum_list_with cost].
        assert (length (drop room (b :: d)) < length (b :: d))%nat; [|lia].
        rewrite length_drop. simpl. lia.
  - change (pending (Again :: evs)) with (S (pending evs)). change (stream (Again :: evs)) with (stream evs).
    by destruct (recv evs room) as [[[|b d]| | |] evs']; naive_solver lia.
Qed.

Lemma copy_prefix dst src : (length src <= length dst)%nat ->
  take (length src) (copy dst src) = src /\ length (copy dst src) = length dst.
Proof.
  intros Hl. unfold copy. rewrite (take_ge src (length dst)) by done. split; [by rewrite take_app_length|].
  rewrite length_app, length_drop. lia.
Qed.

Lemma fill_prefix buf pos d : (pos + length d <= length buf)%nat ->
  take (pos + length d) (fill buf pos d) = take pos buf ++ d /\ length (fill buf pos d) = length buf.
Proof.
  intros Hl. unfold fill. rewrite app_assoc. split.
  - apply take_app_length'. rewrite length_app, length_take. lia.
  - rewrite !length_app, length_take, length_drop. lia.
Qed.

(** ** The specification *)

Section Serve.
Context `{Kernel}.
Variable unspec : float -> Z.
Variable ix : Index.Index.

Lemma serve_fuel cap f g s :
  (length s < f)%nat -> (length s < g)%nat -> serve unspec ix cap f s = serve unspec ix cap g s.
Proof.
  revert g s. induction f as [|f IH]; intros [|g] s Hf Hg; try lia. cbn [serve].
  pose proof (ParseRequest_end (take cap s)) as He.
  destruct (ParseRequest (take cap s)) as [req| | |]; try done.
  destruct (Server.Respond unspec ix req); try done.
  rewrite length_take in He. rewrite (IH g) by (rewrite length_drop; lia). done.
Qed.

Lemma served_unfold cap s :
  served unspec ix cap s =
  match ParseRequest (take cap s) with
  | Fail _ => ([], Ok tt)
  | Panic => ([], Panic)
  | OutOfFuel => ([], OutOfFuel)
  | Ok req =>
      match Server.Respond unspec ix req with
      | Ok resp => let '(o, r) := served unspec ix cap (drop (Z.to_nat (End_ req)) s) in (resp ++ o, r)
      | Fail e => ([], Fail e)
      | Panic => ([], Panic)
      | OutOfFuel => ([], OutOfFuel)
      end
  end.
Proof.
  unfold served at 1. cbn [serve].
  pose proof (ParseRequest_end (take cap s)) as He.
  destruct (ParseRequest (take cap s)) as [req| | |]; try done.
  destruct (Server.Respond unspec ix req); try done.
  rewrite length_take in He. unfold served.
  rewrite (serve_fuel cap (length s) (S (length (drop (Z.to_nat (End_ req)) s))))
    by (rewrite length_drop; lia). done.
Qed.

Lemma served_nil cap : served unspec ix cap [] = ([], Ok tt).
Proof. by rewrite served_unfold, take_nil. Qed.

(** A stream that starts with a buffer on which the parser has decided. *)
Lemma served_app cap b rest :
  (length b <= cap)%nat -> ParseRequest b <> Fail ErrIncomplete ->
  ParseRequest (take cap (b ++ rest)) = ParseRequest b.
Proof. intros Hl Hn. rewrite take_app_ge by done. by apply ParseRequest_app. Qed.

(** ** The loops *)

(** The unread request bytes of a connection, and its invariant. *)
Definition unread (st : conn) : list byte := take (Pos st) (Buf st).

Definition conn_ok (cap : nat) (st : conn) : Prop := length (Buf st) = cap /\ (Pos st <= cap)%nat.

Lemma unread_length cap st : conn_ok cap st -> length (unread st) = Pos st.
Proof. intros [Hl Hp]. unfold unread. rewrite length_take. lia. Qed.

Lemma unread_slice cap st : conn_ok cap st -> slice (Buf st) 0 (Z.of_nat (Pos st)) = Ok (unread st).
Proof.
  intros [Hl Hp]. rewrite slice_ok by lia. unfold unread.
  by rewrite drop_0, Z.sub_0_r, Nat2Z.id.
Qed.

Lemma consume_ok cap st e :
  conn_ok cap st -> (0 < e <= Z.of_nat (Pos st))%Z ->
  exists st', consume st e = Ok st' /\ conn_ok cap st' /\ unread st' = drop (Z.to_nat e) (unread st) /\
    Out st' = Out st /\ Ws st' = Ws st /\ (Pos st' < Pos st)%nat.
Proof.
  intros [Hl Hp] He. unfold consume. destruct (Z.leb_spec (Z.of_nat (Pos st)) e).
  - eexists. split; [done|]. repeat split; cbn; try lia.
    unfold unread. cbn. rewrite take_0, drop_ge; [done|]. rewrite length_take. lia.
  - rewrite slice_ok, bind_Ok by lia. eexists. split; [done|].
    set (rest := take (Z.to_nat (Z.of_nat (Pos st) - e)) (drop (Z.to_nat e) (Buf st))).
    assert (length rest = Pos st - Z.to_nat e)%nat as Hr.
    { unfold rest. rewrite length_take, length_drop. lia. }
    destruct (copy_prefix (Buf st) rest) as [Hc Hlc]; [lia|].
    repeat split; cbn; try lia.
    unfold unread. cbn. rewrite <-Hr, Hc. unfold rest.
    rewrite take_drop_commute. do 2 f_equal. lia.
Qed.

(** What has been written, and what a server that sees the whole stream would do: they
    agree unless a write has failed, and even then nothing else is written and the handler
    returns. *)
Definition agrees (ws : list wres) (did spec : list byte * res unit) : Prop :=
  did.1 `prefix_of` spec.1 /\ (did = spec \/ did.2 = Ok tt) /\ (no_error ws -> did = spec).

Lemma agrees_refl ws spec : agrees ws spec spec.
Proof. split; [done|]. split; [by left|done]. Qed.

Lemma agrees_prefix ws ws' o did spec :
  (no_error ws -> no_error ws') -> agrees ws' did spec ->
  agrees ws (o ++ did.1, did.2) (o ++ spec.1, spec.2).
Proof.
  intros Hn (Hp & Hor & Heq). split; [by apply prefix_app|]. split.
  - destruct Hor as [-> | ->]; [by left|by right].
  - intros He. by rewrite (Heq (Hn He)).
Qed.

(** From one state of a connection to a later one, with [o] written in between: what is
    left to do is what was to be done, less [o]. *)
Record advances (cap : nat) (rest : list byte) (st st' : conn) (o : list byte) : Prop := {
  adv_ok : conn_ok cap st';
  adv_out : Out st' = Out st ++ o;
  adv_ws : no_error (Ws st) -> no_error (Ws st');
  adv_served : served unspec ix cap (unread st ++ rest) =
    (o ++ (served unspec ix cap (unread st' ++ rest)).1, (served unspec ix cap (unread st' ++ rest)).2)
}.

Lemma advances_refl cap rest st : conn_ok cap st -> advances cap rest st st [].
Proof. intros Hok. split; [done|by rewrite app_nil_r|done|by destruct (served _ _ _ _)]. Qed.

Lemma advances_trans cap rest st1 st2 st3 o1 o2 :
  advances cap rest st1 st2 o1 -> advances cap rest st2 st3 o2 -> advances cap rest st1 st3 (o1 ++ o2).
Proof.
  intros [_ Ho1 Hn1 Hs1] [Hok Ho2 Hn2 Hs2]. split; [done|by rewrite Ho2, Ho1, app_assoc|auto|].
  rewrite Hs1, Hs2. cbn [fst snd]. by rewrite app_assoc.
Qed.

(** How the inner loop, or a turn of it, leaves the connection. *)
Definition flows (cap : nat) (rest : list byte) (st st' : conn) (fl : flow) : Prop :=
  match fl with
  | Continue => exists o, advances cap rest st st' o /\ ParseRequest (unread st') = Fail ErrIncomplete
  | Stop r => exists o, Out st' = Out st ++ o /\
      agrees (Ws st) (o, r) (served unspec ix cap (unread st ++ rest))
  end.

Lemma flows_advance cap rest st1 st2 st3 o fl :
  advances cap rest st1 st2 o -> flows cap rest st2 st3 fl -> flows cap rest st1 st3 fl.
Proof.
  intros Ha. destruct fl as [|r]; cbn [flows].
  - intros (o2 & Ha2 & Hinc). exists (o ++ o2). split; [by eapply advances_trans|done].
  - destruct Ha as [_ Ho Hn Hs]. intros (o2 & Ho2 & Hag). exists (o ++ o2).
    split; [by rewrite Ho2, Ho, app_assoc|]. rewrite Hs. by apply (agrees_prefix _ _ o (o2, r) _ Hn).
Qed.

Lemma answer_one_ok cap st rest :
  conn_ok cap st ->
  match answer_one unspec ix st with
  | (st', None) => exists o, advances cap rest st st' o /\ (Pos st' < Pos st)%nat
  | (st', Some fl) => flows cap rest st st' fl
  end.
Proof.
  intros Hok. pose proof (unread_length cap st Hok) as Hlen. unfold answer_one.
  destruct (Nat.eqb_spec (Pos st) 0) as [H0|H0].
  { exists []. split; [by apply advances_refl|]. unfold unread. by rewrite H0, take_0. }
  rewrite (unread_slice cap) by done. rewrite bind_Ok.
  pose proof (served_app cap (unread st) rest) as Happ. rewrite Hlen in Happ. specialize (Happ (proj2 Hok)).
  pose proof (ParseRequest_end (unread st)) as Hend.
  assert (forall r, served unspec ix cap (unread st ++ rest) = ([], r) -> flows cap rest st st (Stop r)) as Hstop.
  { intros r E. exists []. rewrite app_nil_r, E. split; [done|apply agrees_refl]. }
  destruct (ParseRequest (unread st)) as [req|e| |] eqn:EP.
  - specialize (Happ ltac:(done)).
    destruct (Server.Respond unspec ix req) as [resp|e| |] eqn:ER.
    2-4: apply Hstop; by rewrite served_unfold, Happ, ER.
    pose proof (writeAll_ok (Ws st) resp) as Hw.
    destruct (writeAll (Ws st) resp) as [[w ok] ws]. destruct Hw as (Hpre & Hall & Hne).
    destruct ok.
    + rewrite (Hall eq_refl).
      destruct (consume_ok cap (mkConn (Buf st) (Pos st) (Out st ++ resp) ws) (End_ req))
        as (st1 & -> & Hok1 & Hun & Hout & Hws & Hlt); [done|cbn; lia|].
      cbn [Pos Out Ws] in *. change (unread (mkConn _ _ _ _)) with (unread st) in Hun.
      exists resp. split; [|done]. split; [done|done|intros Hn; rewrite Hws; by apply Hne|].
      rewrite served_unfold, Happ, ER, drop_app_le, <-Hun by lia. by destruct (served _ _ _ (unread st1 ++ rest)).
    + exists w. split; [done|]. rewrite served_unfold, Happ, ER. split; [|split; [by right|]].
      * destruct (served unspec ix cap (drop _ _)) as [o r]. cbn. etrans; [done|]. by apply prefix_app_r.
      * intros Hn. by destruct (Hne Hn).
  - destruct (decide (e = ErrIncomplete)) as [->|Hne].
    + exists []. split; [by apply advances_refl|done].
    + specialize (Happ ltac:(congruence)). apply Hstop. by rewrite served_unfold, Happ.
  - specialize (Happ ltac:(done)). apply Hstop. by rewrite served_unfold, Happ.
  - done.
Qed.

(** The buffer keeps its length. *)
Lemma answer_one_length st : length (Buf (answer_one unspec ix st).1) = length (Buf st).
Proof.
  unfold answer_one. destruct (Nat.eqb (Pos st) 0); [done|].
  destruct (slice (Buf st) 0 (Z.of_nat (Pos st)) ≫= ParseRequest) as [req|e| |]; [|done..].
  destruct (Server.Respond unspec ix req) as [resp|e| |]; [|done..].
  destruct (writeAll (Ws st) resp) as [[w [|]] ws]; [|done]. unfold consume. cbn [Pos Buf Out Ws].
  destruct (_ <=? _)%Z; [done|]. destruct (slice _ _ _) as [rest| | |]; [|done..].
  cbn. unfold copy. rewrite length_app, length_take, length_drop. lia.
Qed.

Lemma drain_ok cap fuel st rest :
  conn_ok cap st -> (Pos st < fuel)%nat ->
  let '(st', fl) := drain unspec ix fuel st in flows cap rest st st' fl.
Proof.
  revert st. induction fuel as [|fuel IH]; intros st Hok Hf; [lia|]. cbn [drain].
  pose proof (answer_one_ok cap st rest Hok) as Hone.
  destruct (answer_one unspec ix st) as [st1 [fl|]]; [done|]. destruct Hone as (o & Ha & Hlt).
  specialize (IH st1 (adv_ok _ _ _ _ _ Ha) ltac:(lia)). destruct (drain unspec ix fuel st1) as [st2 fl].
  by eapply flows_advance.
Qed.

Lemma read_more_ok cap st evs :
  conn_ok cap st -> ParseRequest (unread st) = Fail ErrIncomplete ->
  match read_more st evs with
  | None => served unspec ix cap (unread st ++ stream evs) = ([], Ok tt)
  | Some (st', evs') =>
      conn_ok cap st' /\ Out st' = Out st /\ Ws st' = Ws st /\ (pending evs' < pending evs)%nat /\
      unread st' ++ stream evs' = unread st ++ stream evs
  end.
Proof.
  intros Hok Hinc. pose proof (unread_length cap st Hok) as Hlen. destruct Hok as [Hl Hp].
  unfold read_more. destruct (Nat.eqb_spec (Pos st) (length (Buf st))) as [E|E].
  { by rewrite served_unfold, take_app_length', Hinc by lia. }
  assert (stream evs = [] -> served unspec ix cap (unread st ++ stream evs) = ([], Ok tt)) as Hend.
  { intros ->. by rewrite app_nil_r, served_unfold, take_ge, Hinc by lia. }
  pose proof (recv_ok evs (length (Buf st) - Pos st) ltac:(lia)) as Hr.
  destruct (recv evs (length (Buf st) - Pos st)) as [[[|b d]| | |] evs'].
  - by apply Hend, Hr.
  - destruct Hr as (Hs & Hd & Hpend).
    destruct (fill_prefix (Buf st) (Pos st) (b :: d)) as [Hf Hlf]; [lia|].
    split; [split; cbn [Buf Pos]; lia|]. split; [done|]. split; [done|]. split; [done|].
    unfold unread at 1. cbn [Buf Pos]. by rewrite Hf, Hs, app_assoc.
  - destruct Hr as [Hs Hpend]. split; [done|]. split; [done|]. split; [done|]. split; [done|]. by rewrite Hs.
  - done.
  - by apply Hend.
Qed.

(** The loops, from any state of the buffer, do what is left of the specification. *)
Definition continues (cap : nat) (st : conn) (evs : list event) (result : list byte * res unit) : Prop :=
  exists o r, result = (Out st ++ o, r) /\
    agrees (Ws st) (o, r) (served unspec ix cap (unread st ++ stream evs)).

Lemma continues_advance cap st st' evs o result :
  advances cap (stream evs) st st' o -> continues cap st' evs result -> continues cap st evs result.
Proof.
  intros [_ Ho Hn Hs] (o2 & r & -> & Hag). exists (o ++ o2), r. split; [by rewrite Ho, app_assoc|].
  rewrite Hs. by apply (agrees_prefix _ _ o (o2, r) _ Hn).
Qed.

Lemma continues_read cap st st' evs evs' result :
  Out st' = Out st -> Ws st' = Ws st -> unread st' ++ stream evs' = unread st ++ stream evs ->
  continues cap st' evs' result -> continues cap st evs result.
Proof. unfold continues. by intros -> -> ->. Qed.

Lemma continues_end cap st evs :
  served unspec ix cap (unread st ++ stream evs) = ([], Ok tt) -> continues cap st evs (Out st, Ok tt).
Proof. intros E. exists [], (Ok tt). rewrite E, app_nil_r. split; [done|apply agrees_refl]. Qed.

Lemma continues_stop cap st st' evs r :
  flows cap (stream evs) st st' (Stop r) -> continues cap st evs (Out st', r).
Proof. intros (o & Ho & Hag). exists o, r. by rewrite Ho. Qed.

Lemma conn_loop_ok cap fuel st evs :
  conn_ok cap st -> ParseRequest (unread st) = Fail ErrIncomplete -> (pending evs < fuel)%nat ->
  continues cap st evs (conn_loop unspec ix fuel st evs).
Proof.
  revert st evs. induction fuel as [|fuel IH]; intros st evs Hok Hinc Hf; [lia|]. cbn [conn_loop].
  pose proof (read_more_ok cap st evs Hok Hinc) as Hr.
  destruct (read_more st evs) as [[st1 evs']|]; [|by apply continues_end].
  destruct Hr as (Hok1 & Hout & Hws & Hp & Hun). eapply continues_read; [done..|].
  pose proof (drain_ok cap (S (Pos st1)) st1 (stream evs') Hok1 ltac:(lia)) as Hd.
  destruct (drain unspec ix (S (Pos st1)) st1) as [st2 [|r]]; [|by eapply continues_stop].
  destruct Hd as (o & Ha & Hinc2). eapply continues_advance; [done|].
  apply IH; [apply Ha|done|lia].
Qed.

Lemma raw_loop_ok cap fuel st evs :
  conn_ok cap st -> (pending evs < fuel)%nat ->
  continues cap st evs (raw_loop unspec ix fuel st evs).
Proof.
  revert st evs. induction fuel as [|fuel IH]; intros st evs Hok Hf; [lia|]. cbn [raw_loop].
  pose proof (drain_ok cap (S (Pos st)) st (stream evs) Hok ltac:(lia)) as Hd.
  destruct (drain unspec ix (S (Pos st)) st) as [st1 [|r]]; [|by eapply continues_stop].
  destruct Hd as (o & Ha & Hinc1). eapply continues_advance; [done|].
  pose proof (read_more_ok cap st1 evs (adv_ok _ _ _ _ _ Ha) Hinc1) as Hr.
  destruct (read_more st1 evs) as [[st2 evs']|]; [|by apply continues_end].
  destruct Hr as (Hok2 & Hout & Hws & Hp & Hun). eapply continues_read; [done..|]. apply IH; [done|lia].
Qed.

Lemma handlers_ok buf prefix evs ws :
  (length prefix <= length buf)%nat ->
  agrees ws (handleRawConn unspec ix buf prefix evs ws) (served unspec ix (length buf) (prefix ++ stream evs)).
Proof.
  intros Hl. cbv zeta. unfold handleRawConn.
  destruct (Nat.ltb_spec (length buf) (length prefix)); [lia|].
  assert (forall st, Out st = [] -> Ws st = ws -> conn_ok (length buf) st -> unread st = prefix ->
    agrees ws (raw_loop unspec ix (S (pending evs)) st evs) (served unspec ix (length buf) (prefix ++ stream evs))) as Hgo.
  { intros st Ho Hw Hok Hu. cbv zeta.
    destruct (raw_loop_ok (length buf) (S (pending evs)) st evs Hok ltac:(lia)) as (o & r & -> & Ha).
    by rewrite Ho, app_nil_l, <-Hw, <-Hu. }
  destruct (Nat.ltb_spec 0 (length prefix)).
  - destruct (copy_prefix buf prefix Hl) as [Hc Hlc]. apply Hgo; done.
  - apply Hgo; [done|done|by split; cbn; lia|].
    destruct prefix; [done|simpl in *; lia].
Qed.

Lemma handleConn_ok buf evs ws :
  agrees ws (handleConn unspec ix buf evs ws) (served unspec ix (length buf) (stream evs)).
Proof.
  cbv zeta. unfold handleConn.
  destruct (conn_loop_ok (length buf) (S (pending evs)) (mkConn buf 0 [] ws) evs) as (o & r & -> & Ha);
    [by split; cbn; lia|done|lia|done].
Qed.

(** Whole requests at the head of the stream are answered, one by one. *)
Definition answers (req resp : list byte) : Prop :=
  exists p, ParseRequest req = Ok p /\ End_ p = Z.of_nat (length req) /\ Server.Respond unspec ix p = Ok resp.

Lemma served_pipeline cap reqs resps s :
  Forall (fun r => length r <= cap)%nat reqs -> Forall2 answers reqs resps ->
  served unspec ix cap (concat reqs ++ s) =
  (let '(o, r) := served unspec ix cap s in (concat resps ++ o, r)).
Proof.
  intros Hl H2. induction H2 as [|req resp reqs resps (p & HP & HE & HR) _ IH]; simpl.
  { by destruct (served unspec ix cap s). }
  apply Forall_cons_iff in Hl as [Hl1 Hl]. rewrite <-app_assoc, served_unfold.
  rewrite served_app, HP, HR, HE, Nat2Z.id, drop_app_length by (done || congruence).
  rewrite (IH Hl). destruct (served unspec ix cap s). by rewrite app_assoc.
Qed.

End Serve.

(** ** The handlers end

    With a lawful kernel the specification ends, so the handlers do: [Respond] returns no
    error and runs no loop without end, on any request. *)

Definition ended (r : res unit) : Prop := r = Ok tt \/ r = Panic.

Section Ended.
Context `{KernelLaws}.
Variable unspec : float -> Z.
Variable ix : Index.Index.

Lemma served_ended cap s : ended (served unspec ix cap s).2.
Proof.
  unfold served. assert (length s < S (length s))%nat as Hf by lia. revert Hf. generalize (S (length s)). intros fuel.
  revert s. induction fuel as [|fuel IH]; intros s Hf; [lia|]. cbn [serve].
  pose proof (ParseRequest_end (take cap s)) as He.
  destruct (ParseRequest (take cap s)) as [req|e| |]; [|by left|by right|done].
  pose proof (Server.Respond_halts unspec ix req) as Hr.
  destruct (Server.Respond unspec ix req) as [resp|e| |]; [|done|by right|done].
  rewrite length_take in He. specialize (IH (drop (Z.to_nat (End_ req)) s)).
  destruct (serve unspec ix cap fuel _) as [o r]. apply IH. rewrite length_drop. lia.
Qed.

Lemma agrees_ended ws o r cap s : agrees ws (o, r) (served unspec ix cap s) -> ended r.
Proof.
  intros (_ & [E|E] & _); [|by left]. pose proof (served_ended cap s) as He. by rewrite <-E in He.
Qed.
End Ended.

(** ** Properties *)

(** C5: both handlers do what a server that sees the whole stream would do. However the
    bytes are split between the prefix handed over by the load balancer and the reads,
    whatever the pooled buffer held before, however reads are interrupted and writes are
    partial: the loops end, by a return or by a panic, and never for want of fuel; what is
    written is a prefix of the specification's output; and when no write fails it is
    exactly that output, with the specification's ending, while a handler that differs
    from the specification (because a write failed) has returned. *)
Theorem connections_serve `{KernelLaws} unspec ix buf prefix evs ws :
  (length prefix <= length buf)%nat ->
  let raw := handleRawConn unspec ix buf prefix evs ws in
  let tcp := handleConn unspec ix buf evs ws in
  agrees ws raw (served unspec ix (length buf) (prefix ++ stream evs)) /\ ended raw.2 /\
  agrees ws tcp (served unspec ix (length buf) (stream evs)) /\ ended tcp.2.
Proof.
  intros Hl raw tcp. pose proof (handlers_ok unspec ix buf prefix evs ws Hl) as Hraw.
  pose proof (handleConn_ok unspec ix buf evs ws) as Htcp. cbv zeta in Hraw, Htcp. fold raw in Hraw. fold tcp in Htcp.
  split; [exact Hraw|]. split; [destruct raw; by eapply agrees_ended|].
  split; [exact Htcp|destruct tcp; by eapply agrees_ended].
Qed.

(** A readiness request, and the index of the examples. *)
Definition ready : list byte := lines ["GET /ready HTTP/1.1"; "host: a"; ""]%string.
Definition example_buf : list byte := repeat "x"%byte readBufSize.
Definition example_evs : list event :=
  [Intr; Data (drop 7 ready ++ take 3 ready); Data (drop 3 ready)].
#[local] Abbreviation raw := (@handleRawConn avx2 (fun _ => 0%Z) Knn.example_index).

Example connections_serve_witness :
  raw example_buf (take 7 ready) example_evs [Wrote 5; WIntr] =
    (Server.ReadyResp ++ Server.ReadyResp, Ok tt) /\
  @served avx2 (fun _ => 0%Z) Knn.example_index (length example_buf) (take 7 ready ++ stream example_evs) =
    raw example_buf (take 7 ready) example_evs [Wrote 5; WIntr].
Proof.
  assert (raw example_buf (take 7 ready) example_evs [Wrote 5; WIntr] =
    (Server.ReadyResp ++ Server.ReadyResp, Ok tt)) as E by (vm_compute; reflexivity).
  split; [exact E|].
  symmetry. apply (@connections_serve avx2 avx2_laws (fun _ => 0%Z) Knn.example_index example_buf (take 7 ready)
    example_evs [Wrote 5; WIntr]); [apply Nat.leb_le; vm_compute; reflexivity|].
  repeat constructor; discriminate.
Defined.

(** Pipelined requests are answered in order, each exactly once: when the bytes of a
    connection, prefix and reads together, are complete requests that each fit the buffer
    and are each answered, the handler writes exactly the responses, in order, and
    returns. *)
Theorem pipelined_requests `{Kernel} unspec ix buf prefix evs ws reqs resps :
  (length prefix <= length buf)%nat -> no_error ws ->
  Forall (fun r => length r <= length buf)%nat reqs -> Forall2 (answers unspec ix) reqs resps ->
  prefix ++ stream evs = concat reqs ->
  handleRawConn unspec ix buf prefix evs ws = (concat resps, Ok tt).
Proof.
  intros Hl Hw Hf Ha Hs. destruct (handlers_ok unspec ix buf prefix evs ws Hl) as (_ & _ & Heq).
  rewrite Hs, <-(app_nil_r (concat reqs)), (served_pipeline _ _ _ _ resps) in Heq by done.
  rewrite (served_nil unspec ix), app_nil_r in Heq. by apply Heq.
Qed.

Example pipelined_requests_witness :
  raw example_buf (take 7 ready) example_evs [Wrote 5; WIntr] =
  (concat [Server.ReadyResp; Server.ReadyResp], Ok tt).
Proof.
  apply (@pipelined_requests avx2) with (reqs := [ready; ready]).
  - apply Nat.leb_le. vm_compute. reflexivity.
  - repeat constructor; discriminate.
  - do 2 (apply List.Forall_cons; [apply Nat.leb_le; vm_compute; reflexivity|]). apply List.Forall_nil.
  - do 2 (apply List.Forall2_cons; [eexists; split; [vm_compute; reflexivity|]; split; reflexivity|]).
    apply List.Forall2_nil.
  - reflexivity.
Defined.

End Conn.
