(* ===== verification/Lb.v ===== *)
(** * cmd/lb: the load balancer

    The accept loop of [cmd/lb/main.go]: the readiness short cut on the peeked bytes, the
    non-blocking drain of the first bytes, the choice of a backend and the frame that
    carries the descriptor and those bytes to it.  The rest of the process is in [Config]
    and [Balancer]. *)

From S2P Require Import Prelude Http Conn.

Module Lb.
Import Http Conn.

(** ** The code *)

Definition maxBackends : nat := 8.
Definition maxPrefix : nat := Z.to_nat 16384.

Definition readyResponse : list byte :=
  lines ["HTTP/1.1 200 OK"; "Content-Length: 2"; "Connection: close"; ""]%string ++ bytes "ok".

(** [recvfrom] with MSG_PEEK and MSG_DONTWAIT: the next bytes, left in place, or an error
    ([None]).  A moment with nothing yet, or an interruption, is past when the next call
    comes: that call may find bytes that the peek did not. *)
Definition peek (evs : list event) : option (list byte) * list event :=
  match evs with
  | [] => (Some [], evs)
  | Data d :: _ => (Some (take 64 d), evs)
  | Again :: evs' | Intr :: evs' => (None, evs')
  | Fault :: _ => (None, evs)
  end.

(** The result, and the socket as the peek leaves it. *)
Definition handleReadyPeek (evs : list event) : bool * list event :=
  match peek evs with
  | (None, evs) => (false, evs)
  | (Some p, evs) => (if (length p <? 10)%nat then false else bool_decide (take 10 p = bytes "GET /ready"), evs)
  end.

(** A non-blocking [read]: EAGAIN when there is nothing yet. *)
Definition recv_nb (evs : list event) (room : nat) : event * list event :=
  match evs with Again :: evs' => (Again, evs') | _ => recv evs room end.

(** [acc] is the buffer up to [n]; [None] is the result -1. *)
Fixpoint readReadyPrefix_loop (fuel : nat) (evs : list event) (acc : list byte)
    : res (option (list byte) * list event) :=
  match fuel with
  | O => OutOfFuel
  | S fuel =>
      if (length acc <? maxPrefix)%nat then
        match recv_nb evs (maxPrefix - length acc) with
        | (Intr, evs') => readReadyPrefix_loop fuel evs' acc
        | (Again, evs') => Ok (Some acc, evs')
        | (Fault, evs') => Ok (None, evs')
        | (Data [], evs') => Ok (if (length acc =? 0)%nat then None else Some acc, evs')
        | (Data d, evs') => readReadyPrefix_loop fuel evs' (acc ++ d)
        end
      else Ok (Some acc, evs)
  end.

Definition readReadyPrefix (evs : list event) : res (option (list byte) * list event) :=
  readReadyPrefix_loop (S (pending evs)) evs [].

(** What the next [sendmsg] on a backend socket does; past the end of the list it
    succeeds. *)
Inductive sres : Type := Sent | SIntr | SFail.

Fixpoint sendmsg_loop (outs : list sres) : bool * list sres :=
  match outs with
  | [] => (true, [])
  | Sent :: outs' => (true, outs')
  | SIntr :: outs' => sendmsg_loop outs'
  | SFail :: outs' => (false, outs')
  end.

(** The bytes of the message: a little-endian 16-bit length, then the prefix. *)
Definition frame (prefix : list byte) : list byte :=
  let p := if (maxPrefix <? length prefix)%nat then take maxPrefix prefix else prefix in
  [chr (u8 (Z.of_nat (length p))); chr (u8 (Z.shiftr (Z.of_nat (length p)) 8))] ++ p.

Definition sendFDWithBytes (outs : list sres) (prefix : list byte) : option (list byte) * list sres :=
  let '(ok, outs') := sendmsg_loop outs in ((if (ok : bool) then Some (frame prefix) else None), outs').

(** The backends in cyclic order from [start], until one takes the message. *)
Fixpoint try_backends (ks : list nat) (n start : nat) (prefix : list byte) (outs : list sres)
    : option (nat * list byte) * list sres :=
  match ks with
  | [] => (None, outs)
  | k :: ks' =>
      let i := ((start + k) mod n)%nat in
      match sendFDWithBytes outs prefix with
      | (Some m, outs') => (Some (i, m), outs')
      | (None, outs') => try_backends ks' n start prefix outs'
      end
  end.

(** What becomes of an accepted connection: answered here, closed, or handed to backend
    [i] with a message and the rest of the socket. *)
Inductive outcome : Type :=
| ReadyAnswered (resp : list byte)
| Dropped
| Unsent
| Handed (i : nat) (msg : list byte) (evs : list event).

(** One turn of the accept loop: the outcome and the next [rr]. *)
Definition accept_one (n rr : nat) (evs : list event) (outs : list sres)
    : res (outcome * nat * list sres) :=
  let '(probe, evs) := handleReadyPeek evs in
  if (probe : bool) then Ok (ReadyAnswered readyResponse, rr, outs)
  else
    r ← readReadyPrefix evs;
    match r with
    | (None, _) => Ok (Dropped, rr, outs)
    | (Some prefix, evs') =>
        match try_backends (seq 0 n) n rr prefix outs with
        | (Some (i, m), outs') => Ok (Handed i m evs', ((i + 1) mod n)%nat, outs')
        | (None, outs') => Ok (Unsent, rr, outs')
        end
    end.

(** The accept loop on the connections to come. *)
Fixpoint accept_loop (n rr : nat) (conns : list (list event)) (outs : list sres) : res (list outcome) :=
  match conns with
  | [] => Ok []
  | evs :: conns' =>
      r ← accept_one n rr evs outs;
      let '(o, rr', outs') := r in
      os ← accept_loop n rr' conns' outs';
      Ok (o :: os)
  end.

(** ** The specification

    What becomes of the connections, by the tries at the backends: one answer for every
    [sendmsg] that was not interrupted, [true] when the backend took the message. *)

Fixpoint attempts (outs : list sres) : list bool :=
  match outs with
  | [] => []
  | Sent :: outs' => true :: attempts outs'
  | SIntr :: outs' => attempts outs'
  | SFail :: outs' => false :: attempts outs'
  end.

(** [dispatch n rr tries conns os]: with [n] backends and the turn at [rr], the connections
    [conns] come to the outcomes [os]. *)
Inductive dispatch (n : nat) : nat -> list bool -> list (list event) -> list outcome -> Prop :=
| dispatch_nil rr tries : dispatch n rr tries [] []
(** A readiness probe is answered here. *)
| dispatch_probe rr tries evs evs1 conns os :
    handleReadyPeek evs = (true, evs1) ->
    dispatch n rr tries conns os ->
    dispatch n rr tries (evs :: conns) (ReadyAnswered readyResponse :: os)
(** A connection that fails or closes before its first byte is closed. *)
| dispatch_drop rr tries evs evs1 evs2 conns os :
    handleReadyPeek evs = (false, evs1) -> readReadyPrefix evs1 = Ok (None, evs2) ->
    dispatch n rr tries conns os ->
    dispatch n rr tries (evs :: conns) (Dropped :: os)
(** [j] backends refuse and the next one takes the message: it is the [j]-th from the turn,
    and the turn passes behind it. *)
| dispatch_hand rr j tries p evs evs1 evs2 conns os :
    handleReadyPeek evs = (false, evs1) -> readReadyPrefix evs1 = Ok (Some p, evs2) ->
    (j < n)%nat ->
    dispatch n ((rr + j + 1) mod n) tries conns os ->
    dispatch n rr (repeat false j ++ true :: tries) (evs :: conns) (Handed ((rr + j) mod n) (frame p) evs2 :: os)
(** All [n] backends refuse: the connection is closed, the turn stays. *)
| dispatch_unsent rr tries p evs evs1 evs2 conns os :
    handleReadyPeek evs = (false, evs1) -> readReadyPrefix evs1 = Ok (Some p, evs2) ->
    dispatch n rr tries conns os ->
    dispatch n rr (repeat false n ++ tries) (evs :: conns) (Unsent :: os).

(** ** Lemmas *)

Lemma handleReadyPeek_stream evs : stream (handleReadyPeek evs).2 = stream evs.
Proof. unfold handleReadyPeek, peek. by destruct evs as [|[d| | |] evs]. Qed.

Lemma recv_nb_ok evs room :
  (0 < room)%nat ->
  match recv_nb evs room with
  | (Data [], evs') => stream evs = [] /\ stream evs' = []
  | (Data d, evs') => stream evs = d ++ stream evs' /\ (length d <= room)%nat /\ (pending evs' < pending evs)%nat
  | (Intr, evs') => stream evs = stream evs' /\ (pending evs' < pending evs)%nat
  | (Again, evs') => stream evs = stream evs'
  | (Fault, _) => stream evs = []
  end.
Proof.
  intros Hr. pose proof (recv_ok evs room Hr) as H. unfold recv_nb.
  destruct evs as [|[[|b d]| | |] evs]; try done.
Qed.

Lemma readReadyPrefix_loop_ok fuel evs acc :
  (pending evs < fuel)%nat -> (length acc <= maxPrefix)%nat ->
  exists r evs', readReadyPrefix_loop fuel evs acc = Ok (r, evs') /\
  match r with
  | Some p => p ++ stream evs' = acc ++ stream evs /\ (length p <= maxPrefix)%nat
  | None => True
  end.
Proof.
  revert evs acc. induction fuel as [|fuel IH]; intros evs acc Hf Hl; [lia|].
  cbn [readReadyPrefix_loop]. destruct (Nat.ltb_spec (length acc) maxPrefix) as [Hlt|Hge]; [|by exists (Some acc), evs].
  pose proof (recv_nb_ok evs (maxPrefix - length acc) ltac:(lia)) as Hr.
  destruct (recv_nb evs (maxPrefix - length acc)) as [[[|b d]| | |] evs'].
  - destruct Hr as [Hs Hs']. destruct (Nat.eqb_spec (length acc) 0); [by exists None, evs'|].
    exists (Some acc), evs'. split; [done|]. by rewrite Hs, Hs'.
  - destruct Hr as (Hs & Hd & Hp). destruct (IH evs' (acc ++ b :: d)) as (r & evs2 & Hr & Hok);
      [lia|rewrite length_app; lia|]. exists r, evs2. split; [done|].
    destruct r; [|done]. by rewrite Hs, app_assoc.
  - destruct Hr as (Hs & Hp). rewrite Hs. apply IH; [lia|done].
  - exists (Some acc), evs'. split; [done|]. by rewrite Hr.
  - by exists None, evs'.
Qed.

(** The bytes drained and the bytes left in the socket are the stream. *)
Lemma readReadyPrefix_ok evs :
  exists r evs', readReadyPrefix evs = Ok (r, evs') /\
  match r with
  | Some p => p ++ stream evs' = stream evs /\ (length p <= maxPrefix)%nat
  | None => True
  end.
Proof.
  unfold readReadyPrefix. apply (readReadyPrefix_loop_ok (S (pending evs)) evs []); simpl; lia.
Qed.

(** Which sends go through: the next outcome that is not an interruption. *)
Lemma sendFD_sent outs prefix m outs' :
  sendFDWithBytes outs prefix = (Some m, outs') -> m = frame prefix.
Proof. unfold sendFDWithBytes. destruct (sendmsg_loop outs) as [[] o]; by intros [= <- <-]. Qed.

Lemma try_backends_sent ks n start prefix outs i m outs' :
  try_backends ks n start prefix outs = (Some (i, m), outs') ->
  m = frame prefix /\ exists k, In k ks /\ i = ((start + k) mod n)%nat.
Proof.
  revert outs. induction ks as [|k ks IH]; intros outs; cbn [try_backends]; [done|].
  destruct (sendFDWithBytes outs prefix) as [[m'|] o] eqn:E.
  - intros [= <- <- <-]. split; [by apply sendFD_sent in E|]. exists k. by split; [left|].
  - intros H. apply IH in H as (-> & k' & Hk & ->). split; [done|]. exists k'. by split; [right|].
Qed.

Definition all_sent (outs : list sres) : Prop := Forall (fun o => o <> SFail) outs.

Lemma sendFD_all_sent outs prefix :
  all_sent outs -> exists outs', sendFDWithBytes outs prefix = (Some (frame prefix), outs') /\ all_sent outs'.
Proof.
  unfold sendFDWithBytes. intros Ha.
  assert (exists o, sendmsg_loop outs = (true, o) /\ all_sent o) as (o & -> & Ho); [|by eauto].
  induction Ha as [|[] outs Hx Ha IH]; cbn [sendmsg_loop]; try done; [|by eauto].
  exists []. split; [done|constructor].
Qed.

(** The tries a [sendmsg] uses up; past the list of outcomes they all succeed. *)
Lemma sendmsg_attempts outs k :
  let '(ok, outs') := sendmsg_loop outs in
  if (ok : bool) then exists k', (k <= k')%nat /\ attempts outs ++ repeat true (S k) = true :: attempts outs' ++ repeat true k'
  else attempts outs = false :: attempts outs'.
Proof.
  induction outs as [|[] outs IH]; cbn [sendmsg_loop attempts]; [by exists k| |exact IH|done].
  exists (S k). split; [lia|done].
Qed.

Lemma try_backends_attempts m a n rr p outs k :
  match try_backends (seq a m) n rr p outs with
  | (Some (i, msg), outs') => exists j k', (j < m)%nat /\ (k <= k')%nat /\ i = ((rr + (a + j)) mod n)%nat /\
      msg = frame p /\ attempts outs ++ repeat true (S k) = repeat false j ++ true :: attempts outs' ++ repeat true k'
  | (None, outs') => attempts outs = repeat false m ++ attempts outs'
  end.
Proof.
  revert a outs. induction m as [|m IH]; intros a outs; cbn [seq try_backends]; [done|]. unfold sendFDWithBytes.
  pose proof (sendmsg_attempts outs k) as Hs. destruct (sendmsg_loop outs) as [[] o].
  - destruct Hs as (k' & Hk & Hs). exists 0%nat, k'. rewrite Nat.add_0_r. split; [lia|]. by split_and!.
  - specialize (IH (S a) o). destruct (try_backends (seq (S a) m) n rr p o) as [[[i msg]|] o'].
    + destruct IH as (j & k' & Hj & Hk & -> & -> & E). exists (S j), k'. rewrite Nat.add_succ_r.
      split; [lia|]. split; [done|]. split; [done|]. split; [done|]. rewrite Hs.
      change (repeat false (S j)) with (false :: repeat false j). cbn [app]. by rewrite E.
    + rewrite Hs, IH. done.
Qed.

(** The accept loop dispatches. *)
Lemma accept_loop_dispatch n rr conns outs k :
  (length conns <= k)%nat ->
  exists os, accept_loop n rr conns outs = Ok os /\ dispatch n rr (attempts outs ++ repeat true k) conns os.
Proof.
  revert rr outs k. induction conns as [|evs conns IH]; intros rr outs k Hk; [exists []; split; constructor|].
  cbn [length] in Hk. destruct k as [|k]; [lia|]. cbn [accept_loop]. unfold accept_one.
  destruct (handleReadyPeek evs) as [[] evs1] eqn:Ep.
  { rewrite bind_Ok. destruct (IH rr outs (S k)) as (os & -> & Hd); [lia|].
    eexists. split; [done|]. by eapply dispatch_probe. }
  destruct (readReadyPrefix_ok evs1) as ([p|] & evs2 & Er & _); rewrite Er, bind_Ok.
  2: { rewrite bind_Ok. destruct (IH rr outs (S k)) as (os & -> & Hd); [lia|].
       eexists. split; [done|]. by eapply dispatch_drop. }
  pose proof (try_backends_attempts n 0 n rr p outs k) as Ht.
  destruct (try_backends (seq 0 n) n rr p outs) as [[[i m]|] outs'].
  - destruct Ht as (j & k' & Hj & Hk' & -> & -> & ->). rewrite bind_Ok.
    destruct (IH (((rr + (0 + j)) mod n + 1) mod n) outs' k')%nat as (os' & -> & Hd); [lia|].
    eexists. split; [done|]. eapply dispatch_hand; [done..|]. by rewrite Nat.Div0.add_mod_idemp_l in Hd.
  - rewrite bind_Ok, Ht, <-app_assoc. destruct (IH rr outs' (S k)) as (os & -> & Hd); [lia|].
    eexists. split; [done|]. by eapply dispatch_unsent.
Qed.

(** A connection that is no readiness probe, and neither fails nor closes before its first
    byte. *)
Definition handed_over (evs : list event) : Prop :=
  (handleReadyPeek evs).1 = false /\ exists p evs', readReadyPrefix (handleReadyPeek evs).2 = Ok (Some p, evs').

Lemma accept_one_handed n rr evs outs :
  (0 < n)%nat -> all_sent outs -> handed_over evs ->
  exists m evs' outs', accept_one n rr evs outs = Ok (Handed (rr mod n) m evs', ((rr mod n + 1) mod n)%nat, outs') /\
    all_sent outs'.
Proof.
  intros Hn Ha (Hp & p & evs' & Hr). unfold accept_one. destruct (handleReadyPeek evs) as [probe evs1]. cbn [fst snd] in *.
  rewrite Hp, Hr, bind_Ok.
  destruct n as [|n]; [lia|]. cbn [seq try_backends]. rewrite Nat.add_0_r.
  destruct (sendFD_all_sent outs p Ha) as (outs' & -> & Ho). by eauto.
Qed.

Lemma mod_succ_add rr j n : (0 < n)%nat -> (((rr mod n + 1) mod n + j) mod n = (rr + S j) mod n)%nat.
Proof.
  intros Hn. rewrite Nat.Div0.add_mod_idemp_l.
  replace (rr mod n + 1 + j)%nat with (rr mod n + S j)%nat by lia. by rewrite Nat.Div0.add_mod_idemp_l.
Qed.

(** ** Properties *)

(** C31: the balancer is fair and fails over. Whatever connections come and however the
    sends go, the accept loop returns and dispatches: a readiness probe is answered here; a
    connection that fails or closes before its first byte is closed; any other goes to the
    first backend from the turn on that does not refuse, and the turn passes behind that
    backend; and of those only one that all the backends refuse is closed unserved, which
    leaves the turn. In particular, with backends that accept, connections that are neither
    probes nor closed at once go to the backends in rotation: the j-th one to backend
    [rr + j] modulo [n]. *)
Theorem round_robin n rr :
  (0 < n)%nat ->
  (forall conns outs, exists os, accept_loop n rr conns outs = Ok os /\
     dispatch n rr (attempts outs ++ repeat true (length conns)) conns os) /\
  (forall conns outs, all_sent outs -> Forall handed_over conns ->
     exists os, accept_loop n rr conns outs = Ok os /\ length os = length conns /\
       forall j o, os !! j = Some o -> exists m evs', o = Handed ((rr + j) mod n) m evs').
Proof.
  intros Hn. split; [intros conns outs; by apply accept_loop_dispatch|].
  intros conns. revert rr. induction conns as [|evs conns IH]; intros rr outs Ha Hc.
  { exists []. by split. }
  apply Forall_cons_iff in Hc as [Hr Hc]. cbn [accept_loop].
  destruct (accept_one_handed n rr evs outs Hn Ha Hr) as (m & evs' & outs' & -> & Ha').
  rewrite bind_Ok. destruct (IH ((rr mod n + 1) mod n)%nat outs' Ha' Hc) as (os & -> & Hl & Hos).
  rewrite bind_Ok. eexists. split; [done|]. split; [by cbn [length]; rewrite Hl|].
  intros [|j] o.
  - intros [= <-]. rewrite Nat.add_0_r. by eauto.
  - cbn [lookup list_lookup]. intros Ho. destruct (Hos j o Ho) as (m' & e' & ->).
    rewrite mod_succ_add by done. by eauto.
Qed.

(** Three connections: the first is refused by backend 1 and goes to backend 0, the second is
    a probe, the third goes to backend 1. *)
Definition example_conns : list (list event) :=
  [[Data (bytes "POST /fraud-score")]; [Data (bytes "GET /ready HTTP/1.1")]; [Again; Data (bytes "GET /x")]].

Example round_robin_witness :
  (exists os, accept_loop 2 1 example_conns [SFail; SIntr; Sent] = Ok os /\
     dispatch 2 1 [false; true; true; true; true] example_conns os) /\
  exists os, accept_loop 2 1 [[Data (bytes "POST /fraud-score")]; [Again; Again]; [Data (bytes "GET /x")]] [SIntr] = Ok os /\
    length os = 3%nat /\ forall j o, os !! j = Some o -> exists m evs', o = Handed ((1 + j) mod 2) m evs'.
Proof.
  destruct (round_robin 2 1 ltac:(lia)) as [Hd Hr]. split; [apply (Hd example_conns [SFail; SIntr; Sent])|].
  apply Hr.
  - repeat constructor; discriminate.
  - do 3 (apply List.Forall_cons; [split; [reflexivity|do 2 eexists; vm_compute; reflexivity]|]). apply List.Forall_nil.
Defined.

End Lb.
