(* ===== verification/Config.v ===== *)
(** * Configuration and start-up of the load balancer

    The environment variables the commands read ([envOr], [envInt], [mlockEnabled] of
    [cmd/api/main.go]; [envInt] and [splitTrim] of [cmd/lb/main.go]) and the first part of
    [main] of [cmd/lb/main.go], up to the connections to the workers: the list of control
    sockets, the wait for each of them and the connection. *)

From stdpp Require Import gmap.
From S2P Require Import Prelude Floats Lb.

Module Config.

Local Open Scope Z_scope.

(** ** The code *)

(** [os.Getenv]: the empty value for a variable that is not set. *)
Definition env : Type := list byte -> list byte.

Definition envOr (e : env) (k d : list byte) : list byte :=
  let v := e k in if decide (v = []) then d else v.

(** [strconv.Atoi]: an optional sign and decimal digits, in the range of an [int]. *)
Definition Atoi (s : list byte) : option Z :=
  let '(neg, ds) := take_sign s in
  match ds with
  | [] => None
  | _ =>
      if forallb is_digit ds then
        let v := dec_value ds 0 in
        let v := if neg then - v else v in
        if (- 9223372036854775808 <=? v) && (v <=? maxI64) then Some v else None
      else None
  end.

Definition envInt (e : env) (k : list byte) (d : Z) : Z :=
  let v := e k in
  if decide (v = []) then d
  else match Atoi v with None => d | Some n => n end.

Definition mlockEnabled (e : env) : bool :=
  let v := e (bytes "MLOCK") in
  if decide (v = []) then true else negb (bool_decide (v = bytes "0")).

(** [strings.Split] with a one-byte separator. *)
Fixpoint Split (s : list byte) (sep : byte) : list (list byte) :=
  match s with
  | [] => [[]]
  | c :: r =>
      if decide (c = sep) then [] :: Split r sep
      else match Split r sep with [] => [[c]] | p :: ps => (c :: p) :: ps end
  end.

Definition ascii (c : byte) : bool := bval c <? 128.
Definition ascii_space (c : byte) : bool := ((9 <=? bval c) && (bval c <=? 13)) || (bval c =? 32).

Fixpoint drop_space (s : list byte) : list byte :=
  match s with c :: r => if ascii_space c then drop_space r else s | [] => [] end.

Section Trim.
(** [strings.TrimSpace] of a text with bytes outside ASCII, which may be white space of
    Unicode. *)
Variable trim_other : list byte -> list byte.

Definition TrimSpace (s : list byte) : list byte :=
  if forallb ascii s then rev (drop_space (rev (drop_space s))) else trim_other s.

Definition splitTrim (s : list byte) (sep : byte) : list (list byte) :=
  foldl (fun out p => let p := TrimSpace p in if decide (p <> []) then out ++ [p] else out) [] (Split s sep).

(** ** The set-up of the balancer *)

Inductive fatal : Type :=
| SocketsEmpty          (* API_SOCKETS empty *)
| NoSockets             (* no API sockets *)
| WaitFailed (p : list byte)
| ConnectFailed (p : list byte)
| SocketFailed          (* socket *)
| BindFailed            (* bind *)
| ListenFailed.         (* listen *)

Record config : Type := mkConfig { port : Z; backlog : Z; acceptBatch : Z; paths : list (list byte) }.

Definition configure (e : env) : fatal + config :=
  let port := envInt e (bytes "LB_PORT") 9999 in
  let backlog := envInt e (bytes "LB_BACKLOG") 4096 in
  let acceptBatch := envInt e (bytes "LB_ACCEPT_BATCH") 128 in
  let socketsCSV := e (bytes "API_SOCKETS") in
  if decide (socketsCSV = []) then inl SocketsEmpty
  else
    let paths := splitTrim socketsCSV ","%byte in
    if (length paths =? 0)%nat then inl NoSockets
    else inr (mkConfig port backlog acceptBatch (if (Lb.maxBackends <? length paths)%nat then take Lb.maxBackends paths else paths)).
End Trim.

(** One turn of [waitForPath]: the reading of the clock (in nanoseconds) and whether the
    path exists when it is looked at. *)
Record look : Type := mkLook { now : Z; there : bool }.

(** The wait is still going on when the turns run out. *)
Fixpoint waitForPath (deadline : Z) (turns : list look) : res bool :=
  match turns with
  | [] => OutOfFuel
  | t :: turns' =>
      if now t <? deadline then if there t then Ok true else waitForPath deadline turns'
      else Ok false
  end.

(** The calls of [connectUDS]: the socket, when there is one, and whether it connects. *)
Record usock : Type := mkUsock { socket : option Z; connect : bool }.

(** The second component is the set of open descriptors. *)
Definition connectUDS (open : gset Z) (u : usock) : option Z * gset Z :=
  match socket u with
  | None => (None, open)
  | Some fd =>
      let open := {[ fd ]} ∪ open in
      if negb (connect u) then (None, open ∖ {[ fd ]}) else (Some fd, open)
  end.

(** A path with the clock when the wait for it starts, the turns of that wait, and the
    calls that connect to it. *)
Record attempt : Type := mkAttempt { start : Z; turns : list look; uds : usock }.

Definition timeout : Z := 60000000000.

Fixpoint connect_all (paths : list (list byte)) (atts : list attempt) (backendFDs : list Z) (open : gset Z)
    : res ((fatal + list Z) * gset Z) :=
  match paths, atts with
  | [], _ => Ok (inr backendFDs, open)
  | p :: paths', a :: atts' =>
      found ← waitForPath (start a + timeout) (turns a);
      if (found : bool) then
        match connectUDS open (uds a) with
        | (None, open) => Ok (inl (ConnectFailed p), open)
        | (Some fd, open) => connect_all paths' atts' (backendFDs ++ [fd]) open
        end
      else Ok (inl (WaitFailed p), open)
  | _ :: _, [] => OutOfFuel
  end.

(** ** Lists of paths *)

Lemma splitTrim_filter trim_other s sep :
  splitTrim trim_other s sep = filter (fun p => p <> []) (map (TrimSpace trim_other) (Split s sep)).
Proof.
  enough (forall out, foldl (fun out p => let p := TrimSpace trim_other p in if decide (p <> []) then out ++ [p] else out)
    out (Split s sep) = out ++ filter (fun p => p <> []) (map (TrimSpace trim_other) (Split s sep))) as H by apply (H []).
  induction (Split s sep) as [|p ps IH]; intros out; cbn [foldl map]; cbv zeta in *; [by rewrite app_nil_r|].
  rewrite IH, filter_cons. destruct (decide (TrimSpace trim_other p <> [])); [|done].
  by rewrite <-app_assoc.
Qed.

Lemma Split_one p sep : sep ∉ p -> Split p sep = [p].
Proof.
  induction p as [|c p IH]; [done|]. rewrite not_elem_of_cons. intros [Hc Hp]. cbn [Split].
  rewrite decide_False by congruence. by rewrite IH.
Qed.

Lemma Split_app p sep r : sep ∉ p -> Split (p ++ sep :: r) sep = p :: Split r sep.
Proof.
  induction p as [|c p IH]; cbn [app Split]; [by rewrite decide_True|].
  rewrite not_elem_of_cons. intros [Hc Hp]. rewrite decide_False by congruence. by rewrite IH.
Qed.

Definition spaces (s : list byte) : Prop := Forall (fun c => ascii_space c = true) s.

Lemma drop_space_app s r : spaces s -> drop_space (s ++ r) = drop_space r.
Proof. induction 1 as [|c s Hc _ IH]; [done|]. cbn [app drop_space]. by rewrite Hc. Qed.

Lemma drop_space_stop s c r : s = c :: r -> ascii_space c = false -> drop_space s = s.
Proof. intros -> Hc. cbn [drop_space]. by rewrite Hc. Qed.

(** A path as an operator writes it: not empty, plain ASCII without the separator, no
    white space at its ends. *)
Record clean (sep : byte) (p : list byte) : Prop := {
  clean_ascii : forallb ascii p = true;
  clean_sep : sep ∉ p;
  clean_head : exists c r, p = c :: r /\ ascii_space c = false;
  clean_last : exists c r, p = r ++ [c] /\ ascii_space c = false
}.

Lemma spaces_ascii s : spaces s -> forallb ascii s = true.
Proof.
  induction 1 as [|c s Hc _ IH]; [done|]. cbn [forallb]. rewrite IH.
  unfold ascii, ascii_space in *. lia.
Qed.

Lemma TrimSpace_clean trim_other sep pre p post :
  spaces pre -> spaces post -> clean sep p -> TrimSpace trim_other (pre ++ p ++ post) = p.
Proof.
  intros Hpre Hpost [Ha _ (c & r & Hp & Hc) (c' & r' & Hp' & Hc')]. unfold TrimSpace.
  rewrite !forallb_app, Ha, !spaces_ascii by done. cbn [andb].
  rewrite drop_space_app by done.
  rewrite (drop_space_stop (p ++ post) c (r ++ post)) by (done || by rewrite Hp).
  rewrite rev_app_distr, drop_space_app by by apply Forall_rev.
  rewrite (drop_space_stop _ c' (rev r')) by (done || rewrite Hp', rev_app_distr; done).
  apply rev_involutive.
Qed.

(** A list of paths, each with the white space around it, separated by [sep]. *)
Record field : Type := mkField { pre : list byte; path : list byte; post : list byte }.

Definition field_ok (sep : byte) (f : field) : Prop :=
  spaces (pre f) /\ spaces (post f) /\ clean sep (path f).

Definition field_text (f : field) : list byte := pre f ++ path f ++ post f.

Fixpoint join (sep : byte) (fs : list field) : list byte :=
  match fs with
  | [] => []
  | [f] => field_text f
  | f :: fs' => field_text f ++ sep :: join sep fs'
  end.

Lemma sep_not_in sep f : ascii_space sep = false -> field_ok sep f -> sep ∉ field_text f.
Proof.
  intros Hs (H1 & H2 & Hp). unfold field_text. rewrite !elem_of_app.
  intros [H|[H|H]]; [|by apply (clean_sep _ _ Hp)|];
    apply list_elem_of_In in H; [unfold spaces in H1; rewrite List.Forall_forall in H1; apply H1 in H|
     unfold spaces in H2; rewrite List.Forall_forall in H2; apply H2 in H]; congruence.
Qed.

Lemma Split_join sep f fs :
  ascii_space sep = false -> Forall (field_ok sep) (f :: fs) ->
  Split (join sep (f :: fs)) sep = map field_text (f :: fs).
Proof.
  intros Hs. revert f. induction fs as [|g fs IH]; intros f [Hf Hfs]%Forall_cons_iff.
  - by apply Split_one, sep_not_in.
  - change (join sep (f :: g :: fs)) with (field_text f ++ sep :: join sep (g :: fs)).
    rewrite Split_app by by apply sep_not_in. by rewrite IH.
Qed.

Lemma splitTrim_join trim_other sep fs :
  ascii_space sep = false -> Forall (field_ok sep) fs -> splitTrim trim_other (join sep fs) sep = map path fs.
Proof.
  intros Hs Hfs. rewrite splitTrim_filter. destruct fs as [|f fs]; [done|].
  rewrite Split_join by done. rewrite map_map. generalize dependent (f :: fs). clear f fs. intros fs Hfs.
  induction Hfs as [|f fs (H1 & H2 & Hp) _ IH]; [done|]. cbn [map]. unfold field_text at 1.
  rewrite (TrimSpace_clean _ sep) by done. rewrite filter_cons, decide_True; [by rewrite IH|].
  destruct (clean_head _ _ Hp) as (c & r & -> & _). done.
Qed.

(** ** Waiting *)

(** The clock between the turns of a wait: every turn after the first starts at least
    100 ms after the one before it, the [time.Sleep] between them. *)
Fixpoint ticking (t0 : Z) (turns : list look) : Prop :=
  match turns with
  | [] => True
  | t :: turns' => t0 <= now t /\ ticking (now t + 100000000) turns'
  end.

Lemma wait_ends deadline t0 ts :
  ticking t0 ts -> deadline <= t0 + 100000000 * (Z.of_nat (length ts) - 1) -> (0 < length ts)%nat ->
  exists found, waitForPath deadline ts = Ok found /\
    (found = true -> exists t, t ∈ ts /\ there t = true /\ now t < deadline).
Proof.
  revert t0. induction ts as [|t ts IH]; intros t0 Ht Hd Hl; [simpl in Hl; lia|].
  cbn [ticking waitForPath] in *. destruct Ht as [H0 Ht]. destruct (Z.ltb_spec (now t) deadline) as [Hlt|Hge].
  - destruct (there t) eqn:E; [exists true; split; [done|]; intros _; exists t; split; [left|done]|].
    destruct ts as [|t' ts]; [simpl in Hd; lia|].
    destruct (IH (now t + 100000000) Ht) as (found & Hf & Hin); [cbn [length] in *; lia|simpl; lia|].
    exists found. split; [exact Hf|]. intros Hfd. destruct (Hin Hfd) as (x & Hx & Hxs). exists x. split; [by right|done].
  - by exists false.
Qed.

(** Enough turns of every wait: the sixty seconds are over after 601 of them. *)
Definition patient (a : attempt) : Prop := ticking (start a) (turns a) /\ (601 <= length (turns a))%nat.

(** What the set-up of the backends comes to: a socket a path, all of them open, or the path
    that failed. *)
Definition connected (ps : list (list byte)) (fds : list Z) (open : gset Z) (r : (fatal + list Z) * gset Z) : Prop :=
  match r.1 with
  | inr fds' => exists new, fds' = fds ++ new /\ length new = length ps /\ r.2 = list_to_set new ∪ open
  | inl (WaitFailed p) | inl (ConnectFailed p) => p ∈ ps
  | inl _ => False
  end.

Lemma connected_cons p ps fds open fd r :
  connected ps (fds ++ [fd]) ({[ fd ]} ∪ open) r -> connected (p :: ps) fds open r.
Proof.
  unfold connected. destruct r as [[[]|fds'] open']; cbn [fst snd]; try done; [by right|by right|].
  intros (new & -> & Hl & ->). exists (fd :: new). rewrite <-app_assoc. split; [done|]. split; [simpl; lia|]. set_solver.
Qed.

Lemma connect_all_ok ps atts fds open :
  Forall patient atts -> (length ps <= length atts)%nat ->
  returns (connect_all ps atts fds open) (connected ps fds open).
Proof.
  revert atts fds open. induction ps as [|p ps IH]; intros atts fds open Ha Hl.
  { destruct atts; apply wp_ok; (exists []; split; [by rewrite app_nil_r|]; split; [done|]; cbn; set_solver). }
  destruct atts as [|a atts]; [simpl in Hl; lia|]. apply Forall_cons_iff in Ha as [[Ht Hn] Ha].
  cbn [connect_all]. destruct (wait_ends (start a + timeout) (start a) (turns a) Ht) as (found & -> & _);
    [unfold timeout; lia|lia|]. rewrite bind_Ok. destruct found; [|apply wp_ok; left].
  unfold connectUDS. destruct (socket (uds a)) as [fd|]; [|apply wp_ok; left]. cbv zeta.
  destruct (connect (uds a)); [|apply wp_ok; left].
  eapply wp_conseq; [apply IH; [done|simpl in Hl; lia]|]. intros r. apply connected_cons.
Qed.

(** ** Properties *)

(** C32: the balancer's configuration. A list of paths, however it is blank-padded around
    its commas, is read back and cut to the first eight; on any environment the balancer
    either stops or has between one and eight paths, none empty; and once it has them,
    the waits end (after at most 601 looks a path) with as many backends as paths, their
    sockets open, or with the path that failed: the rotation of the accept loop never divides by zero. *)
Theorem backends_configured trim_other :
  (forall e fs, e (bytes "API_SOCKETS") = join ","%byte fs -> fs <> [] -> Forall (field_ok ","%byte) fs ->
     exists c, configure trim_other e = inr c /\ paths c = take Lb.maxBackends (map path fs)) /\
  (forall e,
     match configure trim_other e with
     | inl SocketsEmpty => e (bytes "API_SOCKETS") = []
     | inl NoSockets => splitTrim trim_other (e (bytes "API_SOCKETS")) ","%byte = []
     | inl _ => False
     | inr c => (0 < length (paths c) <= Lb.maxBackends)%nat /\ Forall (fun p => p <> []) (paths c)
     end) /\
  (forall ps atts, Forall patient atts -> (length ps <= length atts)%nat ->
     returns (connect_all ps atts [] ∅) (fun r =>
       match r.1 with
       | inr fds => length fds = length ps /\ r.2 = list_to_set fds
       | inl (WaitFailed p) | inl (ConnectFailed p) => p ∈ ps
       | inl _ => False
       end)).
Proof.
  assert (forall l : list (list byte),
    (if (Lb.maxBackends <? length l)%nat then take Lb.maxBackends l else l) = take Lb.maxBackends l) as Ht.
  { intros l. destruct (Nat.ltb_spec Lb.maxBackends (length l)); [done|]. by rewrite take_ge. }
  split; [|split].
  - intros e fs He Hne Hfs. unfold configure. rewrite He, splitTrim_join by done. rewrite Ht.
    rewrite decide_False; [|].
    + rewrite length_map. destruct fs as [|f fs]; [done|]. by eexists.
    + intros E. apply Hne. destruct fs as [|f [|g fs]]; [done| |];
        destruct f as [a p b]; apply Forall_cons_iff in Hfs as [(_ & _ & Hp) _];
        destruct (clean_head _ _ Hp) as (c & r & Hc & _); cbn [path] in Hc; subst p;
        unfold join, field_text in E; cbn [pre path post] in E; by destruct a.
  - intros e. unfold configure. destruct (decide _) as [|Hn]; [done|].
    destruct (Nat.eqb_spec (length (splitTrim trim_other (e (bytes "API_SOCKETS")) ","%byte)) 0) as [E|E];
      [by apply nil_length_inv|]. rewrite Ht. cbn [paths]. rewrite length_take. split; [unfold Lb.maxBackends; lia|].
    apply Forall_take. rewrite splitTrim_filter. apply List.Forall_forall. intros x Hx%list_elem_of_In.
    by apply list_elem_of_filter in Hx as [Hx _].
  - intros ps atts Ha Hl. eapply wp_conseq; [by apply connect_all_ok|]. intros [[f|fds] open]; [done|].
    intros (new & -> & Hn & Ho). cbn [fst snd app] in *. split; [done|]. rewrite Ho. set_solver.
Qed.

Definition example_fields : list field :=
  [mkField [] (bytes "/run/api1.sock") []; mkField (bytes " ") (bytes "/run/api2.sock") (bytes " ")].

Example backends_configured_witness :
  exists c, configure (fun s => s) (fun k => if decide (k = bytes "API_SOCKETS") then bytes "/run/api1.sock, /run/api2.sock " else []) = inr c /\
    paths c = [bytes "/run/api1.sock"; bytes "/run/api2.sock"].
Proof.
  apply (proj1 (backends_configured (fun s => s)) _ example_fields).
  - vm_compute. reflexivity.
  - discriminate.
  - assert (forall p c r c' r', p = c :: r -> ascii_space c = false -> p = r' ++ [c'] -> ascii_space c' = false ->
      forallb ascii p = true -> ","%byte ∉ p -> clean ","%byte p) as Hc by (intros; split; eauto).
    constructor; [|constructor; [|constructor]].
    + split; [constructor|]. split; [constructor|].
      apply (Hc _ "/"%byte (bytes "run/api1.sock") "k"%byte (bytes "/run/api1.soc")); try reflexivity.
      apply (bool_decide_unpack _). vm_compute. reflexivity.
    + split; [repeat constructor|]. split; [repeat constructor|].
      apply (Hc _ "/"%byte (bytes "run/api2.sock") "k"%byte (bytes "/run/api2.soc")); try reflexivity.
      apply (bool_decide_unpack _). vm_compute. reflexivity.
Defined.

End Config.
