(* ===== verification/Pool.v ===== *)
(** * cmd/api: handlers side by side

    The handlers of [cmd/api] run as goroutines that take their buffers from one
    [sync.Pool] and give them back: [bufPool] of [cmd/api/main.go], with the [Get] and the
    deferred [Put] of [handleRawConn] and [handleConn].  The handlers are interleaved at
    the turns of their loops: a request answered, or a read.  The buffers live in a heap,
    where a handler finds its own by its address, so that two handlers that were given
    one buffer would overwrite each other's requests.  Nothing in [cmd/api] recovers from a
    panic: a handler that panics runs its deferred calls, and then the process dies with
    every other handler in it.  Until then the others may still go on.  (Panics are those of
    the program as Go defines it; the image is compiled without bounds checks.) *)

From stdpp Require Import gmap relations.
From S2P Require Import Prelude Floats Http Index Kernel Knn Server Conn.

Module Pool.
Import Http Kernel Conn.

(** ** The code *)

(** The two handlers: [handleRawConn] answers first, [handleConn] reads first. *)
Inductive kind : Type := Raw | Tcp.

Inductive phase : Type := AtDrain | AtRead.

(** A connection: not yet taken up; being served in the buffer at an address; or done, with
    what was written and how the handler ended. *)
Inductive handler : Type :=
| Waiting (k : kind) (prefix : list byte) (evs : list event) (ws : list wres)
| Running (addr : nat) (ph : phase) (pos : nat) (out : list byte) (ws : list wres) (evs : list event)
| Finished (out : list byte) (r : res unit).

(** [Free] is the content of [bufPool]; [Alive] holds until the process has died. *)
Record pool : Type := mkPool {
  Heap : gmap nat (list byte);
  Free : list nat;
  Handlers : list handler;
  Alive : bool
}.

Definition panicked (h : handler) : bool := match h with Finished _ Panic => true | _ => false end.

(** The buffer [bufPool.New] makes. *)
Definition new_buf : list byte := repeat x00 readBufSize.

Section Code.
Context `{Kernel}.
Variable unspec : float -> Z.
Variable ix : Index.Index.

(** The start of a handler on the buffer it was given: the buffer's new content. *)
Definition begin (k : kind) (prefix : list byte) (evs : list event) (ws : list wres) (addr : nat) (buf : list byte)
    : list byte * handler :=
  match k with
  | Tcp => (buf, Running addr AtRead 0 [] ws evs)
  | Raw =>
      if (0 <? length prefix)%nat then
        if (length buf <? length prefix)%nat then (buf, Finished [] (Ok tt))
        else (copy buf prefix, Running addr AtDrain (length prefix) [] ws evs)
      else (buf, Running addr AtDrain 0 [] ws evs)
  end.

(** One turn: of the inner loop, or the read. *)
Definition turn (ph : phase) (st : conn) (addr : nat) (evs : list event) : list byte * handler :=
  match ph with
  | AtDrain =>
      match answer_one unspec ix st with
      | (st, None) => (Buf st, Running addr AtDrain (Pos st) (Out st) (Ws st) evs)
      | (st, Some Continue) => (Buf st, Running addr AtRead (Pos st) (Out st) (Ws st) evs)
      | (st, Some (Stop r)) => (Buf st, Finished (Out st) r)
      end
  | AtRead =>
      match read_more st evs with
      | None => (Buf st, Finished (Out st) (Ok tt))
      | Some (st, evs') => (Buf st, Running addr AtDrain (Pos st) (Out st) (Ws st) evs')
      end
  end.

(** The deferred [Put]. *)
Definition put_back (h : handler) (addr : nat) (free : list nat) : list nat :=
  match h with Finished _ _ => addr :: free | _ => free end.

(** [r] is the buffer and the handler after a turn on the buffer at [addr]. *)
Definition after (s : pool) (i addr : nat) (free : list nat) (r : list byte * handler) : pool :=
  mkPool (<[addr := r.1]> (Heap s)) (put_back r.2 addr free) (<[i := r.2]> (Handlers s)) (Alive s).

Inductive step : pool -> pool -> Prop :=
(** [Get] finds a buffer. *)
| step_get s i k prefix evs ws addr free buf :
    Alive s = true ->
    Handlers s !! i = Some (Waiting k prefix evs ws) ->
    Free s ≡ₚ addr :: free -> Heap s !! addr = Some buf ->
    step s (after s i addr free (begin k prefix evs ws addr buf))
(** [Get] makes a new one. *)
| step_new s i k prefix evs ws addr :
    Alive s = true ->
    Handlers s !! i = Some (Waiting k prefix evs ws) -> Heap s !! addr = None ->
    step s (after s i addr (Free s) (begin k prefix evs ws addr new_buf))
(** The pool forgets a buffer. *)
| step_forget s addr free :
    Alive s = true ->
    Free s ≡ₚ addr :: free -> step s (mkPool (Heap s) free (Handlers s) (Alive s))
(** A handler goes on. *)
| step_turn s i addr ph pos out ws evs buf :
    Alive s = true ->
    Handlers s !! i = Some (Running addr ph pos out ws evs) -> Heap s !! addr = Some buf ->
    step s (after s i addr (Free s) (turn ph (mkConn buf pos out ws) addr evs))
(** A panic that no one recovers from ends the process. *)
| step_die s i h :
    Alive s = true -> Handlers s !! i = Some h -> panicked h = true ->
    step s (mkPool (Heap s) (Free s) (Handlers s) false).

End Code.

(** The connections to come, before anything was done. *)
Definition job : Type := kind * list byte * list event * list wres.
Definition waiting (j : job) : handler := let '(k, prefix, evs, ws) := j in Waiting k prefix evs ws.
Definition start (js : list job) : pool := mkPool ∅ [] (map waiting js) true.

(** ** Who holds which buffer *)

(** The buffers in use and in the pool. *)
Definition held (h : handler) : list nat := match h with Running addr _ _ _ _ _ => [addr] | _ => [] end.
Definition owners (s : pool) : list nat := Free s ++ flat_map held (Handlers s).

Record pool_ok (s : pool) : Prop := {
  pool_nodup : NoDup (owners s);
  pool_dom addr : addr ∈ owners s -> is_Some (Heap s !! addr);
  pool_size addr buf : Heap s !! addr = Some buf -> length buf = readBufSize;
  pool_dead : Alive s = false -> exists i h, Handlers s !! i = Some h /\ panicked h = true
}.

(** ** One handler *)

#[local] Opaque readBufSize.

Section Isolation.
Context `{Kernel}.
Variable unspec : float -> Z.
Variable ix : Index.Index.

(** What a handler owes its client: [prefix] with the bytes of the socket, answered as a
    server that sees them all would. *)
Definition owed (j : job) : list byte * res unit :=
  let '(k, prefix, evs, ws) := j in
  match k with
  | Raw => if (length prefix <=? readBufSize)%nat then served unspec ix readBufSize (prefix ++ stream evs) else ([], Ok tt)
  | Tcp => served unspec ix readBufSize (stream evs)
  end.

(** A handler on its own buffer is on its way to what it owes. *)
Definition on_course (heap : gmap nat (list byte)) (j : job) (h : handler) : Prop :=
  match h with
  | Waiting k prefix evs ws => j = (k, prefix, evs, ws)
  | Running addr ph pos out ws evs =>
      exists buf, heap !! addr = Some buf /\
        let st := mkConn buf pos out ws in
        conn_ok readBufSize st /\ (ph = AtRead -> ParseRequest (unread st) = Fail ErrIncomplete) /\
        (no_error j.2 -> no_error ws) /\
        owed j = (out ++ (served unspec ix readBufSize (unread st ++ stream evs)).1,
                  (served unspec ix readBufSize (unread st ++ stream evs)).2)
  | Finished out r => agrees j.2 (out, r) (owed j)
  end.

Lemma on_course_heap heap heap' j h :
  (forall addr, addr ∈ held h -> heap' !! addr = heap !! addr) -> on_course heap j h -> on_course heap' j h.
Proof.
  destruct h as [| addr |]; [done| |done]. intros Hh (buf & Hb & Hrest). exists buf.
  rewrite Hh by (by left). by split.
Qed.

Lemma begin_on_course heap k prefix evs ws addr buf :
  length buf = readBufSize ->
  let r := begin k prefix evs ws addr buf in
  length r.1 = readBufSize /\ on_course (<[addr := r.1]> heap) (k, prefix, evs, ws) r.2.
Proof.
  intros Hb.
  assert (forall buf' ph pos, length buf' = readBufSize -> (pos <= readBufSize)%nat ->
    (ph = AtRead -> pos = 0%nat) ->
    owed (k, prefix, evs, ws) = served unspec ix readBufSize (take pos buf' ++ stream evs) ->
    length buf' = readBufSize /\
    on_course (<[addr := buf']> heap) (k, prefix, evs, ws) (Running addr ph pos [] ws evs)) as Hrun.
  { intros buf' ph pos Hl Hp Hph Ho. split; [done|]. exists buf'. rewrite lookup_insert_eq. split; [done|].
    split; [by split|]. split; [|split; [done|]].
    - intros E. unfold unread. cbn [Pos Buf]. rewrite (Hph E). by rewrite take_0.
    - rewrite Ho. unfold unread. cbn [Pos Buf]. by destruct (served _ _ _ _). }
  destruct k; cbn [begin]; [|apply Hrun; [done|lia|done|by rewrite take_0]].
  unfold owed in *. destruct (Nat.ltb_spec 0 (length prefix)) as [H0|H0].
  - destruct (Nat.ltb_spec (length buf) (length prefix)) as [Hlt|Hle].
    + split; [done|]. cbn. unfold owed. replace (length prefix <=? readBufSize)%nat with false by lia. apply agrees_refl.
    + destruct (copy_prefix buf prefix Hle) as [Hc Hl]. apply (Hrun (copy buf prefix) AtDrain (length prefix)); [congruence|by rewrite <-Hb|done|].
      rewrite Hc. by replace (length prefix <=? readBufSize)%nat with true by lia.
  - apply (Hrun buf AtDrain 0%nat); [done|lia|done|]. replace (length prefix <=? readBufSize)%nat with true by lia.
    destruct prefix; [done|simpl in H0; lia].
Qed.

(** A handler on course at state [st] of its connection. *)
Definition midway (j : job) (ph : phase) (st : conn) (evs : list event) : Prop :=
  conn_ok readBufSize st /\ (ph = AtRead -> ParseRequest (unread st) = Fail ErrIncomplete) /\
  (no_error j.2 -> no_error (Ws st)) /\
  owed j = (Out st ++ (served unspec ix readBufSize (unread st ++ stream evs)).1,
            (served unspec ix readBufSize (unread st ++ stream evs)).2).

Lemma written_app (a b : list byte) (x : list byte * res unit) :
  (a ++ (b ++ x.1, x.2).1, (b ++ x.1, x.2).2) = ((a ++ b) ++ x.1, x.2).
Proof. cbn [fst snd]. by rewrite app_assoc. Qed.

Lemma midway_advance j ph ph' st st' evs o :
  midway j ph st evs -> advances unspec ix readBufSize (stream evs) st st' o ->
  (ph' = AtRead -> ParseRequest (unread st') = Fail ErrIncomplete) -> midway j ph' st' evs.
Proof.
  intros (_ & _ & Hn & Ho) [Hok Hout Hws Hs] Hph. split; [exact Hok|]. split; [exact Hph|]. split; [auto|].
  rewrite Ho, Hs, Hout. apply written_app.
Qed.

Lemma midway_read j ph st st' evs evs' :
  midway j ph st evs -> conn_ok readBufSize st' -> Out st' = Out st -> Ws st' = Ws st ->
  unread st' ++ stream evs' = unread st ++ stream evs -> midway j AtDrain st' evs'.
Proof.
  intros (_ & _ & Hn & Ho) Hok Hout Hws Hun. split; [exact Hok|]. split; [discriminate|].
  rewrite Hws, Hout, Hun. by split.
Qed.

Lemma midway_stop j ph st evs o r :
  midway j ph st evs -> agrees (Ws st) (o, r) (served unspec ix readBufSize (unread st ++ stream evs)) ->
  agrees j.2 (Out st ++ o, r) (owed j).
Proof. intros (_ & _ & Hn & Ho) Hag. rewrite Ho. exact (agrees_prefix _ _ (Out st) (o, r) _ Hn Hag). Qed.

Lemma turn_midway j ph st addr evs :
  midway j ph st evs ->
  let r := turn unspec ix ph st addr evs in
  length r.1 = readBufSize /\
  match r.2 with
  | Waiting _ _ _ _ => False
  | Running addr' ph' pos out ws evs' => addr' = addr /\ midway j ph' (mkConn r.1 pos out ws) evs'
  | Finished out r => agrees j.2 (out, r) (owed j)
  end.
Proof.
  intros Hm. pose proof (proj1 Hm) as Hok. destruct ph; cbn [turn]; cbv zeta.
  - pose proof (answer_one_ok unspec ix readBufSize st (stream evs) Hok) as H1.
    pose proof (answer_one_length unspec ix st) as Hl. rewrite (proj1 Hok) in Hl.
    destruct (answer_one unspec ix st) as [[b p o' w] [[|r]|]]; cbn [fst snd Buf Pos Out Ws] in *;
      (split; [exact Hl|]).
    + destruct H1 as (o & Ha & Hi). split; [reflexivity|]. exact (midway_advance _ _ _ _ _ _ _ Hm Ha (fun _ => Hi)).
    + destruct H1 as (o & Hout & Hag). cbn [Out] in Hout. rewrite Hout. exact (midway_stop _ _ _ _ _ _ Hm Hag).
    + destruct H1 as (o & Ha & _). split; [reflexivity|].
      refine (midway_advance _ _ _ _ _ _ _ Hm Ha _). discriminate.
  - pose proof (read_more_ok unspec ix readBufSize st evs Hok (proj1 (proj2 Hm) eq_refl)) as H1.
    destruct (read_more st evs) as [[[b p o' w] evs']|]; cbn [fst snd Buf Pos Out Ws].
    + destruct H1 as (Hok' & Hout & Hws & _ & Hun). split; [exact (proj1 Hok')|]. split; [reflexivity|].
      exact (midway_read _ _ _ _ _ _ Hm Hok' Hout Hws Hun).
    + split; [exact (proj1 Hok)|]. rewrite <-(app_nil_r (Out st)). apply (midway_stop _ _ _ _ _ _ Hm).
      rewrite H1. apply agrees_refl.
Qed.

Lemma turn_on_course heap j addr ph pos out ws evs buf :
  heap !! addr = Some buf -> on_course heap j (Running addr ph pos out ws evs) ->
  let r := turn unspec ix ph (mkConn buf pos out ws) addr evs in
  length r.1 = readBufSize /\ on_course (<[addr := r.1]> heap) j r.2.
Proof.
  intros Hb (buf' & Hb' & Hm). rewrite Hb in Hb'. injection Hb' as <-.
  pose proof (turn_midway j ph (mkConn buf pos out ws) addr evs Hm) as Ht. cbv zeta in *.
  destruct (turn unspec ix ph (mkConn buf pos out ws) addr evs) as [b h]; cbn [fst snd] in *.
  destruct Ht as [Hl Ht]. split; [exact Hl|]. destruct h as [|addr' ph' pos' out' ws' evs'|out' r']; [done| |exact Ht].
  destruct Ht as [-> Ht]. exists b. rewrite lookup_insert_eq. split; [reflexivity|exact Ht].
Qed.

(** ** All of them *)

Definition pool_on_course (js : list job) (s : pool) : Prop :=
  pool_ok s /\ Forall2 (on_course (Heap s)) js (Handlers s).

Lemma start_owners js : owners (start js) = [].
Proof. unfold owners. cbn [start Free Handlers app]. induction js as [|[[[k p] e] w] js IH]; [done|]. exact IH. Qed.

Lemma start_on_course js : pool_on_course js (start js).
Proof.
  split.
  - split; rewrite ?start_owners; [apply NoDup_nil_2|by intros ? ?%not_elem_of_nil| |].
    + intros addr buf Hb. cbn [start Heap] in Hb. by rewrite lookup_empty in Hb.
    + discriminate.
  - cbn [start Heap Handlers]. induction js as [|[[[k p] e] w] js IH]; constructor; done.
Qed.

(** The buffers the handlers other than [i] hold. *)
Definition others (hs : list handler) (i : nat) : list nat := flat_map held (delete i hs).

Lemma held_others hs i h : hs !! i = Some h -> flat_map held hs ≡ₚ held h ++ others hs i.
Proof. apply flat_map_split. Qed.

(** A handler that works on the buffer at [addr], or has given it back. *)
Definition settled (addr : nat) (h : handler) : Prop :=
  match h with Waiting _ _ _ _ => False | Running a _ _ _ _ _ => a = addr | Finished _ _ => True end.

Lemma begin_settled k prefix evs ws addr buf : settled addr (begin k prefix evs ws addr buf).2.
Proof.
  destruct k; cbn [begin]; [|done].
  by destruct (0 <? length prefix)%nat, (length buf <? length prefix)%nat.
Qed.

Lemma turn_settled ph st addr evs : settled addr (turn unspec ix ph st addr evs).2.
Proof.
  destruct ph; cbn [turn].
  - by destruct (answer_one unspec ix st) as [st' [[|r]|]].
  - by destruct (read_more st evs) as [[st' evs']|].
Qed.

Lemma after_owners s i addr free r h0 :
  Handlers s !! i = Some h0 -> settled addr r.2 ->
  owners (after s i addr free r) ≡ₚ addr :: free ++ others (Handlers s) i.
Proof.
  intros Hi Hs. pose proof (lookup_lt_Some _ _ _ Hi) as Hlt. unfold owners. cbn [after Free Handlers].
  rewrite flat_map_insert by done. fold (others (Handlers s) i).
  destruct r.2 as [|a ph pos out ws evs|out r']; [done| |]; cbn [held put_back].
  - cbn in Hs. subst a. cbn [app].
    by rewrite Permutation_middle.
  - done.
Qed.

(** A turn of one handler leaves the others on course. *)
Lemma after_on_course js s i addr free r h0 j :
  pool_on_course js s -> Alive s = true -> Handlers s !! i = Some h0 -> js !! i = Some j -> settled addr r.2 ->
  NoDup (addr :: free ++ others (Handlers s) i) ->
  (forall a, a ∈ free ++ others (Handlers s) i -> is_Some (Heap s !! a)) ->
  length r.1 = readBufSize -> on_course (<[addr := r.1]> (Heap s)) j r.2 ->
  pool_on_course js (after s i addr free r).
Proof.
  intros [Hok Hall] Hlive Hi Hj Hset Hnd Hdom Hl Hr. pose proof (after_owners s i addr free r h0 Hi Hset) as Ho.
  apply list.NoDup_cons in Hnd as [Hna Hnd]. split.
  - split.
    + rewrite Ho. by apply list.NoDup_cons.
    + intros a Ha. rewrite Ho in Ha. cbn [after Heap]. destruct (decide (a = addr)) as [->|Hne].
      * rewrite lookup_insert_eq. by eexists.
      * rewrite lookup_insert_ne by done. apply elem_of_cons in Ha as [|Ha]; [done|]. by apply Hdom.
    + intros a buf. cbn [after Heap]. destruct (decide (a = addr)) as [->|Hne].
      * rewrite lookup_insert_eq. by intros [= <-].
      * rewrite lookup_insert_ne by done. apply Hok.
    + cbn [after Alive]. congruence.
  - cbn [after Heap Handlers]. apply Forall2_same_length_lookup_2; [rewrite length_insert; by eapply Forall2_length|].
    intros k jk hk Hjk Hhk. destruct (decide (k = i)) as [->|Hne].
    + rewrite list_lookup_insert_eq in Hhk by by eapply lookup_lt_Some. simplify_eq. done.
    + rewrite list_lookup_insert_ne in Hhk by done. eapply on_course_heap; [|by eapply Forall2_lookup_lr].
      intros a Ha. apply lookup_insert_ne. intros ->. apply Hna, elem_of_app. right.
      by eapply flat_map_other.
Qed.

Lemma step_on_course js s s' : step unspec ix s s' -> pool_on_course js s -> pool_on_course js s'.
Proof.
  intros Hstep Hs. pose proof (proj1 Hs) as Hok. destruct Hok as [Hnd Hdom Hsz Hdead].
  assert (forall i h, Handlers s !! i = Some h -> exists j, js !! i = Some j /\ on_course (Heap s) j h) as Hjob.
  { intros i h Hi. destruct Hs as [_ Hall]. eapply Forall2_lookup_r in Hall as (j & Hj & Hc); [|done]. by exists j. }
  destruct Hstep as [s i k prefix evs ws addr free buf Hlive Hi Hfree Hb|s i k prefix evs ws addr Hlive Hi Hb
    |s addr free Hlive Hfree|s i addr ph pos out ws evs buf Hlive Hi Hb|s i h Hlive Hi Hpan]; unfold owners in *.
  - destruct (Hjob i _ Hi) as (j & Hj & ->). rewrite (held_others _ _ _ Hi), Hfree in Hnd. cbn [held app] in Hnd.
    destruct (begin_on_course (Heap s) k prefix evs ws addr buf (Hsz _ _ Hb)) as [Hl Hc].
    eapply after_on_course; [done..|apply begin_settled|done| |done|done].
    intros a Ha. apply Hdom. rewrite (held_others _ _ _ Hi), Hfree. by right.
  - destruct (Hjob i _ Hi) as (j & Hj & ->). rewrite (held_others _ _ _ Hi) in Hnd. cbn [held app] in Hnd.
    destruct (begin_on_course (Heap s) k prefix evs ws addr new_buf (repeat_length _ _)) as [Hl Hc].
    assert (forall a, a ∈ Free s ++ others (Handlers s) i -> is_Some (Heap s !! a)) as Hd.
    { intros a Ha. apply Hdom. by rewrite (held_others _ _ _ Hi). }
    eapply after_on_course; [done..|apply begin_settled| |done|done|done].
    apply list.NoDup_cons. split; [|done]. intros [x Hx]%Hd. by rewrite Hb in Hx.
  - destruct Hs as [_ Hall]. split; [|done]. rewrite Hfree in Hnd. cbn [app] in Hnd. apply list.NoDup_cons in Hnd as [_ Hnd].
    split; [done| |done|done]. intros a Ha. apply Hdom. rewrite Hfree. by right.
  - destruct (Hjob i _ Hi) as (j & Hj & Hc). rewrite (held_others _ _ _ Hi) in Hnd. cbn [held] in Hnd.
    destruct (turn_on_course (Heap s) j addr ph pos out ws evs buf Hb Hc) as [Hl Hc'].
    eapply after_on_course; [done..|apply turn_settled| | |done|done].
    + by rewrite Permutation_middle.
    + intros a Ha. apply Hdom. rewrite (held_others _ _ _ Hi). cbn [held app]. rewrite <-Permutation_middle. by right.
  - destruct Hs as [_ Hall]. split; [|exact Hall]. split; [done..|]. intros _. by exists i, h.
Qed.

Lemma steps_on_course js s s' : rtc (step unspec ix) s s' -> pool_on_course js s -> pool_on_course js s'.
Proof. induction 1 as [|x y z Hxy _ IH]; [done|]. intros Hx. by eapply IH, step_on_course. Qed.

(** ** Termination *)

(** What a handler has left to do. *)
Definition effort (h : handler) : nat :=
  match h with
  | Waiting _ prefix evs _ => 4 * pending evs + 2 * length prefix + 3
  | Running _ ph pos _ _ evs => 4 * pending evs + 2 * pos + match ph with AtDrain => 1 | AtRead => 0 end + 1
  | Finished _ _ => 0
  end.
Definition efforts (s : pool) : nat := sum_list_with effort (Handlers s).

Lemma recv_pending evs room :
  match recv evs room with
  | (Data d, evs') => (pending evs' + length d <= pending evs)%nat
  | (Intr, evs') => (pending evs' < pending evs)%nat
  | _ => True
  end.
Proof.
  induction evs as [|[[|b d]| | |] evs IH]; cbn [recv]; [done|cbn; lia| |unfold pending; simpl; lia| |done].
  - pose proof (take_drop room (b :: d)) as Hs. apply (f_equal length) in Hs. rewrite length_app in Hs.
    destruct (decide (drop room (b :: d) = [])) as [E|E]; unfold pending; cbn [sum_list_with cost]; [|lia].
    rewrite length_take. lia.
  - change (pending (Again :: evs)) with (S (pending evs)).
    destruct (recv evs room) as [[d| | |] evs']; [lia|lia|done|done].
Qed.

Lemma answer_one_pos st st' : answer_one unspec ix st = (st', None) -> (Pos st' < Pos st)%nat.
Proof.
  unfold answer_one. destruct (Nat.eqb_spec (Pos st) 0) as [|H0]; [done|].
  destruct (slice (Buf st) 0 (Z.of_nat (Pos st))) as [b| | |]; [|done..]. rewrite bind_Ok.
  pose proof (ParseRequest_end b) as He. destruct (ParseRequest b) as [req|e| |]; [|done..].
  destruct (Server.Respond unspec ix req) as [resp|e| |]; [|done..].
  destruct (writeAll (Ws st) resp) as [[w [|]] ws]; [|done]. unfold consume. cbn [Pos Buf Out Ws].
  destruct (Z.leb_spec (Z.of_nat (Pos st)) (End_ req)); [intros [= <-]; cbn; lia|].
  destruct (slice _ _ _) as [rest| | |]; [|done..]. intros [= <-]. cbn. lia.
Qed.

Lemma answer_one_continue st st' : answer_one unspec ix st = (st', Some Continue) -> Pos st' = Pos st.
Proof.
  unfold answer_one. destruct (Nat.eqb (Pos st) 0); [by intros [= <-]|].
  destruct (slice (Buf st) 0 (Z.of_nat (Pos st)) ≫= ParseRequest) as [req|e| |]; [|by intros [= <-]|done..].
  destruct (Server.Respond unspec ix req) as [resp|e| |]; [|done..].
  destruct (writeAll (Ws st) resp) as [[w [|]] ws]; [|done]. by destruct (consume _ _).
Qed.

Lemma turn_effort ph st addr evs :
  (effort (turn unspec ix ph st addr evs).2 < effort (Running addr ph (Pos st) (Out st) (Ws st) evs))%nat.
Proof.
  destruct ph; cbn [turn].
  - destruct (answer_one unspec ix st) as [st' [[|r]|]] eqn:E; cbn [snd effort]; [|lia|].
    + rewrite (answer_one_continue _ _ E). lia.
    + apply answer_one_pos in E. lia.
  - unfold read_more. destruct (Nat.eqb (Pos st) (length (Buf st))); [cbn; lia|].
    pose proof (recv_pending evs (length (Buf st) - Pos st)) as Hr.
    destruct (recv evs (length (Buf st) - Pos st)) as [[[|b d]| | |] evs']; cbn [snd effort Pos] in *;
      cbn [length] in *; lia.
Qed.

Lemma begin_effort k prefix evs ws addr buf :
  (effort (begin k prefix evs ws addr buf).2 < effort (Waiting k prefix evs ws))%nat.
Proof.
  destruct k; cbn [begin]; [|cbn; lia].
  destruct (Nat.ltb_spec 0 (length prefix)), (Nat.ltb_spec (length buf) (length prefix)); cbn; lia.
Qed.

Lemma after_efforts s i addr free r h0 :
  Handlers s !! i = Some h0 -> (effort r.2 < effort h0)%nat -> (efforts (after s i addr free r) < efforts s)%nat.
Proof.
  intros Hi Hlt. unfold efforts. cbn [after Handlers]. pose proof (sum_update effort _ i h0 r.2 Hi). lia.
Qed.

(** Every step lessens what is left, or the pool forgets a buffer, or the process dies. *)
Definition idle (s : pool) : nat := length (Free s) + if Alive s then 1 else 0.

Lemma step_decreases s s' : step unspec ix s s' ->
  (efforts s' < efforts s)%nat \/ (efforts s' = efforts s /\ idle s' < idle s)%nat.
Proof.
  intros Hstep. destruct Hstep as [s i k prefix evs ws addr free buf _ Hi _ _|s i k prefix evs ws addr _ Hi _
    |s addr free Hlive Hfree|s i addr ph pos out ws evs buf _ Hi _|s i h Hlive _ _].
  - left. eapply after_efforts; [done|apply begin_effort].
  - left. eapply after_efforts; [done|apply begin_effort].
  - right. split; [done|]. unfold idle. cbn [Free Alive]. rewrite Hfree. simpl. lia.
  - left. eapply after_efforts; [done|]. apply (turn_effort ph (mkConn buf pos out ws)).
  - right. split; [done|]. unfold idle. cbn [Free Alive]. rewrite Hlive. lia.
Qed.

Lemma step_wf : well_founded (fun s' s => step unspec ix s s').
Proof.
  assert (forall n m s, efforts s = n -> idle s = m -> Acc (fun s' s => step unspec ix s s') s) as Hacc.
  { induction n as [n IHn] using lt_wf_ind. induction m as [m IHm] using lt_wf_ind. intros s En Em.
    constructor. intros s' [Hlt|[Heq Hlt]]%step_decreases; [eapply IHn; [|done|done]|eapply IHm; [|congruence|done]]; lia. }
  intros s. by eapply Hacc.
Qed.

(** While the process lives, a handler that is not done can go on. *)
Lemma unfinished_steps js s :
  pool_on_course js s -> Alive s = true -> (exists i h, Handlers s !! i = Some h /\ forall o r, h <> Finished o r) ->
  exists s', step unspec ix s s'.
Proof.
  intros [_ Hall] Hlive (i & h & Hi & Hn). eapply Forall2_lookup_r in Hall as (j & _ & Hc); [|done].
  destruct h as [k prefix evs ws|addr ph pos out ws evs|o r]; [| |by destruct (Hn o r)].
  - eexists. apply (step_new unspec ix s i k prefix evs ws (fresh (dom (Heap s)))); [done..|].
    apply not_elem_of_dom, is_fresh.
  - destruct Hc as (buf & Hb & _). eexists. by eapply step_turn.
Qed.

Lemma step_alive s s' : step unspec ix s s' -> Alive s = true.
Proof. by destruct 1. Qed.

(** The pool may forget all its buffers. *)
Lemma forget_all s : Alive s = true -> rtc (step unspec ix) s (mkPool (Heap s) [] (Handlers s) true).
Proof.
  destruct s as [heap free hs alive]. cbn [Heap Handlers Alive]. intros ->. induction free as [|addr free IH]; [done|].
  eapply rtc_l; [exact (step_forget unspec ix (mkPool heap (addr :: free) hs true) addr free eq_refl (Permutation_refl _))|exact IH].
Qed.

(** When every handler has returned and the pool is empty, nothing is left to do. *)
Lemma finished_stuck heap hs s' :
  Forall (fun h => exists o, h = Finished o (Ok tt)) hs -> ~ step unspec ix (mkPool heap [] hs true) s'.
Proof.
  intros Hf Hs. rewrite Forall_lookup in Hf. remember (mkPool heap [] hs true) as s eqn:Es.
  destruct Hs as [s i k prefix evs ws addr free buf _ Hi _ _|s i k prefix evs ws addr _ Hi _
    |s addr free _ Hfree|s i addr ph pos out ws evs buf _ Hi _|s i h _ Hi Hp]; subst s; cbn [Handlers Free] in *.
  1, 2, 4: by destruct (Hf i _ Hi) as (o & ?).
  - by apply Permutation_nil_cons in Hfree.
  - by destruct (Hf i _ Hi) as (o & ->).
Qed.

(** A state with no step: the process has died of a handler's panic, or every handler has
    ended without one. *)
Lemma stuck_cases js s :
  pool_on_course js s -> (forall s', ~ step unspec ix s s') ->
  if Alive s then Forall (fun h => exists o r, h = Finished o r /\ r <> Panic) (Handlers s)
  else exists i o, Handlers s !! i = Some (Finished o Panic).
Proof.
  intros Hs Hstuck. destruct (Alive s) eqn:Hlive.
  - apply Forall_lookup. intros i h Hi. destruct h as [k prefix evs ws|addr ph pos out ws evs|o r].
    1, 2: exfalso; (destruct (unfinished_steps js s Hs Hlive) as [s' Hs']; [by eauto|by apply (Hstuck s')]).
    exists o, r. split; [done|]. intros ->. eapply Hstuck. by eapply step_die.
  - destruct (pool_dead _ (proj1 Hs) Hlive) as (i & h & Hi & Hp).
    destruct h as [| |o [| | |]]; [done..| |done]. by exists i, o.
Qed.

(** An executable schedule: handler [i] goes on, with the first buffer of the pool if it
    needs one. *)
Definition go (s : pool) (i : nat) : pool :=
  if negb (Alive s) then s
  else
    match Handlers s !! i with
    | Some (Waiting k prefix evs ws) =>
        match Free s with
        | addr :: free =>
            match Heap s !! addr with
            | Some buf => after s i addr free (begin k prefix evs ws addr buf)
            | None => s
            end
        | [] =>
            let addr := size (Heap s) in
            match Heap s !! addr with
            | Some _ => s
            | None => after s i addr (Free s) (begin k prefix evs ws addr new_buf)
            end
        end
    | Some (Running addr ph pos out ws evs) =>
        match Heap s !! addr with
        | Some buf => after s i addr (Free s) (turn unspec ix ph (mkConn buf pos out ws) addr evs)
        | None => s
        end
    | _ => s
    end.

Lemma go_steps s i : rtc (step unspec ix) s (go s i).
Proof.
  unfold go. destruct (Alive s) eqn:Hlive; cbn [negb]; [|done].
  destruct (Handlers s !! i) as [[k prefix evs ws|addr ph pos out ws evs|o r]|] eqn:Ei; [| |done..].
  - destruct (Free s) as [|addr free] eqn:Ef; cbv zeta.
    + rewrite <-Ef. destruct (Heap s !! _) eqn:Eh; [done|]. apply rtc_once. by apply step_new.
    + destruct (Heap s !! addr) as [buf|] eqn:Eh; [|done]. apply rtc_once. apply step_get; [done|done|by rewrite Ef|done].
  - destruct (Heap s !! addr) as [buf|] eqn:Eh; [|done]. apply rtc_once. by apply step_turn.
Qed.

Lemma schedule_steps idxs s : rtc (step unspec ix) s (fold_left go idxs s).
Proof.
  revert s. induction idxs as [|i idxs IH]; intros s; [done|]. cbn [fold_left]. etrans; [apply go_steps|apply IH].
Qed.

End Isolation.

(** A handler that has ended, its connection, and how it can have ended. *)
Lemma finished_job `{Kernel} unspec ix js s i o r :
  pool_on_course unspec ix js s -> Handlers s !! i = Some (Finished o r) ->
  exists j, js !! i = Some j /\ agrees j.2 (o, r) (owed unspec ix j).
Proof. intros [_ Hall] Hi. eapply Forall2_lookup_r in Hall as (j & Hj & Ha); [|exact Hi]. by exists j. Qed.

Lemma owed_ended `{KernelLaws} unspec ix j o r : agrees j.2 (o, r) (owed unspec ix j) -> ended r.
Proof.
  destruct j as [[[[|] p] evs] ws]; unfold owed; [|apply agrees_ended].
  destruct (_ <=? _)%nat; [apply agrees_ended|]. intros (_ & [[= _ E]|E] & _); left; exact E.
Qed.

Lemma agrees_panic ws spec o : agrees ws (o, Panic) spec -> spec.2 = Panic.
Proof. by intros (_ & [<- |?] & _). Qed.

#[local] Transparent readBufSize.

(** Three connections; the second starts while the first is served, the third gets the
    buffer of the one that ended first. *)
Definition example_jobs : list job :=
  [(Raw, take 7 ready, [Data (drop 7 ready ++ take 3 ready); Intr; Data (drop 3 ready)], [Wrote 5; WIntr]);
   (Tcp, [], [Data ready], []);
   (Raw, take 2 ready, [Data (drop 2 ready)], [])].
Definition example_end : pool :=
  fold_left (@go avx2 (fun _ => 0%Z) Knn.example_index)
    ([0; 1; 0; 1; 0; 1; 0; 1; 1; 2; 2; 0; 2; 0; 2; 0; 2; 0; 2; 0; 2; 0; 0; 0; 2])%nat (start example_jobs).

(** ** Properties *)

(** C6: handlers that share the pool of buffers do not disturb each other. In every state
    that any interleaving reaches, no buffer is held twice (by two handlers, or by a
    handler and the pool), and every handler that has ended has written what a server
    that sees its client's whole stream alone would have, or a prefix of it when a write
    failed: no byte of another connection or of an earlier one. *)
Theorem handlers_isolated `{Kernel} unspec ix js s :
  rtc (step unspec ix) (start js) s ->
  NoDup (owners s) /\
  forall i j o r, js !! i = Some j -> Handlers s !! i = Some (Finished o r) -> agrees j.2 (o, r) (owed unspec ix j).
Proof.
  intros Hr. apply steps_on_course with (js := js) in Hr; [|apply start_on_course]. destruct Hr as [Hok Hall].
  split; [apply Hok|]. intros i j o r Hj Hi. by pose proof (Forall2_lookup_lr _ _ _ _ _ _ Hall Hj Hi).
Qed.

Example handlers_isolated_witness :
  map (fun h => match h with Finished o _ => Some o | _ => None end) (Handlers example_end) =
    [Some (Server.ReadyResp ++ Server.ReadyResp); Some Server.ReadyResp; Some Server.ReadyResp] /\
  NoDup (owners example_end) /\
  forall i j o r, example_jobs !! i = Some j -> Handlers example_end !! i = Some (Finished o r) ->
    agrees j.2 (o, r) (@owed avx2 (fun _ => 0%Z) Knn.example_index j).
Proof.
  split; [vm_compute; reflexivity|].
  apply (@handlers_isolated avx2 (fun _ => 0%Z) Knn.example_index example_jobs). apply schedule_steps.
Defined.

(** C26: the service never hangs on its own account. Under every schedule the handlers of a
    finite set of connections come to an end: there is no infinite sequence of steps; and
    where no step is left, either the process is alive and every handler has returned, or
    the process has died of a handler's panic, and then that handler's own client sent
    what makes a server that sees its stream alone panic. *)
Theorem handlers_terminate `{KernelLaws} unspec ix js :
  well_founded (fun s' s => step unspec ix s s') /\
  forall s, rtc (step unspec ix) (start js) s -> (forall s', ~ step unspec ix s s') ->
    if Alive s then Forall (fun h => exists o, h = Finished o (Ok tt)) (Handlers s)
    else exists i j o, js !! i = Some j /\ Handlers s !! i = Some (Finished o Panic) /\ (owed unspec ix j).2 = Panic.
Proof.
  split; [apply step_wf|]. intros s Hr Hstuck.
  apply steps_on_course with (js := js) in Hr; [|apply start_on_course].
  pose proof (stuck_cases unspec ix js s Hr Hstuck) as Hc. destruct (Alive s).
  - apply Forall_lookup. intros i h Hi. destruct (proj1 (Forall_lookup _ _) Hc i h Hi) as (o & r & -> & Hn).
    destruct (finished_job unspec ix js s i o r Hr Hi) as (j & _ & Ha).
    destruct (owed_ended unspec ix j o r Ha) as [-> | ->]; [by exists o|done].
  - destruct Hc as (i & o & Hi). destruct (finished_job unspec ix js s i o Panic Hr Hi) as (j & Hj & Ha).
    exists i, j, o. split; [done|]. split; [done|]. by apply (agrees_panic _ _ _ Ha).
Qed.

(** One client sends a thirteenth month: its handler panics and the process dies while
    another connection waits. *)
Definition bad_request : list byte :=
  lines ["POST /fraud-score HTTP/1.1"; "content-length: 55"; ""]%string ++
  bytes "{" ++ Server.quote "transaction" ++ bytes ":{" ++ Server.quote "requested_at" ++ bytes ":" ++
  Server.quote "2026-13-11T20:23:35Z" ++ bytes "}}".
Definition bad_jobs : list job := [(Raw, bad_request, [], []); (Raw, [], [Data ready], [])].
Definition bad_end : pool := fold_left (@go avx2 (fun _ => 0%Z) Knn.example_index) [0; 0; 1]%nat (start bad_jobs).

Example handlers_terminate_witness :
  Forall (fun h => exists o, h = Finished o (Ok tt))
    (Handlers (mkPool (Heap example_end) [] (Handlers example_end) true)) /\
  exists i j o, bad_jobs !! i = Some j /\ Handlers bad_end !! i = Some (Finished o Panic) /\
    (@owed avx2 (fun _ => 0%Z) Knn.example_index j).2 = Panic.
Proof.
  split.
  - assert (exists o0 o1 o2, Handlers example_end = [Finished o0 (Ok tt); Finished o1 (Ok tt); Finished o2 (Ok tt)]) as Hend.
    { do 3 eexists. vm_compute. reflexivity. }
    pose proof (proj2 (@handlers_terminate avx2 avx2_laws (fun _ => 0%Z) Knn.example_index example_jobs)
      (mkPool (Heap example_end) [] (Handlers example_end) true)) as Hc. cbn [Alive] in Hc. apply Hc; clear Hc.
    + transitivity example_end; [apply schedule_steps|apply forget_all; vm_compute; reflexivity].
    + intros s'. apply finished_stuck. destruct Hend as (o0 & o1 & o2 & ->).
      repeat (constructor; [by eauto|]). constructor.
  - assert (Handlers bad_end !! 0%nat = Some (Finished [] Panic)) as Hp by (vm_compute; reflexivity).
    assert (Alive bad_end = true) as Ha by (vm_compute; reflexivity).
    pose proof (proj2 (@handlers_terminate avx2 avx2_laws (fun _ => 0%Z) Knn.example_index bad_jobs)
      (mkPool (Heap bad_end) (Free bad_end) (Handlers bad_end) false)) as Hc. cbn [Alive] in Hc. apply Hc; clear Hc.
    + etrans; [apply schedule_steps|]. apply rtc_once.
      exact (@step_die avx2 _ _ bad_end 0%nat (Finished [] Panic) Ha Hp eq_refl).
    + intros s' Hs. apply step_alive in Hs. discriminate Hs.
Defined.

End Pool.
