(* ===== verification/Ctrl.v ===== *)
(** * cmd/api: the control channel

    [recvFDWithBytes] and [ctrlLoop] of [cmd/api/ctrl_linux.go]: the messages of the load
    balancer are received into one package-level buffer and copied out of it before a
    handler is started.  The loops of several control connections share that buffer, so
    they are a step relation.  The parsing of the control message is the library's: its
    result is part of the message. *)

From stdpp Require Import relations.
From S2P Require Import Prelude Floats Http Index Kernel Knn Server Conn Lb.

Module Ctrl.
Import Http Kernel Conn.

(** ** The code *)

Definition maxPrefix : nat := Z.to_nat 16384.

Inductive errno : Type := EINTR | ECONNRESET | EBADMSG | EOTHER.

#[export] Instance errno_eq_dec : EqDecision errno.
Proof. solve_decision. Defined.

(** What the next [recvmsg] finds: a message of the sequenced-packet socket with the
    descriptors parsed from its control data ([None] when the library rejects them all,
    and for each control message that holds no descriptors), or an error. *)
Inductive incoming : Type :=
| Msg (bytes : list byte) (cmsgs : option (list (option (list Z))))
| RecvErr (e : errno).

(** The first descriptor is kept, the others are closed. *)
Definition pick (fdInt : Z) (fd : Z) : Z := if (fdInt <? 0)%Z then fd else fdInt.
Definition pick_all (fdInt : Z) (m : option (list Z)) : Z :=
  match m with None => fdInt | Some fds => fold_left pick fds fdInt end.

(** The result is the descriptor and the length of the prefix, which stays in the shared
    buffer; the second component is that buffer after the call. *)
Definition recvFDWithBytes (recvPrefixBuf : list byte) (m : incoming) : (errno + Z * nat) * list byte :=
  match m with
  | RecvErr e => (inl e, recvPrefixBuf)
  | Msg msg cmsgs =>
      let rn := Nat.min (length msg) (2 + length recvPrefixBuf) in
      let buf := copy recvPrefixBuf (drop 2 msg) in
      if (rn =? 0)%nat then (inl ECONNRESET, buf)
      else if (rn <? 2)%nat then (inl EBADMSG, buf)
      else
        let plen := Z.lor (bval (msg !!! 0%nat)) (Z.shiftl (bval (msg !!! 1%nat)) 8) in
        if ((Z.of_nat (length recvPrefixBuf) <? plen) || negb (Z.of_nat rn =? 2 + plen))%Z
        then (inl EBADMSG, buf)
        else
          match cmsgs with
          | None => (inl EOTHER, buf)
          | Some ms =>
              let fdInt := fold_left pick_all ms (-1)%Z in
              if (fdInt <? 0)%Z then (inl EBADMSG, buf) else (inr (fdInt, Z.to_nat plen), buf)
          end
  end.

(** Where a loop stands: before [recvFDWithBytes], or after it with the prefix still in
    the shared buffer, or ended. *)
Inductive pc : Type :=
| AtRecv
| AtCopy (fd : Z) (plen : nat)
| Ended.

Record ctrl_loop : Type := mkLoop { At : pc; Inbox : list incoming }.

(** [Started] lists the handlers started, each with its descriptor and its own copy of the
    prefix. *)
Record state : Type := mkState {
  RecvBuf : list byte;
  Loops : list ctrl_loop;
  Started : list (Z * list byte)
}.

(** The turn of [ctrlLoop] after a receive. *)
Definition after_recv (r : errno + Z * nat) : pc :=
  match r with
  | inl e => if decide (e = EINTR) then AtRecv else Ended
  | inr (fd, plen) => if (fd <? 0)%Z then AtRecv else AtCopy fd plen
  end.

Inductive step : state -> state -> Prop :=
| step_recv s i m inbox :
    Loops s !! i = Some (mkLoop AtRecv (m :: inbox)) ->
    step s (let '(r, buf) := recvFDWithBytes (RecvBuf s) m in
            mkState buf (<[i := mkLoop (after_recv r) inbox]> (Loops s)) (Started s))
| step_copy s i fd plen inbox :
    Loops s !! i = Some (mkLoop (AtCopy fd plen) inbox) ->
    step s (mkState (RecvBuf s) (<[i := mkLoop AtRecv inbox]> (Loops s))
                    (Started s ++ [(fd, take plen (RecvBuf s))])).

(** ** The frame *)

(** A message of the load balancer that carries one descriptor. *)
Definition handoff (c : Z * list byte) : incoming := Msg (Lb.frame c.2) (Some [Some [c.1]]).

Definition sendable (c : Z * list byte) : Prop :=
  (0 <= c.1)%Z /\ (length c.2 <= maxPrefix)%nat.

Lemma frame_plen n :
  (0 <= n < 65536)%Z ->
  Z.lor (bval (chr (u8 n))) (Z.shiftl (bval (chr (u8 (Z.shiftr n 8)))) 8) = n.
Proof.
  intros Hn. unfold u8. rewrite !bval_chr by (apply (wrapU_range 8); lia).
  unfold wrapU. apply Z.bits_inj'. intros i Hi. rewrite Z.lor_spec.
  rewrite Z.testbit_mod_pow2 by lia. destruct (Z.ltb_spec i 8).
  - rewrite Z.shiftl_spec_low by lia. by rewrite orb_false_r.
  - rewrite Z.shiftl_spec, Z.testbit_mod_pow2, Z.shiftr_spec by lia.
    replace (i - 8 + 8)%Z with i by lia. destruct (Z.ltb_spec (i - 8) 8); [done|].
    cbn [andb orb]. rewrite <-(Z.mod_small n (2 ^ 16)), Z.testbit_mod_pow2 by lia.
    by replace (i <? 16)%Z with false by lia.
Qed.

Lemma maxPrefix_value : Z.of_nat maxPrefix = 16384%Z.
Proof. reflexivity. Qed.

Lemma frame_short p : (length p <= maxPrefix)%nat ->
  Lb.frame p = [chr (u8 (Z.of_nat (length p))); chr (u8 (Z.shiftr (Z.of_nat (length p)) 8))] ++ p.
Proof.
  intros Hl. unfold Lb.frame. change Lb.maxPrefix with maxPrefix.
  by destruct (Nat.ltb_spec maxPrefix (length p)); [lia|].
Qed.

Lemma recv_handoff buf c :
  length buf = maxPrefix -> sendable c ->
  recvFDWithBytes buf (handoff c) = (inr (c.1, length c.2), copy buf c.2).
Proof.
  destruct c as [fd p]. intros Hb [Hfd Hl]. unfold handoff, recvFDWithBytes. cbn [fst snd] in *.
  rewrite frame_short by done. cbv zeta. cbn [app length drop lookup_total list_lookup_total].
  pose proof maxPrefix_value.
  rewrite frame_plen by lia.
  replace (Nat.min (S (S (length p))) (2 + length buf)) with (S (S (length p))) by lia.
  replace (Z.of_nat (length buf) <? Z.of_nat (length p))%Z with false by lia.
  replace (Z.of_nat (S (S (length p))) =? 2 + Z.of_nat (length p))%Z with true by lia.
  cbn [Nat.eqb Nat.ltb Nat.leb orb negb fold_left pick_all pick Z.ltb Z.compare].
  replace (fd <? 0)%Z with false by lia. by rewrite Nat2Z.id.
Qed.

(** A message is accepted only if it is a frame. *)
Lemma recv_accepts buf msg cmsgs fd plen buf' :
  length buf = maxPrefix -> (length msg <= 2 + maxPrefix)%nat ->
  recvFDWithBytes buf (Msg msg cmsgs) = (inr (fd, plen), buf') ->
  (0 <= fd)%Z /\ (plen <= maxPrefix)%nat /\ msg = Lb.frame (take plen buf').
Proof.
  intros Hb Hm. unfold recvFDWithBytes. cbv zeta.
  destruct (Nat.eqb_spec (Nat.min (length msg) (2 + length buf)) 0); [done|].
  destruct (Nat.ltb_spec (Nat.min (length msg) (2 + length buf)) 2) as [|H2]; [done|].
  destruct msg as [|b0 [|b1 p]]; [simpl in *; lia..|].
  cbn [lookup_total list_lookup_total drop]. cbn [length] in *.
  set (plen' := Z.lor _ _). destruct (orb _ _) eqn:E; [done|].
  apply orb_false_iff in E as [E1 E2]. destruct cmsgs as [ms|]; [|done].
  set (f := fold_left pick_all ms (-1)%Z). destruct (Z.ltb_spec f 0); [done|].
  intros [= <- <- <-].
  assert (plen' = Z.of_nat (length p)) as Hp by lia. rewrite Hp, Nat2Z.id, drop_0.
  split; [done|]. split; [lia|]. destruct (copy_prefix buf p) as [-> _]; [lia|].
  rewrite frame_short by lia. rewrite <-Hp. unfold plen'.
  pose proof (bval_range b0). pose proof (bval_range b1).
  set (w := Z.lor (bval b0) (Z.shiftl (bval b1) 8)).
  assert (u8 w = bval b0) as ->.
  { unfold u8, wrapU, w. apply Z.bits_inj'. intros i Hi.
    rewrite Z.testbit_mod_pow2, Z.lor_spec by lia. destruct (Z.ltb_spec i 8).
    - by rewrite Z.shiftl_spec_low, orb_false_r by lia.
    - rewrite <-(Z.mod_small (bval b0) (2 ^ 8)), Z.testbit_mod_pow2 by lia.
      by replace (i <? 8)%Z with false by lia. }
  assert (Z.shiftr w 8 = bval b1) as ->.
  { unfold w. apply Z.bits_inj'. intros i Hi. rewrite Z.shiftr_spec, Z.lor_spec by lia.
    rewrite <-(Z.mod_small (bval b0) (2 ^ 8)), Z.testbit_mod_pow2 by lia.
    replace (i + 8 <? 8)%Z with false by lia. rewrite Z.shiftl_spec by lia. cbn [andb orb]. f_equal. lia. }
  unfold u8. rewrite wrapU_id by done. by rewrite !chr_bval.
Qed.

(** ** One loop *)

Definition start (buf : list byte) (boxes : list (list incoming)) : state :=
  mkState buf (map (mkLoop AtRecv) boxes) [].

(** With one control connection: what was started, what is being copied and what is still
    to be received are, in order, what was sent. *)
Definition delivering (sent : list (Z * list byte)) (s : state) : Prop :=
  length (RecvBuf s) = maxPrefix /\
  exists l rest, Loops s = [l] /\ Inbox l = map handoff rest /\
  match At l with
  | AtRecv => sent = Started s ++ rest
  | AtCopy fd plen => sent = Started s ++ (fd, take plen (RecvBuf s)) :: rest
  | Ended => False
  end.

Lemma delivering_start buf sent :
  length buf = maxPrefix -> delivering sent (start buf [map handoff sent]).
Proof. intros Hb. split; [done|]. by exists (mkLoop AtRecv (map handoff sent)), sent. Qed.

Lemma delivering_step sent s s' :
  Forall sendable sent -> delivering sent s -> step s s' -> delivering sent s'.
Proof.
  intros Hs (Hb & l & rest & Hl & Hin & Hat) Hstep.
  destruct Hstep as [s i m inbox Hi|s i fd plen inbox Hi]; rewrite Hl in Hi;
    destruct i as [|i]; try done; injection Hi as ->; cbn [At Inbox] in *.
  - destruct rest as [|[fd p] rest]; [done|]. injection Hin as -> ->.
    assert (sendable (fd, p)) as Hc.
    { subst sent. apply list.Forall_app in Hs as [_ Hs]. by apply Forall_cons_iff in Hs as [Hs _]. }
    rewrite (recv_handoff _ _ Hb Hc). destruct Hc as [Hfd Hlen]. cbn [fst snd] in *.
    destruct (copy_prefix (RecvBuf s) p) as [Hc Hlc]; [lia|].
    split; [cbn; lia|]. eexists _, rest. rewrite Hl. split; [done|]. split; [done|].
    cbn [At after_recv RecvBuf Started]. replace (fd <? 0)%Z with false by lia. by rewrite Hc.
  - split; [done|]. eexists _, rest. rewrite Hl. split; [done|]. split; [done|].
    cbn [At Started]. by rewrite <-app_assoc.
Qed.

(** The steps left. *)
Definition work (l : ctrl_loop) : nat :=
  2 * length (Inbox l) + match At l with AtCopy _ _ => 1 | _ => 0 end.
Definition remaining (s : state) : nat := sum_list_with work (Loops s).

Lemma step_remaining s s' : step s s' -> (remaining s' < remaining s)%nat.
Proof.
  unfold remaining. destruct 1 as [s i m box Hi|s i fd plen box Hi].
  - destruct (recvFDWithBytes (RecvBuf s) m) as [r buf]. cbn [Loops].
    pose proof (sum_update work _ i _ (mkLoop (after_recv r) box) Hi) as Hu. unfold work in Hu at 2 4. cbn [Inbox At length] in Hu.
    destruct (after_recv r); lia.
  - cbn [Loops]. pose proof (sum_update work _ i _ (mkLoop AtRecv box) Hi) as Hu. unfold work in Hu at 2 4. cbn [Inbox At] in Hu. lia.
Qed.

Lemma delivering_progress sent s :
  Forall sendable sent -> delivering sent s ->
  Started s = sent \/ exists s', step s s' /\ (remaining s' < remaining s)%nat.
Proof.
  intros Hs (Hb & [pc inbox] & rest & Hl & Hin & Hat). cbn [At Inbox] in *.
  destruct pc as [|fd plen|]; [|right|done].
  - destruct rest as [|c rest]; [left; by rewrite Hat, app_nil_r|right]. subst inbox.
    assert (sendable c) as Hc.
    { subst sent. apply list.Forall_app in Hs as [_ Hs]. by apply Forall_cons_iff in Hs as [Hs _]. }
    eexists. split; [apply (step_recv s 0 (handoff c) (map handoff rest)); by rewrite Hl|].
    rewrite (recv_handoff _ _ Hb Hc). unfold remaining. cbn [Loops]. rewrite Hl.
    destruct c as [fd p], Hc as [Hfd _]. cbn in *.
    replace (fd <? 0)%Z with false by lia. lia.
  - eexists. split; [apply (step_copy s 0 fd plen inbox); by rewrite Hl|].
    unfold remaining. cbn [Loops]. rewrite Hl. cbn. lia.
Qed.

Lemma delivering_steps sent s s' :
  Forall sendable sent -> rtc step s s' -> delivering sent s -> delivering sent s'.
Proof. intros Hs. induction 1; eauto using delivering_step. Qed.

Lemma delivering_prefix sent s : delivering sent s -> Started s `prefix_of` sent.
Proof.
  intros (_ & [[] inbox] & rest & _ & _ & Hat); cbn [At] in Hat; try done; subst sent; by apply prefix_app_r.
Qed.

Lemma delivering_done sent s :
  Forall sendable sent -> delivering sent s -> exists s', rtc step s s' /\ Started s' = sent.
Proof.
  intros Hs. remember (remaining s) as n eqn:En. revert s En.
  induction n as [n IH] using lt_wf_ind. intros s -> Hd.
  destruct (delivering_progress sent s Hs Hd) as [Hdone|(s' & Hstep & Hlt)]; [by exists s|].
  destruct (IH _ Hlt s' eq_refl) as (s'' & Hsteps & Hend); [by eapply delivering_step|].
  exists s''. split; [by eapply rtc_l|done].
Qed.

Lemma handoff_ok `{Kernel} unspec ix n rr evs outs i msg evs' rr' outs' fd recvbuf buf ws :
  Lb.accept_one n rr evs outs = Ok (Lb.Handed i msg evs', rr', outs') ->
  (0 <= fd)%Z -> length recvbuf = maxPrefix -> length buf = readBufSize -> no_error ws ->
  exists prefix,
    prefix ++ stream evs' = stream evs /\
    recvFDWithBytes recvbuf (Msg msg (Some [Some [fd]])) = (inr (fd, length prefix), copy recvbuf prefix) /\
    take (length prefix) (copy recvbuf prefix) = prefix /\
    handleRawConn unspec ix buf prefix evs' ws =
      (if (length prefix <=? readBufSize)%nat then served unspec ix readBufSize (stream evs) else ([], Ok tt)).
Proof.
  unfold Lb.accept_one. pose proof (Lb.handleReadyPeek_stream evs) as Hpk.
  destruct (Lb.handleReadyPeek evs) as [[] evs1]; [done|]. cbn [snd] in Hpk. rewrite <-Hpk.
  destruct (Lb.readReadyPrefix_ok evs1) as ([p|] & e & -> & Hp); rewrite bind_Ok; [|done].
  destruct Hp as [Hs Hl].
  destruct (Lb.try_backends (seq 0 n) n rr p outs) as [[[i' m]|] o] eqn:E; [|done].
  intros [= <- <- <- <- <-] Hfd Hrb Hb Hws.
  apply Lb.try_backends_sent in E as [-> _]. exists p.
  split; [done|]. split; [by apply (recv_handoff recvbuf (fd, p))|].
  split; [apply copy_prefix; change Lb.maxPrefix with maxPrefix in Hl; lia|].
  destruct (Nat.leb_spec (length p) readBufSize).
  - destruct (handlers_ok unspec ix buf p e ws) as (_ & _ & Heq); [lia|]. rewrite Heq by done.
    by rewrite Hs, Hb.
  - unfold handleRawConn. rewrite Hb.
    destruct (Nat.ltb_spec 0 (length p)); [|lia]. by destruct (Nat.ltb_spec readBufSize (length p)); [|lia].
Qed.

(** ** Properties *)

(** C27: with one control connection, as deployed, the shared receive buffer is safe: at every
    moment the handlers started are, in order and each with exactly the bytes that were
    sent with its descriptor, the first of the connections handed over; and from every
    reachable state the loop can go on until all of them are started. *)
Theorem single_loop_delivers buf sent s :
  length buf = maxPrefix -> Forall sendable sent ->
  rtc step (start buf [map handoff sent]) s ->
  Started s `prefix_of` sent /\ exists s', rtc step s s' /\ Started s' = sent.
Proof.
  intros Hb Hs Hsteps.
  pose proof (delivering_steps sent _ _ Hs Hsteps (delivering_start buf sent Hb)) as Hd.
  split; [by apply delivering_prefix|by apply delivering_done].
Qed.

Definition example_buf : list byte := repeat x00 maxPrefix.

Example single_loop_delivers_witness :
  Started (start example_buf [map handoff [(7%Z, bytes "GET /x"); (8%Z, [])]]) `prefix_of` [(7%Z, bytes "GET /x"); (8%Z, [])] /\
  exists s', rtc step (start example_buf [map handoff [(7%Z, bytes "GET /x"); (8%Z, [])]]) s' /\
    Started s' = [(7%Z, bytes "GET /x"); (8%Z, [])].
Proof.
  apply (single_loop_delivers example_buf); [apply repeat_length| |apply rtc_refl].
  repeat apply List.Forall_cons; try apply List.Forall_nil;
    (split; [cbn; lia|apply Nat.leb_le; vm_compute; reflexivity]).
Defined.

(** The receive buffer is not per goroutine: with two control connections a handler can
    be started with the bytes of another client's connection. *)
Theorem shared_buffer_crosses buf a b :
  length buf = maxPrefix -> sendable (4%Z, a) -> sendable (5%Z, b) -> length a = length b ->
  exists s, rtc step (start buf [[handoff (4%Z, a)]; [handoff (5%Z, b)]]) s /\
    Started s = [(4%Z, b); (5%Z, b)].
Proof.
  intros Hb Ha Hb' Hab. pose proof (proj2 Ha) as Hla. pose proof (proj2 Hb') as Hlb. cbn [snd] in *.
  destruct (copy_prefix buf a) as [_ Hca]; [lia|].
  destruct (copy_prefix (copy buf a) b) as [Hcb _]; [lia|].
  set (buf2 := copy (copy buf a) b) in *.
  eexists. split.
  - eapply rtc_l.
    { apply (step_recv _ 0 (handoff (4%Z, a)) []). reflexivity. }
    cbn [start RecvBuf]. rewrite recv_handoff by done. cbn [fst snd].
    eapply rtc_l.
    { apply (step_recv _ 1 (handoff (5%Z, b)) []). reflexivity. }
    cbn [RecvBuf]. rewrite recv_handoff by (done || lia). cbn [fst snd]. fold buf2.
    eapply rtc_l.
    { apply (step_copy _ 0 4%Z (length a) []). reflexivity. }
    eapply rtc_l.
    { apply (step_copy _ 1 5%Z (length b) []). reflexivity. }
    apply rtc_refl.
  - cbn [Started RecvBuf app]. by rewrite Hab, Hcb.
Qed.

Example shared_buffer_crosses_witness :
  exists s, rtc step (start example_buf [[handoff (4%Z, bytes "POST /a")]; [handoff (5%Z, bytes "POST /b")]]) s /\
    Started s = [(4%Z, bytes "POST /b"); (5%Z, bytes "POST /b")].
Proof.
  apply shared_buffer_crosses; [apply repeat_length| | |reflexivity];
    (split; [cbn; lia|apply Nat.leb_le; vm_compute; reflexivity]).
Defined.

(** The frame is a round trip and the receiver accepts nothing else: the prefix of every
    connection the balancer sends is received with its descriptor, and every message the
    receiver accepts is a frame whose payload is the prefix it returns. *)
Theorem recv_frame buf :
  length buf = maxPrefix ->
  (forall c, sendable c ->
     exists buf', recvFDWithBytes buf (handoff c) = (inr (c.1, length c.2), buf') /\
       take (length c.2) buf' = c.2 /\ length buf' = maxPrefix) /\
  (forall msg cmsgs fd plen buf', (length msg <= 2 + maxPrefix)%nat ->
     recvFDWithBytes buf (Msg msg cmsgs) = (inr (fd, plen), buf') ->
     (0 <= fd)%Z /\ (plen <= maxPrefix)%nat /\ msg = Lb.frame (take plen buf')).
Proof.
  intros Hb. split.
  - intros c Hc. exists (copy buf c.2). split; [by apply recv_handoff|].
    destruct (copy_prefix buf c.2) as [-> ->]; [destruct Hc; lia|done].
  - intros msg cmsgs fd plen buf' Hm. by apply recv_accepts.
Qed.

Example recv_frame_witness :
  exists buf', recvFDWithBytes example_buf (handoff (7%Z, bytes "GET /x")) = (inr (7%Z, 6), buf') /\
    take 6 buf' = bytes "GET /x" /\ length buf' = maxPrefix.
Proof.
  apply (proj1 (recv_frame example_buf (repeat_length _ _)) (7%Z, bytes "GET /x")).
  split; [cbn; lia|apply Nat.leb_le; vm_compute; reflexivity].
Defined.

(** The hand-over from the balancer to the worker is transparent for what fits the
    worker's buffer. For a connection the balancer hands over, the worker receives the
    descriptor with the drained bytes, these and the bytes left in the socket are the
    client's stream, and the handler answers as a server that sees the whole stream; but
    when more than [readBufSize] bytes were drained the handler returns at once, without
    a byte of an answer. *)
Theorem handoff_serves `{Kernel} unspec ix n rr evs outs i msg evs' rr' outs' fd recvbuf buf ws :
  Lb.accept_one n rr evs outs = Ok (Lb.Handed i msg evs', rr', outs') ->
  (0 <= fd)%Z -> length recvbuf = maxPrefix -> length buf = readBufSize -> no_error ws ->
  exists prefix,
    prefix ++ stream evs' = stream evs /\
    recvFDWithBytes recvbuf (Msg msg (Some [Some [fd]])) = (inr (fd, length prefix), copy recvbuf prefix) /\
    take (length prefix) (copy recvbuf prefix) = prefix /\
    handleRawConn unspec ix buf prefix evs' ws =
      (if (length prefix <=? readBufSize)%nat then served unspec ix readBufSize (stream evs) else ([], Ok tt)).
Proof. apply handoff_ok. Qed.

(** A request that arrives in two pieces, the second after the balancer has looked. *)
Definition example_evs : list event :=
  [Data (bytes "GET /x HT"); Again; Data (lines ["TP/1.1"; ""]%string)].

Example handoff_serves_witness :
  exists prefix,
    prefix ++ stream [Data (lines ["TP/1.1"; ""]%string)] = stream example_evs /\
    recvFDWithBytes example_buf (Msg (Lb.frame (bytes "GET /x HT")) (Some [Some [7%Z]])) =
      (inr (7%Z, length prefix), copy example_buf prefix) /\
    take (length prefix) (copy example_buf prefix) = prefix /\
    @handleRawConn avx2 (fun _ => 0%Z) Knn.example_index Conn.example_buf prefix
        [Data (lines ["TP/1.1"; ""]%string)] [WIntr] =
      (if (length prefix <=? readBufSize)%nat
       then @served avx2 (fun _ => 0%Z) Knn.example_index readBufSize (stream example_evs) else ([], Ok tt)).
Proof.
  apply (@handoff_serves avx2 (fun _ => 0%Z) Knn.example_index 2 1 example_evs [Lb.SIntr] 1
    (Lb.frame (bytes "GET /x HT")) [Data (lines ["TP/1.1"; ""]%string)] 0 [] 7%Z).
  - vm_compute. reflexivity.
  - lia.
  - apply repeat_length.
  - apply repeat_length.
  - repeat constructor; discriminate.
Defined.

End Ctrl.
