(* ===== verification/Worker.v ===== *)
(** * cmd/api: the worker process and its descriptors

    [runCtrl] and [runTCP] up to the accept loops, and the life of every file descriptor
    of the process: the listener, the control connections of [ctrlLoop], and the client
    connections that [recvFDWithBytes] receives (closing the ones in excess) and
    [handleConnFD] serves, or that [runTCP] accepts.  The goroutines are interleaved; the
    kernel picks the numbers of new descriptors among the free ones. *)

From stdpp Require Import gmap relations.
From S2P Require Import Prelude Floats Http Conn Lb Ctrl.

Module Worker.
Import Conn Ctrl.

Local Open Scope Z_scope.

(** ** The code *)

Inductive fatal : Type :=
| CtrlSocket        (* ctrl socket *)
| CtrlBind          (* ctrl bind *)
| CtrlListen        (* ctrl listen *)
| TcpListen.        (* listen *)

(** The calls that set up the control socket: the descriptor, and whether the others
    succeed. *)
Record calls : Type := mkCalls { socket : option Z; bind : bool; listen : bool }.

Definition runCtrl (sys : calls) : fatal + Z :=
  match socket sys with
  | None => inl CtrlSocket
  | Some fd =>
      if negb (bind sys) then inl CtrlBind
      else if negb (listen sys) then inl CtrlListen
      else inr fd
  end.

Definition runTCP (ln : option Z) : fatal + Z := match ln with None => inl TcpListen | Some fd => inr fd end.

(** The loop of [recvFDWithBytes] over the descriptors, with the ones it closes. *)
Definition sweep_one (st : Z * list Z) (fd : Z) : Z * list Z :=
  let '(fdInt, closed) := st in if fdInt <? 0 then (fd, closed) else (fdInt, closed ++ [fd]).
Definition sweep_msg (st : Z * list Z) (m : option (list Z)) : Z * list Z :=
  match m with None => st | Some fds => fold_left sweep_one fds st end.
Definition sweep (cmsgs : list (option (list Z))) : Z * list Z := fold_left sweep_msg cmsgs (-1, []).

(** The descriptors a message brings into the process, and those [recvFDWithBytes] closes:
    none before its loop, and none when the loop finds no descriptor. *)
Definition installed (m : incoming) : list Z :=
  match m with Msg _ (Some ms) => concat (map (default []) ms) | _ => [] end.
Definition closes (r : errno + Z * nat) (m : incoming) : list Z :=
  match r, m with
  | inr _, Msg _ (Some ms) => (sweep ms).2
  | _, _ => []
  end.

(** The process.  [Lost] are the descriptors that nothing in the process refers to any more
    though they are open. *)
Record worker : Type := mkWorker {
  Tcp : bool;
  Listener : Z;
  Open : gset Z;
  RecvBuf : list byte;
  Loops : list (Z * pc);
  Handlers : list (Z * list byte);
  Lost : list Z
}.

Definition start (tcp : bool) (ln : Z) (buf : list byte) : worker := mkWorker tcp ln {[ ln ]} buf [] [] [].

(** The end of [main]: the control socket when one is configured, else TCP.  An error is the
    fatal exit. *)
Definition launch (tcp : bool) (sys : calls) (ln : option Z) (buf : list byte) : fatal + worker :=
  match (if tcp then runTCP ln else runCtrl sys) with
  | inl e => inl e
  | inr fd => inr (start tcp fd buf)
  end.

(** [runCtrl] accepts a control connection and starts its loop; an accept that fails changes
    nothing. *)
Definition accept_ctrl (s : worker) (cfd : Z) : worker :=
  mkWorker (Tcp s) (Listener s) ({[ cfd ]} ∪ Open s) (RecvBuf s) (Loops s ++ [(cfd, AtRecv)]) (Handlers s) (Lost s).

(** [runTCP] accepts a connection and starts its handler. *)
Definition accept_tcp (s : worker) (fd : Z) : worker :=
  mkWorker (Tcp s) (Listener s) ({[ fd ]} ∪ Open s) (RecvBuf s) (Loops s) (Handlers s ++ [(fd, [])]) (Lost s).

(** A turn of [ctrlLoop] up to the result of [recvFDWithBytes]; when the loop ends it closes
    its connection. *)
Definition receive (s : worker) (i : nat) (cfd : Z) (m : incoming) : worker :=
  let '(r, buf) := recvFDWithBytes (RecvBuf s) m in
  let opened := list_to_set (installed m) ∪ Open s in
  let next := after_recv r in
  mkWorker (Tcp s) (Listener s)
    (opened ∖ list_to_set (closes r m ++ match next with Ended => [cfd] | _ => [] end))
    buf (<[i := (cfd, next)]> (Loops s)) (Handlers s)
    (match r with inl _ => Lost s ++ installed m | inr _ => Lost s end).

(** The rest of the turn: the prefix is copied and the handler started. *)
Definition copy_out (s : worker) (i : nat) (cfd fd : Z) (plen : nat) : worker :=
  mkWorker (Tcp s) (Listener s) (Open s) (RecvBuf s) (<[i := (cfd, AtRecv)]> (Loops s))
    (Handlers s ++ [(fd, take plen (RecvBuf s))]) (Lost s).

(** A handler returns and closes its connection. *)
Definition finish (s : worker) (j : nat) (fd : Z) : worker :=
  mkWorker (Tcp s) (Listener s) (Open s ∖ {[ fd ]}) (RecvBuf s) (Loops s) (delete j (Handlers s)) (Lost s).

Section Steps.
(** The messages the control connections may bring. *)
Variable may_send : incoming -> Prop.

(** New descriptors have numbers that are not in use. *)
Definition unused (s : worker) (fd : Z) : Prop := 0 <= fd /\ fd ∉ Open s.

Inductive step : worker -> worker -> Prop :=
| step_ctrl s cfd : Tcp s = false -> unused s cfd -> step s (accept_ctrl s cfd)
| step_tcp s fd : Tcp s = true -> unused s fd -> step s (accept_tcp s fd)
| step_recv s i cfd m :
    Loops s !! i = Some (cfd, AtRecv) -> may_send m -> NoDup (installed m) -> Forall (unused s) (installed m) ->
    step s (receive s i cfd m)
| step_copy s i cfd fd plen :
    Loops s !! i = Some (cfd, AtCopy fd plen) -> step s (copy_out s i cfd fd plen)
| step_done s j fd prefix :
    Handlers s !! j = Some (fd, prefix) -> step s (finish s j fd).

End Steps.

(** ** Owners *)

(** The descriptors a loop refers to. *)
Definition loop_fds (l : Z * pc) : list Z :=
  match l.2 with AtRecv => [l.1] | AtCopy fd _ => [l.1; fd] | Ended => [] end.

Definition owned (s : worker) : list Z :=
  Listener s :: flat_map loop_fds (Loops s) ++ map fst (Handlers s) ++ Lost s.

Record worker_ok (s : worker) : Prop := {
  ok_nodup : NoDup (owned s);
  ok_open fd : fd ∈ Open s <-> fd ∈ owned s
}.

(** The sweep keeps the first descriptor and closes the others. *)
Lemma sweep_one_spec fds kept closed :
  0 <= kept -> fold_left sweep_one fds (kept, closed) = (kept, closed ++ fds).
Proof.
  intros Hk. revert closed. induction fds as [|fd fds IH]; intros closed; [by rewrite app_nil_r|].
  cbn [fold_left sweep_one]. replace (kept <? 0) with false by lia. by rewrite IH, <-app_assoc.
Qed.

Lemma sweep_first fds : Forall (fun fd => 0 <= fd) fds ->
  fold_left sweep_one fds (-1, []) = match fds with [] => (-1, []) | fd :: fds' => (fd, fds') end.
Proof. destruct 1 as [|fd fds Hfd _]; [done|]. cbn [fold_left sweep_one Z.ltb Z.compare]. by rewrite sweep_one_spec. Qed.

Lemma sweep_concat ms st :
  fold_left sweep_msg ms st = fold_left sweep_one (concat (map (default []) ms)) st.
Proof.
  revert st. induction ms as [|[fds|] ms IH]; intros st; [done| |exact (IH st)].
  cbn [fold_left sweep_msg map concat default from_option id]. rewrite fold_left_app. apply IH.
Qed.

Lemma sweep_spec ms : Forall (fun fd => 0 <= fd) (concat (map (default []) ms)) ->
  sweep ms = match concat (map (default []) ms) with [] => (-1, []) | fd :: fds => (fd, fds) end.
Proof. intros Hf. unfold sweep. rewrite sweep_concat. by apply sweep_first. Qed.

(** [sweep] keeps what the result of [recvFDWithBytes] is. *)
Lemma sweep_pick ms : (sweep ms).1 = fold_left pick_all ms (-1).
Proof.
  unfold sweep. generalize (-1) (@nil Z). induction ms as [|[fds|] ms IH]; intros k cl; [done| |apply IH].
  cbn [fold_left sweep_msg pick_all].
  assert (exists cl', fold_left sweep_one fds (k, cl) = (fold_left pick fds k, cl')) as (cl' & ->); [|apply IH].
  revert k cl. induction fds as [|fd fds IHf]; intros k cl; [by exists cl|].
  cbn [fold_left sweep_one]. unfold pick at 2. destruct (k <? 0); apply IHf.
Qed.

(** What an accepted message brings: the descriptor of the result, and the ones closed. *)
Lemma recv_installed buf m fd plen buf' :
  Forall (fun fd => 0 <= fd) (installed m) ->
  recvFDWithBytes buf m = (inr (fd, plen), buf') -> installed m = fd :: closes (inr (fd, plen)) m /\ 0 <= fd.
Proof.
  intros Hf. destruct m as [msg [ms|]|e]; cbn [recvFDWithBytes installed closes] in *; [| |done].
  - destruct (_ =? 0)%nat; [done|]. destruct (_ <? 2)%nat; [done|]. cbv zeta. destruct (_ || _); [done|].
    rewrite <-sweep_pick, sweep_spec by done.
    destruct (concat (map (default []) ms)) as [|fd0 fds]; [done|]. cbn [fst snd].
    destruct (Z.ltb_spec fd0 0); [done|]. by intros [= <- _ _].
  - destruct (_ =? 0)%nat; [done|]. destruct (_ <? 2)%nat; [done|]. cbv zeta. by destruct (_ || _).
Qed.

(** ** The invariant *)

Lemma start_ok tcp ln buf : worker_ok (start tcp ln buf).
Proof. split; [apply NoDup_singleton|]. intros fd. cbn. set_solver. Qed.

(** New descriptors are taken in, closed ones are given up. *)
Lemma ok_change s s' fresh gone kept :
  worker_ok s -> owned s ≡ₚ gone ++ kept -> owned s' ≡ₚ fresh ++ kept ->
  NoDup fresh -> Forall (fun fd => fd ∉ Open s) fresh ->
  (forall fd, fd ∈ Open s' <-> (fd ∈ fresh \/ fd ∈ Open s) /\ fd ∉ gone) -> worker_ok s'.
Proof.
  intros [Hnd Hop] Hs Hs' Hf Hfresh Hop'. rewrite Hs in Hnd. apply list.NoDup_app in Hnd as (Hg & Hgk & Hk).
  assert (forall fd, fd ∈ fresh -> fd ∉ gone ++ kept) as Hdis.
  { intros fd Hfd. rewrite <-Hs, <-Hop. rewrite List.Forall_forall in Hfresh. by apply Hfresh, list_elem_of_In. }
  split.
  - rewrite Hs'. apply list.NoDup_app. split; [done|]. split; [|done]. intros fd Hfd Hfk.
    apply (Hdis fd Hfd), elem_of_app. by right.
  - intros fd. rewrite Hop', Hop, Hs, Hs', !elem_of_app. specialize (Hdis fd). specialize (Hgk fd).
    rewrite elem_of_app in Hdis. naive_solver.
Qed.

Lemma done_owned (hs : list (Z * list byte)) j fd prefix :
  hs !! j = Some (fd, prefix) -> map fst hs ≡ₚ fd :: map fst (delete j hs).
Proof. intros Hj. by rewrite (delete_Permutation hs j _ Hj) at 1. Qed.

Lemma receive_ok s i cfd m :
  Loops s !! i = Some (cfd, AtRecv) -> NoDup (installed m) -> Forall (unused s) (installed m) -> worker_ok s ->
  worker_ok (receive s i cfd m).
Proof.
  intros Hi Hnd Hf Hok. pose proof (lookup_lt_Some _ _ _ Hi) as Hlt.
  assert (owned s ≡ₚ cfd :: Listener s :: flat_map loop_fds (delete i (Loops s)) ++ map fst (Handlers s) ++ Lost s) as Ho.
  { unfold owned. rewrite (flat_map_split loop_fds _ _ _ Hi). cbn. solve_Permutation. }
  assert (Forall (fun fd => fd ∉ Open s) (installed m)) as Hnew by (eapply Forall_impl; [|exact Hf]; by intros ? []).
  unfold receive. destruct (recvFDWithBytes (RecvBuf s) m) as [[e|[fd plen]] buf] eqn:E; cbv zeta.
  - change (closes (inl e) m) with (@nil Z). cbn [after_recv app]. destruct (decide (e = EINTR)).
    + apply (ok_change s _ (installed m) [] (owned s)); [done|done| |done|done|set_solver].
      rewrite Ho. unfold owned. cbn [Loops Handlers Listener Lost]. rewrite flat_map_insert by done. cbn. solve_Permutation.
    + apply (ok_change s _ (installed m) [cfd] (Listener s :: flat_map loop_fds (delete i (Loops s)) ++ map fst (Handlers s) ++ Lost s));
        [done|by rewrite Ho| |done|done|set_solver].
      unfold owned. cbn [Loops Handlers Listener Lost]. rewrite flat_map_insert by done. cbn. solve_Permutation.
  - destruct (recv_installed (RecvBuf s) m fd plen buf) as [Hin Hfd]; [|done|].
    { eapply Forall_impl; [|exact Hf]; by intros ? []. }
    unfold after_recv. replace (fd <? 0) with false by lia. rewrite app_nil_r. set (cl := closes _ m) in *.
    rewrite Hin in Hnd, Hnew |- *. apply list.NoDup_cons in Hnd as [Hncl _]. apply Forall_cons_iff in Hnew as [Hnfd Hncls].
    rewrite List.Forall_forall in Hncls.
    assert (forall x, x ∈ cl -> x ∉ Open s) as Hcl by (intros x Hx; by apply Hncls, list_elem_of_In).
    apply (ok_change s _ [fd] [] (owned s)); [done|done| |apply NoDup_singleton|by constructor|].
    + rewrite Ho. unfold owned. cbn [Loops Handlers Listener Lost]. rewrite flat_map_insert by done. cbn. solve_Permutation.
    + intros x. cbn [Open]. specialize (Hcl x). set_solver.
Qed.

Lemma step_ok (may_send : incoming -> Prop) s s' : step may_send s s' -> worker_ok s -> worker_ok s'.
Proof.
  intros Hstep Hok. destruct Hstep as [s fd Ht [_ Hfd]|s fd Ht [_ Hfd]|s i cfd m Hi _ Hnd Hf|s i cfd fd plen Hi|s j fd prefix Hj].
  - apply (ok_change s _ [fd] [] (owned s)); [done|done| |apply NoDup_singleton|by constructor|set_solver].
    unfold owned. cbn. rewrite flat_map_app. cbn. solve_Permutation.
  - apply (ok_change s _ [fd] [] (owned s)); [done|done| |apply NoDup_singleton|by constructor|set_solver].
    unfold owned. cbn. rewrite map_app. cbn. solve_Permutation.
  - by apply receive_ok.
  - apply (ok_change s _ [] [] (owned s)); [done|done| |apply NoDup_nil_2|constructor|set_solver].
    unfold owned, copy_out. cbn [Loops Handlers Listener Lost]. rewrite (flat_map_split loop_fds _ _ _ Hi).
    rewrite flat_map_insert by by eapply lookup_lt_Some. rewrite map_app. cbn. solve_Permutation.
  - apply (ok_change s _ [] [fd] (Listener s :: flat_map loop_fds (Loops s) ++ map fst (delete j (Handlers s)) ++ Lost s));
      [done| |done|apply NoDup_nil_2|constructor|set_solver].
    unfold owned. rewrite (done_owned _ _ _ _ Hj). solve_Permutation.
Qed.

(** ** Frames only *)

(** What the load balancer sends on a control connection: a frame with one descriptor, or
    the call is interrupted. *)
Definition framed (m : incoming) : Prop := m = RecvErr EINTR \/ exists c, sendable c /\ m = handoff c.

Definition intact (s : worker) : Prop :=
  length (RecvBuf s) = maxPrefix /\ Lost s = [] /\ Forall (fun l => l.2 <> Ended) (Loops s).

Lemma intact_step s s' : step framed s s' -> intact s -> intact s'.
Proof.
  intros Hstep (Hb & Hl & Hp). destruct Hstep as [| |s i cfd m Hi Hm Hnd Hf|s i cfd fd plen Hi|].
  - split; [done|]. split; [done|]. apply list.Forall_app. split; [done|]. by repeat constructor.
  - done.
  - destruct Hm as [->|(c & Hc & ->)].
    + cbn. split; [done|]. split; [by rewrite Hl|]. by apply Forall_insert.
    + unfold receive. rewrite recv_handoff by done. unfold after_recv. destruct Hc as [Hc Hlen].
      rewrite (proj2 (Z.ltb_ge _ _) Hc). unfold intact. cbn [RecvBuf Lost Loops].
      split; [by rewrite (proj2 (copy_prefix (RecvBuf s) c.2 ltac:(lia)))|]. split; [done|]. by apply Forall_insert.
  - split; [done|]. split; [done|]. by apply Forall_insert.
  - done.
Qed.

Lemma steps_intact s s' : rtc (step framed) s s' -> intact s -> intact s'.
Proof. induction 1; eauto using intact_step. Qed.

Lemma steps_ok (may_send : incoming -> Prop) s s' : rtc (step may_send) s s' -> worker_ok s -> worker_ok s'.
Proof. induction 1; eauto using step_ok. Qed.

(** A control connection on descriptor 4 brings the connection 5, which is being served;
    then a refused message brings the descriptor 6 and ends the loop. *)
Definition example_buf : list byte := repeat x00 maxPrefix.
Definition example_malformed : incoming := Msg [x05; x00; x61] (Some [Some [6]]).

Lemma example_served (may_send : incoming -> Prop) :
  may_send (handoff (5, bytes "GET /x")) ->
  exists s, rtc (step may_send) (start false 3 example_buf) s /\
    Handlers s = [(5, bytes "GET /x")] /\ Loops s = [(4, AtRecv)] /\ Lost s = [] /\
    RecvBuf s = copy example_buf (bytes "GET /x") /\ 6 ∉ Open s.
Proof.
  intros Hm. eexists. split.
  - eapply rtc_l; [apply (step_ctrl _ _ 4); [done|split; [done|cbn; set_solver]]|].
    eapply rtc_l; [apply (step_recv _ _ 0 4 (handoff (5, bytes "GET /x"))); [done|done|apply NoDup_singleton|]|].
    { apply Forall_singleton. split; [done|]. cbn [Open start]. set_solver. }
    unfold receive. change (RecvBuf (accept_ctrl _ _)) with example_buf.
    rewrite recv_handoff; [|apply repeat_length|split; [done|apply Nat.leb_le; vm_compute; reflexivity]].
    apply rtc_once. by apply (step_copy _ _ 0 4 5 6).
  - vm_compute. by repeat split.
Qed.

(** [recvFDWithBytes] returns on a refused message before it looks at the descriptors, which
    stay open, and [ctrlLoop] then closes its connection. *)
Theorem refused_message_leaks : exists s,
  rtc (step (fun _ => True)) (start false 3 example_buf) s /\
  Handlers s = [(5, bytes "GET /x")] /\ Loops s = [(4, Ended)] /\ Lost s = [6].
Proof.
  destruct (example_served (fun _ => True) I) as (s & Hr & Hh & Hl & Hlost & Hb & H6).
  eexists. split.
  - eapply rtc_r; [exact Hr|]. apply (step_recv _ _ 0 4 example_malformed); [by rewrite Hl|done|apply NoDup_singleton|].
    by apply Forall_singleton.
  - unfold receive. rewrite Hb. cbn [Handlers Loops Lost]. rewrite Hh, Hl, Hlost. by vm_compute.
Qed.

(** ** Properties *)

(** C9: every descriptor of the process has one owner. In every state that the accept loop,
    the control loops and the handlers reach, whatever the control connections bring, the
    open descriptors are exactly the owned ones and no two owners share one, so each close
    is of an open descriptor and of nobody else's connection. When the control connections
    bring only frames of the load balancer, no descriptor is lost and no control loop ends. *)
Theorem descriptors_owned (may_send : incoming -> Prop) tcp sys ln buf s0 s :
  launch tcp sys ln buf = inr s0 -> rtc (step may_send) s0 s ->
  (NoDup (owned s) /\ forall fd, fd ∈ Open s <-> fd ∈ owned s) /\
  ((forall m, may_send m -> framed m) -> length buf = maxPrefix ->
   Lost s = [] /\ Forall (fun l => l.2 <> Ended) (Loops s)).
Proof.
  intros Hs Hr. assert (exists fd, s0 = start tcp fd buf) as [fd ->].
  { unfold launch in Hs. destruct (if tcp then _ else _); [done|]. injection Hs as <-. eauto. }
  split; [by destruct (steps_ok _ _ _ Hr (start_ok _ _ _))|]. intros Hms Hb.
  assert (rtc (step framed) (start tcp fd buf) s) as Hf.
  { eapply rtc_subrel; [|exact Hr]. intros ?? []; by econstructor; eauto. }
  apply (steps_intact _ _ Hf). split; [done|]. by split.
Qed.

Example descriptors_owned_witness : exists s,
  Handlers s = [(5, bytes "GET /x")] /\
  (NoDup (owned s) /\ forall fd, fd ∈ Open s <-> fd ∈ owned s) /\
  Lost s = [] /\ Forall (fun l => l.2 <> Ended) (Loops s).
Proof.
  destruct (example_served framed) as (s & Hr & Hh & _).
  { right. eexists. split; [|done]. split; [done|]. apply Nat.leb_le. by vm_compute. }
  exists s. split; [done|]. destruct (descriptors_owned framed false (mkCalls (Some 3) true true) None example_buf _ s eq_refl Hr) as [Hown Hframes].
  split; [done|]. apply Hframes; [done|apply repeat_length].
Defined.

End Worker.
