(* ===== verification/Balancer.v ===== *)
(** * cmd/lb: the balancer process

    [main] of [cmd/lb/main.go] from the environment to the accept loop: the configuration
    and the connections of [Config], the listening socket with the short-lived epoll
    descriptor, and the accept loop of [Lb] again, now with the descriptors it opens and the
    three places where it closes a connection ([accept_turn_one] relates the two).  The
    balancer has one goroutine, so its calls come in the order of the code. *)

From stdpp Require Import gmap.
From S2P Require Import Prelude Floats Conn Lb Config.

Module Balancer.
Import Conn Lb Config.

(** ** The code *)

(** The calls that set up the listener: its socket, whether [bind] and [listen] succeed, and
    the epoll descriptor when there is one. *)
Record lsock : Type := mkLsock { lsocket : option Z; lbind : bool; llisten : bool; epoll : option Z }.

Definition listen_on (open : gset Z) (l : lsock) : (fatal + Z) * gset Z :=
  match lsocket l with
  | None => (inl SocketFailed, open)
  | Some lfd =>
      let open := {[ lfd ]} ∪ open in
      if negb (lbind l) then (inl BindFailed, open)
      else if negb (llisten l) then (inl ListenFailed, open)
      else (inr lfd, match epoll l with None => open | Some epfd => ({[ epfd ]} ∪ open) ∖ {[ epfd ]} end)
  end.

(** What [accept4] returns: an error, or a connection. *)
Inductive arrival : Type :=
| AcceptErr
| Accepted (cfd : Z) (evs : list event).

(** The accept loop's variables and what became of the connections so far. *)
Record state : Type := mkState { rr : nat; Sends : list sres; Open : gset Z; Out : list outcome }.

(** [unix.Close(cfd)], and what became of a connection. *)
Definition close (cfd : Z) (s : state) : state := mkState (rr s) (Sends s) (Open s ∖ {[ cfd ]}) (Out s).
Definition note (o : outcome) (s : state) : state := mkState (rr s) (Sends s) (Open s) (Out s ++ [o]).

(** One turn of the accept loop.  The connection is closed on each way out: after the
    answer to a probe, after a failed drain, and after the backends were tried. *)
Definition accept_turn (n : nat) (s : state) (a : arrival) : res state :=
  match a with
  | AcceptErr => Ok s
  | Accepted cfd evs =>
      let s := mkState (rr s) (Sends s) ({[ cfd ]} ∪ Open s) (Out s) in
      let '(probe, evs) := handleReadyPeek evs in
      if (probe : bool) then Ok (close cfd (note (ReadyAnswered readyResponse) s))
      else
        r ← readReadyPrefix evs;
        match r with
        | (None, _) => Ok (close cfd (note Dropped s))
        | (Some prefix, evs) =>
            let '(sent, outs) := try_backends (seq 0 n) n (rr s) prefix (Sends s) in
            let s :=
              match sent with
              | Some (i, m) => note (Handed i m evs) (mkState ((i + 1) mod n) outs (Open s) (Out s))
              | None => note Unsent (mkState (rr s) outs (Open s) (Out s))
              end in
            Ok (close cfd s)
        end
  end.

(** [main]; the accept loop runs on the arrivals given. *)
Definition main (trim_other : list byte -> list byte) (e : env) (atts : list attempt) (l : lsock)
    (arrivals : list arrival) (outs : list sres) : res (fatal + list Z * Z * state) :=
  match configure trim_other e with
  | inl f => Ok (inl f)
  | inr c =>
      r ← connect_all (paths c) atts [] ∅;
      match r with
      | (inl f, _) => Ok (inl f)
      | (inr backendFDs, open) =>
          match listen_on open l with
          | (inl f, _) => Ok (inl f)
          | (inr lfd, open) =>
              s ← foldM (accept_turn (length backendFDs)) (mkState 0 outs open []) arrivals;
              Ok (inr (backendFDs, lfd, s))
          end
      end
  end.

(** ** One connection *)

(** A handed connection goes to a backend there is, in a frame that holds the bytes missing
    from the socket. *)
Definition passed_on (n : nat) (evs : list event) (o : outcome) : Prop :=
  match o with
  | ReadyAnswered resp => (handleReadyPeek evs).1 = true /\ resp = readyResponse
  | Handed i m evs' =>
      (i < n)%nat /\ exists p, m = frame p /\ (length p <= maxPrefix)%nat /\ p ++ stream evs' = stream evs
  | Dropped | Unsent => (handleReadyPeek evs).1 = false
  end.

Lemma accept_one_ok n rr evs outs :
  (0 < n)%nat -> returns (accept_one n rr evs outs) (fun r => passed_on n evs r.1.1).
Proof.
  intros Hn. unfold accept_one, passed_on. pose proof (handleReadyPeek_stream evs) as Hpk.
  destruct (handleReadyPeek evs) as [[] evs1]; cbn [fst snd] in *; [by apply wp_ok|].
  destruct (readReadyPrefix_ok evs1) as (r & evs' & -> & Hr). rewrite bind_Ok.
  destruct r as [p|]; [|by apply wp_ok]. destruct Hr as [Hs Hl]. rewrite Hpk in Hs.
  destruct (try_backends _ _ _ _ _) as [[[i m]|] outs'] eqn:E; [|by apply wp_ok].
  apply try_backends_sent in E as (-> & k & _ & ->). apply wp_ok. split; [apply Nat.mod_upper_bound; lia|by exists p].
Qed.

(** A turn is a turn of [Lb.accept_one], with the descriptor opened and closed again. *)
Lemma accept_turn_one n s cfd evs :
  accept_turn n s (Accepted cfd evs) =
  ('(o, rr', outs') ← accept_one n (rr s) evs (Sends s);
   Ok (mkState rr' outs' (({[ cfd ]} ∪ Open s) ∖ {[ cfd ]}) (Out s ++ [o]))).
Proof.
  unfold accept_turn, accept_one. cbv zeta. destruct (handleReadyPeek evs) as [[] evs1]; [done|].
  destruct (readReadyPrefix evs1) as [[[p|] evs2]| | |]; [|done..]. rewrite !bind_Ok. cbn [rr Sends].
  by destruct (try_backends _ _ _ _ _) as [[[i m]|] outs'].
Qed.

(** The connections among the arrivals. *)
Definition accepted (arrivals : list arrival) : list (list event) :=
  omap (fun a => match a with AcceptErr => None | Accepted _ evs => Some evs end) arrivals.

(** The numbers of the accepted connections are new. *)
Definition apart (base : gset Z) (a : arrival) : Prop :=
  match a with AcceptErr => True | Accepted cfd _ => cfd ∉ base end.

#[export] Instance apart_dec base a : Decision (apart base a).
Proof. destruct a; apply _. Defined.

(** ** The loop *)

Definition looped (n : nat) (s : state) (arrivals : list arrival) (s' : state) : Prop :=
  exists os, accept_loop n (rr s) (accepted arrivals) (Sends s) = Ok os /\ Out s' = Out s ++ os /\
    Forall2 (passed_on n) (accepted arrivals) os /\
    (Forall (apart (Open s)) arrivals -> Open s' = Open s).

Lemma accept_turns n arrivals s :
  (0 < n)%nat -> returns (foldM (accept_turn n) s arrivals) (looped n s arrivals).
Proof.
  intros Hn. revert s. induction arrivals as [|[|cfd evs] arrivals IH]; intros s.
  - apply wp_ok. exists []. cbn. rewrite app_nil_r. by repeat constructor.
  - cbn [foldM accept_turn]. rewrite bind_Ok. eapply wp_conseq; [apply IH|].
    intros s' (os & Hos & Ho & Hp & Hopen). exists os. repeat split; try done. intros [_ Ha]%Forall_cons_iff. by apply Hopen.
  - cbn [foldM]. rewrite accept_turn_one.
    destruct (proj1 (returns_inv _ _) (accept_one_ok n (rr s) evs (Sends s) Hn)) as ([[o rr'] outs'] & E & Hpo).
    rewrite E, !bind_Ok. eapply wp_conseq; [apply IH|]. intros s' (os & Hos & Ho & Hp & Hopen).
    cbn [Open Out rr Sends fst] in *. exists (o :: os). change (accepted (_ :: arrivals)) with (evs :: accepted arrivals).
    cbn [accept_loop]. rewrite E, bind_Ok, Hos, bind_Ok. split; [done|]. split; [by rewrite Ho, <-app_assoc|].
    split; [by constructor|]. intros [Hc Ha]%Forall_cons_iff. cbn [apart] in Hc.
    assert (({[cfd]} ∪ Open s) ∖ {[cfd]} = Open s) as Hsame by set_solver. rewrite Hsame in Hopen. by apply Hopen.
Qed.

(** ** The process *)

(** The kernel gives new numbers to the descriptors that come and go. *)
Definition fresh_numbers (base : gset Z) (l : lsock) (arrivals : list arrival) : Prop :=
  (forall epfd, epoll l = Some epfd -> epfd ∉ base) /\ Forall (apart base) arrivals.

Lemma listen_on_ok open l :
  match listen_on open l with
  | (inl f, _) => f = SocketFailed \/ f = BindFailed \/ f = ListenFailed
  | (inr lfd, open') => (forall epfd, epoll l = Some epfd -> epfd ∉ {[ lfd ]} ∪ open) -> open' = {[ lfd ]} ∪ open
  end.
Proof.
  unfold listen_on. destruct (lsocket l) as [lfd|]; [|by left]. cbv zeta.
  destruct (lbind l); [|by right; left]. destruct (llisten l); [|by right; right]. cbn [negb].
  destruct (epoll l) as [epfd|]; [|done]. intros Hf. specialize (Hf epfd eq_refl). set_solver.
Qed.

Lemma configured_paths trim_other e c :
  configure trim_other e = inr c -> (0 < length (paths c) <= maxBackends)%nat.
Proof.
  unfold configure. destruct (decide _); [done|]. destruct (Nat.eqb_spec (length (splitTrim trim_other (e (bytes "API_SOCKETS")) ","%byte)) 0); [done|].
  intros [= <-]. cbn [paths]. destruct (Nat.ltb_spec maxBackends (length (splitTrim trim_other (e (bytes "API_SOCKETS")) ","%byte))); [|lia].
  rewrite length_take. unfold maxBackends in *. lia.
Qed.

(** The clock of a wait that looks every 100 ms and finds the path at once. *)
Definition steady (fd : Z) : attempt :=
  mkAttempt 0 (map (fun i => mkLook (Z.of_nat i * 100000000) true) (seq 0 601)) (mkUsock (Some fd) true).

Lemma steady_patient fd : patient (steady fd).
Proof.
  split; [|cbn [turns steady]; rewrite length_map, length_seq; lia]. cbn [start turns steady].
  assert (forall n i, ticking (Z.of_nat i * 100000000) (map (fun i => mkLook (Z.of_nat i * 100000000) true) (seq i n))) as Ht.
  { induction n as [|n IH]; intros i; [done|]. cbn [seq map ticking now]. split; [lia|].
    replace (Z.of_nat i * 100000000 + 100000000)%Z with (Z.of_nat (S i) * 100000000)%Z by lia. apply IH. }
  apply (Ht 601%nat 0%nat).
Qed.

Lemma steady_all fds : Forall patient (map steady fds).
Proof. induction fds; [constructor|]. constructor; [apply steady_patient|done]. Qed.

Definition example_env : env := fun k => if decide (k = bytes "API_SOCKETS") then bytes "/run/api1.sock,/run/api2.sock" else [].
Definition example_sock : lsock := mkLsock (Some 5%Z) true true (Some 6%Z).
Definition example_arrivals : list arrival :=
  [Accepted 6 [Data (bytes "POST /fraud-score")]; AcceptErr; Accepted 6 [Data (bytes "GET /ready HTTP/1.1")];
   Accepted 6 [Fault]; Accepted 6 [Again; Data (bytes "POST")]].

Definition example_atts : list attempt := map steady [3; 4; 3; 4; 3; 4; 3; 4]%Z.

Lemma example_main : exists s,
  main (fun s => s) example_env example_atts example_sock example_arrivals [SFail] = Ok (inr ([3; 4]%Z, 5%Z, s)) /\
  Out s = [Handed 1 (frame (bytes "POST /fraud-score")) []; ReadyAnswered readyResponse; Dropped;
           Handed 0 (frame (bytes "POST")) []].
Proof. eexists. split; vm_compute; reflexivity. Qed.

(** ** Properties *)

(** C8: the balancer from its start to any point of its loop. Its set-up ends, with a fatal
    error or with one to eight backends and the listener. From then on the connections
    accepted are dispatched as [Lb.dispatch] says, from backend 0 on: a probe is answered, a
    connection that fails or closes before its first byte is closed, any other goes to the
    first backend from the turn on that does not refuse, which passes the turn to the one
    behind it, and is closed unserved only when all refuse. What is passed on goes to an
    existing backend with no byte of the stream lost; and after any number of connections
    the open descriptors are the backends' and the listener: a connection is closed here on
    each of the three ways out of the loop's turn. *)
Theorem balancer_runs trim_other e atts l arrivals outs :
  Forall patient atts -> (maxBackends <= length atts)%nat ->
  returns (main trim_other e atts l arrivals outs) (fun r =>
    match r with
    | inl _ => True
    | inr (backendFDs, lfd, s) =>
        let base := {[ lfd ]} ∪ list_to_set backendFDs in
        (0 < length backendFDs <= maxBackends)%nat /\
        accept_loop (length backendFDs) 0 (accepted arrivals) outs = Ok (Out s) /\
        dispatch (length backendFDs) 0 (attempts outs ++ repeat true (length (accepted arrivals))) (accepted arrivals) (Out s) /\
        Forall2 (passed_on (length backendFDs)) (accepted arrivals) (Out s) /\
        (fresh_numbers base l arrivals -> Open s = base)
    end).
Proof.
  intros Ha Hl. unfold main. destruct (configure trim_other e) as [f|c] eqn:Hc; [by apply wp_ok|].
  apply configured_paths in Hc. wp_bind. eapply wp_conseq; [apply connect_all_ok; [done|lia]|].
  intros [[f|fds] open] Hcon; [by apply wp_ok|]. destruct Hcon as (new & -> & Hn & Hopen). cbn [app fst snd] in *.
  pose proof (listen_on_ok open l) as Hlis. destruct (listen_on open l) as [[f|lfd] open']; [by apply wp_ok|].
  wp_bind. eapply wp_conseq; [apply accept_turns; lia|]. intros s (os & Hos & Ho & Hp & Hsame). apply wp_ok.
  cbn [rr Sends Out Open app] in *. subst os. split; [lia|]. split; [done|]. split.
  { destruct (accept_loop_dispatch (length new) 0 (accepted arrivals) outs _ (le_n _)) as (os & E & Hd). congruence. }
  split; [done|].
  replace (list_to_set new ∪ ∅) with (list_to_set new : gset Z) in Hopen by set_solver. subst open.
  intros [He Hap]. rewrite (Hlis He) in Hsame. by apply Hsame.
Qed.

Example balancer_runs_witness : exists s,
  main (fun s => s) example_env example_atts example_sock example_arrivals [SFail] = Ok (inr ([3; 4]%Z, 5%Z, s)) /\
  Out s = [Handed 1 (frame (bytes "POST /fraud-score")) []; ReadyAnswered readyResponse; Dropped;
           Handed 0 (frame (bytes "POST")) []] /\
  Open s = {[ 5; 3; 4 ]}%Z.
Proof.
  destruct example_main as (s & Hs & Ho). exists s. split; [done|]. split; [done|].
  destruct (proj1 (returns_inv _ _) (balancer_runs (fun s => s) example_env example_atts example_sock example_arrivals [SFail]
    (steady_all _) ltac:(apply Nat.leb_le; reflexivity))) as (r & Hr & Hok).
  rewrite Hs in Hr. injection Hr as <-. destruct Hok as (_ & _ & _ & _ & ->).
  2: split; [intros epfd [= <-]|]; apply (bool_decide_eq_true_1 _); vm_compute; reflexivity.
  apply (bool_decide_eq_true_1 _). vm_compute. reflexivity.
Defined.

End Balancer.
