(* ===== verification/Layout.v ===== *)
(** * cmd/buildindex: laying out the index

    The middle of [main] of [cmd/buildindex/main.go], from the assignment of every vector
    to a cluster to the arrays of the index file: counts, block offsets, member lists in
    order of distance, the blocks of eight interleaved vectors with their labels, the
    bounding boxes and the blocks of centroids.  [sort.Slice] is an interface; [K] is a
    parameter, 4096 in the program. *)

From Stdlib Require Import Sorted.
From S2P Require Import Prelude Floats Index Kernel Quantize.

Module Layout.
Import Kernel.

Local Open Scope Z_scope.

(** ** The sort *)

(** [sort.Slice]: it permutes the slice, and sorts it when [less] is a strict weak order.
    It is not stable, so nothing is said of equal elements. *)
Class SliceSort : Type := {
  sort_slice : forall {A : Type}, (A -> A -> bool) -> list A -> list A;
  sort_slice_perm {A} (less : A -> A -> bool) l : sort_slice less l ≡ₚ l;
  sort_slice_sorted {A} (less : A -> A -> bool) l :
    (forall x y, In x l -> In y l -> less x y = true -> less y x = false) ->
    (forall x y z, In x l -> In y l -> In z l -> less y x = false -> less z y = false -> less z x = false) ->
    StronglySorted (fun x y => less y x = false) (sort_slice less l)
}.

(** The contract can be met: insertion sort does. *)
Fixpoint insert_by {A} (less : A -> A -> bool) (x : A) (l : list A) : list A :=
  match l with
  | [] => [x]
  | y :: l' => if less x y then x :: l else y :: insert_by less x l'
  end.
Definition insertion_sort {A} (less : A -> A -> bool) (l : list A) : list A := foldr (insert_by less) [] l.

Lemma insert_by_perm {A} (less : A -> A -> bool) x l : insert_by less x l ≡ₚ x :: l.
Proof.
  induction l as [|y l IH]; [done|]. simpl. destruct (less x y); [done|]. rewrite IH. apply Permutation_swap.
Qed.

Lemma insertion_sort_perm {A} (less : A -> A -> bool) l : insertion_sort less l ≡ₚ l.
Proof. induction l as [|x l IH]; [done|]. simpl. by rewrite insert_by_perm, IH. Qed.

Lemma insertion_sort_sorted {A} (less : A -> A -> bool) l :
  (forall x y, In x l -> In y l -> less x y = true -> less y x = false) ->
  (forall x y z, In x l -> In y l -> In z l -> less y x = false -> less z y = false -> less z x = false) ->
  StronglySorted (fun x y => less y x = false) (insertion_sort less l).
Proof.
  induction l as [|x l IH]; intros Hasym Htrans; [constructor|]. simpl.
  assert (StronglySorted (fun x y => less y x = false) (insertion_sort less l)) as Hs.
  { apply IH; [intros a b Ha Hb; apply Hasym; by right|intros a b c Ha Hb Hc; apply Htrans; by right]. }
  assert (forall y, In y (insertion_sort less l) -> In y l) as Hin
    by (intros y Hy; by rewrite <-(insertion_sort_perm less l)).
  clear IH. induction Hs as [|y s Hs IHs Hy]; simpl; [by repeat constructor|].
  pose proof (Hin y ltac:(by left)) as Hyl.
  destruct (less x y) eqn:E.
  - constructor; [by constructor|]. constructor; [apply Hasym; [by left|by right|done]|].
    rewrite List.Forall_forall in Hy |- *. intros z Hz.
    apply (Htrans x y z); [by left|by right|right; apply Hin; by right| |by apply Hy].
    apply Hasym; [by left|by right|done].
  - constructor; [apply IHs; intros z Hz; apply Hin; by right|].
    rewrite List.Forall_forall in Hy |- *. intros z Hz. rewrite insert_by_perm in Hz.
    destruct Hz as [<-|Hz]; [done|by apply Hy].
Qed.

Definition InsertionSort : SliceSort := {|
  sort_slice := @insertion_sort; sort_slice_perm := @insertion_sort_perm;
  sort_slice_sorted := @insertion_sort_sorted |}.

(** ** The code *)

Definition DIMS : nat := 14.

Abbreviation vector := (list float).   (* [DIMS]float32 *)

#[export] Instance float_inhabited : Inhabited float := populate (S754_zero false).

Definition inf32 : float := S754_infinity false.

Definition dist2F32 (a b : vector) : res float :=
  foldM (fun s j => x ← get a j; y ← get b j; let d := f32_sub x y in Ok (f32_add s (f32_mul d d)))
    (S754_zero false) (seq 0 DIMS).

Section Layout.
Context `{SliceSort}.
Variable unspec : float -> Z.   (* int16 of a NaN *)
Variable K : nat.

(** [roundF32] and the quantization of a row, the same statements as in [internal/knn]. *)
Definition roundF32 : float -> float := Quantize.roundF32.
Definition quantize_row (v : vector) : res (list Z) :=
  foldM (fun q j => x ← get v j; set q j (Quantize.quantize1 unspec x)) (repeat 0 PADDED) (seq 0 DIMS).

(** Blocks per cluster, and their running sums. *)
Definition blocksPer (counts : list Z) : list Z := map (fun c => godiv (u32 (c + 8 - 1)) 8) counts.
Definition totalBlocks (counts : list Z) : Z := foldl (fun t b => u32 (t + b)) 0 (blocksPer counts).
Definition blockOffsets (counts : list Z) : res (list Z) :=
  foldM (fun offs i => o ← get offs i; b ← get (blocksPer counts) i; set offs (S i) (u32 (o + b)))
    (repeat 0 (S K)) (seq 0 K).

(** The vector indexes of every cluster, in input order. *)
Definition clusterIdx (assignments : list nat) : res (list (list nat)) :=
  foldM (fun idx '(i, c) => arr ← get idx c; set idx c (arr ++ [i]))
    (repeat [] K) (zip (seq 0 (length assignments)) assignments).

(** The order of a cluster's members: a panic of the comparison, which would be an index
    out of range, is looked for first. *)
Definition less_dist (vecs : list vector) (center : vector) (a b : nat) : bool :=
  match (va ← get vecs a; vb ← get vecs b; da ← dist2F32 va center; db ← dist2F32 vb center;
         Ok (f_lt da db)) with
  | Ok r => r
  | _ => false
  end.
Definition sort_cluster (vecs : list vector) (center : vector) (arr : list nat) : res (list nat) :=
  _ ← foldM (fun (_ : unit) i => v ← get vecs i; _ ← dist2F32 v center; Ok tt) tt arr;
  Ok (sort_slice (less_dist vecs center) arr).
Definition sort_clusters (vecs centers : list vector) (idx : list (list nat)) : res (list (list nat)) :=
  foldM (fun out ci => center ← get centers ci; arr ← get idx ci;
         arr ← sort_cluster vecs center arr; set out ci arr) idx (seq 0 (length idx)).

(** Widening the two rows of a bounding box by a vector. *)
Definition widen (box : list Z * list Z) (q : list Z) : res (list Z * list Z) :=
  foldM (fun '(mn, mx) j =>
    x ← get q j;
    m ← get mn j; mn ← (if x <? m then set mn j x else Ok mn);
    m ← get mx j; mx ← (if m <? x then set mx j x else Ok mx);
    Ok (mn, mx)) box (seq 0 PADDED).

(** Storing a vector in a lane of a block. *)
Definition store_lane (codes : list Z) (blockIdx lane : nat) (q : list Z) : res (list Z) :=
  let blockBase := (blockIdx * 16 * 8)%nat in
  foldM (fun codes p =>
    let pairBase := (blockBase + p * 8 * 2)%nat in
    q0 ← get q (p * 2)%nat; codes ← set codes (pairBase + lane * 2)%nat q0;
    q1 ← get q (p * 2 + 1)%nat; set codes (pairBase + lane * 2 + 1)%nat q1) codes (seq 0 8).

Record arrays : Type := mkArrays {
  bboxMin : list (list Z);
  bboxMax : list (list Z);
  codes : list Z;
  lbls : list Z;
  curBlock : list Z;    (* uint32 *)
  curLane : list Z      (* uint8 *)
}.

(** The body of the placement loop: vector [i] goes to cluster [c]. *)
Definition place (vecs : list vector) (labels : list Z) (c : nat) (a : arrays) (i : nat) : res arrays :=
  v ← get vecs i;
  q ← quantize_row v;
  mn ← get (bboxMin a) c; mx ← get (bboxMax a) c;
  box ← widen (mn, mx) q;
  bmin ← set (bboxMin a) c box.1; bmax ← set (bboxMax a) c box.2;
  blockIdx ← get (curBlock a) c;
  lane ← get (curLane a) c;
  codes' ← store_lane (codes a) (Z.to_nat blockIdx) (Z.to_nat lane) q;
  l ← get labels i;
  lbls' ← set (lbls a) (Z.to_nat blockIdx * 8 + Z.to_nat lane)%nat l;
  let lane' := u8 (lane + 1) in
  if lane' =? 8 then
    cl ← set (curLane a) c 0;
    cb ← set (curBlock a) c (u32 (blockIdx + 1));
    Ok (mkArrays bmin bmax codes' lbls' cb cl)
  else
    cl ← set (curLane a) c lane';
    Ok (mkArrays bmin bmax codes' lbls' (curBlock a) cl).

Definition place_cluster (vecs : list vector) (labels : list Z) (idx : list (list nat)) (a : arrays) (c : nat)
    : res arrays :=
  arr ← get idx c; foldM (place vecs labels c) a arr.

Definition initial (counts offsets : list Z) : arrays :=
  mkArrays (repeat (repeat 32767 PADDED) K) (repeat (repeat (-32768) PADDED) K)
    (repeat 0 (Z.to_nat (totalBlocks counts) * 16 * 8)) (repeat 0 (Z.to_nat (totalBlocks counts) * 8))
    (take K offsets) (repeat 0 K).

Definition centroidSoA (centers : list vector) : res (list Z) :=
  let nCentroidBlocks := ((K + 8 - 1) / 8)%nat in
  foldM (fun codes ci => c ← get centers ci; q ← quantize_row c; store_lane codes (ci / 8) (ci mod 8) q)
    (repeat 0 (nCentroidBlocks * 16 * 8)) (seq 0 K).

(** What goes into the file. *)
Record layout : Type := mkLayout {
  LCentroids : list Z;
  LBBoxMin : list (list Z);
  LBBoxMax : list (list Z);
  LBlockOffsets : list Z;
  LCounts : list Z;
  LCodes : list Z;
  LLabels : list Z;
  LN : Z;
  LTotalBlocks : Z
}.

Definition lay_out (vecs : list vector) (labels : list Z) (centers : list vector)
    (assignments : list nat) (counts : list Z) : res layout :=
  offsets ← blockOffsets counts;
  idx ← clusterIdx assignments;
  idx ← sort_clusters vecs centers idx;
  a ← foldM (place_cluster vecs labels idx) (initial counts offsets) (seq 0 (length idx));
  cs ← centroidSoA centers;
  Ok (mkLayout cs (bboxMin a) (bboxMax a) offsets counts (codes a) (lbls a)
        (u32 (Z.of_nat (length vecs))) (totalBlocks counts)).

End Layout.

(** ** Rows *)

(** A row the builder can quantize: fourteen features, none a NaN. *)
Definition row_ok (v : vector) : Prop := length v = DIMS /\ Forall Quantize.not_nan v.

Definition quantized_row (unspec : float -> Z) (v : vector) : list Z :=
  match quantize_row unspec v with Ok q => q | _ => [] end.

Lemma quantize_row_ok unspec v :
  row_ok v ->
  quantize_row unspec v = Ok (quantized_row unspec v) /\ length (quantized_row unspec v) = 16%nat /\
  quantized (quantized_row unspec v).
Proof.
  intros [Hl Hv]. unfold quantized_row.
  change (quantize_row unspec v) with (Quantize.Quantize unspec v).
  pose proof (Quantize.Quantize_ok unspec v Hl Hv) as H.
  apply returns_inv in H as (q & -> & Hq & Hqq & _). done.
Qed.

Lemma dist2F32_ok a b : length a = DIMS -> length b = DIMS -> exists d, dist2F32 a b = Ok d.
Proof.
  intros Ha Hb. enough (returns (dist2F32 a b) (fun _ => True)) as H.
  { apply returns_inv in H as (d & -> & _). by exists d. }
  apply (wp_for _ (fun _ _ => True)); [done|]. intros k s Hk _. rewrite Nat.add_0_l.
  by rewrite !get_total, !bind_Ok by lia.
Qed.

(** ** Blocks *)

Lemma word_inj b l d b' l' d' :
  (l < 8)%nat -> (l' < 8)%nat -> (d < 16)%nat -> (d' < 16)%nat ->
  word b l d = word b' l' d' -> b = b' /\ l = l' /\ d = d'.
Proof.
  unfold word. intros. pose proof (Nat.div_mod_eq d 2). pose proof (Nat.div_mod_eq d' 2).
  pose proof (Nat.mod_upper_bound d 2). pose proof (Nat.mod_upper_bound d' 2). lia.
Qed.

Lemma word_lt b l d : (l < 8)%nat -> (d < 16)%nat -> (word b l d < b * 128 + 128)%nat.
Proof.
  unfold word. intros. pose proof (Nat.div_mod_eq d 2). pose proof (Nat.mod_upper_bound d 2). lia.
Qed.

Lemma vec_length codes b l : length (vec codes b l) = 16%nat.
Proof. unfold vec. by rewrite length_map, length_seq. Qed.

(** A stored lane reads back, and the other lanes are left alone. *)
Lemma store_lane_ok codes blk lane q :
  (lane < 8)%nat -> (blk * 128 + 128 <= length codes)%nat -> length q = 16%nat ->
  quantized codes -> quantized q ->
  returns (store_lane codes blk lane q) (fun codes' =>
    length codes' = length codes /\ quantized codes' /\ vec codes' blk lane = q /\
    forall b l, (l < 8)%nat -> (b, l) <> (blk, lane) -> vec codes' b l = vec codes b l).
Proof.
  intros Hlane Hlen Hq Hqc Hqq. unfold store_lane. cbv zeta. eapply wp_conseq.
  { apply (wp_for _ (fun k c => length c = length codes /\ quantized c /\
      (forall d, (d < 2 * k)%nat -> c !!! word blk lane d = q !!! d) /\
      (forall w, (forall d, (d < 16)%nat -> w <> word blk lane d) -> c !!! w = codes !!! w))).
    - split; [done|]. split; [done|]. split; [intros d Hd; lia|done].
    - intros k c Hk (Hl & Hc & Hst & Hot). rewrite Nat.add_0_l.
      assert (word blk lane (2 * k) = blk * 16 * 8 + k * 8 * 2 + lane * 2)%nat as E0.
      { unfold word. pose proof (Nat.div_mod_eq (2 * k) 2). pose proof (Nat.mod_upper_bound (2 * k) 2). lia. }
      assert (word blk lane (2 * k + 1) = blk * 16 * 8 + k * 8 * 2 + lane * 2 + 1)%nat as E1.
      { unfold word. pose proof (Nat.div_mod_eq (2 * k + 1) 2).
        pose proof (Nat.mod_upper_bound (2 * k + 1) 2). lia. }
      rewrite <-E1, <-E0. pose proof (word_lt blk lane (2 * k) Hlane ltac:(lia)).
      pose proof (word_lt blk lane (2 * k + 1) Hlane ltac:(lia)).
      rewrite (Nat.mul_comm k 2).
      rewrite (get_total q (2 * k)), bind_Ok, set_ok, bind_Ok by lia.
      rewrite (get_total q (2 * k + 1)), bind_Ok, set_ok by (rewrite ?length_insert; lia). apply wp_ok.
      assert (forall d, (d < 16)%nat -> -10000 <= q !!! d <= 10000) as Hqd.
      { intros d Hd. unfold quantized in Hqq. rewrite List.Forall_forall in Hqq. apply Hqq.
        apply list_elem_of_In, list_elem_of_lookup_total. exists d. split; [lia|done]. }
      rewrite !length_insert. split; [done|]. split.
      { unfold quantized in *. apply Forall_insert; [apply Forall_insert; [done|apply Hqd; lia]|apply Hqd; lia]. }
      split.
      + intros d Hd. destruct (decide (d = 2 * k + 1)%nat) as [->|Hn1].
        { by rewrite list_lookup_total_insert_eq by (rewrite length_insert; lia). }
        rewrite list_lookup_total_insert_ne.
        2: { intros E. apply word_inj in E as (_ & _ & E); lia. }
        destruct (decide (d = 2 * k)%nat) as [->|Hn0].
        { by rewrite list_lookup_total_insert_eq by lia. }
        rewrite list_lookup_total_insert_ne.
        2: { intros E. apply word_inj in E as (_ & _ & E); lia. }
        apply Hst. lia.
      + intros w Hw. rewrite !list_lookup_total_insert_ne; [by apply Hot| |];
          intros E; eapply Hw; [|done| |done]; lia. }
  intros c (Hl & Hc & Hst & Hot). split; [done|]. split; [done|]. split.
  - rewrite (list_16 q Hq). unfold vec. apply map_ext_in. intros d Hd%in_seq. apply Hst. lia.
  - intros b l Hl' Hne. unfold vec. apply map_ext_in. intros d Hd%in_seq. apply Hot.
    intros d' Hd' E. apply word_inj in E as (-> & -> & _); try lia. done.
Qed.

(** ** Boxes *)

Lemma set_if (b : bool) (l : list Z) k x :
  (k < length l)%nat ->
  exists l', (if b then set l k x else Ok l) = Ok l' /\ length l' = length l /\
    l' !!! k = (if b then x else l !!! k) /\ forall i, i <> k -> l' !!! i = l !!! i.
Proof.
  intros Hk. destruct b; [|by exists l]. exists (<[k := x]> l). rewrite set_ok, length_insert by done.
  split_and!; [done|done|by apply list_lookup_total_insert_eq|]. intros i Hi. by rewrite list_lookup_total_insert_ne.
Qed.

(** A list given entry by entry. *)
Lemma zip_total (f : Z -> Z -> Z) (l a b : list Z) n :
  length l = n -> length a = n -> length b = n ->
  (forall i, (i < n)%nat -> l !!! i = f (a !!! i) (b !!! i)) -> l = zip_with f a b.
Proof.
  intros Hl Ha Hb H. apply list_eq_same_length with n; [rewrite length_zip_with; lia|done|].
  intros i x y Hi Hx (u & w & -> & Hu & Hw)%lookup_zip_with_Some.
  apply list_lookup_total_correct in Hx, Hu, Hw. specialize (H i Hi). congruence.
Qed.

(** The box after the first [k] dimensions. *)
Definition widened (mn mx q : list Z) (k : nat) (box : list Z * list Z) : Prop :=
  length box.1 = 16%nat /\ length box.2 = 16%nat /\ forall i, (i < 16)%nat ->
    box.1 !!! i = (if (i <? k)%nat then Z.min (mn !!! i) (q !!! i) else mn !!! i) /\
    box.2 !!! i = (if (i <? k)%nat then Z.max (mx !!! i) (q !!! i) else mx !!! i).

Lemma widen_ok mn mx q :
  length mn = 16%nat -> length mx = 16%nat -> length q = 16%nat ->
  widen (mn, mx) q = Ok (zip_with Z.min mn q, zip_with Z.max mx q).
Proof.
  intros Hmn Hmx Hq. assert (returns (widen (mn, mx) q) (widened mn mx q 16)) as H.
  { apply (wp_for _ (widened mn mx q)); [by split_and!|].
    intros k [a b] Hk (Ha & Hb & HI). unfold PADDED in Hk. cbn [fst snd] in *. rewrite Nat.add_0_l.
    rewrite !get_total, !bind_Ok by lia.
    destruct (set_if (q !!! k <? a !!! k) a k (q !!! k)) as (a' & -> & Ha' & Hak & Hai); [lia|]. rewrite !bind_Ok.
    destruct (set_if (b !!! k <? q !!! k) b k (q !!! k)) as (b' & -> & Hb' & Hbk & Hbi); [lia|]. rewrite bind_Ok.
    apply wp_ok. split_and!; [cbn [fst]; lia|cbn [snd]; lia|]. intros i Hi. cbn [fst snd].
    destruct (HI i Hi) as [H1 H2]. destruct (decide (i = k)) as [->|Hne].
    - replace (k <? k)%nat with false in H1, H2 by lia. replace (k <? S k)%nat with true by lia.
      rewrite Hak, Hbk, H1, H2. destruct (Z.ltb_spec (q !!! k) (mn !!! k)), (Z.ltb_spec (mx !!! k) (q !!! k)); lia.
    - replace (i <? S k)%nat with (i <? k)%nat by lia. by rewrite Hai, Hbi, H1, H2. }
  apply returns_inv in H as ([a b] & -> & Ha & Hb & HI). cbn [fst snd] in *.
  rewrite (zip_total Z.min a mn q 16), (zip_total Z.max b mx q 16); try done;
    intros i Hi; specialize (HI i Hi); replace (i <? 16)%nat with true in HI by lia; apply HI.
Qed.

(** A box that holds the vectors [qs]: it contains each of them, and is a box of quantized
    values as soon as there is one. *)
Record boxes (qs : list (list Z)) (mn mx : list Z) : Prop := {
  boxes_min_length : length mn = 16%nat;
  boxes_max_length : length mx = 16%nat;
  boxes_low : Forall (fun x => -10000 <= x) mn;
  boxes_high : Forall (fun x => x <= 10000) mx;
  boxes_words : Forall (fun x => -32768 <= x <= 32767) mn /\ Forall (fun x => -32768 <= x <= 32767) mx;
  boxes_some : qs <> [] -> Forall (fun x => x <= 10000) mn /\ Forall (fun x => -10000 <= x) mx;
  boxes_inside q : q ∈ qs -> Forall2 Z.le mn q /\ Forall2 Z.le q mx
}.

Lemma boxes_start : boxes [] (repeat 32767 16) (repeat (-32768) 16).
Proof.
  split; [done|done| | |split|done|by intros q ?%not_elem_of_nil]; apply List.Forall_forall;
    intros x Hx%repeat_spec; lia.
Qed.

Lemma Forall_zip_with {A B C} (f : A -> B -> C) (P : C -> Prop) (Q : A -> Prop) (R : B -> Prop) l k :
  (forall x y, Q x -> R y -> P (f x y)) -> Forall Q l -> Forall R k -> Forall P (zip_with f l k).
Proof.
  intros Hf Hl. revert k. induction Hl; intros k Hk; [constructor|].
  destruct Hk; [constructor|]. simpl. constructor; auto.
Qed.

Lemma zip_with_le_l (m q : list Z) : length m = length q -> Forall2 Z.le (zip_with Z.min m q) m.
Proof. revert q. induction m as [|x m IH]; intros [|y q] Hl; simplify_eq/=; constructor; [lia|auto]. Qed.
Lemma zip_with_le_r (m q : list Z) : length m = length q -> Forall2 Z.le (zip_with Z.min m q) q.
Proof. revert q. induction m as [|x m IH]; intros [|y q] Hl; simplify_eq/=; constructor; [lia|auto]. Qed.
Lemma zip_with_ge_l (m q : list Z) : length m = length q -> Forall2 Z.le m (zip_with Z.max m q).
Proof. revert q. induction m as [|x m IH]; intros [|y q] Hl; simplify_eq/=; constructor; [lia|auto]. Qed.
Lemma zip_with_ge_r (m q : list Z) : length m = length q -> Forall2 Z.le q (zip_with Z.max m q).
Proof. revert q. induction m as [|x m IH]; intros [|y q] Hl; simplify_eq/=; constructor; [lia|auto]. Qed.

Lemma boxes_widen qs mn mx q :
  boxes qs mn mx -> length q = 16%nat -> quantized q ->
  boxes (qs ++ [q]) (zip_with Z.min mn q) (zip_with Z.max mx q).
Proof.
  intros [Hmn Hmx Hlo Hhi [Hw1 Hw2] Hsome Hin] Hq Hqq.
  assert (Forall (fun x => -10000 <= x) q) as Hq1 by (eapply List.Forall_impl; [|exact Hqq]; simpl; lia).
  assert (Forall (fun x => x <= 10000) q) as Hq2 by (eapply List.Forall_impl; [|exact Hqq]; simpl; lia).
  assert (forall l : list Z, Forall (fun _ => True) l) as Ht by (intros l; by apply List.Forall_forall).
  split.
  - rewrite length_zip_with. lia.
  - rewrite length_zip_with. lia.
  - eapply Forall_zip_with; [|exact Hlo|exact Hq1]. simpl. lia.
  - eapply Forall_zip_with; [|exact Hhi|exact Hq2]. simpl. lia.
  - split; (eapply Forall_zip_with; [|eassumption|exact Hqq]; simpl; lia).
  - intros _. split.
    + eapply Forall_zip_with; [|apply Ht|exact Hq2]. simpl. lia.
    + eapply Forall_zip_with; [|apply Ht|exact Hq1]. simpl. lia.
  - intros r [Hr|Hr]%elem_of_app.
    + destruct (Hin r Hr) as [H1 H2]. split.
      * eapply Forall2_le_trans; [apply zip_with_le_l; lia|done].
      * eapply Forall2_le_trans; [done|apply zip_with_ge_l; lia].
    + apply list_elem_of_singleton in Hr as ->. split; [apply zip_with_le_r|apply zip_with_ge_r]; lia.
Qed.

(** ** Offsets *)

(** The first block of cluster [c], from the sizes of the clusters. *)
Definition blocks_for (k : nat) : nat := ((k + 7) / 8)%nat.
Definition offn (lens : list nat) (c : nat) : nat := sum_list_with blocks_for (take c lens).

Lemma offn_S lens c k : lens !! c = Some k -> offn lens (S c) = (offn lens c + blocks_for k)%nat.
Proof. intros Hk. unfold offn. rewrite (take_S_r _ _ k) by done. rewrite sum_list_with_app. simpl. lia. Qed.

Lemma offn_mono lens a b : (a <= b)%nat -> (offn lens a <= offn lens b)%nat.
Proof.
  intros Hab. induction Hab as [|b Hab IH]; [done|]. destruct (lens !! b) as [k|] eqn:E.
  - rewrite (offn_S _ _ k) by done. lia.
  - apply lookup_ge_None in E. unfold offn in *. rewrite (take_ge lens b) in IH by lia.
    by rewrite (take_ge lens (S b)) by lia.
Qed.

Lemma blocks_for_bounds k : (k <= 8 * blocks_for k < k + 8)%nat.
Proof.
  unfold blocks_for. pose proof (Nat.div_mod_eq (k + 7) 8). pose proof (Nat.mod_upper_bound (k + 7) 8). lia.
Qed.

Lemma offn_room lens c k : lens !! c = Some k -> (8 * offn lens c + k <= 8 * offn lens (S c))%nat.
Proof. intros Hk. rewrite (offn_S _ _ k Hk). pose proof (blocks_for_bounds k). lia. Qed.

Lemma blocksPer_get lens c k :
  (offn lens (length lens) < Z.to_nat (2 ^ 29))%nat -> lens !! c = Some k ->
  get (blocksPer (map Z.of_nat lens)) c = Ok (Z.of_nat (blocks_for k)).
Proof.
  intros Hb Hk. apply get_ok. unfold blocksPer. rewrite !list_lookup_fmap, Hk. simpl. f_equal.
  pose proof (offn_S _ _ _ Hk) as HS. pose proof (lookup_lt_Some _ _ _ Hk).
  pose proof (offn_mono lens (S c) (length lens) ltac:(lia)). pose proof (blocks_for_bounds k).
  rewrite u32_id by lia. unfold godiv, blocks_for. rewrite Z.quot_div_nonneg by lia.
  rewrite Nat2Z.inj_div. f_equal. lia.
Qed.

Lemma blockOffsets_ok lens :
  (offn lens (length lens) < Z.to_nat (2 ^ 29))%nat ->
  blockOffsets (length lens) (map Z.of_nat lens) =
    Ok (map (fun i => Z.of_nat (offn lens i)) (seq 0 (S (length lens)))).
Proof.
  intros Hb. set (K := length lens) in *. unfold blockOffsets.
  assert (returns (foldM (fun offs i => o ← get offs i; b ← get (blocksPer (map Z.of_nat lens)) i;
      set offs (S i) (u32 (o + b))) (repeat 0 (S K)) (seq 0 K)) (fun offs =>
    length offs = S K /\ forall i, (i <= K)%nat -> offs !! i = Some (Z.of_nat (offn lens i)))) as H.
  { apply (wp_for _ (fun k offs => length offs = S K /\
      forall i, (i <= k)%nat -> offs !! i = Some (Z.of_nat (offn lens i)))).
    - split; [by rewrite repeat_length|]. intros i Hi. by replace i with 0%nat by lia.
    - intros k offs Hk [Hl HI]. rewrite Nat.add_0_l.
      destruct (lookup_lt_is_Some_2 lens k Hk) as [n Hn].
      rewrite (get_ok _ _ _ (HI k ltac:(lia))), bind_Ok, (blocksPer_get _ _ n), bind_Ok by done.
      rewrite set_ok by lia. apply wp_ok. rewrite length_insert. split; [done|].
      pose proof (offn_S _ _ _ Hn) as HS. pose proof (offn_mono lens (S k) K ltac:(lia)).
      intros i Hi. destruct (decide (i = S k)) as [->|Hne].
      + rewrite list_lookup_insert_eq by lia. rewrite u32_id by lia. f_equal. lia.
      + rewrite list_lookup_insert_ne by done. apply HI. lia. }
  apply returns_inv in H as (offs & -> & Hl & HI). f_equal. apply list_eq_same_length with (S K).
  - by rewrite length_map, length_seq.
  - done.
  - intros i x y Hi Hx Hy. rewrite list_lookup_fmap, lookup_seq_lt in Hy by lia. simpl in Hy.
    rewrite HI in Hx by lia. congruence.
Qed.

Lemma totalBlocks_ok lens :
  (offn lens (length lens) < Z.to_nat (2 ^ 29))%nat ->
  totalBlocks (map Z.of_nat lens) = Z.of_nat (offn lens (length lens)).
Proof.
  intros Hb. unfold totalBlocks.
  assert (forall k, (k <= length lens)%nat ->
    foldl (fun t b => u32 (t + b)) 0 (take k (blocksPer (map Z.of_nat lens))) = Z.of_nat (offn lens k)) as H.
  { induction k as [|k IH]; intros Hk; [by rewrite take_0|].
    destruct (lookup_lt_is_Some_2 lens k Hk) as [n Hn].
    pose proof (blocksPer_get lens k n Hb Hn) as Hg.
    unfold get in Hg. destruct (blocksPer (map Z.of_nat lens) !! k) as [b|] eqn:E; [|done]. injection Hg as ->.
    rewrite (take_S_r _ _ (Z.of_nat (blocks_for n))) by done. rewrite foldl_app, IH by lia. simpl.
    pose proof (offn_S _ _ _ Hn). pose proof (offn_mono lens (S k) (length lens) ltac:(lia)).
    rewrite u32_id by lia. lia. }
  specialize (H (length lens) ltac:(lia)). rewrite take_ge in H; [done|].
  unfold blocksPer. rewrite !length_map. lia.
Qed.

(** ** Buckets *)

(** The members of cluster [c], in input order. *)
Definition bucket (assignments : list nat) (c : nat) : list nat :=
  filter (fun i => assignments !! i = Some c) (seq 0 (length assignments)).

Lemma bucket_perm {A} (f : A -> nat) (l : list A) k :
  concat (map (fun c => filter (fun x => f x = c) l) (seq 0 k)) ≡ₚ filter (fun x => (f x < k)%nat) l.
Proof.
  induction k as [|k IH].
  - simpl. induction l as [|x l IHl]; [done|]. by rewrite filter_cons_False by lia.
  - rewrite seq_S, map_app, concat_app, IH. simpl. rewrite app_nil_r. clear IH.
    induction l as [|x l IHl]; [done|]. destruct (decide (f x < k)%nat).
    + rewrite (filter_cons_True (fun y => (f y < k)%nat)), (filter_cons_False (fun y => f y = k)),
        (filter_cons_True (fun y => (f y < S k)%nat)) by lia. simpl. by f_equiv.
    + rewrite (filter_cons_False (fun y => (f y < k)%nat)) by done.
      destruct (decide (f x = k)).
      * rewrite (filter_cons_True (fun y => f y = k)), (filter_cons_True (fun y => (f y < S k)%nat)) by lia.
        rewrite <-Permutation_middle. by f_equiv.
      * by rewrite (filter_cons_False (fun y => f y = k)), (filter_cons_False (fun y => (f y < S k)%nat)) by lia.
Qed.

Lemma clusterIdx_ok K assignments :
  Forall (fun c => (c < K)%nat) assignments ->
  clusterIdx K assignments = Ok (map (bucket assignments) (seq 0 K)).
Proof.
  intros Ha. set (n := length assignments). unfold clusterIdx.
  assert (forall k, (k <= n)%nat ->
    foldM (fun idx '(i, c) => arr ← get idx c; set idx c (arr ++ [i])) (repeat [] K)
      (take k (zip (seq 0 n) assignments)) =
    Ok (map (fun c => filter (fun i => assignments !! i = Some c) (seq 0 k)) (seq 0 K))) as H.
  { induction k as [|k IH]; intros Hk.
    - rewrite take_0. simpl. f_equal. clear. generalize 0%nat.
      induction K as [|K IH]; intros s; simpl; [done|]. by f_equal.
    - destruct (lookup_lt_is_Some_2 assignments k Hk) as [c Hc].
      assert (c < K)%nat as HcK by (by eapply Forall_lookup_1 in Ha).
      rewrite (take_S_r _ _ (k, c)).
      2: { apply lookup_zip_with_Some. exists k, c. split; [done|]. split; [|done]. apply lookup_seq_lt. lia. }
      rewrite foldM_app, IH, bind_Ok by lia. cbn [foldM].
      erewrite get_ok; [|rewrite list_lookup_fmap, lookup_seq_lt by done; done].
      rewrite !bind_Ok. rewrite set_ok by (rewrite length_map, length_seq; lia).
      rewrite bind_Ok. f_equal. apply list_eq_same_length with K;
        [by rewrite length_map, length_seq|by rewrite length_insert, length_map, length_seq|].
      intros i x y Hi Hx Hy. rewrite list_lookup_fmap, lookup_seq_lt in Hy by done. cbv [fmap option_fmap option_map] in Hy. rewrite Nat.add_0_l in Hy.
      match type of Hy with Some ?a = Some ?b => assert (b = a) as -> by congruence end.
      rewrite seq_S, list.filter_app, Nat.add_0_l.
      destruct (decide (i = c)) as [->|Hne].
      + rewrite list_lookup_insert_eq in Hx by (rewrite length_map, length_seq; lia). injection Hx as <-.
        by rewrite (filter_cons_True _ k []) by done.
      + rewrite list_lookup_insert_ne in Hx by done.
        rewrite list_lookup_fmap, lookup_seq_lt in Hx by done. cbv [fmap option_fmap option_map] in Hx. rewrite Nat.add_0_l in Hx.
        match type of Hx with Some ?a = Some ?b => assert (b = a) as -> by congruence end.
        rewrite (filter_cons_False _ k []) by congruence. by rewrite app_nil_r. }
  specialize (H n ltac:(lia)). rewrite take_ge in H; [done|].
  rewrite length_zip_with, length_seq. lia.
Qed.

Lemma buckets_perm K assignments :
  Forall (fun c => (c < K)%nat) assignments ->
  concat (map (bucket assignments) (seq 0 K)) ≡ₚ seq 0 (length assignments).
Proof.
  intros Ha.
  assert (forall c, bucket assignments c =
    filter (fun i => default K (assignments !! i) = c) (seq 0 (length assignments)) \/ (K <= c)%nat) as Hb.
  { intros c. destruct (decide (c < K)%nat); [left|by right; lia]. unfold bucket.
    apply list_filter_iff. intros i. destruct (assignments !! i) as [x|]; simpl; split; (congruence || lia). }
  rewrite (map_ext_in _ (fun c => filter (fun i => default K (assignments !! i) = c) (seq 0 (length assignments)))).
  2: { intros c Hc%in_seq. destruct (Hb c); [done|lia]. }
  rewrite (bucket_perm (fun i => default K (assignments !! i))). rewrite filter_all; [done|].
  intros i Hi. apply list_elem_of_In, in_seq in Hi.
  destruct (lookup_lt_is_Some_2 assignments i ltac:(lia)) as [c Hc]. rewrite Hc. simpl.
  by eapply Forall_lookup_1 in Ha.
Qed.

(** ** Placement *)

Lemma lookup_repeat {A} (x : A) n i : (i < n)%nat -> repeat x n !! i = Some x.
Proof. revert i. induction n as [|n IH]; intros [|i] Hi; simpl; (lia || done || apply IH; lia). Qed.

Lemma slot_div o k : ((o * 8 + k) / 8 = o + k / 8)%nat /\ ((o * 8 + k) mod 8 = k mod 8)%nat.
Proof.
  split; [by rewrite Nat.div_add_l|]. by rewrite Nat.add_comm, Nat.Div0.mod_add.
Qed.

Lemma slot_eq s s' : (s / 8 = s' / 8)%nat -> (s mod 8 = s' mod 8)%nat -> s = s'.
Proof. intros. rewrite (Nat.div_mod_eq s 8), (Nat.div_mod_eq s' 8). lia. Qed.

(** The next lane. *)
Lemma next_slot k :
  if ((k mod 8 + 1) =? 8)%nat then (S k / 8 = k / 8 + 1)%nat /\ (S k mod 8 = 0)%nat
  else (S k / 8 = k / 8)%nat /\ (S k mod 8 = k mod 8 + 1)%nat.
Proof.
  pose proof (Nat.div_mod_eq k 8). pose proof (Nat.mod_upper_bound k 8).
  pose proof (Nat.div_mod_eq (S k) 8). pose proof (Nat.mod_upper_bound (S k) 8).
  destruct (Nat.eqb_spec (k mod 8 + 1) 8); lia.
Qed.

Section Place.
Context (unspec : float -> Z) (vecs : list vector) (labels : list Z) (arrs : list (list nat)).
Hypothesis vecs_ok : Forall row_ok vecs.
Hypothesis labels_length : length labels = length vecs.
Hypothesis labels_01 : Forall (fun l => 0 <= l <= 1) labels.
Hypothesis members_ok : Forall (Forall (fun i => (i < length vecs)%nat)) arrs.

#[local] Abbreviation K := (length arrs).
Definition lens : list nat := map length arrs.
#[local] Abbreviation first c := (offn lens c).
#[local] Abbreviation blocks := (first K).
Hypothesis blocks_fit : (blocks < Z.to_nat (2 ^ 29))%nat.

(** The quantized vector and the label of input [i]. *)
Definition qvec (i : nat) : list Z := quantized_row unspec (vecs !!! i).
Definition lab (i : nat) : Z := labels !!! i.

(** Slot [s], lane [s mod 8] of block [s / 8], holds input [i]. *)
Definition holds (a : arrays) (s i : nat) : Prop :=
  vec (codes a) (s / 8) (s mod 8) = qvec i /\ lbls a !!! s = lab i.

Record sized (a : arrays) : Prop := {
  sized_codes : length (codes a) = (blocks * 128)%nat;
  sized_codes_q : quantized (codes a);
  sized_lbls : length (lbls a) = (blocks * 8)%nat;
  sized_lbls_01 : Forall (fun l => 0 <= l <= 1) (lbls a);
  sized_min : length (bboxMin a) = K;
  sized_max : length (bboxMax a) = K;
  sized_block : length (curBlock a) = K;
  sized_lane : length (curLane a) = K
}.

(** Cluster [c] after the members [pre]. *)
Record filled (c : nat) (pre : list nat) (a : arrays) : Prop := {
  filled_block : curBlock a !! c = Some (Z.of_nat (first c + length pre / 8));
  filled_lane : curLane a !! c = Some (Z.of_nat (length pre mod 8));
  filled_slots j i : pre !! j = Some i -> holds a (first c * 8 + j) i;
  filled_boxes : exists mn mx, bboxMin a !! c = Some mn /\ bboxMax a !! c = Some mx /\ boxes (map qvec pre) mn mx
}.

(** What the placement of cluster [c] leaves alone. *)
Record frame (c : nat) (a0 a : arrays) : Prop := {
  frame_slots s : (s < first c * 8 \/ first (S c) * 8 <= s)%nat ->
    vec (codes a) (s / 8) (s mod 8) = vec (codes a0) (s / 8) (s mod 8) /\ lbls a !!! s = lbls a0 !!! s;
  frame_rows c' : c' <> c ->
    curBlock a !! c' = curBlock a0 !! c' /\ curLane a !! c' = curLane a0 !! c' /\
    bboxMin a !! c' = bboxMin a0 !! c' /\ bboxMax a !! c' = bboxMax a0 !! c'
}.

Lemma frame_refl c a : frame c a a.
Proof. by split. Qed.

Lemma frame_trans c a b d : frame c a b -> frame c b d -> frame c a d.
Proof.
  intros [S1 R1] [S2 R2]. split.
  - intros s Hs. destruct (S1 s Hs), (S2 s Hs). split; congruence.
  - intros c' Hc. destruct (R1 c' Hc) as (A1 & A2 & A3 & A4), (R2 c' Hc) as (B1 & B2 & B3 & B4).
    repeat split; congruence.
Qed.

(** The codes and labels after the vector of input [i] went to slot [s]. *)
Definition stored (s i : nat) (a : arrays) (codes' lbls' : list Z) : Prop :=
  length codes' = length (codes a) /\ quantized codes' /\
  length lbls' = length (lbls a) /\ Forall (fun l => 0 <= l <= 1) lbls' /\
  vec codes' (s / 8) (s mod 8) = qvec i /\ lbls' !!! s = lab i /\
  forall t, t <> s -> vec codes' (t / 8) (t mod 8) = vec (codes a) (t / 8) (t mod 8) /\ lbls' !!! t = lbls a !!! t.

Lemma stored_ok s i a :
  sized a -> (s < blocks * 8)%nat -> (i < length vecs)%nat ->
  exists codes' lbls', store_lane (codes a) (s / 8) (s mod 8) (qvec i) = Ok codes' /\
    get labels i = Ok (lab i) /\ set (lbls a) s (lab i) = Ok lbls' /\ stored s i a codes' lbls'.
Proof.
  intros Ha Hs Hi. pose proof (Nat.div_mod_eq s 8). pose proof (Nat.mod_upper_bound s 8 ltac:(lia)).
  destruct (quantize_row_ok unspec (vecs !!! i)) as (_ & Hq & Hqq).
  { rewrite List.Forall_forall in vecs_ok. apply vecs_ok. apply list_elem_of_In, list_elem_of_lookup_total.
    by exists i. }
  pose proof (store_lane_ok (codes a) (s / 8) (s mod 8) (qvec i) ltac:(lia)
    ltac:(rewrite (sized_codes a Ha); lia) Hq (sized_codes_q a Ha) Hqq) as Hst.
  apply returns_inv in Hst as (codes' & Ec & Hl & Hc & Hv & Hrest).
  exists codes', (<[s := lab i]> (lbls a)). split; [done|].
  split; [apply get_total; lia|]. split; [apply set_ok; rewrite (sized_lbls a Ha); lia|].
  unfold stored. rewrite length_insert. repeat (split; [done|]). split.
  { apply Forall_insert; [apply Ha|]. rewrite List.Forall_forall in labels_01. apply labels_01.
    apply list_elem_of_In, list_elem_of_lookup_total. exists i. split; [lia|done]. }
  split; [done|]. split; [apply list_lookup_total_insert_eq; rewrite (sized_lbls a Ha); lia|].
  intros t Ht. split; [|by rewrite list_lookup_total_insert_ne].
  apply Hrest; [apply Nat.mod_upper_bound; lia|]. intros [= E1 E2]. apply Ht. by apply slot_eq.
Qed.

(** Moving on to the next lane. *)
Lemma advance_ok c a k bmin bmax codes' lbls' :
  sized a -> (c < K)%nat ->
  curBlock a !! c = Some (Z.of_nat (first c + k / 8)) -> curLane a !! c = Some (Z.of_nat (k mod 8)) ->
  (first c + k / 8 < blocks)%nat ->
  exists cb cl,
    (let lane' := u8 (Z.of_nat (k mod 8) + 1) in
     if lane' =? 8 then
       cl ← set (curLane a) c 0;
       cb ← set (curBlock a) c (u32 (Z.of_nat (first c + k / 8) + 1));
       Ok (mkArrays bmin bmax codes' lbls' cb cl)
     else
       cl ← set (curLane a) c lane';
       Ok (mkArrays bmin bmax codes' lbls' (curBlock a) cl)) = Ok (mkArrays bmin bmax codes' lbls' cb cl) /\
    length cb = length (curBlock a) /\ length cl = length (curLane a) /\
    cb !! c = Some (Z.of_nat (first c + S k / 8)) /\ cl !! c = Some (Z.of_nat (S k mod 8)) /\
    forall c', c' <> c -> cb !! c' = curBlock a !! c' /\ cl !! c' = curLane a !! c'.
Proof.
  intros Ha Hc Hblk Hlane Hb. pose proof (Nat.mod_upper_bound k 8 ltac:(lia)).
  pose proof (sized_block a Ha). pose proof (sized_lane a Ha).
  cbv zeta. unfold u8. rewrite wrapU_id by (unfold inU; lia). pose proof (next_slot k) as Hn.
  replace (Z.of_nat (k mod 8) + 1 =? 8) with (k mod 8 + 1 =? 8)%nat by lia.
  destruct (k mod 8 + 1 =? 8)%nat; destruct Hn as [-> ->].
  - rewrite !set_ok, !bind_Ok by lia. eexists _, _. split; [done|]. rewrite !length_insert.
    do 2 (split; [done|]). rewrite !list_lookup_insert_eq by lia. rewrite u32_id by lia.
    split; [f_equal; lia|]. split; [done|]. intros c' Hne. by rewrite !list_lookup_insert_ne.
  - rewrite !set_ok, !bind_Ok by lia. eexists _, _. split; [done|]. rewrite length_insert.
    do 2 (split; [done|]). rewrite list_lookup_insert_eq by lia.
    split; [done|]. split; [f_equal; lia|]. intros c' Hne. by rewrite list_lookup_insert_ne.
Qed.

(** One more slot is filled and the others stay. *)
Lemma holds_snoc s0 pre i a a' :
  (forall j i', pre !! j = Some i' -> holds a (s0 + j) i') ->
  holds a' (s0 + length pre) i ->
  (forall t, t <> (s0 + length pre)%nat ->
     vec (codes a') (t / 8) (t mod 8) = vec (codes a) (t / 8) (t mod 8) /\ lbls a' !!! t = lbls a !!! t) ->
  forall j i', (pre ++ [i]) !! j = Some i' -> holds a' (s0 + j) i'.
Proof.
  intros Hpre Hi Hrest j i' Hj. destruct (decide (j = length pre)) as [->|Hne].
  - rewrite lookup_app_r, Nat.sub_diag in Hj by done. by injection Hj as <-.
  - pose proof (lookup_lt_Some _ _ _ Hj) as Hlt. rewrite length_app in Hlt. cbn [length] in Hlt.
    rewrite lookup_app_l in Hj by lia. unfold holds.
    destruct (Hrest (s0 + j)%nat ltac:(lia)) as [-> ->]. by apply Hpre.
Qed.

Lemma place_ok c arr a pre i post :
  arrs !! c = Some arr -> arr = pre ++ i :: post -> sized a -> filled c pre a ->
  returns (place unspec vecs labels c a i) (fun a' =>
    sized a' /\ filled c (pre ++ [i]) a' /\ frame c a a').
Proof.
  intros Hc Harr Ha [Hblk Hlane Hslots (mn & mx & Hmn & Hmx & Hbox)].
  set (k := length pre) in *. set (s := (first c * 8 + k)%nat).
  assert (lens !! c = Some (length arr)) as Hlen by (unfold lens; by rewrite list_lookup_fmap, Hc).
  pose proof (offn_room lens c _ Hlen) as Hroom. pose proof (lookup_lt_Some _ _ _ Hc) as HcK.
  pose proof (offn_mono lens (S c) K ltac:(lia)) as Hmono.
  assert (k < length arr)%nat by (rewrite Harr, length_app; simpl; lia).
  assert (i < length vecs)%nat as Hi.
  { eapply Forall_lookup_1 in members_ok; [|exact Hc]. rewrite Harr in members_ok.
    apply list.Forall_app in members_ok as [_ Hm]. by apply Forall_cons_iff in Hm as [Hm _]. }
  destruct (slot_div (first c) k) as [Hd Hm]. fold s in Hd, Hm.
  pose proof (Nat.div_mod_eq k 8). pose proof (Nat.mod_upper_bound k 8 ltac:(lia)).
  destruct (quantize_row_ok unspec (vecs !!! i)) as (Eq & Hq & Hqq).
  { rewrite List.Forall_forall in vecs_ok. apply vecs_ok. apply list_elem_of_In, list_elem_of_lookup_total.
    by exists i. }
  fold (qvec i) in Eq, Hq, Hqq. pose proof (boxes_widen _ _ _ _ Hbox Hq Hqq) as Hbox'.
  unfold place. rewrite (get_total vecs i), bind_Ok, Eq, bind_Ok by done.
  rewrite (get_ok _ _ _ Hmn), bind_Ok, (get_ok _ _ _ Hmx), bind_Ok.
  rewrite widen_ok, bind_Ok by (done || apply Hbox). cbn [fst snd].
  rewrite (set_ok (bboxMin a) c), bind_Ok by (by rewrite (sized_min a Ha)).
  rewrite (set_ok (bboxMax a) c), bind_Ok by (by rewrite (sized_max a Ha)).
  rewrite (get_ok _ _ _ Hblk), bind_Ok, (get_ok _ _ _ Hlane), bind_Ok.
  rewrite !Nat2Z.id. replace ((first c + k / 8) * 8 + k mod 8)%nat with s by (unfold s; lia).
  rewrite <-Hd, <-Hm.
  destruct (stored_ok s i a Ha ltac:(unfold s; lia) Hi) as (codes' & lbls' & -> & -> & Hl & Hst).
  rewrite !bind_Ok, Hl, bind_Ok.
  destruct Hst as (Hcl & Hcq & Hll & Hl01 & Hv & Hlab & Hrest).
  destruct (advance_ok c a k (<[c := zip_with Z.min mn (qvec i)]> (bboxMin a))
    (<[c := zip_with Z.max mx (qvec i)]> (bboxMax a)) codes' lbls' Ha HcK Hblk Hlane) as (cb & cl & Hadv & Hbl & Hll' & Hcb & Hcl' & Hother); [lia|].
  rewrite Hd, Hm. cbv zeta in Hadv. rewrite Hadv. apply wp_ok. split; [|split].
  - split; cbn; rewrite ?length_insert; try done; try apply Ha.
    + by rewrite Hcl; apply Ha.
    + by rewrite Hll; apply Ha.
    + by rewrite Hbl; apply Ha.
    + by rewrite Hll'; apply Ha.
  - split; cbn [curBlock curLane bboxMin bboxMax]; rewrite ?length_app; simpl length; rewrite ?Nat.add_1_r; [done|done| |].
    + apply (holds_snoc (first c * 8) pre i a); [done|by split|done].
    + eexists _, _. rewrite !list_lookup_insert_eq by (rewrite ?(sized_min a Ha), ?(sized_max a Ha); done).
      split; [done|]. split; [done|]. by rewrite map_app.
  - split.
    + intros t Ht. cbn [codes lbls]. apply Hrest. unfold s. lia.
    + intros c' Hne. cbn [curBlock curLane bboxMin bboxMax].
      rewrite !list_lookup_insert_ne by done. destruct (Hother c' Hne) as [-> ->]. done.
Qed.

Lemma place_cluster_ok c arr a :
  arrs !! c = Some arr -> sized a -> filled c [] a ->
  returns (place_cluster unspec vecs labels arrs a c) (fun a' => sized a' /\ filled c arr a' /\ frame c a a').
Proof.
  intros Hc Ha Hf. unfold place_cluster. rewrite (get_ok _ _ _ Hc), bind_Ok.
  apply (wp_foldM _ (fun pre a' => sized a' /\ filled c pre a' /\ frame c a a')).
  - split; [done|]. split; [done|apply frame_refl].
  - intros pre i post a' Harr (Ha' & Hf' & Hfr). eapply wp_conseq; [by eapply place_ok|].
    intros a'' (? & ? & ?). split; [done|]. split; [done|]. by eapply frame_trans.
Qed.

(** The other clusters keep what they have. *)
Lemma filled_frame c c' arr pre a a' :
  arrs !! c = Some arr -> (length pre <= length arr)%nat -> c <> c' ->
  filled c pre a -> frame c' a a' -> filled c pre a'.
Proof.
  intros Hc Hpre Hne [Hblk Hlane Hslots Hbox] [Fs Fr]. destruct (Fr c Hne) as (Eb & El & Emn & Emx).
  split; [congruence|congruence| |by rewrite Emn, Emx].
  intros j i Hj. pose proof (lookup_lt_Some _ _ _ Hj). unfold holds.
  assert (lens !! c = Some (length arr)) as Hlen by (unfold lens; by rewrite list_lookup_fmap, Hc).
  pose proof (offn_room lens c _ Hlen). destruct (Fs (first c * 8 + j)%nat) as [-> ->]; [|by apply Hslots].
  destruct (decide (c < c')%nat).
  - pose proof (offn_mono lens (S c) c' ltac:(lia)). lia.
  - pose proof (offn_mono lens (S c') c ltac:(lia)). lia.
Qed.

(** The arrays once the clusters below [n] are placed. *)
Record placed (n : nat) (a : arrays) : Prop := {
  placed_sized : sized a;
  placed_done c arr : (c < n)%nat -> arrs !! c = Some arr -> filled c arr a;
  placed_todo c : (n <= c < K)%nat -> filled c [] a
}.

Lemma initial_placed : placed 0 (initial K (map Z.of_nat lens) (map (fun i => Z.of_nat (offn lens i)) (seq 0 (S K)))).
Proof.
  assert (length lens = K) as HK by (unfold lens; apply length_map).
  pose proof (totalBlocks_ok lens ltac:(rewrite HK; apply blocks_fit)) as Ht. rewrite HK in Ht.
  unfold initial. rewrite Ht, Nat2Z.id. split.
  - split; cbn [codes lbls bboxMin bboxMax curBlock curLane]; rewrite ?repeat_length; try done; try lia.
    + unfold quantized. apply List.Forall_forall. intros x Hx%repeat_spec. lia.
    + apply List.Forall_forall. intros x Hx%repeat_spec. lia.
    + rewrite length_take, length_map, length_seq. lia.
  - lia.
  - intros c Hc. split; cbn [codes lbls bboxMin bboxMax curBlock curLane length].
    + rewrite lookup_take_lt by lia. rewrite list_lookup_fmap, lookup_seq_lt by lia.
      cbv [fmap option_fmap option_map]. rewrite Nat.Div0.div_0_l, Nat.add_0_l, Nat.add_0_r. done.
    + rewrite lookup_repeat by lia. done.
    + intros j i Hj. by rewrite lookup_nil in Hj.
    + eexists _, _. rewrite !lookup_repeat by lia. split; [done|]. split; [done|apply boxes_start].
Qed.

Lemma place_all_ok a0 :
  placed 0 a0 -> returns (foldM (place_cluster unspec vecs labels arrs) a0 (seq 0 K)) (placed K).
Proof.
  intros H0. apply (wp_for _ placed); [done|]. intros c a Hc [Hs Hd Ht]. rewrite Nat.add_0_l.
  destruct (lookup_lt_is_Some_2 arrs c Hc) as [arr Harr].
  eapply wp_conseq; [by eapply place_cluster_ok; eauto|]. intros a' (Hs' & Hf' & Hfr). split; [done| |].
  - intros c' arr' Hc' Harr'. destruct (decide (c' = c)) as [->|Hne]; [by simplify_eq|].
    eapply filled_frame; [exact Harr'|done|done| |exact Hfr]. apply Hd; [lia|done].
  - intros c' Hc'. destruct (lookup_lt_is_Some_2 arrs c' ltac:(lia)) as [arr' Harr'].
    eapply filled_frame; [exact Harr'|simpl; lia| | |exact Hfr]; [lia|]. apply Ht. lia.
Qed.

End Place.

(** ** Sorting *)

Section Sorting.
Context `{SliceSort} (vecs centers : list vector).
Hypothesis vecs_ok : Forall row_ok vecs.
Hypothesis centers_ok : Forall row_ok centers.

Lemma vector_length (rows : list vector) i v : Forall row_ok rows -> rows !! i = Some v -> length v = DIMS.
Proof. intros Hr Hv. by destruct (Forall_lookup_1 _ _ _ _ Hr Hv). Qed.

Lemma sort_cluster_ok center arr :
  length center = DIMS -> Forall (fun i => (i < length vecs)%nat) arr ->
  sort_cluster vecs center arr = Ok (sort_slice (less_dist vecs center) arr).
Proof.
  intros Hc Harr. unfold sort_cluster.
  enough (foldM (fun (_ : unit) i => v ← get vecs i; _ ← dist2F32 v center; Ok tt) tt arr = Ok tt) as E
    by (rewrite E; by rewrite bind_Ok).
  induction Harr as [|i arr Hi _ IH]; [done|]. cbn [foldM].
  destruct (lookup_lt_is_Some_2 vecs i Hi) as [v Hv].
  destruct (dist2F32_ok v center (vector_length _ _ _ vecs_ok Hv) Hc) as [d Hd].
  by rewrite (get_ok _ _ _ Hv), bind_Ok, Hd, !bind_Ok.
Qed.

(** The member lists, every one in order. *)
Definition sorted_members (idx : list (list nat)) : list (list nat) :=
  zip_with (fun center arr => sort_slice (less_dist vecs center) arr) centers idx.

Lemma sort_clusters_ok idx :
  length idx = length centers -> Forall (Forall (fun i => (i < length vecs)%nat)) idx ->
  sort_clusters vecs centers idx = Ok (sorted_members idx).
Proof.
  intros Hl Hidx. unfold sort_clusters.
  assert (length (sorted_members idx) = length idx) as Hls.
  { unfold sorted_members. rewrite length_zip_with. lia. }
  assert (returns (foldM (fun out ci => center ← get centers ci; arr ← get idx ci;
         arr ← sort_cluster vecs center arr; set out ci arr) idx (seq 0 (length idx))) (fun out =>
    length out = length idx /\ forall i, (i < length idx)%nat -> out !! i = sorted_members idx !! i)) as Hr.
  { apply (wp_for _ (fun k out => length out = length idx /\
      forall i, (i < k)%nat -> out !! i = sorted_members idx !! i)).
    - split; [done|lia].
    - intros k out Hk [Ho HI]. rewrite Nat.add_0_l.
      destruct (lookup_lt_is_Some_2 centers k ltac:(lia)) as [center Hc].
      destruct (lookup_lt_is_Some_2 idx k Hk) as [arr Harr].
      rewrite (get_ok _ _ _ Hc), bind_Ok, (get_ok _ _ _ Harr), bind_Ok.
      rewrite sort_cluster_ok, bind_Ok.
      2: { by eapply vector_length. }
      2: { by eapply Forall_lookup_1 in Hidx. }
      rewrite set_ok by lia. apply wp_ok. rewrite length_insert. split; [done|]. intros i Hi.
      destruct (decide (i = k)) as [->|Hne].
      + rewrite list_lookup_insert_eq by lia. symmetry. apply lookup_zip_with_Some.
        by exists center, arr.
      + rewrite list_lookup_insert_ne by done. apply HI. lia. }
  apply returns_inv in Hr as (out & -> & Ho & HI). f_equal. apply list_eq_same_length with (length idx); try done.
  intros i x y Hi Hx Hy. rewrite HI in Hx by done. congruence.
Qed.

Lemma sorted_members_perm idx c arr :
  length idx = length centers -> idx !! c = Some arr ->
  exists arr', sorted_members idx !! c = Some arr' /\ arr' ≡ₚ arr.
Proof.
  intros Hl Harr. destruct (lookup_lt_is_Some_2 centers c) as [center Hc].
  { apply lookup_lt_Some in Harr. lia. }
  eexists. split; [apply lookup_zip_with_Some; by exists center, arr|]. apply sort_slice_perm.
Qed.

End Sorting.

(** ** Centroids *)

Lemma centroidSoA_ok unspec centers :
  Forall row_ok centers ->
  let ncb := ((length centers + 7) / 8)%nat in
  returns (centroidSoA unspec (length centers) centers) (fun codes =>
    length codes = (ncb * 128)%nat /\ quantized codes /\
    forall ci c, centers !! ci = Some c -> vec codes (ci / 8) (ci mod 8) = quantized_row unspec c).
Proof.
  intros Hc ncb. unfold centroidSoA. cbv zeta. set (K := length centers) in *.
  replace ((K + 8 - 1) / 8)%nat with ncb by (unfold ncb; f_equal; lia).
  assert (forall ci c, centers !! ci = Some c -> (ci < K)%nat) as Hlt by (intros ??; apply lookup_lt_Some).
  eapply wp_conseq.
  { apply (wp_for _ (fun k codes => length codes = (ncb * 128)%nat /\ quantized codes /\
      forall ci c, (ci < k)%nat -> centers !! ci = Some c ->
        vec codes (ci / 8) (ci mod 8) = quantized_row unspec c)).
    - rewrite repeat_length. split; [lia|]. split; [|lia].
      unfold quantized. apply List.Forall_forall. intros x Hx%repeat_spec. lia.
    - intros k codes Hk (Hl & Hq & HI). rewrite Nat.add_0_l.
      destruct (lookup_lt_is_Some_2 centers k Hk) as [c Hck].
      destruct (quantize_row_ok unspec c) as (Eq & Hcl & Hcq); [by eapply Forall_lookup_1 in Hc|].
      rewrite (get_ok _ _ _ Hck), bind_Ok, Eq, bind_Ok.
      pose proof (Nat.div_mod_eq k 8). pose proof (Nat.mod_upper_bound k 8 ltac:(lia)).
      pose proof (blocks_for_bounds K). unfold blocks_for in *. fold ncb in H1.
      eapply wp_conseq; [apply store_lane_ok; [lia|lia|done|done|done]|].
      intros codes' (Hl' & Hq' & Hv & Hrest). split; [lia|]. split; [done|].
      intros ci c' Hci Hc'. destruct (decide (ci = k)) as [->|Hne]; [by simplify_eq|].
      rewrite Hrest; [apply HI; [lia|done]|apply Nat.mod_upper_bound; lia|].
      intros [= E1 E2]. apply Hne. by apply slot_eq. }
  intros codes (Hl & Hq & HI). split; [done|]. split; [done|]. intros ci c Hci.
  apply HI; [by eapply Hlt|done].
Qed.

(** ** The layout *)

Lemma offn_total ls k : (8 * offn ls k <= sum_list (take k ls) + 7 * k)%nat.
Proof.
  induction k as [|k IH]; [unfold offn; by rewrite !take_0|]. destruct (ls !! k) as [n|] eqn:E.
  - rewrite (offn_S _ _ n), (take_S_r _ _ n), sum_list_with_app by done. cbn [sum_list_with].
    pose proof (blocks_for_bounds n). unfold id in *. lia.
  - apply lookup_ge_None in E. unfold offn in *. rewrite (take_ge ls (S k)) by lia.
    rewrite take_ge in IH by lia. lia.
Qed.

Lemma length_concat_lens {A} (l : list (list A)) : length (concat l) = sum_list (map length l).
Proof. induction l as [|x l IH]; [done|]. simpl. rewrite length_app, IH. done. Qed.

(** The file's contents: the members [arrs] of the clusters fill the blocks. *)
Record laid (unspec : float -> Z) (vecs : list vector) (labels : list Z) (centers : list vector)
    (arrs : list (list nat)) (L : layout) : Prop := {
  laid_K : length arrs = length centers;
  laid_members : concat arrs ≡ₚ seq 0 (length vecs);
  laid_counts : LCounts L = map Z.of_nat (lens arrs);
  laid_offsets : LBlockOffsets L = map (fun i => Z.of_nat (offn (lens arrs) i)) (seq 0 (S (length arrs)));
  laid_n : LN L = Z.of_nat (length vecs);
  laid_total : LTotalBlocks L = Z.of_nat (offn (lens arrs) (length arrs));
  laid_fit : (offn (lens arrs) (length arrs) < Z.to_nat (2 ^ 29))%nat;
  laid_centroids : length (LCentroids L) = ((length arrs + 7) / 8 * 128)%nat;
  laid_centroids_q : quantized (LCentroids L);
  laid_centroid ci c : centers !! ci = Some c ->
    vec (LCentroids L) (ci / 8) (ci mod 8) = quantized_row unspec c;
  laid_codes : length (LCodes L) = (offn (lens arrs) (length arrs) * 128)%nat;
  laid_codes_q : quantized (LCodes L);
  laid_labels : length (LLabels L) = (offn (lens arrs) (length arrs) * 8)%nat;
  laid_labels_01 : Forall (fun l => 0 <= l <= 1) (LLabels L);
  laid_min : length (LBBoxMin L) = length arrs;
  laid_max : length (LBBoxMax L) = length arrs;
  laid_slot c arr j i : arrs !! c = Some arr -> arr !! j = Some i ->
    let s := (offn (lens arrs) c * 8 + j)%nat in
    vec (LCodes L) (s / 8) (s mod 8) = qvec unspec vecs i /\ LLabels L !!! s = lab labels i;
  laid_box c arr : arrs !! c = Some arr ->
    exists mn mx, LBBoxMin L !! c = Some mn /\ LBBoxMax L !! c = Some mx /\
      boxes (map (qvec unspec vecs) arr) mn mx
}.

Section LayOut.
Context `{SliceSort} (unspec : float -> Z) (vecs : list vector) (labels : list Z) (centers : list vector).
Context (assignments : list nat).

(** The number of vectors of every cluster. *)
Definition counts_of : list Z :=
  map (fun c => Z.of_nat (length (bucket assignments c))) (seq 0 (length centers)).

(** The members of the clusters, every cluster in the order of the file. *)
Definition members : list (list nat) :=
  sorted_members vecs centers (map (bucket assignments) (seq 0 (length centers))).

Hypothesis vecs_ok : Forall row_ok vecs.
Hypothesis centers_ok : Forall row_ok centers.
Hypothesis labels_length : length labels = length vecs.
Hypothesis labels_01 : Forall (fun l => 0 <= l <= 1) labels.
Hypothesis assigned : length assignments = length vecs.
Hypothesis assigned_ok : Forall (fun c => (c < length centers)%nat) assignments.
Hypothesis n_ok : Z.of_nat (length vecs) < 2 ^ 31.
Hypothesis K_ok : (length centers <= Index.MaxK)%nat.

Lemma clusters_length : length members = length centers.
Proof. unfold members, sorted_members. rewrite length_zip_with, length_map, length_seq. lia. Qed.

Lemma members_bucket c : (c < length centers)%nat ->
  exists arr, members !! c = Some arr /\ arr ≡ₚ bucket assignments c.
Proof.
  intros Hc. apply sorted_members_perm; [by rewrite length_map, length_seq|].
  by rewrite list_lookup_fmap, lookup_seq_lt.
Qed.

Lemma members_lens : map Z.of_nat (lens members) = counts_of.
Proof.
  apply list_eq_same_length with (length centers).
  - unfold counts_of. by rewrite length_map, length_seq.
  - unfold lens. rewrite !length_map. apply clusters_length.
  - intros c x y Hc Hx Hy. destruct (members_bucket c Hc) as (arr & Harr & Hp).
    unfold lens in Hx. rewrite !list_lookup_fmap, Harr in Hx. unfold counts_of in Hy.
    rewrite list_lookup_fmap, lookup_seq_lt in Hy by done. simpl in Hx, Hy. rewrite Hp in Hx. congruence.
Qed.

Lemma members_perm : concat members ≡ₚ seq 0 (length vecs).
Proof.
  rewrite <-assigned, <-(buckets_perm (length centers) assignments assigned_ok).
  assert (forall l l' : list (list nat), Forall2 Permutation l l' -> concat l ≡ₚ concat l') as Hc.
  { induction 1 as [|a b l l' Hab _ IH]; [done|]. simpl. by rewrite Hab, IH. }
  apply Hc. apply Forall2_same_length_lookup_2; [by rewrite clusters_length, length_map, length_seq|].
  intros c x y Hx Hy. pose proof (lookup_lt_Some _ _ _ Hx) as Hlt. rewrite clusters_length in Hlt.
  destruct (members_bucket c Hlt) as (arr & Harr & Hp).
  rewrite list_lookup_fmap, lookup_seq_lt in Hy by done. simpl in Hy. congruence.
Qed.

Lemma members_below : Forall (Forall (fun i => (i < length vecs)%nat)) members.
Proof.
  apply List.Forall_forall. intros arr Harr. apply List.Forall_forall. intros i Hi.
  enough (i ∈ seq 0 (length vecs)) as Hin by (apply list_elem_of_In, in_seq in Hin; lia).
  rewrite <-members_perm. apply list_elem_of_In, in_concat. by exists arr.
Qed.

Lemma members_fit : (offn (lens members) (length members) < Z.to_nat (2 ^ 29))%nat.
Proof.
  pose proof (offn_total (lens members) (length members)) as Ht.
  rewrite take_ge in Ht by (unfold lens; by rewrite length_map).
  unfold lens in Ht at 2. rewrite <-length_concat_lens, members_perm, length_seq in Ht.
  rewrite clusters_length in *. change Index.MaxK with 4096%nat in K_ok. lia.
Qed.

Lemma lay_out_ok :
  returns (lay_out unspec (length centers) vecs labels centers assignments counts_of)
    (laid unspec vecs labels centers members).
Proof.
  pose proof members_fit as Hfit. pose proof clusters_length as HK. pose proof members_below.
  pose proof (blockOffsets_ok (lens members)) as Hoff.
  pose proof (totalBlocks_ok (lens members)) as Htot.
  assert (length (lens members) = length members) as Hll by (unfold lens; apply length_map).
  rewrite Hll in Hoff, Htot. specialize (Hoff Hfit). specialize (Htot Hfit).
  rewrite members_lens in Hoff, Htot. unfold lay_out.
  rewrite <-HK at 1. rewrite Hoff, bind_Ok, clusterIdx_ok, bind_Ok by done.
  rewrite sort_clusters_ok, bind_Ok; [|done|done|by rewrite length_map, length_seq|].
  2: { apply List.Forall_forall. intros arr (c & <- & _)%in_map_iff. apply List.Forall_forall.
       intros i Hi%list_elem_of_In. unfold bucket in Hi. apply list_elem_of_filter in Hi as [_ Hi].
       apply list_elem_of_In, in_seq in Hi. lia. }
  fold members. apply wp_bind. eapply wp_conseq.
  { apply (place_all_ok unspec vecs labels members); try assumption.
    rewrite <-members_lens, <-HK. apply initial_placed; assumption. }
  intros a [Hs Hd _]. apply wp_bind. eapply wp_conseq; [by apply centroidSoA_ok|].
  intros cs (Hcl & Hcq & Hcv). apply wp_ok. rewrite <-HK in Hcl.
  split; cbn [LCounts LBlockOffsets LN LTotalBlocks LCentroids LCodes LLabels LBBoxMin LBBoxMax]; try done.
  all: try apply Hs.
  - apply members_perm.
  - by rewrite members_lens.
  - by rewrite u32_id by lia.
  - intros c arr j i Harr Hj. pose proof (lookup_lt_Some _ _ _ Harr).
    exact (filled_slots _ _ _ _ _ _ _ (Hd c arr ltac:(done) Harr) j i Hj).
  - intros c arr Harr. pose proof (lookup_lt_Some _ _ _ Harr).
    exact (filled_boxes _ _ _ _ _ _ _ (Hd c arr ltac:(done) Harr)).
Qed.

End LayOut.

End Layout.
