(* ===== verification/IndexFile.v ===== *)
(** * cmd/buildindex: writing the index file

    The end of [main] of [cmd/buildindex/main.go] with [writeI16] and [writeU32]: the
    header and the seven sections, written one after the other, every write possibly
    failing.  The file is then read back by [Index.Open]. *)

From S2P Require Import Prelude Floats Index Kernel Layout.

Module IndexFile.
Import Index Layout.

Local Open Scope Z_scope.

(** ** The code *)

Definition byte_of (v : Z) : byte := chr (u8 v).

(** [binary.LittleEndian.PutUint16] and [PutUint32] at an offset. *)
Definition PutUint16 (buf : list byte) (off : nat) (v : Z) : res (list byte) :=
  _ ← get buf (off + 1);
  buf ← set buf off (byte_of v);
  set buf (off + 1) (byte_of (Z.shiftr v 8)).
Definition PutUint32 (buf : list byte) (off : nat) (v : Z) : res (list byte) :=
  _ ← get buf (off + 3);
  buf ← set buf off (byte_of v);
  buf ← set buf (off + 1) (byte_of (Z.shiftr v 8));
  buf ← set buf (off + 2) (byte_of (Z.shiftr v 16));
  set buf (off + 3) (byte_of (Z.shiftr v 24)).

(** The buffers [writeI16] and [writeU32] write. *)
Definition writeI16 (vs : list Z) : res (list byte) :=
  foldM (fun buf i => v ← get vs i; PutUint16 buf (i * 2) (u16 v)) (repeat x00 (length vs * 2)) (seq 0 (length vs)).
Definition writeU32 (vs : list Z) : res (list byte) :=
  foldM (fun buf i => v ← get vs i; PutUint32 buf (i * 4) v) (repeat x00 (length vs * 4)) (seq 0 (length vs)).

(** [math.Float32bits]. *)
Definition Float32bits (x : float) : Z :=
  let sign (s : bool) := if s then 2147483648 else 0 in
  match x with
  | S754_zero s => sign s
  | S754_infinity s => sign s + 2139095040
  | S754_nan => 2143289344
  | S754_finite s m e =>
      sign s + (if Zpos m <? 8388608 then Zpos m else (e + 150) * 8388608 + (Zpos m - 8388608))
  end.

Definition QuantScale : float := f32_of_Z 10000.

(** [binary.Write] of the header: its fields in order, little-endian, then the
    reserved bytes. *)
Definition bytes32 (v : Z) : list byte :=
  [byte_of v; byte_of (Z.shiftr v 8); byte_of (Z.shiftr v 16); byte_of (Z.shiftr v 24)].
Definition header_bytes (h : Header) : list byte :=
  bytes32 (HdrMagic h) ++ bytes32 (HdrVersion h) ++ bytes32 (HdrK h) ++ bytes32 (HdrN h) ++
  bytes32 (HdrNBlocks h) ++ bytes32 (Float32bits (HdrScale h)) ++ repeat x00 40.

Definition hdr (K : nat) (L : layout) : Header :=
  mkHeader Magic Version (Z.of_nat K) (LN L) (LTotalBlocks L) QuantScale.

(** A [range] loop that produces a value per element. *)
Definition mapM {A B} (f : A -> res B) (l : list A) : res (list B) :=
  foldM (fun out x => y ← f x; Ok (out ++ [y])) [] l.

(** The writes, in order. *)
Definition chunks (K : nat) (L : layout) : res (list (list byte)) :=
  centroids ← writeI16 (LCentroids L);
  mins ← mapM writeI16 (LBBoxMin L);
  maxs ← mapM writeI16 (LBBoxMax L);
  offsets ← writeU32 (LBlockOffsets L);
  counts ← writeU32 (LCounts L);
  codes ← writeI16 (LCodes L);
  Ok ([header_bytes (hdr K L); centroids] ++ mins ++ maxs ++ [offsets; counts; codes; map chr (LLabels L)]).

(** The file after the writes: [outs] says how each of them ends, [Some n] for an error
    after [n] bytes, upon which the program exits ([log.Fatal]) with the file as it is.
    The last outcome is that of [out.Close], whose error is reported too. *)
Fixpoint write_all (outs : list (option nat)) (file : list byte) (cs : list (list byte)) : list byte * bool :=
  match cs with
  | [] => (file, match outs with Some _ :: _ => false | _ => true end)
  | c :: cs' =>
      match outs with
      | Some n :: _ => (file ++ take n c, false)
      | None :: outs' => write_all outs' (file ++ c) cs'
      | [] => write_all [] (file ++ c) cs'
      end
  end.

Definition write_index (outs : list (option nat)) (K : nat) (L : layout) : res (list byte * bool) :=
  cs ← chunks K L; Ok (write_all outs [] cs).

(** ** Little-endian buffers *)

Definition bytes16 (v : Z) : list byte := [byte_of v; byte_of (Z.shiftr v 8)].

Lemma PutUint16_ok pre a b suf v :
  PutUint16 (pre ++ [a; b] ++ suf) (length pre) v = Ok (pre ++ bytes16 v ++ suf).
Proof.
  unfold PutUint16. set (l := pre ++ [a; b] ++ suf).
  assert (length l = length pre + (2 + length suf))%nat as Hl by (unfold l; rewrite !length_app; done).
  rewrite (get_total l), bind_Ok by lia. rewrite set_ok, bind_Ok by lia.
  rewrite set_ok by (rewrite length_insert; lia). f_equal. unfold l.
  rewrite <-(Nat.add_0_r (length pre)) at 2. by rewrite !insert_app_r.
Qed.

Lemma PutUint32_ok pre a b c d suf v :
  PutUint32 (pre ++ [a; b; c; d] ++ suf) (length pre) v = Ok (pre ++ bytes32 v ++ suf).
Proof.
  unfold PutUint32. set (l := pre ++ [a; b; c; d] ++ suf).
  assert (length l = length pre + (4 + length suf))%nat as Hl by (unfold l; rewrite !length_app; done).
  rewrite (get_total l), bind_Ok by lia. rewrite set_ok, bind_Ok by lia.
  rewrite set_ok, bind_Ok by (rewrite length_insert; lia).
  rewrite set_ok, bind_Ok by (rewrite !length_insert; lia).
  rewrite set_ok by (rewrite !length_insert; lia). f_equal. unfold l.
  rewrite <-(Nat.add_0_r (length pre)) at 4. by rewrite !insert_app_r.
Qed.

(** A loop that fills a zeroed buffer slot by slot. *)
Lemma fill_buffer (put : list byte -> nat -> Z -> res (list byte)) (enc : Z -> list byte) w vs :
  (forall v, length (enc v) = w) ->
  (forall pre old suf v, length old = w -> put (pre ++ old ++ suf) (length pre) v = Ok (pre ++ enc v ++ suf)) ->
  foldM (fun buf i => v ← get vs i; put buf (i * w)%nat v) (repeat x00 (length vs * w)) (seq 0 (length vs)) =
  Ok (flat_map enc vs).
Proof.
  intros Hw Hput.
  assert (forall k, length (flat_map enc (take k vs)) = (length (take k vs) * w)%nat) as Hlen.
  { intros k. induction (take k vs) as [|x l IH]; [done|]. simpl. rewrite length_app, Hw, IH. lia. }
  replace (repeat x00 (length vs * w)) with (flat_map enc (take 0 vs) ++ repeat x00 ((length vs - 0) * w))
    by (by rewrite take_0, Nat.sub_0_r).
  rewrite (foldM_chain _ (fun k => flat_map enc (take k vs) ++ repeat x00 ((length vs - k) * w)) 0).
  - rewrite take_ge, Nat.sub_diag by done. simpl. by rewrite app_nil_r.
  - intros k Hk. rewrite Nat.add_0_l. destruct (lookup_lt_is_Some_2 vs k Hk) as [v Hv].
    rewrite (get_ok _ _ _ Hv), bind_Ok. replace (length vs - k)%nat with (1 + (length vs - S k))%nat by lia.
    rewrite Nat.mul_add_distr_r, Nat.mul_1_l, repeat_app.
    replace (k * w)%nat with (length (flat_map enc (take k vs))) by (rewrite Hlen, length_take; f_equal; lia).
    rewrite Hput by apply repeat_length. f_equal. rewrite (take_S_r _ _ v) by done.
    rewrite flat_map_app. simpl. by rewrite app_nil_r, <-app_assoc.
Qed.

Lemma writeI16_ok vs : writeI16 vs = Ok (flat_map (fun v => bytes16 (u16 v)) vs).
Proof.
  apply (fill_buffer (fun buf off v => PutUint16 buf off (u16 v)) (fun v => bytes16 (u16 v)) 2); [done|].
  intros pre [|a [|b [|]]] suf v Ho; try discriminate Ho. apply PutUint16_ok.
Qed.

Lemma writeU32_ok vs : writeU32 vs = Ok (flat_map bytes32 vs).
Proof.
  apply (fill_buffer PutUint32 bytes32 4); [done|].
  intros pre [|a [|b [|c [|d [|]]]]] suf v Ho; try discriminate Ho. apply PutUint32_ok.
Qed.

Lemma mapM_ok {A B} (f : A -> res B) (g : A -> B) l : (forall x, f x = Ok (g x)) -> mapM f l = Ok (map g l).
Proof.
  intros Hf. unfold mapM.
  enough (forall acc, foldM (fun out x => y ← f x; Ok (out ++ [y])) acc l = Ok (acc ++ map g l)) as H by apply (H []).
  induction l as [|x l IH]; intros acc; simpl; [by rewrite app_nil_r|].
  rewrite Hf, !bind_Ok, IH. by rewrite <-app_assoc.
Qed.

(** ** Decoding *)

Lemma bval_byte_of v : bval (byte_of v) = v mod 256.
Proof. apply bval_chr. apply Z.mod_pos_bound. lia. Qed.

Lemma byte_at v k : 0 <= k -> bval (byte_of (Z.shiftr v k)) = v / 2 ^ k mod 256.
Proof. intros Hk. by rewrite bval_byte_of, Z.shiftr_div_pow2. Qed.

Lemma split16 v : 0 <= v < 65536 -> v mod 256 + v / 2 ^ 8 mod 256 * 256 = v.
Proof.
  intros Hv. change (2 ^ 8) with 256. rewrite (Z.mod_small (v / 256)).
  - pose proof (Z.div_mod v 256). lia.
  - pose proof (Z.div_mod v 256). pose proof (Z.mod_pos_bound v 256). lia.
Qed.

Lemma split32 v : 0 <= v < 4294967296 ->
  v mod 256 + v / 2 ^ 8 mod 256 * 256 + v / 2 ^ 16 mod 256 * 65536 + v / 2 ^ 24 mod 256 * 16777216 = v.
Proof.
  intros Hv. change (2 ^ 8) with 256. change (2 ^ 16) with (256 * 256). change (2 ^ 24) with (256 * (256 * 256)).
  rewrite <-!Z.div_div by lia. Z.to_euclidean_division_equations. lia.
Qed.

Lemma u16_range v : 0 <= u16 v < 65536.
Proof. unfold u16, wrapU. apply Z.mod_pos_bound. lia. Qed.

Lemma i16_u16 v : -32768 <= v <= 32767 -> i16 (u16 v) = v.
Proof.
  intros Hv. unfold i16, u16, wrapS, wrapU. change (2 ^ 16) with 65536. change (2 ^ (16 - 1)) with 32768.
  rewrite Z.add_mod_idemp_l by lia. rewrite Z.mod_small by lia. lia.
Qed.

Lemma words16_bytes vs :
  Forall (fun v => -32768 <= v <= 32767) vs -> words16 (flat_map (fun v => bytes16 (u16 v)) vs) = vs.
Proof.
  induction 1 as [|v vs Hv _ IH]; [done|]. simpl. rewrite IH, bval_byte_of, byte_at by lia.
  rewrite split16 by apply u16_range. by rewrite i16_u16.
Qed.

Lemma words32_bytes vs :
  Forall (fun v => 0 <= v < 4294967296) vs -> words32 (flat_map bytes32 vs) = vs.
Proof.
  induction 1 as [|v vs Hv _ IH]; [done|]. simpl. rewrite IH, bval_byte_of, !byte_at by lia.
  by rewrite split32.
Qed.

Lemma Uint32_bytes v : 0 <= v < 4294967296 -> Uint32 (bytes32 v) = Ok v.
Proof. intros Hv. cbn. rewrite bval_byte_of, !byte_at by lia. by rewrite split32. Qed.

Lemma length_flat (enc : Z -> list byte) w vs :
  (forall v, length (enc v) = w) -> length (flat_map enc vs) = (length vs * w)%nat.
Proof. intros Hw. induction vs as [|v vs IH]; [done|]. simpl. rewrite length_app, Hw, IH. lia. Qed.

Lemma i16Slice_bytes vs rest n :
  Forall (fun v => -32768 <= v <= 32767) vs -> n = Z.of_nat (length vs) ->
  i16Slice (flat_map (fun v => bytes16 (u16 v)) vs ++ rest) n = vs.
Proof.
  intros Hv ->. unfold i16Slice. destruct (Z.eqb_spec (Z.of_nat (length vs)) 0); [by destruct vs|].
  rewrite take_app_length'; [by apply words16_bytes|]. rewrite (length_flat _ 2); [lia|done].
Qed.

Lemma u32Slice_bytes vs rest n :
  Forall (fun v => 0 <= v < 4294967296) vs -> n = Z.of_nat (length vs) ->
  u32Slice (flat_map bytes32 vs ++ rest) n = vs.
Proof.
  intros Hv ->. unfold u32Slice. destruct (Z.eqb_spec (Z.of_nat (length vs)) 0); [by destruct vs|].
  rewrite take_app_length'; [by apply words32_bytes|]. rewrite (length_flat _ 4); [lia|done].
Qed.

(** A [float32] and its bits. *)
Definition canonical (x : float) : Prop :=
  match x with
  | S754_finite _ m e => (Zpos m < 8388608 /\ e = -149) \/ (8388608 <= Zpos m < 16777216 /\ -149 <= e <= 104)
  | S754_nan => False
  | _ => True
  end.

Lemma bit_fields (s : bool) e m :
  0 <= e < 256 -> 0 <= m < 8388608 ->
  let b := (if s then 2147483648 else 0) + (e * 8388608 + m) in
  Z.testbit b 31 = s /\ Z.land (Z.shiftr b 23) 255 = e /\ Z.land b 8388607 = m.
Proof.
  intros He Hm. cbv zeta. set (b := (if s then 2147483648 else 0) + (e * 8388608 + m)).
  assert (b / 2 ^ 31 = if s then 1 else 0) as H31.
  { symmetry. apply (Z.div_unique _ _ _ (e * 8388608 + m)); unfold b; destruct s; lia. }
  assert (b / 2 ^ 23 = (if s then 256 else 0) + e) as H23.
  { symmetry. apply (Z.div_unique _ _ _ m); unfold b; destruct s; lia. }
  assert (b mod 2 ^ 23 = m) as M23.
  { pose proof (Z.div_mod b (2 ^ 23)). unfold b in *. destruct s; lia. }
  split; [|split].
  - rewrite Z.testbit_odd, Z.shiftr_div_pow2, H31 by lia. by destruct s.
  - change 255 with (Z.ones 8). rewrite Z.land_ones, Z.shiftr_div_pow2, H23 by lia. change (2 ^ 8) with 256.
    symmetry. apply (Z.mod_unique _ _ (if s then 1 else 0)); destruct s; lia.
  - change 8388607 with (Z.ones 23). by rewrite Z.land_ones.
Qed.

(** The bits of a [float32] give it back. *)
Lemma Float32bits_inverse x :
  canonical x -> 0 <= Float32bits x < 4294967296 /\ float32FromBits (Float32bits x) = x.
Proof.
  unfold float32FromBits. destruct x as [s|s| |s m e]; cbn [canonical]; intros Hx; try done.
  - by destruct s.
  - by destruct s.
  - unfold Float32bits. destruct Hx as [[Hm ->]|[Hm He]].
    + replace (Zpos m <? 8388608) with true by lia.
      destruct (bit_fields s 0 (Zpos m) ltac:(lia) ltac:(lia)) as (F1 & F2 & F3).
      rewrite Z.mul_0_l, Z.add_0_l in F1, F2, F3. rewrite F1, F2, F3.
      split; [destruct s; lia|]. done.
    + replace (Zpos m <? 8388608) with false by lia.
      destruct (bit_fields s (e + 150) (Zpos m - 8388608) ltac:(lia) ltac:(lia)) as (F1 & F2 & F3).
      rewrite F1, F2, F3. split; [destruct s; lia|].
      replace (e + 150 =? 255) with false by lia. replace (e + 150 =? 0) with false by lia.
      replace (Zpos m - 8388608 + 8388608) with (Zpos m) by lia. f_equal. lia.
Qed.

(** ** The contents of the file *)

(** An index the layout can be written as: sizes and ranges of the sections. *)
Record writable (K : nat) (L : layout) : Prop := {
  w_K : Z.of_nat K < 4294967296;
  w_n : 0 <= LN L < 4294967296;
  w_nb : 0 <= LTotalBlocks L < 4294967296;
  w_centroids : length (LCentroids L) = Z.to_nat (ncb_of (Z.of_nat K) * 128);
  w_centroids_r : Forall (fun v => -32768 <= v <= 32767) (LCentroids L);
  w_min : length (concat (LBBoxMin L)) = (K * 16)%nat;
  w_min_r : Forall (fun v => -32768 <= v <= 32767) (concat (LBBoxMin L));
  w_max : length (concat (LBBoxMax L)) = (K * 16)%nat;
  w_max_r : Forall (fun v => -32768 <= v <= 32767) (concat (LBBoxMax L));
  w_offsets : length (LBlockOffsets L) = S K;
  w_offsets_r : Forall (fun v => 0 <= v < 4294967296) (LBlockOffsets L);
  w_counts : length (LCounts L) = K;
  w_counts_r : Forall (fun v => 0 <= v < 4294967296) (LCounts L);
  w_codes : length (LCodes L) = Z.to_nat (LTotalBlocks L * 128);
  w_codes_r : Forall (fun v => -32768 <= v <= 32767) (LCodes L);
  w_labels : length (LLabels L) = Z.to_nat (LTotalBlocks L * 8);
  w_labels_r : Forall (fun v => 0 <= v < 256) (LLabels L)
}.

#[local] Abbreviation enc16 := (flat_map (fun v => bytes16 (u16 v))).
#[local] Abbreviation enc32 := (flat_map bytes32).

Definition contents (K : nat) (L : layout) : list byte :=
  header_bytes (hdr K L) ++ enc16 (LCentroids L) ++ enc16 (concat (LBBoxMin L)) ++
  enc16 (concat (LBBoxMax L)) ++ enc32 (LBlockOffsets L) ++ enc32 (LCounts L) ++
  enc16 (LCodes L) ++ map chr (LLabels L).

(** The index the contents stand for. *)
Definition index_of (K : nat) (L : layout) : Index :=
  mkIndex (hdr K L) (LCentroids L) (ncb_of (Z.of_nat K)) (concat (LBBoxMin L)) (concat (LBBoxMax L))
    (LBlockOffsets L) (LCounts L) (LCodes L) (LLabels L) (Z.of_nat K) (LN L) (LTotalBlocks L).

Lemma flat_map_concat {A B} (f : A -> list B) ls : concat (map (flat_map f) ls) = flat_map f (concat ls).
Proof. induction ls as [|l ls IH]; [done|]. simpl. by rewrite flat_map_app, IH. Qed.

Lemma write_all_full file cs : write_all [] file cs = (file ++ concat cs, true).
Proof.
  revert file. induction cs as [|c cs IH]; intros file; simpl; [by rewrite app_nil_r|].
  rewrite IH. by rewrite <-app_assoc.
Qed.

Lemma chunks_ok K L : exists cs, chunks K L = Ok cs /\ concat cs = contents K L.
Proof.
  unfold chunks. rewrite (writeI16_ok (LCentroids L)), bind_Ok.
  rewrite (mapM_ok writeI16 enc16 (LBBoxMin L) writeI16_ok), bind_Ok.
  rewrite (mapM_ok writeI16 enc16 (LBBoxMax L) writeI16_ok), bind_Ok.
  rewrite (writeU32_ok (LBlockOffsets L)), bind_Ok, (writeU32_ok (LCounts L)), bind_Ok.
  rewrite (writeI16_ok (LCodes L)), bind_Ok. eexists. split; [done|].
  rewrite !concat_app, !flat_map_concat. unfold contents. cbn [concat].
  by rewrite ?app_nil_r, <-?app_assoc.
Qed.

(** A write that failed leaves a prefix of the contents. *)
Lemma write_all_prefix outs file cs file' ok :
  write_all outs file cs = (file', ok) ->
  file' `prefix_of` file ++ concat cs /\ (ok = true -> file' = file ++ concat cs).
Proof.
  revert outs file. induction cs as [|c cs IH]; intros outs file; simpl.
  - intros [= <- _]. rewrite app_nil_r. done.
  - assert (forall outs, write_all outs (file ++ c) cs = (file', ok) ->
      file' `prefix_of` file ++ c ++ concat cs /\ (ok = true -> file' = file ++ c ++ concat cs)) as Hrec.
    { intros o H. apply IH in H. by rewrite <-app_assoc in H. }
    destruct outs as [|[n|] outs]; [apply Hrec| |apply Hrec].
    intros [= <- <-]. split; [|done]. apply prefix_app. by apply prefix_app_r, prefix_take.
Qed.


(** ** Reading it back *)

Lemma header_fields h rest off v :
  take 4 (drop off (header_bytes h ++ rest)) = bytes32 v -> 0 <= v < 4294967296 ->
  field (header_bytes h ++ rest) off = v.
Proof. intros Ht Hv. unfold field. by rewrite Ht, Uint32_bytes. Qed.

Lemma slice_suffix (pre suf : list byte) cur size :
  cur = Z.of_nat (length pre) -> size = Z.of_nat (length (pre ++ suf)) -> slice (pre ++ suf) cur size = Ok suf.
Proof.
  intros -> ->. rewrite slice_from by lia. rewrite length_app.
  destruct (Z.ltb_spec (Z.of_nat (length pre + length suf)) (Z.of_nat (length pre))); [lia|].
  by rewrite Nat2Z.id, drop_app_length.
Qed.

Lemma QuantScale_canonical : canonical QuantScale.
Proof. vm_compute. right. split; split; congruence. Qed.

Lemma map_bval_chr ls : Forall (fun v => 0 <= v < 256) ls -> map bval (map chr ls) = ls.
Proof. induction 1 as [|v ls Hv _ IH]; [done|]. simpl. by rewrite bval_chr, IH. Qed.

Section ReadBack.
Context (K : nat) (L : layout).
Hypothesis w : writable K L.

Lemma contents_header :
  header_of (contents K L) = hdr K L /\ field (contents K L) 0 = Magic /\ field (contents K L) 4 = Version.
Proof.
  destruct w as [HK Hn Hnb _ _ _ _ _ _ _ _ _ _ _ _ _ _]. unfold contents.
  destruct (Float32bits_inverse QuantScale QuantScale_canonical) as [Hr Hf].
  assert (field (contents K L) 0 = Magic) as F0 by (by apply header_fields).
  assert (field (contents K L) 4 = Version) as F1 by (by apply header_fields).
  split; [|done]. unfold header_of. unfold contents in F0, F1. rewrite F0, F1.
  rewrite (header_fields _ _ 8 (Z.of_nat K)), (header_fields _ _ 12 (LN L)),
    (header_fields _ _ 16 (LTotalBlocks L)), (header_fields _ _ 20 (Float32bits QuantScale)), Hf;
    (reflexivity || lia).
Qed.

Lemma contents_length : Z.of_nat (length (contents K L)) = file_size (Z.of_nat K) (LTotalBlocks L).
Proof.
  destruct w. unfold contents, file_size. rewrite !length_app, length_map.
  rewrite !(length_flat (fun v => bytes16 (u16 v)) 2), !(length_flat bytes32 4) by done.
  change (length (header_bytes (hdr K L))) with 64%nat.
  assert (0 <= ncb_of (Z.of_nat K)) by (apply Z.div_pos; lia). lia.
Qed.

Definition sections : list (list byte) :=
  [header_bytes (hdr K L); enc16 (LCentroids L); enc16 (concat (LBBoxMin L)); enc16 (concat (LBBoxMax L));
   enc32 (LBlockOffsets L); enc32 (LCounts L); enc16 (LCodes L); map chr (LLabels L)].

Lemma contents_sections : contents K L = concat sections.
Proof. unfold contents, sections. cbn [concat]. by rewrite app_nil_r. Qed.

Lemma cut_section k cur :
  cur = Z.of_nat (length (concat (take k sections))) ->
  slice (contents K L) cur (file_size (Z.of_nat K) (LTotalBlocks L)) = Ok (concat (drop k sections)).
Proof.
  intros Hcur. rewrite <-contents_length, contents_sections.
  assert (concat sections = concat (take k sections) ++ concat (drop k sections)) as ->
    by (by rewrite <-concat_app, take_drop).
  by apply slice_suffix.
Qed.

Lemma section_lengths :
  length (header_bytes (hdr K L)) = 64%nat /\
  Z.of_nat (length (enc16 (LCentroids L))) = ncb_of (Z.of_nat K) * 256 /\
  length (enc16 (concat (LBBoxMin L))) = (K * 32)%nat /\ length (enc16 (concat (LBBoxMax L))) = (K * 32)%nat /\
  length (enc32 (LBlockOffsets L)) = (S K * 4)%nat /\ length (enc32 (LCounts L)) = (K * 4)%nat /\
  Z.of_nat (length (enc16 (LCodes L))) = LTotalBlocks L * 256.
Proof.
  destruct w. assert (0 <= ncb_of (Z.of_nat K)) by (apply Z.div_pos; lia).
  rewrite !(length_flat (fun v => bytes16 (u16 v)) 2), !(length_flat bytes32 4) by done.
  split; [done|]. lia.
Qed.

#[local] Ltac section_start :=
  unfold sections; cbn [take concat]; rewrite ?length_app; cbn [length]; lia.

#[local] Ltac cut_next k :=
  match goal with |- slice _ ?cur _ ≫= _ = _ =>
    rewrite (cut_section k cur) by section_start; rewrite bind_Ok
  end.

(** What was written is what [Open] reads. *)
Lemma Open_contents : Open (contents K L) = Ok (index_of K L).
Proof.
  destruct contents_header as (Hh & H0 & H4). pose proof contents_length as Hlen.
  assert (0 <= ncb_of (Z.of_nat K)) as Hncb by (apply Z.div_pos; lia).
  destruct section_lengths as (L0 & L1 & L2 & L3 & L4 & L5 & L6).
  rewrite (proj1 (Open_eq (contents K L) ltac:(rewrite Hlen; unfold file_size, HeaderSize; destruct w; lia) H0 H4)), Hh.
  unfold Open_sections.
  cbn [HdrK HdrNBlocks hdr]. unfold godiv, BlockBytes, HeaderSize. rewrite Z.quot_div_nonneg by lia.
  replace (Z.of_nat K + 8 - 1) with (Z.of_nat K + 7) by lia. fold (ncb_of (Z.of_nat K)).
  destruct (touch_pages (contents K L)) as [acc| | |] eqn:Htouch;
    try (pose proof (touch_pages_ok (contents K L)) as Hw; by rewrite Htouch in Hw).
  rewrite Hlen. cbv zeta.
  assert (file_size (Z.of_nat K) (LTotalBlocks L) =
    64 + ncb_of (Z.of_nat K) * 256 + Z.of_nat K * 16 * 2 + Z.of_nat K * 16 * 2 + (Z.of_nat K + 1) * 4 +
    Z.of_nat K * 4 + LTotalBlocks L * 256 + LTotalBlocks L * 8) as Hsize by (unfold file_size; lia).
  rewrite <-Hsize.
  cut_next 1%nat. cut_next 2%nat. cut_next 3%nat. cut_next 4%nat. cut_next 5%nat. cut_next 6%nat. cut_next 7%nat.
  rewrite bind_Ok.
  unfold sections. cbn [drop concat]. destruct w.
  rewrite !i16Slice_bytes, !u32Slice_bytes by (done || lia).
  by rewrite app_nil_r, map_bval_chr.
Qed.

End ReadBack.

(** What becomes of a file that was cut short: it has no whole header, or it panics [Open],
    and the unchecked [Open] accepts it with a section that reaches over its end. *)
Definition cut_short (file : list byte) : Prop :=
  if Z.of_nat (length file) <? HeaderSize then Open file = Fail ErrTooSmall /\ Open_unchecked file = Fail ErrTooSmall
  else Open file = Panic /\
    exists hdr vs, Open_unchecked file = Ok (hdr, vs) /\ Exists (fun v => v.1 <= Z.of_nat (length file) < v.1 + v.2) vs.

(** A proper prefix of the contents, as a failed write leaves it. *)
Lemma Open_prefix K L data :
  writable K L -> data `prefix_of` contents K L -> (length data < length (contents K L))%nat -> cut_short data.
Proof.
  intros w [rest Hpre] Hlt. destruct (contents_header K L w) as (Hh & H0 & H4).
  pose proof (contents_length K L w) as Hlen. unfold cut_short.
  destruct (Z.ltb_spec (Z.of_nat (length data)) HeaderSize) as [Hs|Hs].
  { unfold Open, Open_unchecked, Open_header. by destruct (Z.ltb_spec (Z.of_nat (length data)) HeaderSize); [|lia]. }
  assert (forall off, (off <= 60)%nat -> field data off = field (contents K L) off) as Hf.
  { intros off Ho. unfold HeaderSize in Hs. unfold field. rewrite Hpre.
    rewrite (drop_app_le data rest) by lia. rewrite take_app_le; [done|]. rewrite length_drop. lia. }
  destruct (Open_eq data Hs) as [-> ->]; [by rewrite Hf by lia..|].
  assert (header_of data = hdr K L) as -> by (rewrite <-Hh; unfold header_of; by rewrite !Hf by lia).
  pose proof (views_end (hdr K L) (Z.of_nat (length data))) as Hv. cbn [HdrK HdrNBlocks hdr] in Hv.
  specialize (Hv ltac:(lia) ltac:(destruct w; lia) Hs).
  destruct (Z.ltb_spec (Z.of_nat (length data)) (file_size (Z.of_nat K) (LTotalBlocks L))); [|lia].
  split; [apply Open_sections_short; cbn [HdrK HdrNBlocks hdr]; destruct w; lia|].
  by exists (hdr K L), (views (hdr K L)).
Qed.

End IndexFile.
