(* ===== verification/Cluster.v ===== *)
(** * cmd/buildindex: clustering

    The random generator, [nearest], [kmeansPlusPlus] and the assignment loop of
    [cmd/buildindex/main.go].  The generator's state is passed along; [KMeansSample] and
    the number of clusters are parameters (500000 and 4096 in the program).  The log
    lines are left out. *)

From S2P Require Import Prelude Floats Quantize Layout.

Module Cluster.
Import Quantize Layout.

Local Open Scope Z_scope.

(** ** The generator *)

Definition SeedDefault : Z := 0xDEADBEEFCAFEBABE.

Definition newRng (seed : Z) : Z := if seed =? 0 then 1 else seed.

(** [next]: the number drawn is the new state. *)
Definition next (s : Z) : Z :=
  let x := s in
  let x := Z.lxor x (u64 (Z.shiftl x 13)) in
  let x := Z.lxor x (Z.shiftr x 7) in
  Z.lxor x (u64 (Z.shiftl x 17)).

(** [pick] and [unit] return the new state too.  A division by zero panics. *)
Definition pick (s : Z) (n : nat) : res (Z * nat) :=
  let x := next s in
  if (n =? 0)%nat then Panic else Ok (x, Z.to_nat (x mod Z.of_nat n)).
Definition unit (s : Z) : Z * float :=
  let x := next s in (x, f64_div (f64_of_Z (Z.shiftr x 11)) (f64_of_Z 9007199254740992)).

(** ** k-means *)

Definition zero64 : float := S754_zero false.
Definition one64 : float := f64_of_Z 1.

(** One turn of the search for the nearest center; the state is [bestD] and [best]. *)
Definition nearest_step (p : vector) (st : float * nat) (ic : nat * vector) : res (float * nat) :=
  d ← dist2F32 p ic.2; Ok (if f_lt d st.1 then (d, ic.1) else st).

(** The loop of [nearest], and the same loop in [kmeansPlusPlus]. *)
Definition nearest_loop (centers : list vector) (p : vector) : res (float * nat) :=
  foldM (nearest_step p) (inf32, 0%nat) (imap pair centers).
Definition nearest (centers : list vector) (p : vector) : res nat :=
  st ← nearest_loop centers p; Ok st.2.

(** The first point where the running sum reaches the target. *)
Fixpoint choose (target : float) (acc : float) (i : nat) (ds : list float) (chosen : nat) : nat :=
  match ds with
  | [] => chosen
  | d :: ds' =>
      let acc := f64_add acc (f64_of_f32 d) in
      if f_ge acc target then i else choose target acc (S i) ds' chosen
  end.

Definition draw_sample (points : list vector) (sampleN : nat) (rng : Z) : res (Z * list vector) :=
  foldM (fun '(r, sample) (i : nat) =>
    '(r, k) ← pick r (length points); p ← get points k; sample ← set sample i p; Ok (r, sample))
    (rng, repeat (repeat (S754_zero false) DIMS) sampleN) (seq 0 sampleN).

(** One turn of the seeding loop: the next center, then the distances to the nearest one. *)
Definition seed_step (sample : list vector) (st : Z * list vector * list float) (ci : nat)
    : res (Z * list vector * list float) :=
  let '(rng, centers, minDist) := st in
  let sum := foldl (fun s d => f64_add s (f64_of_f32 d)) zero64 minDist in
  '(rng, k) ← (if f_le sum zero64 then pick rng (length sample)
               else
                 let '(rng, u) := unit rng in
                 Ok (rng, choose (f64_mul u sum) zero64 0 minDist (length sample - 1)));
  s ← get sample k;
  centers ← set centers ci s;
  minDist ← foldM (fun ds i => p ← get sample i; c ← get centers ci; d ← dist2F32 p c;
    m ← get ds i; if f_lt d m then set ds i d else Ok ds) minDist (seq 0 (length sample));
  Ok (rng, centers, minDist).

Definition seeding (sample centers : list vector) (rng : Z) : res (Z * list vector) :=
  '(rng, k) ← pick rng (length sample);
  s ← get sample k;
  centers ← set centers 0 s;
  minDist ← foldM (fun ds i => p ← get sample i; c ← get centers 0; d ← dist2F32 p c; set ds i d)
    (repeat (S754_zero false) (length sample)) (seq 0 (length sample));
  st ← foldM (seed_step sample) (rng, centers, minDist) (seq 1 (length centers - 1));
  Ok (st.1.1, st.1.2).

(** One point of an iteration; the state is [sums], [counts] and [sse]. *)
Definition accumulate (centers : list vector) (st : list vector * list Z * float) (p : vector)
    : res (list vector * list Z * float) :=
  let '(sums, counts, sse) := st in
  '(bestD, best) ← nearest_loop centers p;
  n ← get counts best; counts ← set counts best (u64 (n + 1));
  sums ← foldM (fun sums j => s ← get sums best; x ← get p j; y ← get s j;
    s ← set s j (f64_add y (f64_of_f32 x)); set sums best s) sums (seq 0 DIMS);
  Ok (sums, counts, f64_add sse (f64_of_f32 bestD)).

(** The new center of cluster [i]. *)
Definition recenter (sample sums : list vector) (counts : list Z) (st : Z * list vector) (i : nat)
    : res (Z * list vector) :=
  let '(rng, centers) := st in
  n ← get counts i;
  if 0 <? n then
    let inv := f64_div one64 (f64_of_Z n) in
    centers ← foldM (fun centers j => s ← get sums i; x ← get s j; c ← get centers i;
      c ← set c j (f32_of_f64 (f64_mul x inv)); set centers i c) centers (seq 0 DIMS);
    Ok (rng, centers)
  else
    '(rng, k) ← pick rng (length sample);
    p ← get sample k; centers ← set centers i p; Ok (rng, centers).

Definition iteration (sample : list vector) (st : Z * list vector) (it : nat) : res (Z * list vector) :=
  let '(rng, centers) := st in
  let K := length centers in
  '(sums, counts, sse) ← foldM (accumulate centers)
    (repeat (repeat zero64 DIMS) K, repeat 0 K, zero64) sample;
  foldM (recenter sample sums counts) (rng, centers) (seq 0 K).

Definition kmeansPlusPlus (KMeansSample : nat) (points centers : list vector) (iters : nat) : res (list vector) :=
  let rng := newRng SeedDefault in
  let sampleN := if (length points <? KMeansSample)%nat then length points else KMeansSample in
  '(rng, sample) ← draw_sample points sampleN rng;
  '(rng, centers) ← seeding sample centers rng;
  '(rng, centers) ← foldM (iteration sample) (rng, centers) (seq 0 iters);
  Ok centers.

(** The assignment of every vector to a cluster, and the cluster counts. *)
Definition assign (centers vecs : list vector) : res (list nat * list Z) :=
  foldM (fun '(assignments, counts) '(i, v) =>
    c ← nearest centers v;
    assignments ← set assignments i c;
    n ← get counts c; counts ← set counts c (u32 (n + 1));
    Ok (assignments, counts))
    (repeat 0%nat (length vecs), repeat 0 (length centers)) (imap pair vecs).

(** ** The generator never sticks *)

Lemma lxor_range w a b : 0 <= w -> 0 <= a < 2 ^ w -> 0 <= b < 2 ^ w -> 0 <= Z.lxor a b < 2 ^ w.
Proof.
  intros Hw Ha Hb. assert (forall x, 0 <= x < 2 ^ w <-> Z.land x (Z.ones w) = x) as Hx.
  { intros x. rewrite Z.land_ones by done. split; [intros; by apply Z.mod_small|].
    intros <-. apply Z.mod_pos_bound. by apply Z.pow_pos_nonneg. }
  apply Hx. apply Hx in Ha, Hb. apply Z.bits_inj'. intros n Hn.
  rewrite Z.land_spec, Z.lxor_spec. rewrite <-Ha, <-Hb, !Z.land_spec.
  destruct (Z.testbit a n), (Z.testbit b n), (Z.testbit (Z.ones w) n); done.
Qed.

Lemma u64_testbit x n : 0 <= n -> Z.testbit (u64 x) n = (n <? 64) && Z.testbit x n.
Proof.
  intros Hn. unfold u64, wrapU. destruct (Z.ltb_spec n 64); simpl.
  - by rewrite Z.mod_pow2_bits_low.
  - by rewrite Z.mod_pow2_bits_high.
Qed.

Lemma high_bits x n : 0 <= x < 2 ^ 64 -> 64 <= n -> Z.testbit x n = false.
Proof. intros Hx Hn. rewrite <-(Z.mod_small x (2 ^ 64)) by done. by rewrite Z.mod_pow2_bits_high. Qed.

(** A xor-shift in either direction has a trivial kernel. *)
Lemma shl_kernel x k : 0 < k -> 0 <= x < 2 ^ 64 -> Z.lxor x (u64 (Z.shiftl x k)) = 0 -> x = 0.
Proof.
  intros Hk Hx H0. apply Z.bits_inj'. intros n Hn. rewrite Z.bits_0.
  revert n Hn. apply (Zlt_0_ind (fun n => Z.testbit x n = false)). intros n IH Hn. destruct (Z.lt_ge_cases n 64) as [Hlt|]; [|by apply high_bits].
  pose proof (Z.bits_0 n) as Hb. rewrite <-H0, Z.lxor_spec, u64_testbit, Z.shiftl_spec in Hb by done.
  replace (n <? 64) with true in Hb by lia. simpl in Hb.
  destruct (Z.lt_ge_cases n k).
  - rewrite (Z.testbit_neg_r x (n - k)) in Hb by lia. by destruct (Z.testbit x n).
  - rewrite (IH (n - k)) in Hb by lia. by destruct (Z.testbit x n).
Qed.

Lemma shr_kernel x k : 0 < k -> 0 <= x < 2 ^ 64 -> Z.lxor x (Z.shiftr x k) = 0 -> x = 0.
Proof.
  intros Hk Hx H0.
  assert (forall d n, 0 <= n -> 64 - n <= Z.of_nat d -> Z.testbit x n = false) as Hall.
  { induction d as [|d IH]; intros n Hn Hd; [apply high_bits; [done|lia]|].
    pose proof (Z.bits_0 n) as Hb. rewrite <-H0, Z.lxor_spec, Z.shiftr_spec in Hb by done.
    rewrite (IH (n + k)) in Hb by lia. by destruct (Z.testbit x n). }
  apply Z.bits_inj'. intros n Hn. rewrite Z.bits_0. apply (Hall 64%nat); lia.
Qed.

Definition rng_ok (s : Z) : Prop := 0 < s < 2 ^ 64.

Lemma xorshift_ok x y : rng_ok x -> 0 <= y < 2 ^ 64 -> (Z.lxor x y = 0 -> x = 0) -> rng_ok (Z.lxor x y).
Proof.
  unfold rng_ok. intros Hx Hy Hk. pose proof (lxor_range 64 x y ltac:(lia) ltac:(lia) Hy).
  destruct (Z.eq_dec (Z.lxor x y) 0) as [E|E]; [specialize (Hk E)|]; lia.
Qed.

Lemma next_ok s : rng_ok s -> rng_ok (next s).
Proof.
  intros Hs. unfold next. cbv zeta.
  assert (forall k x, 0 < k -> rng_ok x -> rng_ok (Z.lxor x (u64 (Z.shiftl x k)))) as Hl.
  { intros k x Hk Hx. apply xorshift_ok; [done|apply u64_range|]. apply shl_kernel; [done|unfold rng_ok in *; lia]. }
  apply Hl; [lia|]. set (x := Z.lxor s _). assert (rng_ok x) as Hx by (by apply Hl).
  apply xorshift_ok; [done| |apply shr_kernel; [lia|unfold rng_ok in *; lia]].
  unfold rng_ok in Hx. rewrite Z.shiftr_div_pow2 by lia.
  split; [apply Z.div_pos; lia|]. apply Z.div_lt_upper_bound; lia.
Qed.

Lemma newRng_ok seed : 0 <= seed < 2 ^ 64 -> rng_ok (newRng seed).
Proof. intros H. unfold newRng, rng_ok. destruct (Z.eqb_spec seed 0); lia. Qed.

Lemma pick_ok s n : rng_ok s -> (0 < n)%nat -> exists k, pick s n = Ok (next s, k) /\ (k < n)%nat.
Proof.
  intros Hs Hn. unfold pick. replace (n =? 0)%nat with false by lia. eexists. split; [done|].
  pose proof (Z.mod_pos_bound (next s) (Z.of_nat n)). lia.
Qed.

(** ** The order of floats *)

(** Floats that are not NaN compare like their class, exponent and mantissa. *)
Definition class (x : float) : Z :=
  match x with
  | S754_infinity s => if s then -2 else 2
  | S754_finite s _ _ => if s then -1 else 1
  | _ => 0
  end.
Definition expo (x : float) : Z := match x with S754_finite s _ e => if s then - e else e | _ => 0 end.
Definition mant (x : float) : Z := match x with S754_finite s m _ => if s then - Zpos m else Zpos m | _ => 0 end.

Definition below (x y : float) : Prop :=
  class x < class y \/ (class x = class y /\
    (expo x < expo y \/ (expo x = expo y /\ mant x < mant y))).

Lemma f_lt_below x y : f_lt x y = true <-> not_nan x /\ not_nan y /\ below x y.
Proof.
  unfold f_lt, SFltb, below.
  destruct x as [s|s| |s m e], y as [s'|s'| |s' m' e']; cbn [SFcompare class expo mant not_nan];
    try (destruct s); try (destruct s'); try (split; [done|lia]); try (split; [lia|lia]);
    try (split; [done|intuition lia]); try (split; [intuition lia|done]).
  - pose proof (compare_cont_cases m m') as Hm. destruct (Z.compare_spec e e');
      destruct (Pos.compare_cont Eq m m'); cbn; (split; [intuition (lia || done)|intuition (lia || done)]).
  - pose proof (compare_cont_cases m m') as Hm. destruct (Z.compare_spec e e');
      destruct (Pos.compare_cont Eq m m'); cbn; (split; [intuition (lia || done)|intuition (lia || done)]).
Qed.

Lemma f_lt_trans x y z : f_lt x y = true -> f_lt y z = true -> f_lt x z = true.
Proof. rewrite !f_lt_below. unfold below. intros (? & ? & ?) (? & ? & ?). split; [done|]. split; [done|lia]. Qed.

Lemma f_lt_irrefl x : f_lt x x = false.
Proof. apply not_true_iff_false. rewrite f_lt_below. unfold below. lia. Qed.

Lemma f_lt_inf x y : f_lt x y = true -> f_lt x inf32 = true.
Proof.
  rewrite !f_lt_below. unfold below. intros (Hx & _ & Hxy). split; [done|]. split; [done|].
  destruct x as [s|[]| |[] m e], y as [s'|[]| |[] m' e']; cbn [class expo mant] in *; cbn; lia.
Qed.

(** ** The nearest center *)

Definition rows (l : list vector) : Prop := Forall (fun v => length v = DIMS) l.

Lemma rows_get l i v : rows l -> l !! i = Some v -> length v = DIMS.
Proof. intros Hl Hv. by eapply Forall_lookup_1 in Hl. Qed.

(** Center [c] is one that no center is nearer than. *)
Definition closest (centers : list vector) (p : vector) (c : nat) : Prop :=
  (c < length centers)%nat /\
  forall i v d dc, centers !! i = Some v -> dist2F32 p v = Ok d -> dist2F32 p (centers !!! c) = Ok dc ->
    f_lt d dc = false.

(** The loop finds the first of the closest centers: no center is nearer, and every
    earlier one is farther, unless the distances are infinite. *)
Lemma nearest_loop_ok centers p :
  rows centers -> length p = DIMS -> centers <> [] ->
  returns (nearest_loop centers p) (fun st => closest centers p st.2 /\ not_nan st.1).
Proof.
  intros Hc Hp Hne. unfold nearest_loop. eapply wp_conseq.
  { apply (wp_foldM _ (fun vis (st : float * nat) =>
      (forall k v d, (k < length vis)%nat -> centers !! k = Some v -> dist2F32 p v = Ok d -> f_lt d st.1 = false) /\
      (st = (inf32, 0%nat) \/
       (st.2 < length centers)%nat /\ dist2F32 p (centers !!! st.2) = Ok st.1 /\ not_nan st.1))).
    - split; [intros k v d Hk; simpl in Hk; lia|by left].
    - intros vis [i v] rest [bd b] Heq [Hmin Hb]. unfold nearest_step. cbn [fst snd] in *.
      assert (imap pair centers !! length vis = Some (i, v)) as Hl.
      { rewrite Heq. by apply list_lookup_middle. }
      rewrite list_lookup_imap in Hl. destruct (centers !! length vis) as [v'|] eqn:Hv; [|done].
      injection Hl as <- ->. destruct (dist2F32_ok p v Hp (rows_get _ _ _ Hc Hv)) as [d Hd].
      rewrite Hd, bind_Ok. apply wp_ok. rewrite length_app, Nat.add_1_r.
      pose proof (lookup_lt_Some _ _ _ Hv).
      destruct (f_lt d bd) eqn:E; cbn [fst snd].
      + split.
        * intros k w dk Hk Hw Hdk. destruct (decide (k = length vis)) as [->|].
          { assert (dk = d) as -> by congruence. apply f_lt_irrefl. }
          specialize (Hmin k w dk ltac:(lia) Hw Hdk).
          destruct (f_lt dk d) eqn:E'; [|done]. by rewrite (f_lt_trans dk d bd) in Hmin.
        * right. split; [done|]. split; [by rewrite (list_lookup_total_correct _ _ _ Hv)|].
          by apply f_lt_below in E as (? & _).
      + split; [|done]. intros k w dk Hk Hw Hdk. destruct (decide (k = length vis)) as [->|];
          [by assert (dk = d) as -> by congruence|].
        apply (Hmin k w dk); [lia|done|done]. }
  intros [bd b] [Hmin Hb]. cbn [fst snd] in *. rewrite length_imap in Hmin.
  destruct Hb as [[= -> ->]|(Hb & Hd & Hn)]; (split; [|done]); split.
  - by destruct centers; [|simpl; lia].
  - intros i v d dc Hv Hdv Hdc. destruct (f_lt d dc) eqn:E; [|done].
    apply f_lt_inf in E. by rewrite (Hmin i v d (lookup_lt_Some _ _ _ Hv) Hv Hdv) in E.
  - done.
  - intros i v d dc Hv Hdv Hdc. assert (dc = bd) as -> by congruence. by apply (Hmin i v d (lookup_lt_Some _ _ _ Hv) Hv Hdv).
Qed.

Lemma nearest_ok centers p :
  rows centers -> length p = DIMS -> centers <> [] -> returns (nearest centers p) (closest centers p).
Proof.
  intros Hc Hp Hne. unfold nearest. apply wp_bind. eapply wp_conseq; [by apply nearest_loop_ok|].
  intros st [H _]. by apply wp_ok.
Qed.

(** ** The assignment *)

Lemma filter_ext_elem {A} (P Q : A -> Prop) `{!forall x, Decision (P x), !forall x, Decision (Q x)} (l : list A) :
  (forall x, x ∈ l -> P x <-> Q x) -> filter P l = filter Q l.
Proof.
  induction l as [|x l IH]; intros Hl; [done|].
  assert (filter P l = filter Q l) as E by (apply IH; intros y Hy; apply Hl, elem_of_cons; by right).
  specialize (Hl x ltac:(by apply elem_of_cons; left)).
  destruct (decide (P x)).
  - rewrite (filter_cons_True P), (filter_cons_True Q) by (done || by apply Hl). by rewrite E.
  - rewrite (filter_cons_False P), (filter_cons_False Q) by (done || by rewrite <-Hl). done.
Qed.

(** The members of cluster [c] among the first [k] vectors. *)
Definition members_upto (assignments : list nat) (k c : nat) : list nat :=
  filter (fun i => assignments !! i = Some c) (seq 0 k).

Lemma members_upto_S assignments k c c' :
  (k < length assignments)%nat ->
  members_upto (<[k := c']> assignments) (S k) c =
    members_upto assignments k c ++ (if decide (c = c') then [k] else []).
Proof.
  intros Hk. unfold members_upto. rewrite seq_S, list.filter_app, Nat.add_0_l. f_equal.
  - apply filter_ext_elem. intros i Hi. apply list_elem_of_In, in_seq in Hi.
    rewrite list_lookup_insert_ne by lia. done.
  - destruct (decide (c = c')) as [->|Hne].
    + by rewrite filter_cons_True by (by rewrite list_lookup_insert_eq).
    + by rewrite filter_cons_False by (rewrite list_lookup_insert_eq by done; congruence).
Qed.

Lemma assign_ok centers vecs :
  rows centers -> rows vecs -> centers <> [] -> Z.of_nat (length vecs) < 2 ^ 32 ->
  returns (assign centers vecs) (fun '(assignments, counts) =>
    length assignments = length vecs /\
    (forall i v, vecs !! i = Some v -> exists c, assignments !! i = Some c /\ closest centers v c) /\
    counts = counts_of centers assignments).
Proof.
  intros Hc Hv Hne Hn. unfold assign. eapply wp_conseq.
  { apply (wp_foldM _ (fun vis '(assignments, counts) =>
      length assignments = length vecs /\ length counts = length centers /\
      (forall i v, (i < length vis)%nat -> vecs !! i = Some v ->
        exists c, assignments !! i = Some c /\ closest centers v c) /\
      forall c, (c < length centers)%nat ->
        counts !! c = Some (Z.of_nat (length (members_upto assignments (length vis) c))))).
    - rewrite !repeat_length. repeat (split; [done|]). split; [intros i v Hi; simpl in Hi; lia|].
      intros c Hlt. by rewrite lookup_repeat.
    - intros vis [i v] rest [assignments counts] Heq (La & Lc & Has & Hco).
      assert (imap pair vecs !! length vis = Some (i, v)) as Hl.
      { rewrite Heq. by apply list_lookup_middle. }
      rewrite list_lookup_imap in Hl. destruct (vecs !! length vis) as [v'|] eqn:Hiv; [|done].
      injection Hl as <- ->. pose proof (lookup_lt_Some _ _ _ Hiv) as Hlt.
      apply wp_bind. eapply wp_conseq; [apply nearest_ok; [done|by eapply rows_get|done]|].
      intros c Hcl. pose proof (proj1 Hcl) as HcK.
      rewrite set_ok, bind_Ok by lia. rewrite (get_ok _ _ _ (Hco c HcK)), bind_Ok, set_ok, bind_Ok by lia.
      apply wp_ok. rewrite !length_insert, length_app, Nat.add_1_r. split; [done|]. split; [done|]. split.
      + intros j w Hj Hw. destruct (decide (j = length vis)) as [->|Hnj].
        * simplify_eq. exists c. by rewrite list_lookup_insert_eq by lia.
        * rewrite list_lookup_insert_ne by done. apply Has; [lia|done].
      + intros d Hd. rewrite members_upto_S, length_app by lia.
        pose proof (length_filter (fun i => assignments !! i = Some c) (seq 0 (length vis))) as Hfl.
        rewrite length_seq in Hfl. fold (members_upto assignments (length vis) c) in Hfl.
        destruct (decide (d = c)) as [->|Hnd].
        * rewrite list_lookup_insert_eq by lia. rewrite u32_id by lia. f_equal. simpl. lia.
        * rewrite list_lookup_insert_ne by done. rewrite Hco by done. simpl. f_equal. lia. }
  intros [assignments counts] (La & Lc & Has & Hco). rewrite length_imap in *.
  split; [done|]. split; [intros i v Hi; apply Has; [by eapply lookup_lt_Some|done]|].
  apply list_eq_same_length with (length centers); [by unfold counts_of; rewrite length_map, length_seq|done|].
  intros c x y Hlt Hx Hy. rewrite Hco in Hx by done. unfold counts_of in Hy.
  rewrite list_lookup_fmap, lookup_seq_lt in Hy by done. simpl in Hy.
  unfold bucket in Hy. rewrite La in Hy. unfold members_upto in Hx. congruence.
Qed.

(** ** Averages stay numbers *)

Lemma digits_le m k : 0 <= m -> 0 <= k -> m <= 2 ^ k -> Zdigits2 m <= k + 1.
Proof.
  intros Hm Hk H. destruct (Z.eq_dec m 0) as [->|]; [simpl; lia|].
  pose proof (digits_bounds m ltac:(lia)) as [Hl _].
  assert (2 ^ (Zdigits2 m - 1) <= 2 ^ k) as Hp by lia. apply Z.pow_le_mono_r_iff in Hp; lia.
Qed.

Section Small.
Variable prec emax : Z.
Hypothesis prec_pos : 0 < prec.
Hypothesis range : emin prec emax <= emax - prec.

(** Rounding does not overflow on a number with room to spare. *)
Lemma round_aux_small sx m e l :
  0 <= m -> e <= emax - prec -> Zdigits2 m + e <= emax - 1 ->
  match binary_round_aux prec emax sx m e l with
  | S754_zero _ => True | S754_finite _ m' _ => Zpos m' < 2 ^ prec | _ => False
  end.
Proof.
  intros Hm He HD. pose proof (round_aux_digits prec emax prec_pos sx m e l Hm) as HA.
  unfold binary_round_aux, shr_fexp in *. set (D := Zdigits2 m + e) in *.
  set (n1 := fexp prec emax D - e) in *.
  pose proof (shr_spec (shr_record_of_loc m l) e n1) as H1. rewrite record_of_loc in H1. specialize (H1 Hm).
  destruct (shr (shr_record_of_loc m l) e n1) as [r1 e1]. destruct H1 as (He1 & Hm1 & _).
  assert (0 < 2 ^ Z.max 0 n1) by (apply Z.pow_pos_nonneg; lia).
  assert (0 <= shr_m r1) as Hr1 by (rewrite Hm1; apply Z.div_pos; lia).
  set (m1 := round_nearest_even (shr_m r1) (loc_of_shr_record r1)) in *.
  pose proof (digits_nonneg m Hm) as Hdm.
  assert (shr_m r1 < 2 ^ Z.max 0 (D - e1)) as Hlt.
  { assert (m < 2 ^ Zdigits2 m) as Hmd.
    { destruct (Z.eq_dec m 0) as [->|]; [done|]. apply digits_bounds. lia. }
    rewrite Hm1. apply Z.div_lt_upper_bound; [done|]. rewrite <-Z.pow_add_r by lia.
    eapply Z.lt_le_trans; [exact Hmd|]. apply Z.pow_le_mono_r; unfold D in *; lia. }
  assert (0 <= m1 <= 2 ^ Z.max 0 (D - e1)) as Hm1b by (destruct (round_nearest_bounds r1) as [E|[_ E]]; fold m1 in E; lia).
  pose proof (digits_le m1 (Z.max 0 (D - e1)) ltac:(lia) ltac:(lia) ltac:(lia)) as Hd1.
  pose proof (shr_spec (shr_record_of_loc m1 loc_Exact) e1 (fexp prec emax (Zdigits2 m1 + e1) - e1)) as H2.
  rewrite record_of_loc in H2. specialize (H2 ltac:(lia)).
  destruct (shr (shr_record_of_loc m1 loc_Exact) _ _) as [r2 e2]. destruct H2 as (He2 & _ & _).
  unfold fexp in *. destruct (Z.leb_spec e2 (emax - prec)); [|unfold n1 in *; lia].
  destruct (shr_m r2); try done. by destruct HA.
Qed.
End Small.

(** A finite float. *)
Definition fin (x : float) : Prop :=
  match x with S754_zero _ => True | S754_finite _ m _ => Zpos m < 2 ^ 53 | _ => False end.

(** An integer of at most 53 digits is a double, exactly. *)
Lemma f64_of_Z_exact n :
  0 < n < 2 ^ 53 -> exists m e, f64_of_Z n = S754_finite false m e /\ Zdigits2 (Zpos m) + e = Zdigits2 n /\ -53 <= e <= 0.
Proof.
  intros Hn. destruct n as [|p|p]; try lia. unfold f64_of_Z, binary_normalize, binary_round.
  assert (Zdigits2 (Zpos p) <= 53) as Hd.
  { pose proof (digits_bounds (Zpos p) ltac:(lia)) as [Hl _].
    assert (2 ^ (Zdigits2 (Zpos p) - 1) < 2 ^ 53) as Hp by lia. apply Z.pow_lt_mono_r_iff in Hp; lia. }
  cbn [Zdigits2] in Hd.
  assert (fexp 53 1024 (Zpos (digits2_pos p) + 0) = Zpos (digits2_pos p) - 53) as Hf by (unfold fexp, emin; lia).
  rewrite Hf. pose proof (shl_align_spec p 0 (Zpos (digits2_pos p) - 53)) as [Hv He].
  destruct (shl_align p 0 _) as [m e]. cbn [fst snd] in *.
  assert (e = Zpos (digits2_pos p) - 53) as -> by lia. exists m, (Zpos (digits2_pos p) - 53).
  assert (Zdigits2 (Zpos m) = 53) as Hdm by (rewrite Hv, digits_shift; cbn [Zdigits2]; lia).
  split; [|cbn [Zdigits2] in *; lia]. unfold binary_round_aux, shr_fexp. rewrite Hdm.
  replace (fexp 53 1024 (53 + (Zpos (digits2_pos p) - 53)) - (Zpos (digits2_pos p) - 53)) with 0
    by (unfold fexp, emin; lia).
  cbn [shr shr_record_of_loc shr_m loc_of_shr_record round_nearest_even]. rewrite Hdm.
  replace (fexp 53 1024 (53 + (Zpos (digits2_pos p) - 53)) - (Zpos (digits2_pos p) - 53)) with 0
    by (unfold fexp, emin; lia).
  cbn [shr shr_record_of_loc shr_m]. by replace (Zpos (digits2_pos p) - 53 <=? 1024 - 53) with true by lia.
Qed.

(** The inverse of a count is finite. *)
Lemma inverse_fin n : 0 < n < 2 ^ 53 -> fin (f64_div one64 (f64_of_Z n)).
Proof.
  intros Hn. destruct (f64_of_Z_exact n Hn) as (m2 & e2 & -> & Hd2 & He2).
  pose proof (digits_bounds n ltac:(lia)) as [_ Hu].
  assert (1 <= Zdigits2 n) as Hd1 by (destruct n; cbn in *; lia).
  change one64 with (S754_finite false 4503599627370496 (-52)). unfold f64_div, SFdiv, SFdiv_core_binary.
  change (Zdigits2 4503599627370496) with 53. set (d2 := Zdigits2 (Zpos m2)) in *.
  set (e' := Z.min (fexp 53 1024 (53 + -52 - (d2 + e2))) (-52 - e2)).
  set (s := -52 - e2 - e'). assert (0 <= s) as Hs by lia.
  assert (match s with Zpos _ => Z.shiftl 4503599627370496 s | Z0 => 4503599627370496 | Zneg _ => 0 end = 2 ^ (52 + s)) as ->.
  { rewrite Z.pow_add_r by lia. change (2 ^ 52) with 4503599627370496. destruct s as [|p|p]; [done| |lia].
    by rewrite Z.shiftl_mul_pow2 by lia. }
  pose proof (Z.div_eucl_eq (2 ^ (52 + s)) (Zpos m2) ltac:(lia)) as Hq.
  assert (0 <= (Z.div_eucl (2 ^ (52 + s)) (Zpos m2)).1) as Hq0.
  { exact (Z.div_pos (2 ^ (52 + s)) (Zpos m2) ltac:(apply Z.pow_nonneg; lia) ltac:(lia)). }
  pose proof (Z.mod_pos_bound (2 ^ (52 + s)) (Zpos m2) ltac:(lia)) as Hr. unfold Z.modulo in Hr.
  destruct (Z.div_eucl (2 ^ (52 + s)) (Zpos m2)) as [q r]. cbn [fst] in Hq0.
  pose proof (digits_bounds (Zpos m2) ltac:(lia)) as [Hl2 _]. fold d2 in Hl2.
  assert (1 <= d2) as Hd2' by (unfold d2; cbn; lia).
  assert (Zdigits2 q <= Z.max 0 (52 + s - (d2 - 1)) + 1) as Hdq.
  { apply digits_le; [done|lia|].
    assert (q * 2 ^ (d2 - 1) <= 2 ^ (52 + s)) as Hle.
    { apply Z.le_trans with (Zpos m2 * q); [rewrite (Z.mul_comm (Zpos m2)); by apply Z.mul_le_mono_nonneg_l|lia]. }
    destruct (Z.le_gt_cases (d2 - 1) (52 + s)).
    - apply (Z.mul_le_mono_pos_r _ _ (2 ^ (d2 - 1))); [apply Z.pow_pos_nonneg; lia|].
      rewrite <-Z.pow_add_r by lia. replace (Z.max 0 (52 + s - (d2 - 1)) + (d2 - 1)) with (52 + s) by lia. done.
    - replace (Z.max 0 (52 + s - (d2 - 1))) with 0 by lia.
      assert (2 ^ (52 + s) < 2 ^ (d2 - 1)) by (apply Z.pow_lt_mono_r; lia). nia. }
  pose proof (round_aux_small 53 1024 ltac:(lia) ltac:(by vm_compute) false q e' (new_location (Zpos m2) r) Hq0) as H.
  unfold fin. cbn [xorb]. unfold fexp, emin in *.
  assert (e' <= 0) as He'0 by lia. specialize (H ltac:(lia) ltac:(lia)).
  by destruct (binary_round_aux _ _ _ _ _ _).
Qed.

(** Magnitude at most [b * 2 ^ 128], of either sign. *)
Definition absle (prec : Z) (x : float) (b : Z) : Prop := exists s, fin_le prec s x b 128.

(** A [float32] number that is neither infinite nor a NaN. *)
Definition single (x : float) : Prop := absle 24 x 1.

Lemma absle_fin x b : absle 53 x b -> fin x.
Proof. intros [s H]. destruct x; try done. apply H. Qed.

Lemma single_not_nan x : single x -> not_nan x.
Proof. intros [s H]. by destruct x. Qed.

Lemma single_f64 x : single x -> absle 53 (f64_of_f32 x) 1.
Proof. intros [s H]. exists s. apply (refloat_bound 53 1024 1 128) in H; try done; by vm_compute. Qed.

Lemma absle_weaken prec x a b : a <= b -> absle prec x a -> absle prec x b.
Proof.
  intros Hab [s H]. exists s. destruct x as [?| | |s' m e]; try done. destruct H as (Hs & H & Hm).
  split; [done|]. split; [|done]. intros k H1 H2. specialize (H k H1 H2).
  assert (0 <= 2 ^ (128 + k)) by (apply Z.pow_nonneg; lia). nia.
Qed.

Lemma f64_add_absle x y a b :
  absle 53 x a -> absle 53 y b -> 0 < a -> 0 < b -> a + b < 2 ^ 53 -> absle 53 (f64_add x y) (a + b).
Proof.
  intros Hx Hy Ha Hb Hab.
  destruct x as [s| | |s m e], y as [s'| | |s' m' e'];
    try (by destruct Hx); try (by destruct Hy); unfold f64_add.
  - exists false. by destruct s, s'.
  - apply (absle_weaken _ _ b); [lia|done].
  - apply (absle_weaken _ _ a); [lia|done].
  - destruct Hx as (? & <- & Hx & _), Hy as (? & <- & Hy & _). cbn [SFadd].
    set (ez := Z.min e e'). destruct (shl_align_spec m e ez) as [Hm Em].
    destruct (shl_align_spec m' e' ez) as [Hm' Em']. rewrite Em in Hm. rewrite Em' in Hm'.
    replace (Z.min e ez) with ez in Hm by lia. replace (Z.min e' ez) with ez in Hm' by lia.
    eexists. apply (normalize_bound 53 1024); try lia.
    + destruct (a + b) as [|p|p] eqn:E; try lia. rewrite <-E.
      pose proof (digits_bounds (a + b) ltac:(lia)) as [Hl _].
      assert (2 ^ (Zdigits2 (a + b) - 1) < 2 ^ 53) as Hp by lia. apply Z.pow_lt_mono_r_iff in Hp; lia.
    + by vm_compute.
    + intros k H1 H2.
      assert (forall mm ee c, dle mm ee c 128 -> ez <= ee -> mm * 2 ^ (ee - ez) * 2 ^ (ez + k) <= c * 2 ^ (128 + k)) as Hd.
      { intros mm ee c H He. rewrite <-Z.mul_assoc, <-Z.pow_add_r by lia.
        replace (ee - ez + (ez + k)) with (ee + k) by lia. apply H; lia. }
      pose proof (Hd _ _ _ Hx ltac:(lia)) as D1. pose proof (Hd _ _ _ Hy ltac:(lia)) as D2.
      rewrite <-Hm in D1. rewrite <-Hm' in D2.
      set (u := Zpos (fst (shl_align m e ez))) in *. set (v := Zpos (fst (shl_align m' e' ez))) in *.
      assert (0 <= 2 ^ (ez + k)) by (apply Z.pow_nonneg; lia).
      assert (Z.abs (cond_Zopp s u + cond_Zopp s' v) <= u + v) as Habs by (destruct s, s'; cbn; lia). nia.
Qed.

Lemma round_not_nan prec emax s m e : 0 < prec -> not_nan (binary_round prec emax s m e).
Proof.
  intros Hp. unfold binary_round. destruct (shl_align _ _ _) as [m' e'].
  pose proof (round_aux_digits prec emax Hp s (Zpos m') e' loc_Exact ltac:(lia)) as H.
  by destruct (binary_round_aux _ _ _ _ _ _).
Qed.

Lemma average_not_nan x inv : fin x -> fin inv -> not_nan (f32_of_f64 (f64_mul x inv)).
Proof.
  intros Hx Hi. assert (not_nan (f64_mul x inv)) as H.
  { unfold f64_mul, SFmul. destruct x as [?| | |s m e], inv as [?| | |s' m' e']; try done.
    pose proof (round_aux_digits 53 1024 ltac:(lia) (xorb s s') (Zpos (m * m')) (e + e') loc_Exact ltac:(lia)) as H.
    by destruct (binary_round_aux _ _ _ _ _ _). }
  destruct (f64_mul x inv) as [?|?| |[] m e]; try done; by apply round_not_nan.
Qed.

(** ** k-means is total *)

(** A row of finite [float32] features. *)
Definition fin_row (v : vector) : Prop := length v = DIMS /\ Forall single v.

Lemma fin_row_ok v : fin_row v -> row_ok v.
Proof. intros [Hl Hv]. split; [done|]. eapply List.Forall_impl; [|exact Hv]. apply single_not_nan. Qed.

Lemma fin_rows_ok l : Forall fin_row l -> Forall row_ok l.
Proof. intros H. eapply List.Forall_impl; [|exact H]. apply fin_row_ok. Qed.

Lemma row_ok_rows l : Forall row_ok l -> rows l.
Proof. intros H. eapply List.Forall_impl; [|exact H]. by intros v [? _]. Qed.

Lemma row_ok_get l i v : Forall row_ok l -> l !! i = Some v -> length v = DIMS.
Proof. intros Hl. apply rows_get. by apply row_ok_rows. Qed.

Lemma zero_row : fin_row (repeat (S754_zero false) DIMS).
Proof.
  split; [apply repeat_length|]. apply List.Forall_forall. intros x Hx%repeat_spec. subst. by exists false.
Qed.

Lemma Forall_repeat {A} (P : A -> Prop) x n : P x -> Forall P (repeat x n).
Proof. intros Hx. apply List.Forall_forall. by intros y ->%repeat_spec. Qed.

Lemma draw_sample_ok points sampleN rng :
  Forall fin_row points -> points <> [] -> rng_ok rng ->
  returns (draw_sample points sampleN rng) (fun '(r, sample) =>
    rng_ok r /\ length sample = sampleN /\ Forall fin_row sample).
Proof.
  intros Hp Hne Hr.
  apply (wp_for _ (fun _ '(r, sample) => rng_ok r /\ length sample = sampleN /\ Forall fin_row sample)).
  - split; [done|]. split; [apply repeat_length|]. apply Forall_repeat, zero_row.
  - intros k [r sample] Hk (Hr' & Hl & Hs). rewrite Nat.add_0_l.
    destruct (pick_ok r (length points) Hr') as (j & -> & Hj); [destruct points; [done|simpl; lia]|].
    rewrite bind_Ok. destruct (lookup_lt_is_Some_2 points j Hj) as [v Hv].
    rewrite (get_ok _ _ _ Hv), bind_Ok, set_ok, bind_Ok by lia. apply wp_ok. rewrite length_insert.
    split; [by apply next_ok|]. split; [done|]. apply Forall_insert; [done|]. by eapply Forall_lookup_1 in Hp.
Qed.

Lemma choose_lt target N ds : forall acc i chosen,
  (chosen < N)%nat -> (i + length ds <= N)%nat -> (choose target acc i ds chosen < N)%nat.
Proof.
  induction ds as [|d ds IH]; intros acc i chosen Hc Hi; simpl in *; [done|].
  destruct (f_ge _ target); [lia|]. apply IH; lia.
Qed.

(** The distances of the sample to one center. *)
Lemma sample_dist sample i centers c p v :
  Forall row_ok sample -> Forall row_ok centers -> sample !! i = Some p -> centers !! c = Some v ->
  exists d, dist2F32 p v = Ok d.
Proof. intros Hs Hc Hp Hv. apply dist2F32_ok; [exact (row_ok_get _ _ _ Hs Hp)|exact (row_ok_get _ _ _ Hc Hv)]. Qed.

Lemma seed_step_ok sample rng centers minDist ci :
  Forall row_ok sample -> sample <> [] -> rng_ok rng -> Forall row_ok centers -> (ci < length centers)%nat ->
  length minDist = length sample ->
  returns (seed_step sample (rng, centers, minDist) ci) (fun '(rng', centers', minDist') =>
    rng_ok rng' /\ length centers' = length centers /\ Forall row_ok centers' /\ length minDist' = length sample).
Proof.
  intros Hs Hne Hr Hc Hci Hm. unfold seed_step. set (sum := foldl _ _ _).
  assert (0 < length sample)%nat as H0 by (destruct sample; [done|simpl; lia]).
  assert (returns (if f_le sum zero64 then pick rng (length sample)
               else let '(rng, u) := unit rng in
                    Ok (rng, choose (f64_mul u sum) zero64 0 minDist (length sample - 1)))
            (fun '(r, k) => rng_ok r /\ (k < length sample)%nat)) as Hk.
  { destruct (f_le sum zero64).
    - destruct (pick_ok rng (length sample) Hr H0) as (k & -> & Hk). apply wp_ok. split; [by apply next_ok|done].
    - cbn [unit]. apply wp_ok. split; [by apply next_ok|]. apply choose_lt; lia. }
  apply wp_bind. eapply wp_conseq; [exact Hk|]. intros [r k] [Hr' Hk'].
  destruct (lookup_lt_is_Some_2 sample k Hk') as [s Hsk].
  rewrite (get_ok _ _ _ Hsk), bind_Ok, set_ok, bind_Ok by done.
  assert (Forall row_ok (<[ci:=s]> centers)) as Hc'.
  { apply Forall_insert; [done|]. by eapply Forall_lookup_1 in Hs. }
  apply wp_bind. eapply wp_conseq.
  { apply (wp_for _ (fun _ ds => length ds = length sample)); [done|]. intros i ds Hi Hds. rewrite Nat.add_0_l.
    destruct (lookup_lt_is_Some_2 sample i Hi) as [p Hp].
    assert (<[ci:=s]> centers !! ci = Some s) as Hcs by (by apply list_lookup_insert_eq).
    destruct (sample_dist sample i _ ci p s Hs Hc' Hp Hcs) as [d Hd].
    rewrite (get_ok _ _ _ Hp), bind_Ok, (get_ok _ _ _ Hcs), bind_Ok, Hd, bind_Ok.
    rewrite (get_total ds i), bind_Ok by lia. destruct (f_lt d _); [|by apply wp_ok].
    rewrite set_ok by lia. apply wp_ok. by rewrite length_insert. }
  intros ds Hds. apply wp_ok. rewrite length_insert. by split_and!.
Qed.

Lemma seeding_ok sample centers rng :
  Forall row_ok sample -> sample <> [] -> rng_ok rng -> Forall row_ok centers -> centers <> [] ->
  returns (seeding sample centers rng) (fun '(rng', centers') =>
    rng_ok rng' /\ length centers' = length centers /\ Forall row_ok centers').
Proof.
  intros Hs Hne Hr Hc Hcne. unfold seeding.
  assert (0 < length sample)%nat as H0 by (destruct sample; [done|simpl; lia]).
  assert (0 < length centers)%nat as HK by (destruct centers; [done|simpl; lia]).
  destruct (pick_ok rng (length sample) Hr H0) as (k & -> & Hk). rewrite bind_Ok.
  destruct (lookup_lt_is_Some_2 sample k Hk) as [s Hsk].
  rewrite (get_ok _ _ _ Hsk), bind_Ok, set_ok, bind_Ok by done.
  assert (Forall row_ok (<[0%nat:=s]> centers)) as Hc'.
  { apply Forall_insert; [done|]. by eapply Forall_lookup_1 in Hs. }
  apply wp_bind. eapply wp_conseq.
  { apply (wp_for _ (fun _ ds => length ds = length sample)); [apply repeat_length|].
    intros i ds Hi Hds. rewrite Nat.add_0_l. destruct (lookup_lt_is_Some_2 sample i Hi) as [p Hp].
    assert (<[0%nat:=s]> centers !! 0%nat = Some s) as Hcs by (by apply list_lookup_insert_eq).
    destruct (sample_dist sample i _ 0 p s Hs Hc' Hp Hcs) as [d Hd].
    rewrite (get_ok _ _ _ Hp), bind_Ok, (get_ok _ _ _ Hcs), bind_Ok, Hd, bind_Ok, set_ok by lia.
    apply wp_ok. by rewrite length_insert. }
  intros ds Hds. apply wp_bind. rewrite length_insert. eapply wp_conseq.
  { apply (wp_for _ (fun _ (st : Z * list vector * list float) => rng_ok st.1.1 /\
      length st.1.2 = length centers /\ Forall row_ok st.1.2 /\ length st.2 = length sample)).
    - cbn [fst snd]. rewrite length_insert. split; [by apply next_ok|]. by split_and!.
    - intros i [[r cs] md] Hi (Hr' & Hl & Hcs & Hmd). cbn [fst snd] in *.
      eapply wp_conseq; [apply seed_step_ok; try done; lia|]. intros [[r' cs'] md'] (? & ? & ? & ?).
      cbn [fst snd]. split_and!; try done. lia. }
  intros [[r cs] md] (Hr' & Hl & Hcs & _). apply wp_ok. cbn [fst snd] in *. by split_and!.
Qed.

(** The table of sums: [K] rows, every entry of magnitude at most [b * 2 ^ 128]. *)
Definition sums_ok (K : nat) (b : Z) (sums : list vector) : Prop :=
  length sums = K /\ forall c s, sums !! c = Some s -> length s = DIMS /\ Forall (fun x => absle 53 x b) s.

Definition counts_ok (K : nat) (k : Z) (counts : list Z) : Prop :=
  length counts = K /\ Forall (fun n => 0 <= n <= k) counts.

Lemma add_row_ok K b sums best p :
  sums_ok K b sums -> (best < K)%nat -> fin_row p -> 0 < b -> b + 1 < 2 ^ 53 ->
  returns (foldM (fun sums j => s ← get sums best; x ← get p j; y ← get s j;
    s ← set s j (f64_add y (f64_of_f32 x)); set sums best s) sums (seq 0 DIMS)) (sums_ok K (b + 1)).
Proof.
  intros [Hl Hs] Hb [Hp Hps] Hb0 Hb1. eapply wp_conseq.
  { apply (wp_for _ (fun j sums => length sums = K /\ forall c s, sums !! c = Some s ->
      length s = DIMS /\ forall i x, s !! i = Some x -> absle 53 x (b + 1) /\ ((j <= i)%nat -> absle 53 x b))).
    - split; [done|]. intros c s Hc. destruct (Hs c s Hc) as [Hls Hf]. split; [done|].
      intros i x Hx. eapply Forall_lookup_1 in Hf; [|exact Hx]. split; [|done].
      apply (absle_weaken _ _ b); [lia|done].
    - intros j sums' Hj [Hl' Hs']. rewrite Nat.add_0_l. destruct (lookup_lt_is_Some_2 sums' best ltac:(lia)) as [s Hsb].
      destruct (Hs' best s Hsb) as [Hls Hf]. rewrite (get_ok _ _ _ Hsb), bind_Ok.
      destruct (lookup_lt_is_Some_2 p j ltac:(lia)) as [x Hx]. rewrite (get_ok _ _ _ Hx), bind_Ok.
      destruct (lookup_lt_is_Some_2 s j ltac:(lia)) as [y Hy]. rewrite (get_ok _ _ _ Hy), bind_Ok.
      rewrite !set_ok, bind_Ok by lia. rewrite set_ok by lia. apply wp_ok. rewrite length_insert. split; [done|].
      assert (absle 53 (f64_add y (f64_of_f32 x)) (b + 1)) as Hsum.
      { apply f64_add_absle; try lia; [by apply (Hf j y Hy)|]. apply single_f64. by eapply Forall_lookup_1 in Hps. }
      intros c s' Hc. destruct (decide (c = best)) as [->|Hne].
      + rewrite list_lookup_insert_eq in Hc by lia. injection Hc as <-. rewrite length_insert. split; [done|].
        intros i z Hz. destruct (decide (i = j)) as [->|Hij].
        * rewrite list_lookup_insert_eq in Hz by lia. injection Hz as <-. split; [done|lia].
        * rewrite list_lookup_insert_ne in Hz by done. destruct (Hf i z Hz) as [H1 H2].
          split; [done|]. intros Hi. apply H2. lia.
      + rewrite list_lookup_insert_ne in Hc by done. destruct (Hs' c s' Hc) as [Hls' Hf']. split; [done|].
        intros i z Hz. destruct (Hf' i z Hz) as [H1 H2]. split; [done|]. intros Hi. apply H2. lia. }
  intros sums' [Hl' Hs']. split; [done|]. intros c s Hc. destruct (Hs' c s Hc) as [Hls Hf]. split; [done|].
  apply Forall_lookup_2. intros i x Hx. by apply (Hf i x).
Qed.

Lemma accumulate_ok centers sums counts sse p k :
  rows centers -> centers <> [] -> fin_row p -> 0 <= k -> k + 2 < 2 ^ 53 ->
  sums_ok (length centers) (k + 1) sums -> counts_ok (length centers) k counts ->
  returns (accumulate centers (sums, counts, sse) p) (fun '(sums', counts', _) =>
    sums_ok (length centers) (k + 2) sums' /\ counts_ok (length centers) (k + 1) counts').
Proof.
  intros Hc Hne Hp Hk Hk2 Hs [Hl Hn]. unfold accumulate. apply wp_bind.
  eapply wp_conseq; [apply nearest_loop_ok; [done|apply Hp|done]|]. intros [bestD best] [[Hb _] _].
  cbn [fst snd] in Hb. destruct (lookup_lt_is_Some_2 counts best ltac:(lia)) as [n Hbn].
  pose proof (Forall_lookup_1 _ _ _ _ Hn Hbn) as Hr. cbn beta in Hr.
  rewrite (get_ok _ _ _ Hbn), bind_Ok, set_ok, bind_Ok by lia. apply wp_bind.
  eapply wp_conseq; [by apply (add_row_ok (length centers) (k + 1)); try lia|].
  intros sums' Hs'. apply wp_ok. replace (k + 1 + 1) with (k + 2) in Hs' by lia. split; [done|].
  split; [by rewrite length_insert|]. rewrite u64_id by lia. apply Forall_insert; [|lia].
  eapply List.Forall_impl; [|exact Hn]. simpl. lia.
Qed.

Lemma recenter_ok sample sums counts rng centers i k :
  Forall row_ok sample -> sample <> [] -> rng_ok rng -> Forall row_ok centers -> (i < length centers)%nat ->
  k < 2 ^ 53 -> sums_ok (length centers) (k + 1) sums -> counts_ok (length centers) k counts ->
  returns (recenter sample sums counts (rng, centers) i) (fun '(r, centers') =>
    rng_ok r /\ length centers' = length centers /\ Forall row_ok centers').
Proof.
  intros Hs Hne Hr Hc Hi Hk [Hls Hsum] [Hln Hn]. unfold recenter.
  destruct (lookup_lt_is_Some_2 counts i ltac:(lia)) as [n Hin].
  pose proof (Forall_lookup_1 _ _ _ _ Hn Hin) as Hnr. cbn beta in Hnr.
  rewrite (get_ok _ _ _ Hin), bind_Ok. destruct (Z.ltb_spec 0 n).
  - pose proof (inverse_fin n ltac:(lia)) as Hinv.
    apply wp_bind. eapply wp_conseq.
    { apply (wp_for _ (fun _ cs => length cs = length centers /\ Forall row_ok cs)); [done|].
      intros j cs Hj [Hlc Hcs]. rewrite Nat.add_0_l.
      destruct (lookup_lt_is_Some_2 sums i ltac:(lia)) as [s Hsi]. destruct (Hsum i s Hsi) as [Hsl Hsf].
      rewrite (get_ok _ _ _ Hsi), bind_Ok.
      destruct (lookup_lt_is_Some_2 s j ltac:(lia)) as [x Hx]. rewrite (get_ok _ _ _ Hx), bind_Ok.
      destruct (lookup_lt_is_Some_2 cs i ltac:(lia)) as [c Hci]. rewrite (get_ok _ _ _ Hci), bind_Ok.
      destruct (Forall_lookup_1 _ _ _ _ Hcs Hci) as [Hcl Hcn].
      rewrite set_ok, bind_Ok, set_ok by lia. apply wp_ok. rewrite length_insert. split; [done|].
      apply Forall_insert; [done|]. split; [by rewrite length_insert|].
      apply Forall_insert; [done|]. apply average_not_nan; [|done].
      eapply Forall_lookup_1 in Hsf; [|exact Hx]. by eapply absle_fin. }
    intros cs [Hlc Hcs]. apply wp_ok. by split_and!.
  - destruct (pick_ok rng (length sample) Hr) as (j & -> & Hj); [destruct sample; [done|simpl; lia]|].
    rewrite bind_Ok. destruct (lookup_lt_is_Some_2 sample j Hj) as [p Hp].
    rewrite (get_ok _ _ _ Hp), bind_Ok, set_ok, bind_Ok by done. apply wp_ok. rewrite length_insert.
    split_and!; [by apply next_ok|done|]. apply Forall_insert; [done|]. by eapply Forall_lookup_1 in Hs.
Qed.

Lemma iteration_ok sample rng centers it :
  Forall fin_row sample -> sample <> [] -> rng_ok rng -> Forall row_ok centers -> centers <> [] ->
  Z.of_nat (length sample) + 2 < 2 ^ 53 ->
  returns (iteration sample (rng, centers) it) (fun '(r, centers') =>
    rng_ok r /\ length centers' = length centers /\ Forall row_ok centers').
Proof.
  intros Hs Hne Hr Hc Hcne Hn. unfold iteration. apply wp_bind. eapply wp_conseq.
  { apply (wp_foldM _ (fun vis '(sums, counts, _) => sums_ok (length centers) (Z.of_nat (length vis) + 1) sums /\
      counts_ok (length centers) (Z.of_nat (length vis)) counts)).
    - split; split; try apply repeat_length.
      + intros c s Hcs. apply list_elem_of_lookup_2, list_elem_of_In, repeat_spec in Hcs as ->.
        split; [apply repeat_length|]. apply Forall_repeat. by exists false.
      + apply Forall_repeat. simpl. lia.
    - intros vis p rest [[sums counts] sse] Heq [H1 H2].
      assert (length vis < length sample)%nat by (rewrite Heq, length_app; simpl; lia).
      replace (Z.of_nat (length (vis ++ [p])) + 1) with (Z.of_nat (length vis) + 2) by (rewrite length_app; simpl; lia).
      replace (Z.of_nat (length (vis ++ [p]))) with (Z.of_nat (length vis) + 1) by (rewrite length_app; simpl; lia).
      assert (fin_row p) as Hp.
      { eapply Forall_lookup_1 in Hs; [exact Hs|]. rewrite Heq. by apply list_lookup_middle. }
      apply (accumulate_ok centers sums counts sse p (Z.of_nat (length vis)));
        [by apply row_ok_rows|exact Hcne|exact Hp|lia|lia|exact H1|exact H2]. }
  intros [[sums counts] sse] [H1 H2].
  eapply wp_conseq.
  { apply (wp_for _ (fun _ '(r, cs) => rng_ok r /\ length cs = length centers /\ Forall row_ok cs)); [done|].
    intros i [r cs] Hi (Hr' & Hl & Hcs). rewrite Nat.add_0_l.
    eapply wp_conseq; [apply (recenter_ok _ _ _ _ _ _ (Z.of_nat (length sample)));
      rewrite ?Hl; try done; try lia; by apply fin_rows_ok|].
    intros [r' cs'] (? & ? & ?). split_and!; try done. lia. }
  done.
Qed.

Lemma kmeansPlusPlus_ok KMeansSample points centers iters :
  Forall fin_row points -> points <> [] -> Forall row_ok centers -> centers <> [] ->
  (0 < KMeansSample)%nat -> Z.of_nat KMeansSample + 2 < 2 ^ 53 ->
  returns (kmeansPlusPlus KMeansSample points centers iters) (fun centers' =>
    length centers' = length centers /\ Forall row_ok centers').
Proof.
  intros Hp Hne Hc Hcne HS HS2. unfold kmeansPlusPlus. cbv zeta.
  set (n := if (length points <? KMeansSample)%nat then length points else KMeansSample).
  assert (0 < n <= KMeansSample)%nat as Hn.
  { unfold n. destruct (Nat.ltb_spec (length points) KMeansSample); [|lia].
    destruct points; [done|]. simpl in *. lia. }
  apply wp_bind. eapply wp_conseq; [apply draw_sample_ok; try done; by apply newRng_ok|].
  intros [rng sample] (Hr & Hl & Hs). pose proof (fin_rows_ok _ Hs) as Hs'.
  assert (sample <> []) as Hsne by (intros ->; simpl in Hl; lia).
  apply wp_bind. eapply wp_conseq; [by apply seeding_ok|]. intros [rng1 cs] (Hr1 & Hl1 & Hcs1).
  assert (cs <> []) as Hcs1ne by (intros ->; by destruct centers).
  apply wp_bind. eapply wp_conseq.
  { apply (wp_for _ (fun _ '(r, cs') => rng_ok r /\ length cs' = length cs /\ Forall row_ok cs')); [done|].
    intros i [r cs'] Hi (Hr' & Hl' & Hcs').
    eapply wp_conseq; [apply iteration_ok; try done; [by intros ->; destruct cs|lia]|].
    intros [r2 cs2] (? & ? & ?). split_and!; try done. lia. }
  intros [r cs'] (_ & Hl' & Hcs'). apply wp_ok. split; [lia|done].
Qed.

(** ** The order of the members *)

(** Zero, positive, or infinite. *)
Definition nonneg (x : float) : Prop :=
  match x with S754_zero _ => True | S754_finite s _ _ | S754_infinity s => s = false | S754_nan => False end.

Lemma nonneg_not_nan x : nonneg x -> not_nan x.
Proof. by destruct x. Qed.

Lemma round_sign prec emax m e : 0 < prec -> nonneg (binary_round prec emax false m e).
Proof.
  intros Hp. unfold binary_round. destruct (shl_align _ _ _) as [m' e'].
  pose proof (round_aux_digits prec emax Hp false (Zpos m') e' loc_Exact ltac:(lia)) as H.
  destruct (binary_round_aux _ _ _ _ _ _); try done. by destruct H.
Qed.

Lemma square_nonneg d : not_nan d -> nonneg (f32_mul d d).
Proof.
  unfold f32_mul, SFmul. destruct d as [s|s| |s m e]; try done; [by destruct s|]. intros _.
  pose proof (round_aux_digits 24 128 ltac:(lia) (xorb s s) (Zpos (m * m)) (e + e) loc_Exact ltac:(lia)) as H.
  rewrite xorb_nilpotent in *. destruct (binary_round_aux _ _ _ _ _ _); try done. by destruct H.
Qed.

Lemma add_nonneg x y : nonneg x -> nonneg y -> nonneg (f32_add x y).
Proof.
  unfold f32_add, SFadd.
  destruct x as [s|[]| |[] m e], y as [s'|[]| |[] m' e']; try done; [by destruct s, s'|].
  intros _ _. cbn [cond_Zopp].
  destruct (shl_align_spec m e (Z.min e e')) as [H1 _]. destruct (shl_align_spec m' e' (Z.min e e')) as [H2 _].
  destruct (Z.pos _ + Z.pos _) as [|p|p] eqn:E; [done|by apply round_sign|lia].
Qed.

Lemma sub_not_nan x y : single x -> not_nan y -> not_nan (f32_sub x y).
Proof.
  intros [s H] Hy. unfold f32_sub, SFsub.
  destruct x as [s1| | |s1 m e], y as [s2|s2| |s2 m' e']; try done; try (by destruct s1, s2).
  destruct (_ - _) as [|p|p]; [done| |]; by apply round_not_nan.
Qed.

Lemma dist_nonneg v c : fin_row v -> row_ok c -> exists d, dist2F32 v c = Ok d /\ nonneg d.
Proof.
  intros [Hv Hvs] [Hc Hcs]. enough (returns (dist2F32 v c) nonneg) as H
    by (apply returns_inv in H as (d & -> & Hd); by exists d).
  apply (wp_for _ (fun _ => nonneg)); [done|]. intros k s Hk Hs. rewrite Nat.add_0_l.
  destruct (lookup_lt_is_Some_2 v k ltac:(lia)) as [x Hx]. destruct (lookup_lt_is_Some_2 c k ltac:(lia)) as [y Hy].
  rewrite (get_ok _ _ _ Hx), bind_Ok, (get_ok _ _ _ Hy), bind_Ok. apply wp_ok.
  apply add_nonneg; [done|]. apply square_nonneg, sub_not_nan; [by eapply Forall_lookup_1 in Hvs|by eapply Forall_lookup_1 in Hcs].
Qed.

(** On distances that are numbers the comparison is a strict weak order. *)
Lemma less_dist_value vecs center i d v :
  vecs !! i = Some v -> dist2F32 v center = Ok d ->
  forall j e w, vecs !! j = Some w -> dist2F32 w center = Ok e -> less_dist vecs center i j = f_lt d e.
Proof.
  intros Hi Hd j e w Hj He. unfold less_dist.
  by rewrite (get_ok _ _ _ Hi), bind_Ok, (get_ok _ _ _ Hj), bind_Ok, Hd, bind_Ok, He, bind_Ok.
Qed.

Section Order.
Context `{SliceSort} (vecs : list vector) (center : vector).
Hypothesis vecs_fin : Forall fin_row vecs.
Hypothesis center_ok : row_ok center.

Lemma member_dist i : (i < length vecs)%nat ->
  exists v d, vecs !! i = Some v /\ dist2F32 v center = Ok d /\ not_nan d.
Proof.
  intros Hi. destruct (lookup_lt_is_Some_2 vecs i Hi) as [v Hv].
  destruct (dist_nonneg v center ltac:(by eapply Forall_lookup_1 in vecs_fin) center_ok) as (d & Hd & Hn).
  exists v, d. split; [done|]. split; [done|by apply nonneg_not_nan].
Qed.

Lemma sorted_by_distance arr :
  Forall (fun i => (i < length vecs)%nat) arr ->
  Sorted.StronglySorted (fun i j => less_dist vecs center j i = false) (sort_slice (less_dist vecs center) arr).
Proof.
  intros Harr. rewrite List.Forall_forall in Harr. apply sort_slice_sorted.
  - intros x y Hx Hy. destruct (member_dist x (Harr x Hx)) as (v & d & Hv & Hd & _).
    destruct (member_dist y (Harr y Hy)) as (w & e & Hw & He & _).
    rewrite (less_dist_value _ _ _ _ _ Hv Hd _ _ _ Hw He), (less_dist_value _ _ _ _ _ Hw He _ _ _ Hv Hd).
    intros Hlt. destruct (f_lt e d) eqn:E; [|done].
    pose proof (f_lt_trans _ _ _ Hlt E) as Habs. by rewrite f_lt_irrefl in Habs.
  - intros x y z Hx Hy Hz. destruct (member_dist x (Harr x Hx)) as (v & d & Hv & Hd & Nd).
    destruct (member_dist y (Harr y Hy)) as (w & e & Hw & He & Ne).
    destruct (member_dist z (Harr z Hz)) as (u & f & Hu & Hf & Nf).
    rewrite (less_dist_value _ _ _ _ _ Hw He _ _ _ Hv Hd), (less_dist_value _ _ _ _ _ Hu Hf _ _ _ Hw He),
      (less_dist_value _ _ _ _ _ Hu Hf _ _ _ Hv Hd).
    rewrite <-!not_true_iff_false, !f_lt_below. unfold below. intros H1 H2 (_ & _ & H3).
    apply H1. split; [done|]. split; [done|].
    assert (~ (class f < class e \/ class f = class e /\ (expo f < expo e \/ expo f = expo e /\ mant f < mant e)))
      by (intros H4; by apply H2). lia.
Qed.

End Order.

(** ** Deciding finiteness *)

Definition single_check (x : float) : bool :=
  match x with S754_zero _ => true | S754_finite _ m e => (Zpos m <? 2 ^ 24) && (e <=? 104) | _ => false end.

Lemma single_check_ok x : single_check x = true -> single x.
Proof.
  destruct x as [s| | |s m e]; try done; [by exists s|]. cbn [single_check]. intros H.
  exists s. split; [done|]. split; [|lia]. apply dle_of; [lia|].
  assert (2 ^ 24 <= 2 ^ (128 - e)) by (apply Z.pow_le_mono_r; lia). lia.
Qed.

Definition fin_row_check (v : vector) : bool := (length v =? 14)%nat && forallb single_check v.

Lemma fin_row_check_ok v : fin_row_check v = true -> fin_row v.
Proof.
  unfold fin_row_check. intros [Hl Hs]%andb_prop. split; [by apply Nat.eqb_eq|].
  rewrite forallb_forall in Hs. apply List.Forall_forall. intros x Hx. by apply single_check_ok, Hs.
Qed.

Lemma fin_rows_check_ok l : forallb fin_row_check l = true -> Forall fin_row l.
Proof. rewrite forallb_forall. intros H. apply List.Forall_forall. intros v Hv. by apply fin_row_check_ok, H. Qed.

(** ** Properties *)

(** The generator never reaches the fixed point zero of the xor-shift, from any seed:
    every number it draws is between 1 and 2^64 - 1. *)
Theorem rng_never_zero seed n :
  0 <= seed < 2 ^ 64 -> 0 < Nat.iter n next (newRng seed) < 2 ^ 64.
Proof.
  intros Hs. change (rng_ok (Nat.iter n next (newRng seed))).
  induction n as [|n IH]; [by apply newRng_ok|]. by apply next_ok.
Qed.

(** C20: k-means is total on finite points. For any number of iterations and any size of the
    sample, [kmeansPlusPlus], with its fixed seed, terminates without indexing out of range,
    and returns as many centers as it was given, none with a NaN: the averages of a cluster do not overflow the doubles
    they are summed in, and an empty cluster takes a sample point. *)
Theorem kmeans_total KMeansSample points centers iters :
  Forall fin_row points -> points <> [] -> Forall row_ok centers -> centers <> [] ->
  (0 < KMeansSample)%nat -> Z.of_nat KMeansSample + 2 < 2 ^ 53 ->
  returns (kmeansPlusPlus KMeansSample points centers iters) (fun centers' =>
    length centers' = length centers /\ Forall row_ok centers').
Proof. apply kmeansPlusPlus_ok. Qed.

Definition example_point (x y : Z) : vector := [f32_of_Z x; f32_of_Z y] ++ repeat (S754_zero false) 12.
Definition zero_center : vector := repeat (S754_zero false) DIMS.

Example kmeans_total_witness :
  returns (kmeansPlusPlus 3 [example_point 1 0; example_point 0 1] [zero_center; zero_center] 2)
    (fun centers' => length centers' = 2%nat /\ Forall row_ok centers').
Proof.
  apply (kmeans_total 3 [example_point 1 0; example_point 0 1] [zero_center; zero_center] 2);
    [|done| |done|lia|vm_compute; reflexivity].
  - apply fin_rows_check_ok. vm_compute. reflexivity.
  - apply fin_rows_ok, fin_rows_check_ok. vm_compute. reflexivity.
Defined.

(** C30: every vector is assigned to a center that no other is nearer to, and the counts
    are the sizes of the clusters so formed. *)
Theorem assign_nearest centers vecs :
  rows centers -> rows vecs -> centers <> [] -> Z.of_nat (length vecs) < 2 ^ 32 ->
  returns (assign centers vecs) (fun '(assignments, counts) =>
    length assignments = length vecs /\
    (forall i v, vecs !! i = Some v -> exists c, assignments !! i = Some c /\ closest centers v c) /\
    counts = counts_of centers assignments).
Proof. apply assign_ok. Qed.

Example assign_nearest_witness :
  returns (assign [example_point 0 0; example_point 5 5] [example_point 4 4; example_point 1 0])
    (fun '(assignments, counts) => length assignments = 2%nat /\
      (forall i v, [example_point 4 4; example_point 1 0] !! i = Some v ->
        exists c, assignments !! i = Some c /\ closest [example_point 0 0; example_point 5 5] v c) /\
      counts = counts_of [example_point 0 0; example_point 5 5] assignments).
Proof.
  apply (assign_nearest [example_point 0 0; example_point 5 5] [example_point 4 4; example_point 1 0]);
    [by repeat constructor|by repeat constructor|done|vm_compute; reflexivity].
Defined.

(** The members of a cluster are stored in order of distance. With finite vectors and
    centers without a NaN the comparison of the program is a strict weak order, so that
    the sort's contract applies: no later member is nearer to the center. *)
Theorem members_sorted `{SliceSort} vecs centers idx out :
  Forall fin_row vecs -> Forall row_ok centers -> length idx = length centers ->
  Forall (Forall (fun i => (i < length vecs)%nat)) idx ->
  sort_clusters vecs centers idx = Ok out ->
  length out = length idx /\
  forall c center arr, centers !! c = Some center -> out !! c = Some arr ->
    (exists arr0, idx !! c = Some arr0 /\ arr ≡ₚ arr0) /\
    Sorted.StronglySorted (fun i j => less_dist vecs center j i = false) arr.
Proof.
  intros Hv Hc Hl Hidx Hout. rewrite sort_clusters_ok in Hout by (done || by apply fin_rows_ok).
  injection Hout as <-. split; [unfold sorted_members; rewrite length_zip_with; lia|].
  intros c center arr Hcc Harr. apply lookup_zip_with_Some in Harr as (center' & arr0 & -> & Hc' & H0).
  simplify_eq. split; [exists arr0; split; [done|apply sort_slice_perm]|].
  apply sorted_by_distance; [done|by eapply Forall_lookup_1 in Hc|by eapply Forall_lookup_1 in Hidx].
Qed.

Example members_sorted_witness :
  let vecs := [example_point 1 0; example_point 0 0; example_point 1 1] in
  let out := [[1; 0; 2]%nat; []] in
  length out = 2%nat /\
  forall c center arr, [zero_center; example_point 1 1] !! c = Some center -> out !! c = Some arr ->
    (exists arr0, [[0; 1; 2]%nat; []] !! c = Some arr0 /\ arr ≡ₚ arr0) /\
    Sorted.StronglySorted (fun i j => less_dist vecs center j i = false) arr.
Proof.
  intros vecs out.
  apply (@members_sorted InsertionSort vecs [zero_center; example_point 1 1] [[0; 1; 2]%nat; []] out);
    [| |done| |vm_compute; reflexivity].
  - apply fin_rows_check_ok. vm_compute. reflexivity.
  - apply fin_rows_ok, fin_rows_check_ok. vm_compute. reflexivity.
  - apply List.Forall_forall. intros l [<-|[<-|[]]]; apply List.Forall_forall; intros i Hi; simpl in *; lia.
Defined.

End Cluster.
