(* ===== verification/RefParse.v ===== *)
(** * cmd/buildindex: reading the reference vectors

    [parseAll] of [cmd/buildindex/main.go] with [parseVector], [parseFloatBytes],
    [parseLabel], [skipVal] and [isSpace].  The parser is lenient: it does not check that
    its input is JSON.  [cap] is the capacity of the slice that [os.ReadFile] returns, on
    which the bounds of [buf[start:*i]] in [parseLabel] depend. *)

From S2P Require Import Prelude Floats Layout.

Module RefParse.
Import Layout.

Local Open Scope Z_scope.

(** ** [fmt.Sscanf(s, "%g", &f)] *)

(** The characters of a decimal number.  For a string with any other character, which
    may be a NaN, an infinity, a hexadecimal or binary-exponent number or an error, the
    outcome is the parameter [scan_other] of the model. *)
Definition plain (c : byte) : bool :=
  is_digit c || bool_decide (c = "+"%byte \/ c = "-"%byte \/ c = "."%byte \/ c = "e"%byte \/ c = "E"%byte).

Fixpoint digit_run (s : list byte) : list byte * list byte :=
  match s with
  | c :: r => if is_digit c then let '(d, r') := digit_run r in (c :: d, r') else ([], s)
  | [] => ([], [])
  end.

(** One optional character. *)
Definition accept (cs s : list byte) : list byte * list byte :=
  match s with
  | c :: r => if decide (c ∈ cs) then ([c], r) else ([], s)
  | [] => ([], [])
  end.

(** The longest prefix that looks like a number: what the verb [%g] reads. *)
Definition float_token (s : list byte) : list byte :=
  let '(sg, s) := accept (bytes "+-") s in
  let '(ip, s) := digit_run s in
  let '(dot, s) := accept (bytes ".") s in
  let '(fp, s) := match dot with [] => ([], s) | _ => digit_run s end in
  let '(ex, s) := accept (bytes "eE") s in
  let '(esg, s) := match ex with [] => ([], s) | _ => accept (bytes "+-") s end in
  let '(ed, s) := match ex with [] => ([], s) | _ => digit_run s end in
  sg ++ ip ++ dot ++ fp ++ ex ++ esg ++ ed.

(** [strconv.ParseFloat(s, 64)] of such a token: as [ParseFloat32], in double precision. *)
Definition decimal_f64 (neg : bool) (mant exp10 : Z) : float :=
  match mant with
  | Zpos m =>
      if 0 <=? exp10 then ratio 53 1024 neg (m * Z.to_pos (10 ^ exp10)) 1
      else ratio 53 1024 neg m (Z.to_pos (10 ^ (- exp10)))
  | _ => S754_zero neg
  end.

Definition ParseFloat64 (s : list byte) : option float :=
  let '(neg, s1) := take_sign s in
  let '(ip, n1, s2) := take_digits s1 0 0 in
  let '(mant, n2, s3) :=
    match s2 with
    | c :: r => if decide (c = "."%byte) then take_digits r ip 0 else (ip, 0%nat, s2)
    | [] => (ip, 0%nat, [])
    end in
  if (n1 + n2 =? 0)%nat then None
  else
    exp10 ← match s3 with
            | [] => Some 0
            | c :: r =>
                let '(eneg, ds) := take_sign r in
                match ds with
                | [] => None
                | _ => e ← exp_digits ds 0; Some (if eneg then - e else e)
                end
            end;
    match decimal_f64 neg mant (exp10 - Z.of_nat n2) with S754_infinity _ => None | f => Some f end.

Section Parser.
Variable scan_other : list byte -> option float.
Variable cap : nat.

Definition Sscanf_g (s : list byte) : option float :=
  if forallb plain s then ParseFloat64 (float_token s) else scan_other s.

(** ** The code *)

Definition parseFloatBytes (b : list byte) : option float :=
  f ← Sscanf_g b; Some (f32_of_f64 f).

Definition isSpace (c : byte) : bool :=
  bool_decide (c = " "%byte \/ c = x09 \/ c = x0d \/ c = x0a).

Definition eqc (d c : byte) : bool := bool_decide (c = d).
Definition nec (d c : byte) : bool := negb (eqc d c).
Definition space_or (d c : byte) : bool := isSpace c || eqc d c.

(** [*i++] when the end of the buffer is not reached. *)
Definition bump (buf : list byte) (i : nat) : nat := if (i <? length buf)%nat then S i else i.

(** The loop over the numbers; [n] of the [DIMS] are left.  No result stands for the
    error of [parseFloatBytes]. *)
Fixpoint numbers (buf : list byte) (n k : nat) (i : nat) (out : vector) : res (option (nat * vector)) :=
  match n with
  | O => Ok (Some (i, out))
  | S n' =>
      if (i <? length buf)%nat then
        let i := scan (space_or ",") buf i in
        c ← get buf i;
        if eqc "]" c then Ok (Some (i, out))
        else
          let start := i in
          let i := scan (fun c => negb (eqc "," c || eqc "]" c || isSpace c)) buf i in
          tok ← slice buf (Z.of_nat start) (Z.of_nat i);
          match parseFloatBytes tok with
          | None => Ok None
          | Some f => out ← set out k f; numbers buf n' (S k) i out
          end
      else Ok (Some (i, out))
  end.

Definition parseVector (buf : list byte) (i : nat) (out : vector) : res (option (nat * vector)) :=
  let i := scan (nec "[") buf i in
  if (length buf <=? i)%nat then Ok None
  else
    r ← numbers buf DIMS 0 (S i) out;
    match r with
    | None => Ok None
    | Some (i, out) => let i := scan (nec "]") buf i in Ok (Some (bump buf i, out))
    end.

(** [buf[lo:hi]] where the slice may reach into the capacity. *)
Definition slice_cap (buf : list byte) (lo hi : nat) : res (list byte) :=
  if (lo <=? hi)%nat && (hi <=? cap)%nat then Ok (take (hi - lo) (drop lo buf)) else Panic.

Definition parseLabel (buf : list byte) (i : nat) : res (nat * Z) :=
  let i := S (scan (nec x22) buf i) in
  let start := i in
  let i := scan (nec x22) buf i in
  s ← slice_cap buf start i;
  Ok (S i, if decide (s = bytes "fraud") then 1 else 0).

(** The nesting of brackets of one kind; the fuel is the distance to the end. *)
Fixpoint skip_nested (fuel : nat) (buf : list byte) (c closer : byte) (depth : nat) (i : nat) : nat :=
  match fuel, depth with
  | S f, S _ =>
      match buf !! i with
      | Some b =>
          let depth := if decide (b = c) then S depth else if decide (b = closer) then pred depth else depth in
          skip_nested f buf c closer depth (S i)
      | None => i
      end
  | _, _ => i
  end.

Definition skipVal (buf : list byte) (i : nat) : nat :=
  let i := scan isSpace buf i in
  match buf !! i with
  | None => i
  | Some c =>
      if eqc x22 c then bump buf (scan (nec x22) buf (S i))
      else if eqc "{" c then skip_nested (length buf) buf c "}" 1 (S i)
      else if eqc "[" c then skip_nested (length buf) buf c "]" 1 (S i)
      else scan (fun c => negb (eqc "," c || eqc "}" c || eqc "]" c)) buf i
  end.

(** An object being read. *)
Record entry : Type := mkEntry { vec_of : vector; lab_of : Z; gotV : bool; gotL : bool }.

Definition no_entry : entry := mkEntry (repeat (S754_zero false) DIMS) 0 false false.

(** The value of a key.  No result: the vector did not parse. *)
Definition field_value (buf : list byte) (key : list byte) (i : nat) (e : entry) : res (option (nat * entry)) :=
  if decide (key = bytes "vector") then
    r ← parseVector buf i (vec_of e);
    Ok (match r with
        | None => None
        | Some (i, v) => Some (i, mkEntry v (lab_of e) true (gotL e))
        end)
  else if decide (key = bytes "label") then
    '(i, l) ← parseLabel buf i; Ok (Some (i, mkEntry (vec_of e) l (gotV e) true))
  else Ok (Some (skipVal buf i, e)).

(** The loop over the fields of an object. *)
Fixpoint fields (fuel : nat) (buf : list byte) (i : nat) (e : entry) : res (option (nat * entry)) :=
  match fuel with
  | O => OutOfFuel
  | S f =>
      match buf !! i with
      | None => Ok (Some (i, e))
      | Some c =>
          if eqc "}" c then Ok (Some (i, e))
          else
            let i := scan (space_or ",") buf i in
            match buf !! i with
            | None => Ok (Some (i, e))
            | Some c =>
                if eqc "}" c then Ok (Some (i, e))
                else if nec x22 c then fields f buf (S i) e
                else
                  let ks := S i in
                  let i := scan (nec x22) buf ks in
                  key ← slice buf (Z.of_nat ks) (Z.of_nat i);
                  let i := scan (space_or ":") buf (bump buf i) in
                  r ← field_value buf key i e;
                  match r with
                  | None => Ok None
                  | Some (i, e) => fields f buf i e
                  end
            end
      end
  end.

(** The loop over the objects. *)
Fixpoint objects (fuel : nat) (buf : list byte) (i : nat) (vecs : list vector) (labels : list Z)
    : res (list vector * list Z) :=
  match fuel with
  | O => OutOfFuel
  | S f =>
      if (length buf <=? i)%nat then Ok (vecs, labels)
      else
        let i := scan isSpace buf i in
        match buf !! i with
        | None => Ok (vecs, labels)
        | Some c =>
            if eqc "]" c then Ok (vecs, labels)
            else if nec "{" c then objects f buf (S i) vecs labels
            else
              r ← fields (S (length buf)) buf (S i) no_entry;
              match r with
              | None => Ok ([], [])
              | Some (i, e) =>
                  let i := scan (space_or ",") buf (bump buf i) in
                  if gotV e && gotL e then objects f buf i (vecs ++ [vec_of e]) (labels ++ [lab_of e])
                  else objects f buf i vecs labels
              end
        end
  end.

Definition parseAll (buf : list byte) : res (list vector * list Z) :=
  let i := scan (nec "[") buf 0 in
  if (i =? length buf)%nat then Ok ([], [])
  else objects (S (length buf)) buf (S i) [] [].

End Parser.

(** ** Termination and shape

    A run that does not run out of fuel: it ends with a result, or it reads past the end. *)

Definition ends {A} (m : res A) (Q : A -> Prop) : Prop :=
  match m with Ok a => Q a | Panic => True | _ => False end.

Lemma ends_bind {A B} (m : res A) (f : A -> res B) Q : ends m (fun a => ends (f a) Q) -> ends (m ≫= f) Q.
Proof. by destruct m. Qed.

Lemma ends_conseq {A} (m : res A) (Q Q' : A -> Prop) : ends m Q -> (forall a, Q a -> Q' a) -> ends m Q'.
Proof. destruct m; simpl; auto. Qed.

Lemma ends_get {A} (l : list A) i : ends (get l i) (fun _ => True).
Proof. unfold get. by destruct (l !! i). Qed.

Lemma ends_set {A} (l : list A) i x : ends (set l i x) (fun l' => l' = <[i := x]> l).
Proof. unfold set. by destruct (decide _). Qed.

Lemma ends_slice {A} (l : list A) lo hi : ends (slice l lo hi) (fun _ => True).
Proof. unfold slice. by destruct (_ && _). Qed.

Lemma scan_forward p buf i : (i <= scan p buf i)%nat.
Proof. apply scan_ok. Qed.

Lemma bump_forward buf i : (i <= bump buf i)%nat.
Proof. unfold bump. destruct (i <? length buf)%nat; lia. Qed.

Section Ends.
Variable scan_other : list byte -> option float.
Variable cap : nat.

Lemma numbers_ends buf n : forall k i out,
  length out = DIMS ->
  ends (numbers scan_other buf n k i out) (fun r =>
    match r with Some (i', out') => (i <= i')%nat /\ length out' = DIMS | None => True end).
Proof.
  induction n as [|n IH]; intros k i out Ho; simpl; [done|].
  destruct (i <? length buf)%nat; [|done].
  pose proof (scan_forward (space_or ",") buf i) as H1. set (i1 := scan (space_or ",") buf i) in *.
  apply ends_bind. eapply ends_conseq; [apply ends_get|]. intros c _.
  destruct (eqc "]" c); [done|].
  pose proof (scan_forward (fun c => negb (eqc "," c || eqc "]" c || isSpace c)) buf i1) as H2.
  set (i2 := scan _ buf i1) in *. apply ends_bind. eapply ends_conseq; [apply ends_slice|]. intros tok _.
  destruct (parseFloatBytes scan_other tok) as [f|]; [|done].
  apply ends_bind. eapply ends_conseq; [apply ends_set|]. intros out' ->.
  eapply ends_conseq; [apply IH; by rewrite length_insert|].
  intros [[i' out']|]; [|done]. intros [? ?]. split; [lia|done].
Qed.

Lemma parseVector_ends buf i out :
  length out = DIMS ->
  ends (parseVector scan_other buf i out) (fun r =>
    match r with Some (i', out') => (i <= i')%nat /\ length out' = DIMS | None => True end).
Proof.
  intros Ho. unfold parseVector. pose proof (scan_forward (nec "[") buf i). set (i1 := scan _ buf i) in *.
  destruct (length buf <=? i1)%nat; [done|]. apply ends_bind.
  eapply ends_conseq; [by apply numbers_ends|]. intros [[i2 out']|]; [|done]. intros [? ?].
  pose proof (scan_forward (nec "]") buf i2). set (i3 := scan _ buf i2) in *.
  pose proof (bump_forward buf i3). simpl. split; [lia|done].
Qed.

Lemma skip_nested_forward fuel buf c closer : forall depth i, (i <= skip_nested fuel buf c closer depth i)%nat.
Proof.
  induction fuel as [|f IH]; intros depth i; simpl; [done|]. destruct depth; [done|].
  destruct (buf !! i); [|done]. match goal with |- (_ <= skip_nested _ _ _ _ ?d _)%nat => specialize (IH d (S i)) end. lia.
Qed.

Lemma skipVal_forward buf i : (i <= skipVal buf i)%nat.
Proof.
  unfold skipVal. pose proof (scan_forward isSpace buf i). set (i1 := scan isSpace buf i) in *.
  destruct (buf !! i1) as [c|]; [|done].
  destruct (eqc x22 c).
  { pose proof (scan_forward (nec x22) buf (S i1)). pose proof (bump_forward buf (scan (nec x22) buf (S i1))). lia. }
  destruct (eqc "{" c); [pose proof (skip_nested_forward (length buf) buf c "}" 1 (S i1)); lia|].
  destruct (eqc "[" c); [pose proof (skip_nested_forward (length buf) buf c "]" 1 (S i1)); lia|].
  match goal with |- (_ <= scan ?p _ _)%nat => pose proof (scan_forward p buf i1) end. lia.
Qed.

(** A record with a full vector and a label of 0 or 1. *)
Definition entry_ok (e : entry) : Prop := length (vec_of e) = DIMS /\ 0 <= lab_of e <= 1.

Lemma field_value_ends buf key i e :
  entry_ok e ->
  ends (field_value scan_other cap buf key i e) (fun r =>
    match r with Some (i', e') => (i <= i')%nat /\ entry_ok e' | None => True end).
Proof.
  intros [Hv Hl]. unfold field_value. destruct (decide (key = bytes "vector")).
  { apply ends_bind. eapply ends_conseq; [by apply parseVector_ends|]. intros [[i' v]|]; [|done].
    intros [? ?]. by split. }
  destruct (decide (key = bytes "label")).
  { apply ends_bind. unfold parseLabel. apply ends_bind. unfold slice_cap.
    destruct (_ && _); [|done]. simpl. pose proof (scan_forward (nec x22) buf i).
    pose proof (scan_forward (nec x22) buf (S (scan (nec x22) buf i))). split; [lia|]. split; [done|].
    simpl. destruct (decide _); lia. }
  simpl. split; [apply skipVal_forward|done].
Qed.

Lemma fields_ends buf fuel : forall i e,
  (length buf - i < fuel)%nat -> entry_ok e ->
  ends (fields scan_other cap fuel buf i e) (fun r =>
    match r with Some (i', e') => (i <= i')%nat /\ entry_ok e' | None => True end).
Proof.
  induction fuel as [|f IH]; intros i e Hf He; [lia|]. simpl.
  destruct (buf !! i) as [c|] eqn:Hc; [|done]. apply lookup_lt_Some in Hc.
  destruct (eqc "}" c); [done|].
  pose proof (scan_forward (space_or ",") buf i). set (i1 := scan (space_or ",") buf i) in *.
  destruct (buf !! i1) as [c1|] eqn:Hc1; [|done]. apply lookup_lt_Some in Hc1.
  destruct (eqc "}" c1); [done|]. destruct (nec x22 c1).
  { eapply ends_conseq; [apply IH; [lia|done]|]. intros [[i' e']|]; [|done]. intros [? ?]. split; [lia|done]. }
  pose proof (scan_forward (nec x22) buf (S i1)). set (i2 := scan (nec x22) buf (S i1)) in *.
  apply ends_bind. eapply ends_conseq; [apply ends_slice|]. intros key _.
  pose proof (bump_forward buf i2). pose proof (scan_forward (space_or ":") buf (bump buf i2)).
  set (i3 := scan (space_or ":") buf (bump buf i2)) in *.
  apply ends_bind. eapply ends_conseq; [by apply field_value_ends|]. intros [[i' e']|]; [|done]. intros [? ?].
  eapply ends_conseq; [apply IH; [lia|done]|]. intros [[i'' e'']|]; [|done]. intros [? ?]. split; [lia|done].
Qed.

Definition parsed_ok (r : list vector * list Z) : Prop :=
  length r.1 = length r.2 /\ Forall (fun v => length v = DIMS) r.1 /\ Forall (fun l => 0 <= l <= 1) r.2.

Lemma parsed_nil : parsed_ok ([], []).
Proof. by split_and!; constructor. Qed.

Lemma objects_ends buf fuel : forall i vecs labels,
  (length buf - i < fuel)%nat -> parsed_ok (vecs, labels) ->
  ends (objects scan_other cap fuel buf i vecs labels) parsed_ok.
Proof.
  induction fuel as [|f IH]; intros i vecs labels Hf Hp; [lia|]. simpl.
  destruct (Nat.leb_spec (length buf) i); [done|].
  pose proof (scan_forward isSpace buf i). set (i1 := scan isSpace buf i) in *.
  destruct (buf !! i1) as [c|] eqn:Hc; [|done]. apply lookup_lt_Some in Hc.
  destruct (eqc "]" c); [done|]. destruct (nec "{" c); [apply IH; [lia|done]|].
  assert (entry_ok no_entry) as He by (split; [apply repeat_length|simpl; lia]).
  apply ends_bind. eapply ends_conseq; [apply (fields_ends buf (S (length buf)) (S i1)); [lia|exact He]|].
  intros [[i2 e]|]; [|intros _; apply parsed_nil]. intros [Hi2 [Hv Hl]].
  pose proof (bump_forward buf i2). pose proof (scan_forward (space_or ",") buf (bump buf i2)).
  destruct (gotV e && gotL e); apply IH; try lia; [|done].
  destruct Hp as (P1 & P2 & P3). cbn [fst snd] in *. split_and!; cbn [fst snd].
  - rewrite !length_app. simpl. lia.
  - apply list.Forall_app. by split; [|constructor].
  - apply list.Forall_app. by split; [|constructor].
Qed.

Lemma parseAll_ends buf : ends (parseAll scan_other cap buf) parsed_ok.
Proof.
  unfold parseAll. pose proof (scan_le _ _ _ _ (scan_ok (nec "[") buf 0) ltac:(lia)).
  destruct (Nat.eqb_spec (scan (nec "[") buf 0) (length buf)); [apply parsed_nil|].
  apply objects_ends; [lia|apply parsed_nil].
Qed.

End Ends.

(** ** Printing reference files

    One element of the array, as the reference file has it; [sp] is the white space the
    printer puts after brackets, colons and commas. *)

Record reference : Type := mkReference { numerals : list (list byte); label_text : list byte }.

Definition quoted (s : list byte) : list byte := x22 :: s ++ [x22].

Fixpoint sep_by (sep : list byte) (l : list (list byte)) : list byte :=
  match l with
  | [] => []
  | x :: r => x ++ match r with [] => [] | _ => sep ++ sep_by sep r end
  end.

Definition ref_body (sp : list byte) (r : reference) : list byte :=
  sp ++ quoted (bytes "vector") ++ bytes ":" ++ sp ++
  bytes "[" ++ sep_by (bytes "," ++ sp) (numerals r) ++ bytes "]" ++ bytes "," ++ sp ++
  quoted (bytes "label") ++ bytes ":" ++ sp ++ quoted (label_text r) ++ sp ++ bytes "}".
Definition print_ref (sp : list byte) (r : reference) : list byte := bytes "{" ++ ref_body sp r.

Definition print_refs (sp : list byte) (rs : list reference) : list byte :=
  bytes "[" ++ sp ++ sep_by (bytes "," ++ sp) (map (print_ref sp) rs) ++ sp ++ bytes "]".

Definition lab_val (t : list byte) : Z := if decide (t = bytes "fraud") then 1 else 0.

Lemma sep_by_cons sep x y l : sep_by sep (x :: y :: l) = x ++ sep ++ sep_by sep (y :: l).
Proof. done. Qed.

Section RoundTrip.
Variable scan_other : list byte -> option float.

(** A character that ends a numeral, and numerals without one. *)
Definition ends_token (c : byte) : bool := eqc "," c || eqc "]" c || isSpace c.
Definition numeral (t : list byte) (f : float) : Prop :=
  parseFloatBytes scan_other t = Some f /\ Forall (fun c => negb (ends_token c) = true) t.

(** What a reference stands for. *)
Definition denotes (r : reference) (v : vector) : Prop :=
  length v = DIMS /\ Forall2 numeral (numerals r) v /\ Forall (fun c => nec x22 c = true) (label_text r).

Lemma numeral_cons t f : numeral t f -> exists c t', t = c :: t' /\ ends_token c = false.
Proof.
  intros [Hf Ht]. destruct t as [|c t']; [done|]. exists c, t'. split; [done|].
  apply Forall_cons_iff in Ht as [Hc _]. by destruct (ends_token c).
Qed.

Variable cap : nat.
Variable buf : list byte.
Hypothesis cap_ok : (length buf <= cap)%nat.

Lemma drop_lt i c rest : drop i buf = c :: rest -> (i < length buf)%nat.
Proof. intros [H _]%drop_cons_inv. by apply lookup_lt_Some in H. Qed.

(** The numerals, the first of them after any separator. *)
Lemma numbers_print ts : forall fs sep0 sep rest k i out,
  Forall2 numeral ts fs ->
  Forall (fun c => space_or "," c = true) sep0 -> Forall (fun c => space_or "," c = true) sep -> sep <> [] ->
  length out = (k + length ts)%nat ->
  drop i buf = sep0 ++ sep_by sep ts ++ "]"%byte :: rest ->
  exists j pre, numbers scan_other buf (length ts) k i out = Ok (Some (j, take k out ++ fs)) /\
    drop j buf = pre ++ "]"%byte :: rest /\ (length ts = 0%nat \/ pre = []).
Proof.
  induction ts as [|t ts IH]; intros fs sep0 sep rest k i out Hts Hs0 Hs Hne Ho Hd; inversion Hts as [|? f ? fs' Ht Hts']; subst.
  - exists i, sep0. split; [|by split; [|left]]. simpl in *. rewrite take_ge, app_nil_r by lia. done.
  - destruct (numeral_cons t f Ht) as (c & t' & -> & Hc). destruct Ht as [Hf Htok].
    assert (exists X, drop i buf = sep0 ++ (c :: t') ++ X /\
      X = match ts with [] => [] | _ => sep ++ sep_by sep ts end ++ "]"%byte :: rest) as (X & Hd1 & HX).
    { eexists. split; [|done]. rewrite Hd. cbn [sep_by]. by rewrite <-!app_assoc. }
    assert (stops (fun c => negb (ends_token c)) X) as Hstop.
    { rewrite HX. destruct ts; [done|]. destruct sep as [|d sep']; [done|].
      apply Forall_cons_iff in Hs as [Hd' _]. simpl. unfold space_or in Hd'. unfold ends_token.
      destruct (isSpace d), (eqc "," d), (eqc "]" d); done. }
    assert (i < length buf)%nat as Hlt.
    { destruct sep0 as [|d sep0']; [by eapply drop_lt|]. by eapply (drop_lt i d). }
    cbn [length numbers]. destruct (Nat.ltb_spec i (length buf)); [|lia].
    rewrite (scan_at (space_or ",") buf i sep0 ((c :: t') ++ X) Hd1 Hs0).
    2: { simpl. unfold ends_token in Hc. unfold space_or. destruct (isSpace c), (eqc "," c), (eqc "]" c); done. }
    apply drop_app_inv in Hd1. set (i1 := (i + length sep0)%nat) in *.
    destruct (drop_cons_inv buf i1 c (t' ++ X) Hd1) as [Hci _].
    rewrite (get_ok _ _ _ Hci), bind_Ok.
    replace (eqc "]" c) with false by (unfold ends_token in Hc; destruct (eqc "]" c); [by destruct (eqc "," c)|done]).
    change (fun c0 : byte => negb (eqc "," c0 || eqc "]" c0 || isSpace c0)) with (fun c0 => negb (ends_token c0)).
    rewrite (scan_at (fun c => negb (ends_token c)) buf i1 (c :: t') X Hd1 Htok Hstop).
    rewrite (slice_at buf i1 (c :: t') X Hd1) by (eapply drop_le; [|exact Hd1]; done).
    rewrite bind_Ok, Hf, set_ok, bind_Ok by (rewrite Ho; simpl; lia).
    apply drop_app_inv in Hd1. set (i2 := (i1 + length (c :: t'))%nat) in *.
    assert (drop i2 buf = (match ts with [] => [] | _ => sep end) ++ sep_by sep ts ++ "]"%byte :: rest) as Hd2.
    { rewrite Hd1, HX. destruct ts; [done|]. by rewrite <-app_assoc. }
    destruct (IH fs' (match ts with [] => [] | _ => sep end) sep rest (S k) i2 (<[k := f]> out) Hts') as (j & pre & Hn & Hj & Hpre);
      try done; [by destruct ts|rewrite length_insert, Ho; simpl; lia|].
    exists j, pre. split.
    { rewrite Hn. do 3 f_equal. rewrite (take_S_r _ _ f) by (apply list_lookup_insert_eq; rewrite Ho; simpl; lia).
      rewrite take_insert_ge by lia. by rewrite <-app_assoc. }
    split; [done|]. right. destruct Hpre as [Hpre|]; [|done].
    destruct ts; [|done]. cbn [length numbers] in Hn. injection Hn as Ej _. rewrite <-Ej, Hd2 in Hj.
    by apply (app_inv_tail ("]"%byte :: rest) [] pre) in Hj.
Qed.

Lemma drop_S (l : list byte) i c rest : drop i l = c :: rest -> drop (S i) l = rest.
Proof. apply drop_cons_inv. Qed.

Lemma bump_at i c rest : drop i buf = c :: rest -> bump buf i = S i /\ drop (S i) buf = rest.
Proof.
  intros H. pose proof (drop_lt _ _ _ H). split; [|by eapply drop_S].
  unfold bump. by destruct (Nat.ltb_spec i (length buf)); [|lia].
Qed.

Lemma stays p i c rest : drop i buf = c :: rest -> p c = false -> scan p buf i = i.
Proof. intros [H _]%drop_cons_inv. by apply scan_stop. Qed.

Lemma vector_print r v sep i rest out :
  denotes r v -> Forall (fun c => space_or "," c = true) sep -> sep <> [] -> length out = DIMS ->
  drop i buf = "["%byte :: sep_by sep (numerals r) ++ "]"%byte :: rest ->
  exists j, parseVector scan_other buf i out = Ok (Some (j, v)) /\ drop j buf = rest.
Proof.
  intros (Hv & Hn & _) Hs Hne Ho Hd. unfold parseVector. rewrite (stays (nec "[") i _ _ Hd) by done.
  pose proof (drop_lt _ _ _ Hd). destruct (Nat.leb_spec (length buf) i); [lia|].
  apply drop_S in Hd. pose proof (Forall2_length Hn) as Hln.
  destruct (numbers_print (numerals r) v [] sep rest 0 (S i) out Hn) as (j & pre & Hnum & Hj & Hpre);
    try done; [by rewrite Ho, Hln, Hv|].
  rewrite Hln, Hv in Hnum, Hpre. rewrite Hnum, bind_Ok. destruct Hpre as [Hpre|Hpre]; [done|subst pre].
  cbn [app] in Hj. rewrite (stays (nec "]") j _ _ Hj) by done.
  destruct (bump_at _ _ _ Hj) as [-> Hj']. exists (S j). by rewrite take_0.
Qed.

Lemma label_print t i rest :
  Forall (fun c => nec x22 c = true) t -> drop i buf = quoted t ++ rest ->
  exists j, parseLabel cap buf i = Ok (j, lab_val t) /\ drop j buf = rest.
Proof.
  intros Ht Hd. unfold quoted in Hd. cbn [app] in Hd. rewrite <-app_assoc in Hd. cbn [app] in Hd.
  unfold parseLabel. rewrite (stays (nec x22) i _ _ Hd) by done. apply drop_S in Hd.
  rewrite (scan_at (nec x22) buf (S i) t (x22 :: rest) Hd Ht) by done.
  pose proof (drop_app_inv _ _ _ _ Hd) as Hd'. pose proof (drop_lt _ _ _ Hd').
  unfold slice_cap. replace ((S i <=? S i + length t)%nat && (S i + length t <=? cap)%nat) with true by lia.
  replace (S i + length t - S i)%nat with (length t) by lia. rewrite Hd, take_app_length, bind_Ok.
  eexists. split; [done|]. by eapply drop_S.
Qed.

(** One field of an object: separators, the key, a colon, and the value. *)
Lemma fields_step f i e s0 key cs V :
  Forall (fun c => space_or "," c = true) s0 -> Forall (fun c => nec x22 c = true) key ->
  Forall (fun c => space_or ":" c = true) cs -> stops (space_or ":") V ->
  drop i buf = s0 ++ quoted key ++ cs ++ V ->
  exists j, drop j buf = V /\
    fields scan_other cap (S f) buf i e =
      (r ← field_value scan_other cap buf key j e;
       match r with None => Ok None | Some (i, e) => fields scan_other cap f buf i e end).
Proof.
  intros Hs0 Hk Hcs HV Hd. unfold quoted in Hd. cbn [app] in Hd. rewrite <-app_assoc in Hd. cbn [app] in Hd.
  assert (exists c rest, drop i buf = c :: rest /\ eqc "}" c = false) as (c0 & rest0 & Hc0 & Hne0).
  { rewrite Hd. destruct s0 as [|c s0']; [by eexists _, _|]. eexists _, _. split; [done|].
    apply Forall_cons_iff in Hs0 as [Hc _]. unfold space_or, isSpace, eqc in *.
    destruct (decide (c = "}"%byte)) as [->|]; [done|]. by apply bool_decide_eq_false. }
  destruct (drop_cons_inv _ _ _ _ Hc0) as [Hi _]. cbn [fields]. rewrite Hi, Hne0.
  rewrite (scan_at (space_or ",") buf i s0 _ Hd Hs0) by done. apply drop_app_inv in Hd.
  set (i1 := (i + length s0)%nat) in *. destruct (drop_cons_inv _ _ _ _ Hd) as [Hi1 Hd1].
  rewrite Hi1. change (eqc "}" x22) with false. change (nec x22 x22) with false. cbv iota.
  rewrite (scan_at (nec x22) buf (S i1) key (x22 :: cs ++ V) Hd1 Hk) by done.
  pose proof (drop_app_inv _ _ _ _ Hd1) as Hd2. pose proof (drop_lt _ _ _ Hd2).
  rewrite (slice_at buf (S i1) key _ Hd1), bind_Ok by lia.
  destruct (bump_at _ _ _ Hd2) as [-> Hd3].
  rewrite (scan_at (space_or ":") buf _ cs V Hd3 Hcs HV). apply drop_app_inv in Hd3.
  eexists. split; [exact Hd3|done].
Qed.

(** The end of an object. *)
Lemma fields_end f i e s0 rest :
  Forall (fun c => space_or "," c = true) s0 -> drop i buf = s0 ++ "}"%byte :: rest ->
  exists j, fields scan_other cap (S f) buf i e = Ok (Some (j, e)) /\ drop j buf = "}"%byte :: rest.
Proof.
  intros Hs0 Hd. cbn [fields]. destruct s0 as [|c s0].
  - destruct (drop_cons_inv _ _ _ _ Hd) as [-> _]. by exists i.
  - destruct (drop_cons_inv _ _ _ _ Hd) as [-> _].
    destruct (eqc "}" c) eqn:Hc.
    { apply Forall_cons_iff in Hs0 as [Hs _]. apply bool_decide_eq_true in Hc. by subst c. }
    rewrite (scan_at (space_or ",") buf i (c :: s0) _ Hd Hs0) by done. apply drop_app_inv in Hd.
    destruct (drop_cons_inv _ _ _ _ Hd) as [-> _]. by eexists.
Qed.

Variable sp : list byte.
Hypothesis sp_space : Forall (fun c => isSpace c = true) sp.

Lemma spaces_or d : Forall (fun c => space_or d c = true) sp.
Proof. eapply List.Forall_impl; [|exact sp_space]. intros c Hc. unfold space_or. by rewrite Hc. Qed.

Lemma comma_spaces : Forall (fun c => space_or "," c = true) (bytes "," ++ sp).
Proof. constructor; [done|apply spaces_or]. Qed.

Lemma colon_spaces : Forall (fun c => space_or ":" c = true) (bytes ":" ++ sp).
Proof. constructor; [done|apply spaces_or]. Qed.

(** The fields of a reference. *)
Lemma ref_fields r v i rest f :
  denotes r v -> drop i buf = ref_body sp r ++ rest ->
  exists j, fields scan_other cap (S (S (S f))) buf i no_entry =
      Ok (Some (j, mkEntry v (lab_val (label_text r)) true true)) /\ drop j buf = "}"%byte :: rest.
Proof.
  intros Hr Hd. unfold ref_body in Hd.
  set (lab := quoted (bytes "label") ++ (bytes ":" ++ sp) ++ quoted (label_text r) ++ sp ++ "}"%byte :: rest).
  set (V := "["%byte :: sep_by (bytes "," ++ sp) (numerals r) ++ "]"%byte :: (bytes "," ++ sp) ++ lab).
  assert (drop i buf = sp ++ quoted (bytes "vector") ++ (bytes ":" ++ sp) ++ V) as Hd1.
  { rewrite Hd. unfold V, lab.
    repeat first [rewrite <-app_assoc|progress cbn [app]].  done. }
  destruct (fields_step (S (S f)) i no_entry sp (bytes "vector") (bytes ":" ++ sp) V (spaces_or ",")) as (j1 & Hj1 & ->);
    [repeat (constructor; [done|]); constructor|apply colon_spaces|done|exact Hd1|].
  unfold field_value. rewrite decide_True by done.
  destruct (vector_print r v (bytes "," ++ sp) j1 ((bytes "," ++ sp) ++ lab) (vec_of no_entry)) as (j2 & -> & Hj2);
    [done|apply comma_spaces|done|apply repeat_length|exact Hj1|].
  rewrite !bind_Ok.
  destruct (fields_step (S f) j2 (mkEntry v (lab_of no_entry) true (gotL no_entry)) (bytes "," ++ sp) (bytes "label")
    (bytes ":" ++ sp) (quoted (label_text r) ++ sp ++ "}"%byte :: rest) comma_spaces) as (j3 & Hj3 & ->);
    [repeat (constructor; [done|]); constructor|apply colon_spaces|done|exact Hj2|].
  unfold field_value. rewrite decide_False, decide_True by done.
  destruct (label_print (label_text r) j3 (sp ++ "}"%byte :: rest)) as (j4 & -> & Hj4); [apply Hr|exact Hj3|].
  rewrite !bind_Ok. cbn [vec_of gotV]. apply fields_end with sp; [apply spaces_or|exact Hj4].
Qed.

Lemma print_ref_head r : print_ref sp r = "{"%byte :: ref_body sp r.
Proof. done. Qed.

(** The objects of the array, after white space. *)
Lemma objects_print rs : forall vs fuel i s0 rest vecs labels,
  Forall2 denotes rs vs -> Forall (fun c => isSpace c = true) s0 -> (length rs < fuel)%nat ->
  drop i buf = s0 ++ sep_by (bytes "," ++ sp) (map (print_ref sp) rs) ++ match rs with [] => [] | _ => sp end ++ "]"%byte :: rest ->
  objects scan_other cap fuel buf i vecs labels =
    Ok (vecs ++ vs, labels ++ map (fun r => lab_val (label_text r)) rs).
Proof.
  induction rs as [|r rs IH]; intros vs fuel i s0 rest vecs labels Hrs Hs0 Hf Hd;
    inversion Hrs as [|? v ? vs' Hr Hrs']; subst; (destruct fuel as [|f]; [simpl in Hf; lia|]); cbn [objects].
  - cbn [map sep_by app] in Hd. assert (i < length buf)%nat by (destruct s0; by eapply drop_lt).
    destruct (Nat.leb_spec (length buf) i); [lia|]. rewrite (scan_at isSpace buf i s0 _ Hd Hs0) by done.
    apply drop_app_inv in Hd. destruct (drop_cons_inv _ _ _ _ Hd) as [-> _]. by rewrite !app_nil_r.
  - set (more := match rs with [] => sp | _ => bytes "," ++ sp end).
    set (Y := sep_by (bytes "," ++ sp) (map (print_ref sp) rs) ++ match rs with [] => [] | _ => sp end ++ "]"%byte :: rest).
    assert (drop i buf = s0 ++ "{"%byte :: ref_body sp r ++ more ++ Y) as Hd1.
    { rewrite Hd. cbn [map]. destruct rs as [|r' rs'].
      - unfold more, Y. cbn [sep_by map app]. by rewrite app_nil_r.
      - cbn [map]. rewrite sep_by_cons, print_ref_head. unfold more, Y. cbn [map]. by rewrite <-!app_assoc. }
    assert (i < length buf)%nat by (destruct s0; by eapply drop_lt).
    destruct (Nat.leb_spec (length buf) i); [lia|]. rewrite (scan_at isSpace buf i s0 _ Hd1 Hs0) by done.
    apply drop_app_inv in Hd1. destruct (drop_cons_inv _ _ _ _ Hd1) as [-> Hd2].
    change (eqc "]" "{") with false. change (nec "{" "{") with false. cbv iota.
    assert (2 <= length buf)%nat as Hlen.
    { assert (ref_body sp r <> []) as Hb by (unfold ref_body; by destruct sp).
      pose proof (drop_le buf _ (ref_body sp r) _ Hb Hd2).
      assert (0 < length (ref_body sp r))%nat by (by destruct (ref_body sp r); [|simpl; lia]). lia. }
    replace (S (length buf)) with (S (S (S (length buf - 2)))) by lia.
    destruct (ref_fields r v _ _ (length buf - 2) Hr Hd2) as (j & -> & Hj). rewrite bind_Ok.
    destruct (bump_at _ _ _ Hj) as [-> Hj']. cbn [gotV gotL vec_of lab_of andb].
    assert (Forall (fun c => space_or "," c = true) more) as Hmore
      by (unfold more; destruct rs; [apply spaces_or|apply comma_spaces]).
    rewrite (scan_at (space_or ",") buf (S j) more Y Hj' Hmore)
      by (unfold Y; destruct rs as [|r' rs']; [done|cbn [map sep_by]; rewrite print_ref_head; done]).
    apply drop_app_inv in Hj'.
    rewrite (IH vs' f _ [] rest); [by rewrite <-!app_assoc|done|constructor|simpl in Hf; lia|exact Hj'].
Qed.

End RoundTrip.

Lemma parseAll_print scan_other cap sp rs vs :
  Forall2 (denotes scan_other) rs vs -> Forall (fun c => isSpace c = true) sp ->
  (length (print_refs sp rs) <= cap)%nat ->
  parseAll scan_other cap (print_refs sp rs) = Ok (vs, map (fun r => lab_val (label_text r)) rs).
Proof.
  intros Hrs Hsp Hcap. set (buf := print_refs sp rs) in *.
  assert (drop 0 buf = "["%byte :: sp ++ sep_by (bytes "," ++ sp) (map (print_ref sp) rs) ++ sp ++ bytes "]") as Hd by done.
  unfold parseAll. rewrite (stays buf (nec "[") 0 _ _ Hd) by done. pose proof (drop_lt buf _ _ _ Hd).
  destruct (Nat.eqb_spec 0 (length buf)); [lia|]. apply drop_S in Hd.
  assert (length rs < S (length buf))%nat as Hlr.
  { assert (forall l : list reference, (length l <= length (sep_by (bytes "," ++ sp) (map (print_ref sp) l)))%nat) as Hl.
    { induction l as [|r l IH]; [done|]. cbn [map]. destruct l as [|r' l].
      - cbn [map sep_by]. rewrite print_ref_head. simpl. lia.
      - cbn [map] in *. rewrite sep_by_cons, !length_app. rewrite (print_ref_head sp r). simpl in *. lia. }
    specialize (Hl rs). unfold buf, print_refs. rewrite !length_app. lia. }
  destruct rs as [|r rs].
  - apply (objects_print scan_other cap buf Hcap sp Hsp [] vs _ 1 (sp ++ sp) []); try done.
    + apply list.Forall_app. by split.
    + rewrite Hd. by rewrite <-app_assoc.
  - by apply (objects_print scan_other cap buf Hcap sp Hsp (r :: rs) vs _ 1 sp []).
Qed.

(** ** Properties *)

(** C29: the parser terminates on every input, JSON or not: it returns as many labels as
    vectors, every vector of fourteen features and every label 0 or 1, or it reads past
    the end of the buffer (which [parseVector] does on a truncated vector). *)
Theorem parseAll_terminates scan_other cap buf :
  match parseAll scan_other cap buf with
  | Ok (vecs, labels) => length vecs = length labels /\
      Forall (fun v => length v = DIMS) vecs /\ Forall (fun l => 0 <= l <= 1) labels
  | Panic => True
  | Fail _ | OutOfFuel => False
  end.
Proof.
  pose proof (parseAll_ends scan_other cap buf) as H. destruct (parseAll scan_other cap buf) as [[vs ls]|e| |]; done.
Qed.

(** C28: a printed list of references is read back: every vector with the values
    [parseFloatBytes] gives its numerals, every label, in order, whatever white space the printer uses and however
    many references there are. *)
Theorem parseAll_roundtrip scan_other cap sp rs vs :
  Forall2 (denotes scan_other) rs vs -> Forall (fun c => isSpace c = true) sp ->
  (length (print_refs sp rs) <= cap)%nat ->
  parseAll scan_other cap (print_refs sp rs) = Ok (vs, map (fun r => lab_val (label_text r)) rs).
Proof. apply parseAll_print. Qed.

Definition example_ref : reference :=
  mkReference (map bytes ["0"; "1"; "0"; "0"; "0"; "-1"; "-1"; "0"; "0"; "0"; "0"; "0"; "0"; "2e0"]%string) (bytes "fraud").

Example parseAll_roundtrip_witness :
  let v := map f32_of_Z [0; 1; 0; 0; 0; -1; -1; 0; 0; 0; 0; 0; 0; 2] in
  parseAll (fun _ => None) 512 (print_refs (bytes " ") [example_ref]) = Ok ([v], [1]).
Proof.
  apply (parseAll_roundtrip (fun _ => None) 512 (bytes " ") [example_ref]).
  - constructor; [|constructor]. split; [done|]. split; [|by repeat constructor].
    repeat (constructor; [split; [vm_compute; reflexivity|by repeat constructor]|]). constructor.
  - by repeat constructor.
  - apply Nat.leb_le. vm_compute. reflexivity.
Defined.

(** A file that ends inside a vector: the loop of [parseVector] looks at the byte behind
    the white space without checking that there is one. *)
Example parseAll_truncated cap :
  parseAll (fun _ => None) cap (bytes "[{" ++ quoted (bytes "vector") ++ bytes ":[0, ") = Panic.
Proof. vm_compute. reflexivity. Qed.

End RefParse.
