(* ===== verification/Build.v ===== *)
(** * cmd/buildindex: the whole builder

    [main] of [cmd/buildindex/main.go]: the components of the builder put together, and
    what the service finds in the file the builder leaves: an index that opens, is
    well-formed, and holds exactly the reference vectors.  The environment variables and
    the log lines are left out; the bytes of the input file are the argument. *)

From S2P Require Import Prelude Floats Select Index Kernel TopKTable Knn Quantize Layout IndexFile Cluster RefParse.

Module Build.
Import Index Kernel TopKTable Layout IndexFile.

Local Open Scope Z_scope.

(** ** The code *)

Definition KMeansIters : nat := 15.

(** How a run ends: without input vectors, without an output file, with the file written, or
    with an error of a write or of the last [Close] and the file as far as it got. *)
Inductive ending : Type :=
| NoVectors
| NotCreated
| Written (file : list byte)
| WriteFailed (file : list byte).

(** The end of [main]; [outs] says how [os.Create], the writes and [out.Close] end. *)
Definition write_out (outs : list (option nat)) (K : nat) (L : layout) : res ending :=
  match outs with
  | Some _ :: _ => Ok NotCreated
  | _ =>
      '(file, ok) ← write_index (tail outs) K L;
      Ok (if (ok : bool) then Written file else WriteFailed file)
  end.

Section Main.
Context `{SliceSort}.
Variable unspec : float -> Z.
Variable scan_other : list byte -> option float.
Variable cap : nat.
Variable KMeansSample : nat.
Variable K : nat.

Definition build (outs : list (option nat)) (input : list byte) : res ending :=
  '(vecs, labels) ← RefParse.parseAll scan_other cap input;
  match vecs with
  | [] => Ok NoVectors
  | _ =>
      centers ← Cluster.kmeansPlusPlus KMeansSample vecs (repeat (repeat (S754_zero false) DIMS) K) KMeansIters;
      '(assignments, counts) ← Cluster.assign centers vecs;
      L ← lay_out unspec K vecs labels centers assignments counts;
      write_out outs K L
  end.
End Main.

(** ** From the layout to the index *)

Lemma row_concat (rows : list (list Z)) c r :
  Forall (fun r => length r = 16%nat) rows -> rows !! c = Some r -> row (concat rows) c = r.
Proof.
  unfold row. revert c. induction rows as [|x rows IH]; intros c Hr Hc; [done|].
  apply Forall_cons_iff in Hr as [Hx Hr]. cbn [concat]. destruct c as [|c].
  - injection Hc as <-. rewrite Nat.mul_0_l, drop_0. by apply take_app_length'.
  - replace (S c * 16)%nat with (length x + c * 16)%nat by lia.
    rewrite <-drop_drop, drop_app_length. by apply IH.
Qed.

Lemma concat_rows (rows : list (list Z)) :
  Forall (fun r => length r = 16%nat) rows -> length (concat rows) = (length rows * 16)%nat.
Proof. induction 1 as [|r rows Hr _ IH]; [done|]. simpl. rewrite length_app, IH, Hr. lia. Qed.

Lemma Forall_concat_rows (P : Z -> Prop) (rows : list (list Z)) : Forall (Forall P) rows -> Forall P (concat rows).
Proof. induction 1 as [|r rows Hr _ IH]; [done|]. simpl. apply list.Forall_app. by split. Qed.

Section Laid.
Context (unspec : float -> Z) (vecs : list vector) (labels : list Z) (centers : list vector).
Context (arrs : list (list nat)) (L : layout).
Hypothesis HL : laid unspec vecs labels centers arrs L.
Hypothesis vecs_rows : Forall row_ok vecs.
Hypothesis K_max : (length centers <= MaxK)%nat.

#[local] Abbreviation K := (length centers).
#[local] Abbreviation ix := (index_of K L).

Lemma box_rows (rowsof : layout -> list (list Z)) (P : list Z -> Prop) :
  length (rowsof L) = length arrs ->
  (forall c arr, arrs !! c = Some arr -> exists r, rowsof L !! c = Some r /\ P r) ->
  Forall P (rowsof L).
Proof.
  intros Hl H. apply Forall_lookup_2. intros c r Hr.
  pose proof (lookup_lt_Some _ _ _ Hr) as Hlt. rewrite Hl in Hlt.
  destruct (lookup_lt_is_Some_2 arrs c Hlt) as [arr Harr]. destruct (H c arr Harr) as (r' & Hr' & HP). congruence.
Qed.

Lemma min_rows (P : list Z -> Prop) :
  (forall qs mn mx, boxes qs mn mx -> P mn) -> Forall P (LBBoxMin L).
Proof.
  intros HP. apply (box_rows LBBoxMin P (laid_min _ _ _ _ _ _ HL)). intros c arr Harr.
  destruct (laid_box _ _ _ _ _ _ HL c arr Harr) as (mn & mx & Hmn & _ & Hb). eauto.
Qed.

Lemma max_rows (P : list Z -> Prop) :
  (forall qs mn mx, boxes qs mn mx -> P mx) -> Forall P (LBBoxMax L).
Proof.
  intros HP. apply (box_rows LBBoxMax P (laid_max _ _ _ _ _ _ HL)). intros c arr Harr.
  destruct (laid_box _ _ _ _ _ _ HL c arr Harr) as (mn & mx & _ & Hmx & Hb). eauto.
Qed.

Lemma quantized_words l : quantized l -> Forall (fun v => -32768 <= v <= 32767) l.
Proof. intros H. eapply List.Forall_impl; [|exact H]. simpl. lia. Qed.

Lemma offn_bound c : (offn (lens arrs) c <= offn (lens arrs) K)%nat.
Proof.
  rewrite <-(laid_K _ _ _ _ _ _ HL). assert (length (lens arrs) = length arrs) as Hl by apply length_map.
  destruct (decide (c <= length arrs)%nat); [by apply offn_mono|].
  unfold offn. rewrite (take_ge (lens arrs) c), (take_ge (lens arrs) (length arrs)); (done || lia).
Qed.

Lemma laid_len c arr : arrs !! c = Some arr -> lens arrs !! c = Some (length arr).
Proof. intros Hc. unfold lens. by rewrite list_lookup_fmap, Hc. Qed.

Lemma laid_writable : Z.of_nat (length vecs) < 2 ^ 31 -> writable K L.
Proof.
  intros Hn. pose proof (laid_K _ _ _ _ _ _ HL) as HK. pose proof (laid_fit _ _ _ _ _ _ HL) as Hfit.
  change MaxK with 4096%nat in K_max. rewrite HK in Hfit.
  split; rewrite ?(laid_n _ _ _ _ _ _ HL), ?(laid_total _ _ _ _ _ _ HL), ?HK; try lia.
  - rewrite (laid_centroids _ _ _ _ _ _ HL), HK. unfold ncb_of.
    replace ((Z.of_nat K + 7) / 8) with (Z.of_nat ((K + 7) / 8)) by (rewrite Nat2Z.inj_div; f_equal; lia). lia.
  - apply quantized_words, HL.
  - rewrite concat_rows, (laid_min _ _ _ _ _ _ HL), HK; [done|]. apply min_rows. by intros ? ? ? [].
  - apply Forall_concat_rows, min_rows. intros ? ? ? Hb. apply Hb.
  - rewrite concat_rows, (laid_max _ _ _ _ _ _ HL), HK; [done|]. apply max_rows. by intros ? ? ? [].
  - apply Forall_concat_rows, max_rows. intros ? ? ? Hb. apply Hb.
  - rewrite (laid_offsets _ _ _ _ _ _ HL), length_map, length_seq. lia.
  - rewrite (laid_offsets _ _ _ _ _ _ HL). apply List.Forall_forall. intros x (i & <- & _)%in_map_iff.
    pose proof (offn_bound i). lia.
  - rewrite (laid_counts _ _ _ _ _ _ HL). unfold lens. rewrite !length_map. lia.
  - rewrite (laid_counts _ _ _ _ _ _ HL). apply List.Forall_forall. intros x (n & <- & Hin)%in_map_iff.
    apply list_elem_of_In, list_elem_of_lookup in Hin as [c Hc].
    pose proof (offn_room _ _ _ Hc). pose proof (offn_bound (S c)). lia.
  - rewrite (laid_codes _ _ _ _ _ _ HL), HK. lia.
  - apply quantized_words, HL.
  - rewrite (laid_labels _ _ _ _ _ _ HL), HK. lia.
  - eapply List.Forall_impl; [|apply HL]. simpl. lia.
Qed.

Lemma ix_cnt c arr : arrs !! c = Some arr -> Knn.cnt ix (Z.of_nat c) = Z.of_nat (length arr).
Proof.
  intros Hc. unfold Knn.cnt. cbn [Counts index_of]. rewrite Nat2Z.id, (laid_counts _ _ _ _ _ _ HL).
  apply list_lookup_total_correct. by rewrite list_lookup_fmap, (laid_len _ _ Hc).
Qed.

Lemma ix_off c : (c <= K)%nat -> Knn.off ix (Z.of_nat c) = Z.of_nat (offn (lens arrs) c).
Proof.
  intros Hc. unfold Knn.off. cbn [BlockOffsets index_of]. rewrite Nat2Z.id, (laid_offsets _ _ _ _ _ _ HL).
  apply list_lookup_total_correct. rewrite list_lookup_fmap, lookup_seq_lt; [done|].
  rewrite (laid_K _ _ _ _ _ _ HL). lia.
Qed.

(** Member [j] of cluster [c] is the input the layout put there. *)
Lemma ix_member c arr j i : arrs !! c = Some arr -> arr !! j = Some i ->
  Knn.member ix (Z.of_nat c) j = qvec unspec vecs i /\ Knn.label ix (Z.of_nat c) j = lab labels i.
Proof.
  intros Hc Hj. pose proof (lookup_lt_Some _ _ _ Hc) as Hlt. rewrite (laid_K _ _ _ _ _ _ HL) in Hlt.
  pose proof (laid_slot _ _ _ _ _ _ HL c arr j i Hc Hj) as Hs. cbv zeta in Hs.
  destruct (slot_div (offn (lens arrs) c) j) as [Hd Hm]. rewrite Hd, Hm in Hs.
  unfold Knn.member, Knn.label, Knn.blk_of. rewrite (ix_off c) by lia. rewrite Nat2Z.id.
  cbn [Vectors Labels index_of]. destruct Hs as [-> Hl]. split; [done|]. rewrite <-Hl. f_equal.
  pose proof (Nat.div_mod_eq j 8). lia.
Qed.

Lemma ix_wf : Z.of_nat (length vecs) < 2 ^ 31 -> Knn.index_wf ix.
Proof.
  intros Hn. pose proof (laid_writable Hn) as W. pose proof (laid_K _ _ _ _ _ _ HL) as HK.
  pose proof (laid_fit _ _ _ _ _ _ HL) as Hfit. change MaxK with 4096%nat in K_max.
  assert (forall z, 0 <= z < Z.of_nat K -> exists c arr, z = Z.of_nat c /\ (c < K)%nat /\ arrs !! c = Some arr) as Hcl.
  { intros z Hz. destruct (lookup_lt_is_Some_2 arrs (Z.to_nat z) ltac:(lia)) as [arr Harr].
    exists (Z.to_nat z), arr. split; [lia|]. split; [lia|done]. }
  split; cbn [index_of Index.K Index.N NCentroidBlk NBlocks Centroids BBoxMin BBoxMax BlockOffsets Counts Vectors Labels];
    rewrite ?Nat2Z.id.
  - change MaxK with 4096%nat. lia.
  - done.
  - rewrite (laid_total _ _ _ _ _ _ HL). lia.
  - apply W.
  - apply HL.
  - rewrite (w_min _ _ W). lia.
  - rewrite (w_max _ _ W). lia.
  - rewrite (w_offsets _ _ W). lia.
  - rewrite (w_counts _ _ W). lia.
  - apply W.
  - apply HL.
  - apply W.
  - apply HL.
  - intros z Hz. destruct (Hcl z Hz) as (c & arr & -> & Hc & Harr).
    rewrite (ix_cnt c arr Harr), (ix_off c) by lia. replace (Z.of_nat c + 1) with (Z.of_nat (S c)) by lia.
    rewrite (ix_off (S c)) by lia. rewrite (laid_total _ _ _ _ _ _ HL), HK.
    pose proof (offn_room _ _ _ (laid_len _ _ Harr)). pose proof (offn_bound (S c)).
    pose proof (offn_mono (lens arrs) c (S c) ltac:(lia)). lia.
  - intros z Hz Hcnt. destruct (Hcl z Hz) as (c & arr & -> & Hc & Harr). rewrite (ix_cnt c arr Harr) in Hcnt.
    destruct (laid_box _ _ _ _ _ _ HL c arr Harr) as (mn & mx & Hmn & Hmx & Hb). rewrite Nat2Z.id.
    rewrite (row_concat _ c mn), (row_concat _ c mx); try done;
      [|apply max_rows; by intros ? ? ? []|apply min_rows; by intros ? ? ? []].
    destruct (boxes_some _ _ _ Hb) as [H1 H2]; [by destruct arr|].
    split; apply List.Forall_and; (done || apply Hb).
  - intros z j Hz Hj. destruct (Hcl z Hz) as (c & arr & -> & Hc & Harr).
    rewrite (ix_cnt c arr Harr), Nat2Z.id in Hj. rewrite Nat2Z.id.
    destruct (laid_box _ _ _ _ _ _ HL c arr Harr) as (mn & mx & Hmn & Hmx & Hb).
    rewrite (row_concat _ c mn), (row_concat _ c mx); try done;
      [|apply max_rows; by intros ? ? ? []|apply min_rows; by intros ? ? ? []].
    destruct (lookup_lt_is_Some_2 arr j Hj) as [i Hi]. destruct (ix_member c arr j i Harr Hi) as [-> _].
    apply (boxes_inside _ _ _ Hb). apply list_elem_of_In, in_map. apply list_elem_of_In.
    by eapply list_elem_of_lookup_2.
Qed.

(** The labelled distance of input [i]. *)
Definition input_cand (q : list Z) (i : nat) : Z * Z := (sqdist q (qvec unspec vecs i), lab labels i).

(** Every input is stored once. *)
Lemma ix_cands q : Knn.all_cands ix q ≡ₚ map (input_cand q) (seq 0 (length vecs)).
Proof.
  rewrite <-(laid_members _ _ _ _ _ _ HL).
  assert (Knn.all_cands ix q = map (input_cand q) (concat arrs)) as ->; [|done].
  unfold Knn.all_cands, Knn.cands_of, Knn.clusters. change (Index.K ix) with (Z.of_nat K).
  rewrite Nat2Z.id, concat_map. f_equal. rewrite map_map.
  replace (seq 0 K) with (seq 0 (length arrs)) by (by rewrite (laid_K _ _ _ _ _ _ HL)).
  apply list_eq_same_length with (length arrs); [by rewrite !length_map|by rewrite length_map, length_seq|].
  intros c x y Hc Hx Hy. rewrite list_lookup_fmap, lookup_seq_lt in Hx by done.
  destruct (lookup_lt_is_Some_2 arrs c Hc) as [arr Harr]. rewrite list_lookup_fmap, Harr in Hy.
  cbv [fmap option_fmap option_map] in Hx, Hy. rewrite Nat.add_0_l in Hx.
  injection Hx as <-. injection Hy as <-. unfold Knn.cluster_cands. rewrite (ix_cnt c arr Harr), Nat2Z.id.
  apply list_eq_same_length with (length arr); [by rewrite length_map|by rewrite length_map, length_seq|].
  intros j x y Hj Hx Hy. rewrite list_lookup_fmap, lookup_seq_lt in Hx by done.
  destruct (lookup_lt_is_Some_2 arr j Hj) as [i Hi]. rewrite list_lookup_fmap, Hi in Hy.
  cbv [fmap option_fmap option_map] in Hx, Hy. rewrite Nat.add_0_l in Hx.
  injection Hx as <-. injection Hy as <-. unfold Knn.cand_at, input_cand.
  by destruct (ix_member c arr j i Harr Hi) as [-> ->].
Qed.

End Laid.

(** ** A run of the builder *)

(** The reference vectors as candidates of a query: distance and label. *)
Definition reference_cands (unspec : float -> Z) (vs : list vector) (ls : list Z) (q : list Z) : list (Z * Z) :=
  zip_with (fun v l => (sqdist q (quantized_row unspec v), l)) vs ls.

Section Run.
Context `{SliceSort} (unspec : float -> Z) (scan_other : list byte -> option float) (cap : nat).
Context (KMeansSample K : nat).
Context (sp : list byte) (rs : list RefParse.reference) (vs : list vector).

(** Input files the builder is meant for: a printed list of references whose features
    are finite, not more of them than the file format can count. *)
Record buildable : Prop := {
  in_refs : Forall2 (RefParse.denotes scan_other) rs vs;
  in_space : Forall (fun c => RefParse.isSpace c = true) sp;
  in_cap : (length (RefParse.print_refs sp rs) <= cap)%nat;
  in_some : vs <> [];
  in_finite : Forall Cluster.fin_row vs;
  in_n : Z.of_nat (length vs) < 2 ^ 31;
  in_K : (0 < K <= MaxK)%nat;
  in_sample : (0 < KMeansSample)%nat /\ Z.of_nat KMeansSample + 2 < 2 ^ 53
}.

Hypothesis input_ok : buildable.

#[local] Abbreviation labels := (map (fun r => RefParse.lab_val (RefParse.label_text r)) rs).

Lemma labels_01 : Forall (fun l => 0 <= l <= 1) labels.
Proof.
  apply List.Forall_forall. intros l (r & <- & _)%in_map_iff. unfold RefParse.lab_val. destruct (decide _); lia.
Qed.

Lemma labels_count : length labels = length vs.
Proof. rewrite length_map. exact (Forall2_length (in_refs input_ok)). Qed.

(** The layout the builder computes. *)
Lemma build_layout :
  exists centers arrs L,
    laid unspec vs labels centers arrs L /\ length centers = K /\ writable K L /\
    forall outs, build unspec scan_other cap KMeansSample K outs (RefParse.print_refs sp rs) = write_out outs K L.
Proof.
  destruct input_ok as [Hrefs Hsp Hcap Hne Hfin Hn HK [HS HS2]]. pose proof (Cluster.fin_rows_ok _ Hfin) as Hrow.
  pose proof (RefParse.parseAll_print scan_other cap sp rs vs Hrefs Hsp Hcap) as Ep.
  pose proof (Cluster.kmeansPlusPlus_ok KMeansSample vs (repeat (repeat (S754_zero false) DIMS) K) KMeansIters
    Hfin Hne) as Hk. apply returns_inv in Hk as (centers & Ek & Hcl & Hcr).
  2: { apply Cluster.Forall_repeat, Cluster.fin_row_ok, Cluster.zero_row. }
  2: { destruct K; [lia|done]. }
  2, 3: done.
  rewrite repeat_length in Hcl.
  assert (centers <> []) as Hcne by (intros ->; simpl in Hcl; lia).
  pose proof (Cluster.assign_ok centers vs (Cluster.row_ok_rows _ Hcr) (Cluster.row_ok_rows _ Hrow) Hcne) as Ha.
  apply returns_inv in Ha as ([assignments counts] & Ea & Hal & Has & ->); [|lia].
  assert (Forall (fun c => (c < length centers)%nat) assignments) as Hbelow.
  { apply Forall_lookup_2. intros i c Hi. pose proof (lookup_lt_Some _ _ _ Hi) as Hlt. rewrite Hal in Hlt.
    destruct (lookup_lt_is_Some_2 vs i Hlt) as [v Hv]. destruct (Has i v Hv) as (c' & Hc' & [Hc'' _]). congruence. }
  pose proof (lay_out_ok unspec vs labels centers assignments) as HL.
  apply returns_inv in HL as (L & EL & HL); try done; try lia; [|apply labels_count|apply labels_01].
  rewrite Hcl in EL. exists centers, (members vs centers assignments), L.
  split; [done|]. split; [done|]. split.
  { rewrite <-Hcl. eapply laid_writable; [exact HL|lia|done]. }
  intros outs. unfold build. rewrite Ep, bind_Ok.
  destruct vs as [|v0 vs0] eqn:Evs; [done|]. rewrite <-Evs in *. by rewrite Ek, bind_Ok, Ea, bind_Ok, EL, bind_Ok.
Qed.

Lemma input_cands q :
  map (input_cand unspec vs labels q) (seq 0 (length vs)) = reference_cands unspec vs labels q.
Proof.
  pose proof labels_count as Hl. unfold reference_cands.
  apply list_eq_same_length with (length vs); [by rewrite length_zip_with, Hl, Nat.min_id|by rewrite length_map, length_seq|].
  intros i x y Hi Hx Hy. rewrite list_lookup_fmap, lookup_seq_lt in Hx by done. simpl in Hx. injection Hx as <-.
  apply lookup_zip_with_Some in Hy as (v & l & -> & Hv & Hll).
  unfold input_cand, qvec, lab. by rewrite (list_lookup_total_correct _ _ _ Hv), (list_lookup_total_correct _ _ _ Hll).
Qed.

(** The file of a run whose writes succeed. *)
Lemma build_ok :
  exists data ix, build unspec scan_other cap KMeansSample K [] (RefParse.print_refs sp rs) = Ok (Written data) /\
    Open data = Ok ix /\ Knn.index_wf ix /\ Index.K ix = Z.of_nat K /\ Index.N ix = Z.of_nat (length vs) /\
    forall q, Knn.all_cands ix q ≡ₚ reference_cands unspec vs labels q.
Proof.
  destruct build_layout as (centers & arrs & L & HL & HK & W & Hb). rewrite Hb.
  destruct (chunks_ok K L) as (cs & Hcs & Hcat). unfold write_out, write_index. cbn [tail]. rewrite Hcs, bind_Ok, write_all_full, bind_Ok.
  exists (contents K L), (index_of K L). rewrite Hcat. split; [done|].
  split; [by apply Open_contents|].
  pose proof (in_n input_ok). pose proof (Cluster.fin_rows_ok _ (in_finite input_ok)).
  pose proof (proj2 (in_K input_ok)). rewrite <-HK in *. split; [by eapply ix_wf|]. split; [done|]. split; [apply HL|].
  intros q. rewrite <-input_cands. by eapply ix_cands.
Qed.

End Run.

(** ** An example *)

Definition example_refs : list RefParse.reference :=
  let row x y := map bytes [x; y; "0.5"; "0"; "0"; "-1"; "-1"; "0"; "0"; "0"; "0"; "0"; "0"; "0.25"]%string in
  [RefParse.mkReference (row "0.1" "0.2")%string (bytes "legit");
   RefParse.mkReference (row "0.9" "8e-1")%string (bytes "fraud");
   RefParse.mkReference (row "0.9" "0.75")%string (bytes "fraud")].

Definition scan_none (s : list byte) : option float := None.

Definition row_of (r : RefParse.reference) : vector :=
  map (fun t => default S754_nan (RefParse.parseFloatBytes scan_none t)) (RefParse.numerals r).

Definition reference_check (r : RefParse.reference) : bool :=
  let v := row_of r in
  Cluster.fin_row_check v &&
  forallb (fun t => forallb (fun c => negb (RefParse.ends_token c)) t &&
    match RefParse.parseFloatBytes scan_none t with Some _ => true | None => false end) (RefParse.numerals r) &&
  forallb (RefParse.nec x22) (RefParse.label_text r).

Lemma reference_check_ok r :
  reference_check r = true -> RefParse.denotes scan_none r (row_of r) /\ Cluster.fin_row (row_of r).
Proof.
  unfold reference_check. intros [[H H1]%andb_prop H0]%andb_prop.
  pose proof (Cluster.fin_row_check_ok _ H) as Hfin. split; [|done].
  split; [apply Hfin|]. split; [|by apply List.Forall_forall, forallb_forall].
  unfold row_of. rewrite forallb_forall in *. apply Forall2_same_length_lookup_2; [by rewrite length_map|].
  intros i t f Ht Hf. rewrite list_lookup_fmap, Ht in Hf. injection Hf as <-.
  match goal with E : forall x, In x (RefParse.numerals r) -> _ |- _ => specialize (E t) end.
  assert (In t (RefParse.numerals r)) as Hin by (apply list_elem_of_In; by eapply list_elem_of_lookup_2).
  match goal with E : In t _ -> _ |- _ => specialize (E Hin); apply andb_prop in E as [E1 E2] end.
  split; [by destruct (RefParse.parseFloatBytes scan_none t)|].
  by apply List.Forall_forall, forallb_forall.
Qed.

Lemma example_buildable :
  buildable scan_none 4096 2 2 (bytes " ") example_refs (map row_of example_refs).
Proof.
  assert (forall r, In r example_refs -> RefParse.denotes scan_none r (row_of r) /\ Cluster.fin_row (row_of r)) as Hr.
  { intros r Hin. apply reference_check_ok. revert r Hin. apply forallb_forall. vm_compute. reflexivity. }
  split; try done.
  - apply Forall2_same_length_lookup_2; [by rewrite length_map|]. intros i r v Hi Hv.
    rewrite list_lookup_fmap, Hi in Hv. injection Hv as <-. apply Hr, list_elem_of_In. by eapply list_elem_of_lookup_2.
  - by repeat constructor.
  - apply Nat.leb_le. vm_compute. reflexivity.
  - apply List.Forall_forall. intros v (r & <- & Hin)%in_map_iff. by apply Hr.
  - split; [lia|]. apply Nat.leb_le. vm_compute. reflexivity.
  - split; [lia|]. vm_compute. reflexivity.
Qed.

(** ** Properties *)

(** C15: the builder and the service agree on the index file. From any printed
    non-empty list of references with finite features the builder writes a file that [Open]
    accepts, the index is well-formed, and its candidates for every query are exactly the references:
    each once, quantized, with its label. *)
Theorem built_index_opens `{SliceSort} unspec scan_other cap KMeansSample K sp rs vs :
  buildable scan_other cap KMeansSample K sp rs vs ->
  exists data ix,
    build unspec scan_other cap KMeansSample K [] (RefParse.print_refs sp rs) = Ok (Written data) /\
    Open data = Ok ix /\ Knn.index_wf ix /\ Index.K ix = Z.of_nat K /\ Index.N ix = Z.of_nat (length vs) /\
    forall q, Knn.all_cands ix q ≡ₚ
      reference_cands unspec vs (map (fun r => RefParse.lab_val (RefParse.label_text r)) rs) q.
Proof. apply build_ok. Qed.

Example built_index_opens_witness :
  exists data ix,
    @build InsertionSort (fun _ => 0) scan_none 4096 2 2 [] (RefParse.print_refs (bytes " ") example_refs) =
      Ok (Written data) /\
    Open data = Ok ix /\ Knn.index_wf ix /\ Index.K ix = Z.of_nat 2 /\
    Index.N ix = Z.of_nat (length (map row_of example_refs)) /\
    forall q, Knn.all_cands ix q ≡ₚ
      reference_cands (fun _ => 0) (map row_of example_refs)
        (map (fun r => RefParse.lab_val (RefParse.label_text r)) example_refs) q.
Proof. apply (@built_index_opens InsertionSort). apply example_buildable. Defined.

(** C7: end to end, from the reference file to the answer. On the index the builder
    leaves, every quantized query is answered; and when no five references lie within
    [EarlyDist] of it the answer is five, or the number of frauds among five references
    nearest to it. *)
Theorem built_index_exact `{SliceSort, KernelLaws} unspec scan_other cap KMeansSample K sp rs vs :
  buildable scan_other cap KMeansSample K sp rs vs ->
  let cands := reference_cands unspec vs (map (fun r => RefParse.lab_val (RefParse.label_text r)) rs) in
  exists data ix,
    build unspec scan_other cap KMeansSample K [] (RefParse.print_refs sp rs) = Ok (Written data) /\
    Open data = Ok ix /\
    forall q, Knn.query q ->
      returns (Knn.ScoreQ ix q) (fun s => 0 <= s <= 5) /\
      forall e, length e = TopK -> Sorted.StronglySorted (key_le fst) e ->
        smallest fst e (no_best ++ cands q) -> EarlyDist < worst e ->
        returns (Knn.ScoreQ ix q) (fun s => s = 5 \/
          exists t, smallest fst t (no_best ++ cands q) /\ map fst t = map fst e /\ s = Knn.frauds t).
Proof.
  intros Hin cands.
  destruct (build_ok unspec scan_other cap KMeansSample K sp rs vs Hin) as (data & ix & Hb & Ho & Hwf & _ & _ & Hc).
  exists data, ix. split; [done|]. split; [done|]. intros q Hq. split; [by apply Knn.ScoreQ_range|].
  intros e Le Se He Hw. by apply Knn.ScoreQ_exact_cands.
Qed.

Definition example_query : list Z := Knn.point 9000 8000.

Example built_index_exact_witness :
  let cands := reference_cands (fun _ => 0) (map row_of example_refs)
    (map (fun r => RefParse.lab_val (RefParse.label_text r)) example_refs) in
  exists data ix,
    @build InsertionSort (fun _ => 0) scan_none 4096 2 2 [] (RefParse.print_refs (bytes " ") example_refs) =
      Ok (Written data) /\
    Open data = Ok ix /\
    returns (@Knn.ScoreQ avx2 ix example_query) (fun s => s = 5 \/
      exists t, smallest fst t (no_best ++ cands example_query) /\
        map fst t = map fst (nearest5 (cands example_query)) /\ s = Knn.frauds t).
Proof.
  intros cands.
  destruct (@built_index_exact InsertionSort avx2 avx2_laws (fun _ => 0) scan_none 4096 2 2 (bytes " ")
    example_refs (map row_of example_refs) example_buildable) as (data & ix & Hb & Ho & Hq).
  exists data, ix. split; [exact Hb|]. split; [exact Ho|].
  destruct (Hq example_query (Knn.query_check_ok example_query ltac:(vm_compute; reflexivity))) as [_ He].
  apply (He (nearest5 (cands example_query)));
    [apply nearest5_length|apply nearest5_sorted|apply nearest5_smallest|vm_compute; reflexivity].
Defined.



End Build.
