(* ===== verification/Calibrate.v ===== *)
(** * cmd/calibrate: trusting leaves of the decision tree

    [main] of [cmd/calibrate/main.go], which decides on a file of labelled requests which
    leaves of the decision tree may answer instead of the search, and [emit], which
    prints the table.  The entries (the decoded JSON file) and the environment variables
    are arguments; the diagnostics are in [Report].  The wrap-around of the counters,
    [int]s that count entries, is left out. *)

From S2P Require Import Prelude Floats Index Kernel Knn Quantize TreeData Tree Normalize Jsonp JsonText Http Server.
From stdpp Require Import gmap.

Module Calibrate.
Import Kernel.

Local Open Scope Z_scope.

Definition MinObs : Z := 50.

(** ** The code *)

(** [rawEntry]; the expected score is decoded but never used. *)
Record rawEntry : Type := mkRawEntry { Request : list byte; ExpectedApproved : bool }.

(** The sanity counters. *)
Record tally : Type := mkTally { tp : Z; tn : Z; fp : Z; fn : Z }.

(** The per-leaf accumulator.  The field [tFP] of the struct is never used. *)
Record bucket : Type := mkBucket {
  count : Z;
  scoreSet : gmap Z Z;
  tCnt : gmap Z Z;
  purity : Z
}.

Inductive fatal : Type :=
| ParseFailed        (* entry %d parse / re-parse failed *)
| BaselineWrong      (* baseline KNN has FP/FN *)
| Drift              (* KNN vs fastpath disagree *)
| UnionDrift.        (* regressed vs baseline KNN *)

(** How a run ends, with the tables printed by then. *)
Inductive verdict : Type :=
| Fatal (why : fatal) (printed : option (list bool))
| Emitted (safe : list bool) (union : option (list bool)).

#[global] Instance tally_eq_dec : EqDecision tally.
Proof. solve_decision. Defined.

Definition clamp5 (frauds : Z) : Z := if 5 <? frauds then 5 else frauds.

(** The four-way switch. *)
Definition score_entry (t : tally) (frauds : Z) (expected : bool) : tally :=
  let approved := frauds <=? 2 in
  if approved && expected then mkTally (tp t) (tn t + 1) (fp t) (fn t)
  else if negb approved && negb expected then mkTally (tp t + 1) (tn t) (fp t) (fn t)
  else if approved && negb expected then mkTally (tp t) (tn t) (fp t) (fn t + 1)
  else if negb approved && expected then mkTally (tp t) (tn t) (fp t + 1) (fn t)
  else t.

Definition zero_tally : tally := mkTally 0 0 0 0.

(** [m[k]++] *)
Definition incr (k : Z) (m : gmap Z Z) : gmap Z Z := <[k := default 0 (m !! k) + 1]> m.

(** One more sample at a leaf. *)
Definition observe (leaves : gmap Z bucket) (tr : Tree.Result) (frauds : Z) : gmap Z bucket :=
  let b := match leaves !! Tree.LeafID tr with
           | Some b => b
           | None => mkBucket 0 ∅ ∅ (Tree.ResPurityMilli tr)
           end in
  <[Tree.LeafID tr := mkBucket (count b + 1) (incr frauds (scoreSet b)) (incr (Tree.ResCount tr) (tCnt b)) (purity b)]> leaves.

(** [for s := range m { x = s }] leaves the last key of the iteration in [x]. *)
Definition last_key (m : gmap Z Z) : Z := foldl (fun _ kv => kv.1) 0 (map_to_list m).

(** Whether a leaf is admitted. *)
Definition admitted (minObs minPure : Z) (b : bucket) : bool :=
  let meetsT1 := minObs <=? count b in
  let meetsT2 := (purity b =? 1000) && (minPure <=? count b) in
  if negb meetsT1 && negb meetsT2 then false
  else if negb (size (scoreSet b) =? 1)%nat then false
  else if negb (size (tCnt b) =? 1)%nat then false
  else u32 (last_key (tCnt b)) =? last_key (scoreSet b).

Definition mark_leaf (minObs minPure : Z) (leaves : gmap Z bucket) (safe : list bool) (leaf : nat) : res (list bool) :=
  match leaves !! Z.of_nat leaf with
  | None => Ok safe
  | Some b => if admitted minObs minPure b then set safe leaf true else Ok safe
  end.

Definition mark (minObs minPure : Z) (leaves : gmap Z bucket) : res (list bool) :=
  foldM (mark_leaf minObs minPure leaves) (repeat false (Z.to_nat Tree.LeafCount)) (seq 0 (Z.to_nat Tree.LeafCount)).

(** The union with the shipped table. *)
Definition with_shipped (safe : list bool) : res (list bool) :=
  foldM (fun unionSafe i =>
    shipped ← Tree.LeafSafeA (Z.of_nat i);
    s ← get unionSafe i;
    if shipped && negb s then set unionSafe i true else Ok unionSafe) safe (seq 0 (Z.to_nat Tree.LeafCount)).

Section Run.
Context `{Kernel}.
Variable unspec : float -> Z.   (* int16 of a NaN *)
Variable ix : Index.Index.

(** From a request to its query and its leaf.  No result: the request did not parse. *)
Definition query_leaf (e : rawEntry) : res (option (list Z * Tree.Result)) :=
  match Jsonp.Parse (Request e) with
  | Ok p => v ← Normalize.Vectorize p; qq ← Quantize.Quantize unspec v; tr ← Tree.Predict qq; Ok (Some (qq, tr))
  | Fail _ => Ok None
  | Panic => Panic
  | OutOfFuel => OutOfFuel
  end.

(** The baseline loop. *)
Fixpoint baseline (entries : list rawEntry) (leaves : gmap Z bucket) (t : tally) : res (option (gmap Z bucket * tally)) :=
  match entries with
  | [] => Ok (Some (leaves, t))
  | e :: entries' =>
      r ← query_leaf e;
      match r with
      | None => Ok None
      | Some (qq, tr) =>
          frauds ← Knn.ScoreQ ix qq;
          let frauds := clamp5 frauds in
          let t := score_entry t frauds (ExpectedApproved e) in
          baseline entries' (observe leaves tr frauds) t
      end
  end.

(** The loop over the entries with the fast path of a table. *)
Fixpoint replay (safe : list bool) (entries : list rawEntry) (t : tally) : res (option tally) :=
  match entries with
  | [] => Ok (Some t)
  | e :: entries' =>
      r ← query_leaf e;
      match r with
      | None => Ok None
      | Some (qq, tr) =>
          s ← getZ safe (Tree.LeafID tr);
          frauds ← (if (s : bool) then Ok (u32 (Tree.ResCount tr)) else Knn.ScoreQ ix qq);
          replay safe entries' (score_entry t (clamp5 frauds) (ExpectedApproved e))
      end
  end.

(** From the accumulators of the baseline on; [MIN_OBS_PURE] defaults to [minObs], and
    [union] is [UNION_SHIPPED]. *)
Definition judge (minObs : Z) (minObsPure : option Z) (union : bool) (entries : list rawEntry)
    (leaves : gmap Z bucket) (t : tally) : res verdict :=
  if negb (fp t =? 0) || negb (fn t =? 0) then Ok (Fatal BaselineWrong None)
  else
    safe ← mark minObs (default minObs minObsPure) leaves;
    r2 ← replay safe entries zero_tally;
    match r2 with
    | None => Ok (Fatal ParseFailed None)
    | Some t2 =>
        if negb (bool_decide (t2 = t)) then Ok (Fatal Drift None)
        else if union then
          unionSafe ← with_shipped safe;
          r3 ← replay unionSafe entries zero_tally;
          match r3 with
          | None => Ok (Fatal ParseFailed (Some safe))
          | Some t3 =>
              if negb (bool_decide (t3 = t)) then Ok (Fatal UnionDrift (Some safe))
              else Ok (Emitted safe (Some unionSafe))
          end
        else Ok (Emitted safe None)
    end.

Definition calibrate (minObs : Z) (minObsPure : option Z) (union : bool) (entries : list rawEntry) : res verdict :=
  r ← baseline entries ∅ zero_tally;
  match r with
  | None => Ok (Fatal ParseFailed None)
  | Some (leaves, t) => judge minObs minObsPure union entries leaves t
  end.
End Run.

(** [emit]: the Go literal, sixteen entries to a line. *)
Definition emit_bool (b : bool) : list byte := bytes (if b then "true, " else "false, ").
Definition emit_row (safe : list bool) (r : nat) : list byte :=
  [x09] ++ concat (map emit_bool (take 16 (drop (r * 16) safe))) ++ [x0a].
Definition emit (safe : list bool) : list byte :=
  bytes "var leafSafeA = [LeafCount]bool{" ++ [x0a] ++
  concat (map (emit_row safe) (seq 0 ((length safe + 15) / 16))) ++ bytes "}" ++ [x0a].

(** What a run writes to its standard output. *)
Definition stdout (v : verdict) : list byte :=
  match v with
  | Fatal _ None => []
  | Fatal _ (Some safe) | Emitted safe None => emit safe
  | Emitted safe (Some unionSafe) =>
      emit safe ++ bytes "// === UNION (shipped + calibrated) ===" ++ [x0a] ++ emit unionSafe
  end.

(** ** Samples *)

#[local] Opaque Tree.walk Tree.result_of Tree.Predict Tree.LeafSafeA Tree.the_tree TreeData.leafSafeA
  Knn.ScoreQ Quantize.Quantize Normalize.Vectorize.

(** What an entry shows: its leaf, the clamped answer of the search, the expectation. *)
Record sample : Type := mkSample { leaf_of : Z; knn_of : Z; expected_of : bool }.

(** The fraud count and the purity of a leaf. *)
Definition tree_count (leaf : Z) : Z := Tree.ResCount (Tree.result_of leaf).
Definition leaf_purity (leaf : Z) : Z := Tree.ResPurityMilli (Tree.result_of leaf).

Definition at_leaf (leaf : Z) (xs : list sample) : list sample := filter (fun x => leaf_of x = leaf) xs.

Definition sample_ok (x : sample) : Prop :=
  0 <= leaf_of x < Tree.LeafCount /\ 0 <= knn_of x <= 5 /\ 0 <= tree_count (leaf_of x) <= 5.

(** The accumulators after the samples [xs]. *)
Definition bucket_ok (leaf : Z) (xs : list sample) (b : bucket) : Prop :=
  at_leaf leaf xs <> [] /\ count b = Z.of_nat (length (at_leaf leaf xs)) /\
  (forall k, is_Some (scoreSet b !! k) <-> exists x, x ∈ at_leaf leaf xs /\ knn_of x = k) /\
  (forall k, is_Some (tCnt b !! k) <-> k = tree_count leaf) /\ purity b = leaf_purity leaf.

Lemma seen_count leaf xs b : Forall sample_ok xs -> bucket_ok leaf xs b -> 0 <= tree_count leaf <= 5.
Proof.
  intros Hxs (Hne & _). destruct (at_leaf leaf xs) as [|x l] eqn:E; [done|].
  assert (x ∈ at_leaf leaf xs) as Hx by (rewrite E; by left).
  apply list_elem_of_filter in Hx as [<- Hx]. rewrite List.Forall_forall in Hxs. apply Hxs. by apply list_elem_of_In.
Qed.

Definition leaves_ok (xs : list sample) (m : gmap Z bucket) : Prop :=
  forall leaf, match m !! leaf with None => at_leaf leaf xs = [] | Some b => bucket_ok leaf xs b end.

Lemma at_leaf_app leaf xs x :
  at_leaf leaf (xs ++ [x]) = at_leaf leaf xs ++ (if decide (leaf_of x = leaf) then [x] else []).
Proof. unfold at_leaf. by rewrite list.filter_app. Qed.

Lemma incr_keys k m k' : is_Some (incr k m !! k') <-> k' = k \/ is_Some (m !! k').
Proof.
  unfold incr. destruct (decide (k = k')) as [->|Hne].
  - rewrite lookup_insert_eq. split; [by left|]. by eexists.
  - rewrite lookup_insert_ne by done. naive_solver.
Qed.

Lemma observe_ok xs m x :
  leaves_ok xs m -> leaves_ok (xs ++ [x]) (observe m (Tree.result_of (leaf_of x)) (knn_of x)).
Proof.
  intros Hm leaf. unfold observe. rewrite Tree.result_of_id. pose proof (Hm leaf) as Hl.
  destruct (decide (leaf_of x = leaf)) as [<-|Hne].
  - rewrite lookup_insert_eq. unfold bucket_ok. rewrite at_leaf_app, decide_True by done.
    cbn [count scoreSet tCnt purity]. rewrite length_app. simpl length.
    split; [by destruct (at_leaf _ xs)|].
    destruct (m !! leaf_of x) as [b|] eqn:E.
    + destruct Hl as (_ & Hc & Hs & Ht & Hp). split; [lia|]. split; [|split; [|done]].
      * intros k. rewrite incr_keys, Hs. setoid_rewrite elem_of_app. setoid_rewrite list_elem_of_singleton. naive_solver.
      * intros k. rewrite incr_keys, Ht. unfold tree_count. naive_solver.
    + rewrite Hl. cbn [count scoreSet tCnt purity length]. split; [lia|]. split; [|split; [|done]].
      * intros k. rewrite incr_keys, lookup_empty. setoid_rewrite elem_of_app.
        setoid_rewrite list_elem_of_singleton. setoid_rewrite elem_of_nil. unfold is_Some. naive_solver.
      * intros k. rewrite incr_keys, lookup_empty. unfold tree_count, is_Some. naive_solver.
  - rewrite lookup_insert_ne by done.
    assert (at_leaf leaf (xs ++ [x]) = at_leaf leaf xs) as E by (by rewrite at_leaf_app, decide_False, app_nil_r).
    unfold bucket_ok. rewrite E. exact Hl.
Qed.

(** ** Admission *)

Lemma single_key m k : (forall k', is_Some (m !! k') <-> k' = k) -> size m = 1%nat /\ last_key m = k.
Proof.
  intros H. destruct (proj2 (H k) eq_refl) as [v Hv].
  assert (m = {[ k := v ]}) as ->.
  { apply map_eq. intros k'. destruct (decide (k' = k)) as [->|Hne]; [by rewrite lookup_singleton_eq|].
    rewrite lookup_singleton_ne by done. destruct (m !! k') as [v'|] eqn:E; [|done].
    exfalso. apply Hne, H. by rewrite E. }
  split; [apply map_size_singleton|]. unfold last_key. by rewrite map_to_list_singleton.
Qed.

Lemma one_key m : size m = 1%nat -> forall k, is_Some (m !! k) -> k = last_key m.
Proof.
  intros Hs k [v Hv]. unfold last_key. rewrite <-length_map_to_list in Hs.
  apply elem_of_map_to_list in Hv. destruct (map_to_list m) as [|[k0 v0] [|]]; try done.
  apply list_elem_of_singleton in Hv. injection Hv as -> _. done.
Qed.

(** The rule: enough samples, and every one of them has the answer of the tree. *)
Definition trusted (minObs minPure : Z) (leaf : Z) (xs : list sample) : Prop :=
  at_leaf leaf xs <> [] /\
  (minObs <= Z.of_nat (length (at_leaf leaf xs)) \/
   leaf_purity leaf = 1000 /\ minPure <= Z.of_nat (length (at_leaf leaf xs))) /\
  forall x, x ∈ at_leaf leaf xs -> knn_of x = tree_count leaf.

Lemma admitted_ok minObs minPure leaf xs b :
  bucket_ok leaf xs b -> 0 <= tree_count leaf <= 5 ->
  admitted minObs minPure b = true <-> trusted minObs minPure leaf xs.
Proof.
  intros (Hne & Hc & Hs & Ht & Hp) Hr. unfold admitted, trusted. rewrite Hc, Hp.
  destruct (single_key _ _ Ht) as [-> ->]. cbn [Nat.eqb negb]. rewrite u32_id by lia.
  set (n := Z.of_nat (length (at_leaf leaf xs))).
  destruct (negb (minObs <=? n) && negb ((leaf_purity leaf =? 1000) && (minPure <=? n))) eqn:E1.
  { split; [done|]. intros (_ & Hn & _). lia. }
  destruct (Nat.eqb_spec (size (scoreSet b)) 1) as [H1|H1]; cbn [negb].
  - rewrite Z.eqb_eq. split.
    + intros He. split; [done|]. split; [lia|]. intros x Hx. rewrite He. apply (one_key _ H1).
      apply Hs. by exists x.
    + intros (_ & _ & Hall). apply one_key; [done|]. apply Hs.
      destruct (at_leaf leaf xs) as [|x l] eqn:El; [done|]. exists x. split; [by left|]. apply Hall. by left.
  - split; [done|]. intros (_ & _ & Hall). exfalso. apply H1, (single_key _ (tree_count leaf)).
    intros k. rewrite Hs. split.
    + intros (x & Hx & <-). by apply Hall.
    + intros ->. destruct (at_leaf leaf xs) as [|x l] eqn:El; [done|]. exists x. split; [by left|]. apply Hall. by left.
Qed.

(** ** The loops *)

Lemma mark_ok minObs minPure xs m :
  leaves_ok xs m -> Forall sample_ok xs ->
  returns (mark minObs minPure m) (fun safe => length safe = 512%nat /\
    forall i, (i < 512)%nat -> safe !!! i = true <-> trusted minObs minPure (Z.of_nat i) xs).
Proof.
  intros Hm Hxs. unfold mark. change (Z.to_nat Tree.LeafCount) with 512%nat.
  eapply wp_conseq.
  { apply (wp_for _ (fun k safe => length safe = 512%nat /\ forall i, (i < 512)%nat ->
      safe !!! i = true <-> (i < k)%nat /\ trusted minObs minPure (Z.of_nat i) xs)).
    - split; [by rewrite repeat_length|]. intros i Hi.
      change (repeat false 512) with (replicate 512 false). rewrite lookup_total_replicate_2 by done.
      split; [done|lia].
    - intros k safe Hk [Hl HI]. rewrite Nat.add_0_l. unfold mark_leaf. pose proof (Hm (Z.of_nat k)) as Hb.
      assert (returns (match m !! Z.of_nat k with
          | None => Ok safe
          | Some b => if admitted minObs minPure b then set safe k true else Ok safe
          end) (fun safe' => length safe' = 512%nat /\ (forall i, i <> k -> safe' !!! i = safe !!! i) /\
          (safe' !!! k = true <-> safe !!! k = true \/ trusted minObs minPure (Z.of_nat k) xs))) as Hstep.
      { destruct (m !! Z.of_nat k) as [b|].
        - pose proof (seen_count _ _ _ Hxs Hb) as Hr.
          pose proof (admitted_ok minObs minPure _ xs b Hb Hr) as Ha. destruct (admitted minObs minPure b).
          + rewrite set_ok by lia. apply wp_ok. rewrite length_insert. split; [done|]. split.
            * intros i Hi. by rewrite list_lookup_total_insert_ne.
            * rewrite list_lookup_total_insert_eq by lia. split; [intros _; right; by apply Ha|done].
          + apply wp_ok. split; [done|]. split; [done|]. split; [by left|]. intros [H|H]; [done|]. by apply Ha in H.
        - apply wp_ok. split; [done|]. split; [done|]. split; [by left|]. intros [H|[H _]]; done. }
      eapply wp_conseq; [exact Hstep|]. intros safe' (Hl' & Hother & Hkk). split; [done|].
      intros i Hi. destruct (decide (i = k)) as [->|Hne].
      + rewrite Hkk, HI by done. split; [intros [[? _]|H]; [lia|split; [lia|done]]|intros [_ H]; by right].
      + rewrite Hother, HI by done. split; intros [? H]; (split; [lia|done]). }
  intros safe [Hl HI]. split; [done|]. intros i Hi. rewrite HI by done. split; [by intros [_ H]|]. by split.
Qed.

Lemma with_shipped_ok safe :
  length safe = 512%nat ->
  returns (with_shipped safe) (fun u => length u = 512%nat /\
    forall i, (i < 512)%nat -> u !!! i = safe !!! i || TreeData.leafSafeA !!! i).
Proof.
  intros Hl. unfold with_shipped. change (Z.to_nat Tree.LeafCount) with 512%nat. eapply wp_conseq.
  { apply (wp_for _ (fun k u => length u = 512%nat /\ forall i, (i < 512)%nat ->
      u !!! i = safe !!! i || ((i <? k)%nat && TreeData.leafSafeA !!! i))).
    - split; [done|]. intros i Hi. by rewrite orb_false_r.
    - intros k u Hk [Hu HI]. rewrite Nat.add_0_l, Tree.LeafSafeA_ok, bind_Ok by (unfold Tree.LeafCount; lia).
      rewrite Nat2Z.id. rewrite (get_total u k), bind_Ok by lia. pose proof (HI k Hk) as Hk'.
      replace (k <? k)%nat with false in Hk' by lia. rewrite andb_false_l, orb_false_r in Hk'. rewrite Hk'.
      assert (forall i, (i < 512)%nat -> i <> k -> u !!! i = safe !!! i || ((i <? S k)%nat && TreeData.leafSafeA !!! i)) as Ho.
      { intros i Hi Hne. rewrite HI by done. by replace (i <? S k)%nat with (i <? k)%nat by lia. }
      destruct (TreeData.leafSafeA !!! k) eqn:Es, (safe !!! k) eqn:Ek; cbn [andb negb].
      1, 3, 4: apply wp_ok; split; [done|]; intros i Hi; destruct (decide (i = k)) as [->|]; [|by apply Ho];
        by rewrite Hk', Ek, Es, ?andb_false_r.
      rewrite set_ok by lia. apply wp_ok. rewrite length_insert. split; [done|]. intros i Hi.
      destruct (decide (i = k)) as [->|Hne].
      + rewrite list_lookup_total_insert_eq by lia. rewrite Es, Ek. by replace (k <? S k)%nat with true by lia.
      + rewrite list_lookup_total_insert_ne by done. by apply Ho. }
  intros u [Hu HI]. split; [done|]. intros i Hi. rewrite HI by done. by replace (i <? 512)%nat with true by lia.
Qed.

Definition tally_of (answer : sample -> Z) (xs : list sample) (t : tally) : tally :=
  foldl (fun t x => score_entry t (answer x) (expected_of x)) t xs.

(** The answer of the fast path with a table. *)
Definition fast_answer (safe : list bool) (x : sample) : Z :=
  if (safe !!! Z.to_nat (leaf_of x) : bool) then tree_count (leaf_of x) else knn_of x.

Section Loops.
Context `{Kernel}.
Variable unspec : float -> Z.
Variable ix : Index.Index.

(** The sample of an entry. *)
Definition measured (e : rawEntry) (x : sample) : Prop :=
  expected_of x = ExpectedApproved e /\ sample_ok x /\
  exists qq s, query_leaf unspec e = Ok (Some (qq, Tree.result_of (leaf_of x))) /\
    Knn.ScoreQ ix qq = Ok s /\ knn_of x = clamp5 s.

Lemma baseline_ok entries xs : forall pre leaves t,
  Forall2 measured entries xs -> leaves_ok pre leaves ->
  exists leaves', baseline unspec ix entries leaves t = Ok (Some (leaves', tally_of knn_of xs t)) /\
    leaves_ok (pre ++ xs) leaves'.
Proof.
  intros pre leaves t Hm. revert pre leaves t. induction Hm as [|e x entries xs He _ IH]; intros pre leaves t Hl.
  - exists leaves. split; [done|]. by rewrite app_nil_r.
  - destruct He as (Hexp & _ & qq & s & Hq & Hs & Hk). cbn [baseline]. rewrite Hq, bind_Ok, Hs, bind_Ok.
    cbv zeta. rewrite <-Hk, <-Hexp.
    destruct (IH (pre ++ [x]) (observe leaves (Tree.result_of (leaf_of x)) (knn_of x))
      (score_entry t (knn_of x) (expected_of x)) ltac:(by apply observe_ok)) as (leaves' & Hb & Hl').
    exists leaves'. rewrite <-app_assoc in Hl'. by split.
Qed.

Lemma replay_ok safe entries xs : forall t,
  Forall2 measured entries xs -> length safe = 512%nat ->
  replay unspec ix safe entries t = Ok (Some (tally_of (fast_answer safe) xs t)).
Proof.
  intros t Hm Hsafe. revert t. induction Hm as [|e x entries xs He _ IH]; intros t; [done|].
  destruct He as (Hexp & (Hlf & Hkr & Htr) & qq & s & Hq & Hs & Hk). cbn [replay]. rewrite Hq, bind_Ok, Tree.result_of_id.
  unfold Tree.LeafCount in Hlf.
  assert (getZ safe (leaf_of x) = Ok (safe !!! Z.to_nat (leaf_of x))) as ->.
  { apply getZ_ok; [lia|]. apply list_lookup_lookup_total_lt. lia. }
  rewrite bind_Ok. unfold tally_of. cbn [foldl]. unfold fast_answer at 2.
  destruct (safe !!! Z.to_nat (leaf_of x)).
  - fold (tree_count (leaf_of x)). rewrite bind_Ok, u32_id by lia. rewrite <-Hexp.
    replace (clamp5 (tree_count (leaf_of x))) with (tree_count (leaf_of x)); [apply IH|].
    unfold clamp5. by destruct (Z.ltb_spec 5 (tree_count (leaf_of x))); [lia|].
  - rewrite Hs, bind_Ok, <-Hk, <-Hexp. apply IH.
Qed.

End Loops.

(** The counters are zero exactly when the search is right on every entry. *)
Definition right (x : sample) : Prop := (knn_of x <=? 2) = expected_of x.

Lemma tally_mono xs t :
  0 <= fp t -> 0 <= fn t ->
  let t' := tally_of knn_of xs t in
  fp t <= fp t' /\ fn t <= fn t' /\ (fp t' = fp t /\ fn t' = fn t <-> Forall right xs).
Proof.
  revert t. induction xs as [|x xs IH]; intros t Hp Hn; cbv zeta.
  - cbn [tally_of foldl]. split; [lia|]. split; [lia|]. split; [constructor|done].
  - change (tally_of knn_of (x :: xs) t) with (tally_of knn_of xs (score_entry t (knn_of x) (expected_of x))).
    rewrite Forall_cons_iff. unfold right at 1. unfold score_entry.
    destruct (knn_of x <=? 2), (expected_of x); cbn [andb negb];
      match goal with |- context [tally_of knn_of xs ?t1] =>
        destruct (IH t1) as (H1 & H2 & H3); cbn [fp fn tp tn] in *; try lia end;
      (split; [lia|]; split; [lia|]); split; try (intros [? ?]; lia); try (intros [? _]; done).
    + intros Hz. split; [done|]. by apply H3.
    + intros [_ Hf]. by apply H3.
    + intros Hz. split; [done|]. by apply H3.
    + intros [_ Hf]. by apply H3.
Qed.

Lemma tally_ext a b xs t : (forall x, x ∈ xs -> a x = b x) -> tally_of a xs t = tally_of b xs t.
Proof.
  revert t. induction xs as [|x xs IH]; intros t Hx; [done|]. unfold tally_of in *. cbn [foldl].
  rewrite (Hx x) by (by left). apply IH. intros y Hy. apply Hx. by right.
Qed.

(** A table that only trusts leaves on which tree and search agree changes no answer. *)
Lemma trusted_answers minObs minPure xs safe :
  Forall sample_ok xs ->
  (forall i, (i < 512)%nat -> safe !!! i = true <-> trusted minObs minPure (Z.of_nat i) xs) ->
  forall x, x ∈ xs -> fast_answer safe x = knn_of x.
Proof.
  intros Hxs Hsafe x Hx. unfold fast_answer. destruct (safe !!! Z.to_nat (leaf_of x)) eqn:E; [|done].
  rewrite List.Forall_forall in Hxs. destruct (Hxs x (proj1 (list_elem_of_In _ _) Hx)) as [Hl _].
  unfold Tree.LeafCount in Hl. apply Hsafe in E as (_ & _ & Hall); [|lia]. rewrite Z2Nat.id in Hall by lia.
  symmetry. apply Hall. by apply list_elem_of_filter.
Qed.

(** ** Whole runs *)

Section Whole.
Context `{KernelLaws}.
Variable unspec : float -> Z.
Variable ix : Index.Index.
Hypothesis wf : Knn.index_wf ix.

(** An entry the service would score. *)
Definition good (e : rawEntry) : Prop := exists p, Jsonp.Parse (Request e) = Ok p /\ Server.scorable p.

Lemma good_measured e : good e -> exists x, measured unspec ix e x.
Proof.
  intros (p & Hp & Hs). pose proof (Jsonp.Parse_wf (Request e)) as Hwf. rewrite Hp in Hwf.
  destruct (Server.query_of unspec _ p Hwf Hs) as (v & qq & Ev & Eq & Hq).
  pose proof (Tree.Predict_ok qq (proj1 Hq)) as Ht. apply returns_inv in Ht as (tr & Et & Etr & Hl & Hc).
  pose proof (Knn.ScoreQ_range ix qq wf Hq) as Hr. apply returns_inv in Hr as (s & Es & Hr).
  assert (clamp5 s = s) as Hcl by (unfold clamp5; destruct (Z.ltb_spec 5 s); lia).
  pose proof (Tree.result_of_id (Tree.walk qq Tree.the_tree)) as Hid. rewrite <-Etr in Hid.
  exists (mkSample (Tree.LeafID tr) s (ExpectedApproved e)). split; [reflexivity|].
  split; [split; [exact Hl|]; split; [exact Hr|]; unfold tree_count; cbn [leaf_of]; rewrite Hid, <-Etr; exact Hc|].
  exists qq, s. cbn [leaf_of knn_of]. rewrite Hcl. split; [|split; [exact Es|reflexivity]]. unfold query_leaf.
  rewrite Hp, Ev, bind_Ok, Eq, bind_Ok, Et, bind_Ok. do 3 f_equal. rewrite Hid. exact Etr.
Qed.

Lemma all_measured entries : Forall good entries -> exists xs, Forall2 (measured unspec ix) entries xs.
Proof.
  induction 1 as [|e entries He _ [xs IH]]; [by exists []|].
  destruct (good_measured e He) as [x Hx]. exists (x :: xs). by constructor.
Qed.

Lemma measured_samples entries xs : Forall2 (measured unspec ix) entries xs -> Forall sample_ok xs.
Proof. induction 1 as [|e x entries xs He _ IH]; constructor; [apply He|done]. Qed.

(** The table a run prints. *)
Definition table_of (minObs minPure : Z) (xs : list sample) (safe : list bool) : Prop :=
  length safe = 512%nat /\
  forall i, (i < 512)%nat -> safe !!! i = true <-> trusted minObs minPure (Z.of_nat i) xs.

Definition verdict_ok (minObs minPure : Z) (union : bool) (xs : list sample) (v : verdict) : Prop :=
  match v with
  | Fatal BaselineWrong None => ~ Forall right xs
  | Emitted safe u => Forall right xs /\ table_of minObs minPure xs safe /\
      (forall x, x ∈ xs -> fast_answer safe x = knn_of x) /\
      match u with
      | None => union = false
      | Some us => union = true /\ length us = 512%nat /\
          forall i, (i < 512)%nat -> us !!! i = safe !!! i || TreeData.leafSafeA !!! i
      end
  | Fatal UnionDrift (Some safe) => Forall right xs /\ table_of minObs minPure xs safe /\ union = true /\
      exists x, x ∈ xs /\ TreeData.leafSafeA !!! Z.to_nat (leaf_of x) = true /\ tree_count (leaf_of x) <> knn_of x
  | Fatal _ _ => False
  end.

Lemma judge_ok minObs minObsPure union entries xs leaves :
  Forall2 (measured unspec ix) entries xs -> leaves_ok xs leaves ->
  returns (judge unspec ix minObs minObsPure union entries leaves (tally_of knn_of xs zero_tally))
    (verdict_ok minObs (default minObs minObsPure) union xs).
Proof.
  intros Hm Hl. pose proof (measured_samples _ _ Hm) as Hxs.
  unfold judge. destruct (tally_mono xs zero_tally) as (Hp & Hn & Hr); [done|done|].
  cbn [zero_tally fp fn] in Hp, Hn, Hr. set (t := tally_of knn_of xs zero_tally) in *.
  destruct (negb (fp t =? 0) || negb (fn t =? 0)) eqn:E0.
  { apply wp_ok. intros Hall. apply Hr in Hall. lia. }
  assert (Forall right xs) as Hright by (apply Hr; lia).
  apply wp_bind. eapply wp_conseq; [by apply mark_ok|]. intros safe [Hsl Hst].
  pose proof (trusted_answers _ _ xs safe Hxs Hst) as Hfast.
  rewrite (replay_ok unspec ix safe entries xs zero_tally Hm Hsl), bind_Ok.
  rewrite (tally_ext (fast_answer safe) knn_of xs zero_tally Hfast). fold t.
  rewrite bool_decide_true by done. cbn [negb].
  destruct union; [|apply wp_ok; split_and!; done].
  apply wp_bind. eapply wp_conseq; [by apply with_shipped_ok|]. intros us [Hul Hus].
  rewrite (replay_ok unspec ix us entries xs zero_tally Hm Hul), bind_Ok.
  destruct (decide (tally_of (fast_answer us) xs zero_tally = t)) as [E|E].
  - rewrite bool_decide_true by done. apply wp_ok. split_and!; done.
  - rewrite bool_decide_false by done. apply wp_ok. split; [done|]. split; [done|]. split; [done|].
    destruct (decide (Exists (fun x => fast_answer us x <> knn_of x) xs)) as [Hex|Hno].
    + apply List.Exists_exists in Hex as (x & Hx & Hne). apply list_elem_of_In in Hx. exists x. split; [done|].
      unfold fast_answer in Hne. destruct (us !!! Z.to_nat (leaf_of x)) eqn:Eu; [|done]. split; [|done].
      rewrite List.Forall_forall in Hxs. destruct (Hxs x (proj1 (list_elem_of_In _ _) Hx)) as [Hlf _].
      unfold Tree.LeafCount in Hlf. rewrite Hus in Eu by lia.
      destruct (safe !!! Z.to_nat (leaf_of x)) eqn:Es; [|done]. specialize (Hfast x Hx).
      unfold fast_answer in Hfast. by rewrite Es in Hfast.
    + exfalso. apply E, tally_ext. intros x Hx. destruct (decide (fast_answer us x = knn_of x)) as [|Hne]; [done|].
      exfalso. apply Hno, List.Exists_exists. exists x. by split; [apply list_elem_of_In|].
Qed.

Lemma calibrate_ok minObs minObsPure union entries xs :
  Forall2 (measured unspec ix) entries xs ->
  returns (calibrate unspec ix minObs minObsPure union entries)
    (verdict_ok minObs (default minObs minObsPure) union xs).
Proof.
  intros Hm. unfold calibrate.
  destruct (baseline_ok unspec ix entries xs [] ∅ zero_tally Hm) as (leaves & -> & Hl).
  { intros leaf. by rewrite lookup_empty. }
  rewrite bind_Ok. by apply judge_ok.
Qed.

End Whole.

(** ** The printed table *)

(** Reading a Go literal of booleans: the words [true] and [false], in order. *)
Fixpoint read_bools (l : list byte) : list bool :=
  match l with
  | [] => []
  | _ :: r =>
      if decide (take 4 l = bytes "true") then true :: read_bools r
      else if decide (take 5 l = bytes "false") then false :: read_bools r
      else read_bools r
  end.

Lemma read_entries bs rest : read_bools (concat (map emit_bool bs) ++ rest) = bs ++ read_bools rest.
Proof. induction bs as [|[] bs IH]; [done| |]; cbn [map concat]; rewrite <-app_assoc; cbn; by rewrite IH. Qed.

Lemma read_row safe r rest : read_bools (emit_row safe r ++ rest) = take 16 (drop (r * 16) safe) ++ read_bools rest.
Proof.
  unfold emit_row. rewrite <-!app_assoc. set (X := _ ++ [x0a] ++ rest). cbn. subst X. by rewrite read_entries.
Qed.

Lemma read_rows safe rest k n : (k <= n)%nat -> (length safe <= n * 16)%nat ->
  read_bools (concat (map (emit_row safe) (seq (n - k) k)) ++ rest) = drop ((n - k) * 16) safe ++ read_bools rest.
Proof.
  intros Hk Hn. induction k as [|k IH].
  - rewrite Nat.sub_0_r, drop_ge by lia. done.
  - cbn [seq map concat]. rewrite <-app_assoc, read_row. replace (S (n - S k)) with (n - k)%nat by lia.
    rewrite IH by lia. replace ((n - k) * 16)%nat with ((n - S k) * 16 + 16)%nat by lia.
    rewrite <-drop_drop, app_assoc. by rewrite take_drop.
Qed.

Lemma read_emit safe rest : read_bools (emit safe ++ rest) = safe ++ read_bools rest.
Proof.
  unfold emit. rewrite <-!app_assoc. set (n := ((length safe + 15) / 16)%nat).
  set (X := concat _ ++ _).
  assert (read_bools (bytes "var leafSafeA = [LeafCount]bool{" ++ [x0a] ++ X) = read_bools X) as -> by done.
  unfold X. rewrite <-(Nat.sub_diag n) at 1.
  pose proof (Nat.div_mod_eq (length safe + 15) 16). pose proof (Nat.mod_upper_bound (length safe + 15) 16).
  rewrite (read_rows safe _ n n) by lia. rewrite Nat.sub_diag. done.
Qed.

Lemma read_emit_only safe : read_bools (emit safe) = safe.
Proof. pose proof (read_emit safe []) as H. by rewrite !app_nil_r in H. Qed.

(** The tables a run prints. *)
Definition tables (v : verdict) : list bool :=
  match v with
  | Fatal _ printed => default [] printed
  | Emitted safe union => safe ++ default [] union
  end.

(** ** Properties *)

(** The outcome of a calibration. On a well-formed index and entries the service would
    score, a run ends, and ends in one of three ways: it stops because the search
    disagrees with an expectation; or it prints the table in which a leaf is trusted
    exactly when it has enough samples and on every one of them the search gives the
    tree's count, so that the fast path changes no answer on the samples and the drift
    check after it never fires; or, when the shipped table is to be merged, it stops
    because a shipped leaf disagrees with the search on a sample. *)
Theorem calibrate_verdict `{KernelLaws} unspec ix minObs minObsPure union entries :
  Knn.index_wf ix -> Forall good entries ->
  exists xs, Forall2 (measured unspec ix) entries xs /\
    returns (calibrate unspec ix minObs minObsPure union entries)
      (verdict_ok minObs (default minObs minObsPure) union xs).
Proof.
  intros wf Hg. destruct (all_measured unspec ix wf entries Hg) as [xs Hm]. exists xs. split; [done|].
  by apply calibrate_ok.
Qed.

Definition example_entries : list rawEntry := [mkRawEntry (Http.Body Server.example_request) true].

Example calibrate_verdict_witness :
  exists xs, Forall2 (@measured avx2 (fun _ => 0) Knn.example_index) example_entries xs /\
    returns (@calibrate avx2 (fun _ => 0) Knn.example_index MinObs None true example_entries)
      (verdict_ok MinObs (default MinObs None) true xs).
Proof.
  apply (@calibrate_verdict avx2 avx2_laws); [apply Knn.example_wf|].
  constructor; [|constructor]. exists Server.example_parsed. split; [vm_compute; reflexivity|apply Server.example_scorable].
Defined.

(** What a run prints is the tables it computed: the words [true] and [false] of its
    standard output, read in order, are the entries of the printed tables, of any length
    and however the run ended. *)
Theorem emit_roundtrip v : read_bools (stdout v) = tables v.
Proof.
  destruct v as [why [safe|]|safe [us|]]; cbn [stdout tables default from_option id].
  - apply read_emit_only.
  - reflexivity.
  - rewrite read_emit. f_equal. set (X := emit us).
    assert (read_bools (bytes "// === UNION (shipped + calibrated) ===" ++ [x0a] ++ X) = read_bools X) as E by done.
    rewrite E. apply read_emit_only.
  - rewrite app_nil_r. apply read_emit_only.
Qed.

End Calibrate.
