(* ===== verification/Report.v ===== *)
(** * cmd/calibrate: the whole command and its report

    [main] of [cmd/calibrate/main.go] from the environment variables and the decoded
    entries: the options, the run of [Calibrate] and what it reports on the way -- the
    reasons for which leaves are rejected, the tiers of purity, the most populated leaves
    and the audit of the shipped table.  A log line is the data it prints; the lines that
    only mark progress or repeat a tally are left out. *)

From Stdlib Require Import Sorted.
From stdpp Require Import gmap sorting.
From S2P Require Import Prelude Floats Index Kernel Knn TreeData Tree Http Server Config Layout Calibrate.

Module Report.
Import Kernel Config Calibrate.

Local Open Scope Z_scope.

(** ** The code *)

(** The options that the environment sets. *)
Definition min_obs (e : env) : Z := envInt e (bytes "MIN_OBS") MinObs.
Definition min_pure (e : env) : Z := envInt e (bytes "MIN_OBS_PURE") (min_obs e).
Definition unioned (e : env) : bool := bool_decide (e (bytes "UNION_SHIPPED") = bytes "1").
Definition with_audit (e : env) : bool := negb (bool_decide (e (bytes "AUDIT") = [])).

(** The counters of the marking loop. *)
Record counts : Type := mkCounts {
  unseen : Z; rejMinObs : Z; rejMixedKNN : Z; rejTreeMismatch : Z;
  safeCount : Z; totalSafeSamples : Z; totalSamples : Z
}.
Definition zero_counts : counts := mkCounts 0 0 0 0 0 0 0.

(** What the loop does with a leaf that was seen. *)
Inductive fate : Type := FewObs | MixedKNN | TreeMismatch | Safe.

Definition fate_of (minObs minPure : Z) (b : bucket) : fate :=
  let meetsT1 := minObs <=? count b in
  let meetsT2 := (purity b =? 1000) && (minPure <=? count b) in
  if negb meetsT1 && negb meetsT2 then FewObs
  else if negb (size (scoreSet b) =? 1)%nat then MixedKNN
  else if negb (size (tCnt b) =? 1)%nat then TreeMismatch
  else if negb (u32 (last_key (tCnt b)) =? last_key (scoreSet b)) then TreeMismatch
  else Safe.

Definition count_leaf (minObs minPure : Z) (leaves : gmap Z bucket) (k : counts) (leaf : nat) : counts :=
  match leaves !! Z.of_nat leaf with
  | None => mkCounts (unseen k + 1) (rejMinObs k) (rejMixedKNN k) (rejTreeMismatch k) (safeCount k) (totalSafeSamples k) (totalSamples k)
  | Some b =>
      let total := totalSamples k + count b in
      match fate_of minObs minPure b with
      | FewObs => mkCounts (unseen k) (rejMinObs k + 1) (rejMixedKNN k) (rejTreeMismatch k) (safeCount k) (totalSafeSamples k) total
      | MixedKNN => mkCounts (unseen k) (rejMinObs k) (rejMixedKNN k + 1) (rejTreeMismatch k) (safeCount k) (totalSafeSamples k) total
      | TreeMismatch => mkCounts (unseen k) (rejMinObs k) (rejMixedKNN k) (rejTreeMismatch k + 1) (safeCount k) (totalSafeSamples k) total
      | Safe => mkCounts (unseen k) (rejMinObs k) (rejMixedKNN k) (rejTreeMismatch k) (safeCount k + 1) (totalSafeSamples k + count b) total
      end
  end.

Definition all_leaves : list nat := seq 0 (Z.to_nat Tree.LeafCount).

Definition count_leaves (minObs minPure : Z) (leaves : gmap Z bucket) : counts :=
  fold_left (count_leaf minObs minPure leaves) all_leaves zero_counts.

(** Leaves of purity 1000, and the others. *)
Definition tier_leaf (leaves : gmap Z bucket) (n : Z * Z) (leaf : nat) : Z * Z :=
  match leaves !! Z.of_nat leaf with
  | None => n
  | Some b => if purity b =? 1000 then (n.1 + 1, n.2) else (n.1, n.2 + 1)
  end.
Definition tiers (leaves : gmap Z bucket) : Z * Z := fold_left (tier_leaf leaves) all_leaves (0, 0).

Record pop : Type := mkPop { leaf : Z; pcount : Z; score : Z; multi : bool }.

Inductive line : Type :=
| Baseline (t : tally)
| Tiers (pure1000Count pureLT1000 : Z)
| Populated (p : pop)
| Summary (k : counts)
| AuditUnseen (leaf : Z)
| AuditMixed (leaf count : Z) (knnScores treeCnts : gmap Z Z)
| AuditMismatch (leaf tc ks count : Z)
| SafeIds (ids : list nat).

(** The audit of a leaf. *)
Definition audit_leaf (leaves : gmap Z bucket) (leaf : nat) : res (list line) :=
  shipped ← Tree.LeafSafeA (Z.of_nat leaf);
  if negb shipped then Ok []
  else
    match leaves !! Z.of_nat leaf with
    | None => Ok [AuditUnseen (Z.of_nat leaf)]
    | Some b =>
        if negb (size (scoreSet b) =? 1)%nat || negb (size (tCnt b) =? 1)%nat
        then Ok [AuditMixed (Z.of_nat leaf) (count b) (scoreSet b) (tCnt b)]
        else
          let ks := last_key (scoreSet b) in
          let tc := last_key (tCnt b) in
          if negb (u32 tc =? ks) then Ok [AuditMismatch (Z.of_nat leaf) tc ks (count b)] else Ok []
    end.
Definition audit (leaves : gmap Z bucket) : res (list line) :=
  foldM (fun ls leaf => l ← audit_leaf leaves leaf; Ok (ls ++ l)) [] all_leaves.

Section Report.
Context `{Layout.SliceSort}.
(** The key a [range] over a map yields first: any of its keys. *)
Variable first : gmap Z Z -> Z.

Definition pops (leaves : gmap Z bucket) : list pop :=
  omap (fun leaf =>
    match leaves !! Z.of_nat leaf with
    | None => None
    | Some b => Some (mkPop (Z.of_nat leaf) (count b) (first (scoreSet b)) (1 <? size (scoreSet b))%nat)
    end) all_leaves.
Definition more (p q : pop) : bool := pcount q <? pcount p.
Definition sorted_pops (leaves : gmap Z bucket) : list pop := Layout.sort_slice more (pops leaves).
Definition top_30 (leaves : gmap Z bucket) : list pop := take 30 (sorted_pops leaves).

(** The sorted numbers of the trusted leaves. *)
Definition safe_ids (safe : list bool) : list nat :=
  Layout.sort_slice Nat.ltb (filter (fun i => safe !!! i = true) (seq 0 (length safe))).

(** The lines of a run from its accumulators and its verdict: it stops where a fatal error
    ends it. *)
Definition lines (minObs minPure : Z) (audited : bool) (leaves : gmap Z bucket) (t : tally) (v : verdict) : res (list line) :=
  match v with
  | Fatal BaselineWrong _ => Ok [Baseline t]
  | _ =>
      let marked := [Baseline t; Tiers (tiers leaves).1 (tiers leaves).2] ++ map Populated (top_30 leaves) ++
                    [Summary (count_leaves minObs minPure leaves)] in
      match v with
      | Fatal _ None => Ok marked
      | Fatal _ (Some safe) | Emitted safe _ =>
          a ← (if (audited : bool) then audit leaves else Ok []);
          Ok (marked ++ a ++ [SafeIds (safe_ids safe)])
      end
  end.

Context `{Kernel}.
Variable unspec : float -> Z.   (* int16 of a NaN *)

Definition main (e : env) (ix : Index.Index) (entries : list rawEntry) : res (list line * verdict) :=
  r ← baseline unspec ix entries ∅ zero_tally;
  match r with
  | None => Ok ([], Fatal ParseFailed None)
  | Some (leaves, t) =>
      v ← judge unspec ix (min_obs e) (Some (min_pure e)) (unioned e) entries leaves t;
      ls ← lines (min_obs e) (min_pure e) (with_audit e) leaves t v;
      Ok (ls, v)
  end.

End Report.

(** ** Sums over the leaves *)

Lemma all_leaves_lt i : In i all_leaves -> (i < 512)%nat.
Proof. intros Hi%in_seq. unfold Tree.LeafCount in Hi. lia. Qed.

Definition leaf_count (xs : list sample) (i : nat) : nat := length (at_leaf (Z.of_nat i) xs).

Lemma lt_all_leaves i : (i < 512)%nat -> In i all_leaves.
Proof. intros Hi. apply in_seq. unfold Tree.LeafCount. lia. Qed.

Lemma sum_indicator z l : NoDup l ->
  sum_list_with (fun i => if decide (z = Z.of_nat i) then 1%nat else 0%nat) l = if decide (z ∈ map Z.of_nat l) then 1%nat else 0%nat.
Proof.
  induction 1 as [|i l Hi _ IH]; [done|]. cbn [sum_list_with map]. rewrite IH.
  destruct (decide (z = Z.of_nat i)) as [->|Hne].
  - rewrite decide_False; [by rewrite decide_True by left|].
    intros (j & Hj & Hl)%list_elem_of_fmap. by replace j with i in Hl by lia.
  - destruct (decide (z ∈ map Z.of_nat l)) as [Hin|Hin]; [by rewrite decide_True by by right|].
    rewrite decide_False; [done|]. by intros [?|?]%elem_of_cons.
Qed.

Lemma sum_plus (f g : nat -> nat) l : sum_list_with (fun i => (f i + g i)%nat) l = (sum_list_with f l + sum_list_with g l)%nat.
Proof. induction l as [|i l IH]; [done|]. simpl. lia. Qed.

Lemma leaf_count_cons x xs i :
  leaf_count (x :: xs) i = ((if decide (leaf_of x = Z.of_nat i) then 1 else 0) + leaf_count xs i)%nat.
Proof. unfold leaf_count, at_leaf. rewrite filter_cons. by destruct (decide (leaf_of x = Z.of_nat i)). Qed.

Lemma sum_ext (f g : nat -> nat) l : (forall i, f i = g i) -> sum_list_with f l = sum_list_with g l.
Proof. intros He. induction l as [|i l IH]; [done|]. simpl. by rewrite He, IH. Qed.

(** The samples of a set of leaves. *)
Lemma sum_leaves (g : nat -> bool) xs :
  Forall (fun x => 0 <= leaf_of x < Tree.LeafCount) xs ->
  sum_list_with (leaf_count xs) (filter (fun i => g i = true) all_leaves) =
  length (filter (fun x => g (Z.to_nat (leaf_of x)) = true) xs).
Proof.
  induction 1 as [|x xs Hx _ IH].
  - by induction (filter _ all_leaves).
  - rewrite (sum_ext _ _ _ (leaf_count_cons x xs)), sum_plus, IH, filter_cons, sum_indicator
      by apply list.NoDup_filter, list.NoDup_seq.
    assert (leaf_of x ∈ map Z.of_nat (filter (fun i => g i = true) all_leaves) <-> g (Z.to_nat (leaf_of x)) = true) as Hg.
    { rewrite list_elem_of_fmap. split.
      - intros (i & -> & Hi). rewrite Nat2Z.id. by apply list_elem_of_filter in Hi as [Hi _].
      - intros Hgx. exists (Z.to_nat (leaf_of x)). split; [lia|]. apply list_elem_of_filter. split; [done|].
        apply elem_of_seq. lia. }
    destruct (decide (leaf_of x ∈ _)) as [Hin|Hin].
    + rewrite decide_True by by apply Hg. done.
    + rewrite decide_False; [done|]. intros E. by apply Hin, Hg.
Qed.

(** ** The counters *)

Lemma fate_admitted minObs minPure b : fate_of minObs minPure b = Safe <-> admitted minObs minPure b = true.
Proof.
  unfold fate_of, admitted. cbv zeta. destruct (negb _ && negb _); [done|].
  destruct (negb (size (scoreSet b) =? 1)%nat); [done|]. destruct (negb (size (tCnt b) =? 1)%nat); [done|].
  by destruct (u32 _ =? _).
Qed.

Definition safe_leaf (minObs minPure : Z) (leaves : gmap Z bucket) (i : nat) : bool :=
  match leaves !! Z.of_nat i with None => false | Some b => admitted minObs minPure b end.

Definition classes (k : counts) : Z := unseen k + rejMinObs k + rejMixedKNN k + rejTreeMismatch k + safeCount k.

Lemma count_leaf_ok minObs minPure leaves xs i k : leaves_ok xs leaves ->
  let k' := count_leaf minObs minPure leaves k i in
  let s := safe_leaf minObs minPure leaves i in
  classes k' = classes k + 1 /\ safeCount k' = safeCount k + Z.b2z s /\
  totalSafeSamples k' = totalSafeSamples k + (if s then Z.of_nat (leaf_count xs i) else 0) /\
  totalSamples k' = totalSamples k + Z.of_nat (leaf_count xs i).
Proof.
  intros Hok. cbv zeta. unfold count_leaf, safe_leaf, classes. specialize (Hok (Z.of_nat i)). unfold leaf_count.
  destruct (leaves !! Z.of_nat i) as [b|]; [|rewrite Hok; cbn; lia].
  destruct Hok as (_ & Hc & _). rewrite <-Hc. pose proof (fate_admitted minObs minPure b) as Hf.
  destruct (fate_of minObs minPure b), (admitted minObs minPure b);
    try (by destruct Hf as [Hf1 Hf2]; (discriminate (Hf2 eq_refl) || discriminate (Hf1 eq_refl)));
    cbn [unseen rejMinObs rejMixedKNN rejTreeMismatch safeCount totalSafeSamples totalSamples Z.b2z]; lia.
Qed.

Lemma count_leaves_ok minObs minPure leaves xs l k : leaves_ok xs leaves ->
  let k' := fold_left (count_leaf minObs minPure leaves) l k in
  let chosen := filter (fun i => safe_leaf minObs minPure leaves i = true) l in
  classes k' = classes k + Z.of_nat (length l) /\ safeCount k' = safeCount k + Z.of_nat (length chosen) /\
  totalSafeSamples k' = totalSafeSamples k + Z.of_nat (sum_list_with (leaf_count xs) chosen) /\
  totalSamples k' = totalSamples k + Z.of_nat (sum_list_with (leaf_count xs) l).
Proof.
  intros Hok. revert k. induction l as [|i l IH]; intros k; cbv zeta; [cbn; lia|].
  cbn [fold_left]. rewrite filter_cons. specialize (IH (count_leaf minObs minPure leaves k i)). cbv zeta in IH.
  pose proof (count_leaf_ok minObs minPure leaves xs i k Hok) as Hi. cbv zeta in Hi.
  set (k' := fold_left _ l _) in *. destruct (safe_leaf minObs minPure leaves i); cbn [Z.b2z] in Hi.
  - rewrite decide_True by done. simpl length. simpl sum_list_with. lia.
  - rewrite decide_False by done. simpl length. simpl sum_list_with. lia.
Qed.

(** ** The audit *)

#[local] Opaque TreeData.leafSafeA.

Definition shipped (i : nat) : bool := TreeData.leafSafeA !!! i.

(** The lines of a leaf. *)
Definition audit_lines (leaves : gmap Z bucket) (i : nat) : list line :=
  if shipped i then
    match leaves !! Z.of_nat i with
    | None => [AuditUnseen (Z.of_nat i)]
    | Some b =>
        if negb (size (scoreSet b) =? 1)%nat || negb (size (tCnt b) =? 1)%nat
        then [AuditMixed (Z.of_nat i) (count b) (scoreSet b) (tCnt b)]
        else if negb (u32 (last_key (tCnt b)) =? last_key (scoreSet b))
        then [AuditMismatch (Z.of_nat i) (last_key (tCnt b)) (last_key (scoreSet b)) (count b)] else []
    end
  else [].

Lemma audit_leaf_lines leaves i : (i < 512)%nat -> audit_leaf leaves i = Ok (audit_lines leaves i).
Proof.
  intros Hi. unfold audit_leaf, audit_lines, shipped. rewrite Tree.LeafSafeA_ok by (unfold Tree.LeafCount; lia).
  rewrite bind_Ok, Nat2Z.id. destruct (TreeData.leafSafeA !!! i); [|done]. cbn [negb].
  destruct (leaves !! Z.of_nat i) as [b|]; [|done]. destruct (_ || _); [done|]. cbv zeta. by destruct (negb _).
Qed.

Lemma audit_all_lines leaves : audit leaves = Ok (flat_map (audit_lines leaves) all_leaves).
Proof.
  unfold audit. pose proof (proj2 (List.Forall_forall _ _) all_leaves_lt) as Hl.
  rewrite <-(app_nil_l (flat_map _ _)). generalize (@nil line). induction Hl as [|i l Hi _ IH]; intros acc.
  { by rewrite app_nil_r. }
  cbn [foldM flat_map]. rewrite audit_leaf_lines, !bind_Ok by done. by rewrite IH, <-app_assoc.
Qed.

(** A line that reports a disagreement at a leaf. *)
Definition alarm (z : Z) (ln : line) : Prop :=
  match ln with AuditMixed j _ _ _ | AuditMismatch j _ _ _ => j = z | _ => False end.

(** The search and the tree disagree on a sample of the leaf. *)
Definition disagreement (xs : list sample) (z : Z) : Prop :=
  Exists (fun x => leaf_of x = z /\ knn_of x <> tree_count z) xs.

Lemma one_answer xs z b : bucket_ok z xs b -> 0 <= tree_count z <= 5 ->
  (size (scoreSet b) =? 1)%nat && (u32 (last_key (tCnt b)) =? last_key (scoreSet b)) = false <-> disagreement xs z.
Proof.
  intros Hb Hr. pose proof (admitted_ok (count b) 0 z xs b Hb Hr) as Ha. destruct Hb as (Hne & Hc & Hs & Ht & _).
  destruct (single_key _ _ Ht) as [H1 _]. unfold admitted in Ha. rewrite H1, Z.leb_refl in Ha. cbn [negb andb Nat.eqb] in Ha.
  assert (trusted (count b) 0 z xs <-> ~ disagreement xs z) as Hno.
  { unfold disagreement. rewrite list.Exists_exists. split.
    - intros (_ & _ & Hall) (x & Hx & Hz & Hk). apply Hk, Hall. by apply list_elem_of_filter.
    - intros Hno. split; [done|]. split; [left; lia|]. intros x [Hz Hx]%list_elem_of_filter.
      destruct (decide (knn_of x = tree_count z)); [done|]. exfalso. apply Hno. by exists x. }
  rewrite <-Ha in Hno. clear -Hno. destruct (size (scoreSet b) =? 1)%nat; cbn [negb andb] in *;
    [destruct (u32 _ =? _)|]; destruct (decide (disagreement xs z)); naive_solver.
Qed.

(** What the audit says of a leaf [z]. *)
Definition audited (xs : list sample) (l : list nat) (ls : list line) : Prop :=
  forall z, ((exists ln, In ln ls /\ alarm z ln) <-> exists i, In i l /\ z = Z.of_nat i /\ shipped i = true /\ disagreement xs z) /\
            (In (AuditUnseen z) ls <-> exists i, In i l /\ z = Z.of_nat i /\ shipped i = true /\ at_leaf z xs = []).

Lemma seen_leaf xs z : disagreement xs z -> at_leaf z xs <> [].
Proof.
  unfold disagreement. rewrite list.Exists_exists. intros (x & Hx & Hz & _) E.
  apply (not_elem_of_nil x). rewrite <-E. by apply list_elem_of_filter.
Qed.

Lemma audit_lines_ok leaves xs i : leaves_ok xs leaves -> Forall sample_ok xs -> audited xs [i] (audit_lines leaves i).
Proof.
  intros Hok Hxs z. unfold audit_lines. destruct (shipped i) eqn:Es.
  2: { cbn [In]. split; split; [by intros (? & [] & _)|intros (j & [<-|[]] & _ & Hs & _); congruence|done|
         intros (j & [<-|[]] & _ & Hs & _); congruence]. }
  pose proof (Hok (Z.of_nat i)) as Hb. destruct (leaves !! Z.of_nat i) as [b|].
  - pose proof (one_answer xs _ b Hb (seen_count _ _ _ Hxs Hb)) as Hone. destruct Hb as (Hne & _ & _ & Ht & _).
    destruct (single_key _ _ Ht) as [-> _]. cbn [Nat.eqb negb]. rewrite orb_false_r.
    destruct (size (scoreSet b) =? 1)%nat; cbn [negb andb] in *; [destruct (u32 _ =? _); cbn [negb]|]; cbn [In]; naive_solver.
  - pose proof (seen_leaf xs z). cbn [In]. naive_solver.
Qed.

Lemma audited_app xs l1 l2 ls1 ls2 : audited xs l1 ls1 -> audited xs l2 ls2 -> audited xs (l1 ++ l2) (ls1 ++ ls2).
Proof.
  intros H1 H2 z. destruct (H1 z) as [Ha Hu], (H2 z) as [Ha' Hu']. setoid_rewrite in_app_iff. clear H1 H2. split; [|naive_solver].
  split.
  - intros (ln & [Hl|Hl] & Hz); [destruct (proj1 Ha) as (i & ? & ?)|destruct (proj1 Ha') as (i & ? & ?)]; eauto.
  - intros (i & [Hl|Hl] & Hz); [destruct (proj2 Ha) as (ln & ? & ?)|destruct (proj2 Ha') as (ln & ? & ?)]; eauto.
Qed.

Lemma audit_ok leaves xs : leaves_ok xs leaves -> Forall sample_ok xs ->
  exists ls, audit leaves = Ok ls /\ audited xs all_leaves ls.
Proof.
  intros Hok Hxs. eexists. split; [apply audit_all_lines|]. induction all_leaves as [|i l IH]; [intros z; cbn; naive_solver|].
  cbn [flat_map]. apply (audited_app xs [i] l); [by apply audit_lines_ok|done].
Qed.

(** ** The lists *)

#[local] Opaque all_leaves.

(** A populated leaf as it is printed: its samples, one of their answers, and whether there
    are others. *)
Definition pop_ok (xs : list sample) (p : pop) : Prop :=
  at_leaf (leaf p) xs <> [] /\ pcount p = Z.of_nat (length (at_leaf (leaf p) xs)) /\
  (exists x, x ∈ at_leaf (leaf p) xs /\ knn_of x = score p) /\
  (multi p = false <-> forall x, x ∈ at_leaf (leaf p) xs -> knn_of x = score p).

(** The printed leaves are the largest. *)
Definition top_ok (xs : list sample) (ps : list pop) : Prop :=
  exists rest, Forall (pop_ok xs) (ps ++ rest) /\
    map leaf (ps ++ rest) ≡ₚ map Z.of_nat (filter (fun i => at_leaf (Z.of_nat i) xs <> []) all_leaves) /\
    StronglySorted (fun p q => pcount q <= pcount p) (ps ++ rest) /\ (length ps = 30%nat \/ rest = []).

Lemma ids_sorted (safe : list bool) : StronglySorted (fun i j : nat => (j <? i)%nat = false) (filter (fun i => safe !!! i = true) (seq 0 (length safe))).
Proof.
  generalize (length safe), 0%nat. induction n as [|n IH]; intros k; [constructor|]. cbn [seq]. rewrite filter_cons.
  destruct (decide _); [|done]. constructor; [done|]. apply List.Forall_forall.
  intros i Hi%list_elem_of_In. apply list_elem_of_filter in Hi as [_ Hi%elem_of_seq]. lia.
Qed.

Section Lists.
Context `{Layout.SliceSort}.
Variable first : gmap Z Z -> Z.
Hypothesis first_key : forall m : gmap Z Z, m <> ∅ -> is_Some (m !! first m).

Lemma safe_ids_ok safe : safe_ids safe = filter (fun i => safe !!! i = true) (seq 0 (length safe)).
Proof.
  unfold safe_ids. set (l := filter _ _).
  apply (StronglySorted_unique_strong (fun i j : nat => (j <? i)%nat = false)).
  - intros i j _ _ Hij Hji. lia.
  - apply Layout.sort_slice_sorted; intros; lia.
  - apply ids_sorted.
  - apply Layout.sort_slice_perm.
Qed.

Lemma bucket_pop xs z b : bucket_ok z xs b ->
  pop_ok xs (mkPop z (count b) (first (scoreSet b)) (1 <? size (scoreSet b))%nat).
Proof.
  intros (Hne & Hc & Hs & _). unfold pop_ok. cbn [leaf pcount score multi]. split; [done|]. split; [done|].
  assert (scoreSet b <> ∅) as Hn.
  { intros E. destruct (at_leaf z xs) as [|x l] eqn:El; [done|].
    destruct (proj2 (Hs (knn_of x))) as [v Hv]; [exists x; split; [by left|done]|]. by rewrite E, lookup_empty in Hv. }
  pose proof (first_key _ Hn) as Hf. split; [by apply Hs|]. split.
  - intros H1 x Hx. assert (size (scoreSet b) = 1%nat) as Hsz by (apply map_size_non_empty_iff in Hn; lia).
    rewrite (one_key _ Hsz (first (scoreSet b))) by done. apply one_key; [done|]. apply Hs. by exists x.
  - intros Hall. destruct (single_key (scoreSet b) (first (scoreSet b))) as [-> _]; [|done].
    intros k. split; [|by intros ->]. intros (x & Hx & <-)%Hs. by apply Hall.
Qed.

Lemma pops_ok xs leaves l : leaves_ok xs leaves ->
  let ps := omap (fun leaf =>
    match leaves !! Z.of_nat leaf with
    | None => None
    | Some b => Some (mkPop (Z.of_nat leaf) (count b) (first (scoreSet b)) (1 <? size (scoreSet b))%nat)
    end) l in
  Forall (pop_ok xs) ps /\ map leaf ps = map Z.of_nat (filter (fun i => at_leaf (Z.of_nat i) xs <> []) l).
Proof.
  intros Hok. cbv zeta. induction l as [|i l [IHf IHm]]; [by split|]. rewrite filter_cons. cbn [omap list_omap].
  pose proof (Hok (Z.of_nat i)) as Hb. destruct (leaves !! Z.of_nat i) as [b|].
  - rewrite decide_True by apply Hb. split; [constructor; [by apply bucket_pop|done]|]. cbn [map leaf]. f_equal. exact IHm.
  - rewrite decide_False by (intros Hn; by apply Hn). by split.
Qed.

Lemma top_30_ok xs leaves : leaves_ok xs leaves -> top_ok xs (top_30 first leaves).
Proof.
  intros Hok. exists (drop 30 (sorted_pops first leaves)). unfold top_30. rewrite take_drop.
  destruct (pops_ok xs leaves all_leaves Hok) as [Hf Hm].
  change (omap _ all_leaves) with (pops first leaves) in Hf, Hm.
  pose proof (Layout.sort_slice_perm more (pops first leaves)) as Hp. fold (sorted_pops first leaves) in Hp. split; [|split; [|split]].
  - rewrite Hp. exact Hf.
  - rewrite Hp, Hm. reflexivity.
  - assert (StronglySorted (fun p q => more q p = false) (sorted_pops first leaves)) as Hs
      by (apply Layout.sort_slice_sorted; unfold more; intros; lia).
    clear -Hs. induction Hs as [|p ps _ IH Hps]; [constructor|]. constructor; [done|]. eapply Forall_impl; [|exact Hps]. unfold more. intros q Hq. lia.
  - rewrite length_take. destruct (decide (30 <= length (sorted_pops first leaves))%nat); [left; lia|right; apply drop_ge; lia].
Qed.

End Lists.

(** ** Whole runs *)

(** The counters of the summary: every leaf is in one class, the trusted ones are those of
    the table, and every sample is counted. *)
Record summary_ok (xs : list sample) (safe : list bool) (k : counts) : Prop := {
  all_classed : classes k = 512;
  safe_counted : safeCount k = Z.of_nat (length (filter (fun i => safe !!! i = true) all_leaves));
  samples_counted : totalSamples k = Z.of_nat (length xs);
  covered_counted : totalSafeSamples k = Z.of_nat (length (filter (fun x => safe !!! Z.to_nat (leaf_of x) = true) xs))
}.

Lemma safe_leaf_ok minObs minPure leaves xs i : leaves_ok xs leaves -> Forall sample_ok xs ->
  safe_leaf minObs minPure leaves i = true <-> trusted minObs minPure (Z.of_nat i) xs.
Proof.
  intros Hok Hxs. unfold safe_leaf. pose proof (Hok (Z.of_nat i)) as Hb. destruct (leaves !! Z.of_nat i) as [b|].
  - apply admitted_ok; [done|]. by eapply seen_count.
  - split; [done|]. by intros [? _].
Qed.

Lemma filter_everything {A} (l : list A) : filter (fun _ => true = true) l = l.
Proof. induction l as [|x l IH]; [done|]. rewrite filter_cons, decide_True by done. by rewrite IH. Qed.

Lemma filter_leaves (p q : nat -> bool) : (forall i, (i < 512)%nat -> p i = true <-> q i = true) ->
  filter (fun i => p i = true) all_leaves = filter (fun i => q i = true) all_leaves.
Proof.
  intros Hpq. pose proof all_leaves_lt as Hl.
  induction all_leaves as [|i l IH]; [done|]. rewrite !filter_cons, IH by (intros; apply Hl; by right).
  specialize (Hpq i (Hl i ltac:(by left))). destruct (decide (p i = true)), (decide (q i = true)); naive_solver.
Qed.

Lemma count_leaves_summary minObs minPure leaves xs safe : leaves_ok xs leaves -> Forall sample_ok xs ->
  table_of minObs minPure xs safe -> summary_ok xs safe (count_leaves minObs minPure leaves).
Proof.
  intros Hok Hxs [_ Hs]. destruct (count_leaves_ok minObs minPure leaves xs all_leaves zero_counts Hok) as (H1 & H2 & H3 & H4).
  fold (count_leaves minObs minPure leaves) in H1, H2, H3, H4.
  assert (Forall (fun x => 0 <= leaf_of x < Tree.LeafCount) xs) as Hr by (eapply Forall_impl; [|exact Hxs]; by intros x []).
  rewrite (filter_leaves (safe_leaf minObs minPure leaves) (fun i => safe !!! i)) in H2, H3
    by (intros i Hi; by rewrite safe_leaf_ok, Hs).
  rewrite (sum_leaves (fun i => safe !!! i) xs Hr) in H3.
  rewrite <-(filter_everything all_leaves) in H4.
  rewrite (sum_leaves (fun _ => true) xs Hr) in H4.
  split; [exact H1|exact H2| |exact H3]. rewrite H4. by rewrite filter_everything.
Qed.

(** The lines of a run. *)
Definition reported (xs : list sample) (audited_too : bool) (v : verdict) (ls : list line) : Prop :=
  let t := tally_of knn_of xs zero_tally in
  match v with
  | Fatal BaselineWrong _ => ls = [Baseline t]
  | Fatal _ (Some safe) | Emitted safe _ =>
      exists n1 n2 ps k a,
        ls = ([Baseline t; Tiers n1 n2] ++ map Populated ps ++ [Summary k]) ++ a ++
             [SafeIds (filter (fun i => safe !!! i = true) (seq 0 512))] /\
        n1 + n2 + unseen k = 512 /\ top_ok xs ps /\ summary_ok xs safe k /\
        (if audited_too then audited xs all_leaves a else a = [])
  | _ => False
  end.

(** The tiers are the leaves that were seen. *)
Lemma tiers_ok leaves minObs minPure l n k :
  let n' := fold_left (tier_leaf leaves) l n in
  n'.1 + n'.2 + unseen (fold_left (count_leaf minObs minPure leaves) l k) = n.1 + n.2 + unseen k + Z.of_nat (length l).
Proof.
  revert n k. induction l as [|i l IH]; intros n k; cbv zeta in *; [cbn; lia|]. cbn [fold_left]. rewrite IH.
  unfold tier_leaf, count_leaf. destruct (leaves !! Z.of_nat i) as [b|]; [|cbn [unseen length]; lia].
  destruct (purity b =? 1000), (fate_of minObs minPure b); cbn [unseen fst snd length]; lia.
Qed.

Section Whole.
Context `{Layout.SliceSort}.
Variable first : gmap Z Z -> Z.
Hypothesis first_key : forall m : gmap Z Z, m <> ∅ -> is_Some (m !! first m).

Lemma lines_ok minObs minPure union audited_too leaves xs v :
  leaves_ok xs leaves -> Forall sample_ok xs -> verdict_ok minObs minPure union xs v ->
  returns (lines first minObs minPure audited_too leaves (tally_of knn_of xs zero_tally) v) (reported xs audited_too v).
Proof.
  intros Hok Hxs Hv. pose proof (tiers_ok leaves minObs minPure all_leaves (0, 0) zero_counts) as Ht.
  assert (forall safe, table_of minObs minPure xs safe ->
    returns (a ← (if audited_too then audit leaves else Ok []);
             Ok (([Baseline (tally_of knn_of xs zero_tally); Tiers (tiers leaves).1 (tiers leaves).2] ++
                  map Populated (top_30 first leaves) ++ [Summary (count_leaves minObs minPure leaves)]) ++ a ++ [SafeIds (safe_ids safe)]))
      (reported xs audited_too (Emitted safe None))) as Hsafe.
  { intros safe Htab. destruct (audit_ok leaves xs Hok Hxs) as (a & Ha & Haud).
    assert (returns (if audited_too then audit leaves else Ok []) (fun a => if audited_too then audited xs all_leaves a else a = [])) as Hret.
    { destruct audited_too; [rewrite Ha|]; by apply wp_ok. }
    wp_bind. eapply wp_conseq; [exact Hret|]. intros a' Ha'. apply wp_ok. rewrite safe_ids_ok, (proj1 Htab).
    do 5 eexists. split; [reflexivity|]. split; [exact Ht|]. split; [by apply top_30_ok|]. split; [|done].
    by eapply count_leaves_summary. }
  destruct v as [[] [safe|]|safe u]; cbn [verdict_ok] in Hv; try done; cbn [lines].
  - destruct Hv as (_ & Htab & _). by apply Hsafe.
  - destruct Hv as (_ & Htab & _). by apply Hsafe.
Qed.

(** A shipped leaf that makes the union fail is in the audit. *)
Lemma drift_audited minObs minPure union xs v ls :
  Forall sample_ok xs -> verdict_ok minObs minPure union xs v -> reported xs true v ls ->
  (exists safe, v = Fatal UnionDrift (Some safe)) -> exists z ln, In ln ls /\ alarm z ln.
Proof.
  intros Hxs Hv Hr [safe ->]. destruct Hv as (_ & _ & _ & x & Hx & Hship & Hne).
  destruct Hr as (n1 & n2 & ps & k & a & -> & _ & _ & _ & Ha). exists (leaf_of x).
  rewrite List.Forall_forall in Hxs. destruct (Hxs x (proj1 (list_elem_of_In _ _) Hx)) as [Hl _]. unfold Tree.LeafCount in Hl.
  destruct (proj2 (proj1 (Ha (leaf_of x)))) as (ln & Hin & Hal).
  - exists (Z.to_nat (leaf_of x)). split; [by apply lt_all_leaves; lia|]. split; [lia|]. split; [exact Hship|].
    apply list.Exists_exists. exists x. split; [done|]. split; [done|]. by apply not_eq_sym.
  - exists ln. split; [|done]. apply in_app_iff. right. apply in_app_iff. by left.
Qed.

End Whole.

(** ** Properties *)

(** C21: a calibration run and its report. On a well-formed index and entries the service would
    score, the command ends with a verdict as [verdict_ok] says and a report that is true
    of the run: each of the 512 leaves is in one class, the safe count and the coverage are
    those of the printed table, every sample is counted once, the populated leaves are the
    thirty largest in order with their answers, the safe numbers are the table's. The audit
    names exactly the shipped leaves on which the search disagrees with the tree, and those
    no sample reached; a union that is refused was announced by it, when the audit was asked for. *)
Theorem calibration_report `{Layout.SliceSort, KernelLaws} first unspec e ix entries :
  (forall m : gmap Z Z, m <> ∅ -> is_Some (m !! first m)) -> Knn.index_wf ix -> Forall good entries ->
  exists xs, Forall2 (measured unspec ix) entries xs /\
    returns (main first unspec e ix entries) (fun '(ls, v) =>
      verdict_ok (min_obs e) (min_pure e) (unioned e) xs v /\ reported xs (with_audit e) v ls /\
      ((exists safe, v = Fatal UnionDrift (Some safe)) -> with_audit e = true -> exists z ln, In ln ls /\ alarm z ln)).
Proof.
  intros Hfirst wf Hg. destruct (all_measured unspec ix wf entries Hg) as [xs Hm]. exists xs. split; [done|].
  pose proof (measured_samples _ _ _ _ Hm) as Hxs. unfold main.
  destruct (baseline_ok unspec ix entries xs [] ∅ zero_tally Hm) as (leaves & -> & Hl).
  { intros z. by rewrite lookup_empty. }
  rewrite bind_Ok. wp_bind. eapply wp_conseq; [by apply judge_ok|]. cbn [default from_option id]. intros v Hv.
  wp_bind. eapply wp_conseq; [by apply (lines_ok first Hfirst (min_obs e) (min_pure e) (unioned e))|]. intros ls Hls. apply wp_ok. split; [exact Hv|]. split; [exact Hls|].
  intros Hd Ha. rewrite Ha in Hls. by eapply drift_audited.
Qed.

Definition example_env : env := fun k => if decide (k = bytes "AUDIT" \/ k = bytes "UNION_SHIPPED") then bytes "1" else [].
Definition first_of (m : gmap Z Z) : Z := match map_to_list m with [] => 0 | (k, _) :: _ => k end.

Lemma first_of_key m : m <> ∅ -> is_Some (m !! first_of m).
Proof.
  intros Hm. unfold first_of. destruct (map_to_list m) as [|[k v] l] eqn:E; [by apply map_to_list_empty_iff in E|].
  exists v. apply elem_of_map_to_list. rewrite E. by left.
Qed.

Example calibration_report_witness : exists xs,
  Forall2 (@measured avx2 (fun _ => 0) Knn.example_index) example_entries xs /\
  returns (@main Layout.InsertionSort first_of avx2 (fun _ => 0) example_env Knn.example_index example_entries) (fun '(ls, v) =>
    verdict_ok 50 50 true xs v /\ reported xs true v ls /\
    ((exists safe, v = Fatal UnionDrift (Some safe)) -> with_audit example_env = true -> exists z ln, In ln ls /\ alarm z ln)).
Proof.
  apply (@calibration_report Layout.InsertionSort avx2 avx2_laws first_of (fun _ => 0) example_env Knn.example_index example_entries);
    [exact first_of_key|apply Knn.example_wf|].
  constructor; [|constructor]. exists Server.example_parsed. split; [vm_compute; reflexivity|apply Server.example_scorable].
Defined.

End Report.
