(* ===== verification/Boot.v ===== *)
(** * cmd/api: start-up

    [main] and [warmup] of [cmd/api/main.go] up to the point where requests are served,
    with what they call: [Open] of [internal/index/index.go] from the path to the mapped
    file, and [Score] of [internal/knn/knn.go].  The outcomes of the system calls and the
    readings of the clock are arguments; the calls without an outcome are in [Syscalls].
    The library's ends meet here: the service starts on the index the builder writes. *)

From S2P Require Import Prelude Floats Index Kernel Knn Quantize Normalize Layout Cluster RefParse Config Build.

Module Boot.
Import Index Kernel.

Local Open Scope Z_scope.

(** ** The code *)

(** The system calls of [Open]: the file's bytes when it can be opened, whether [Stat]
    succeeds, and the two attempts to map the file. *)
Record calls : Type := mkCalls { file : option (list byte); stat : bool; mmap : bool; mmap_again : bool }.

Definition OpenPath (sys : calls) : res Index :=
  match file sys with
  | None => Fail ErrOS
  | Some f =>
      if negb (stat sys) then Fail ErrOS
      else if Z.of_nat (length f) <? HeaderSize then Fail ErrTooSmall
      else if negb (mmap sys) && negb (mmap_again sys) then Fail ErrOS
      else Open f
  end.

(** One draw of the warm-up: the three xorshift statements, then the upper half of the
    state as a signed number over 2^31. *)
Definition draw (rng : Z) : Z * float :=
  let rng := Z.lxor rng (u64 (Z.shiftl rng 13)) in
  let rng := Z.lxor rng (Z.shiftr rng 7) in
  let rng := Z.lxor rng (u64 (Z.shiftl rng 17)) in
  (rng, f32_div (f32_of_Z (i32 (Z.shiftr rng 32))) (f32_of_Z 2147483648)).

Inductive mode : Type :=
| ServeCtrl (sockPath : list byte)
| ServeTCP (addr : list byte).

Section Service.
Context `{Kernel}.
Variable unspec : float -> Z.   (* int16 of a NaN *)

Definition Score (ix : Index) (q : list float) : res Z :=
  qq ← Quantize.Quantize unspec q; Knn.ScoreQ ix qq.

(** One score of the warm-up; the state is the generator, the vector and the counter. *)
Definition warm_one (ix : Index) (st : Z * list float * Z) : res (Z * list float * Z) :=
  let '(rng, q, count) := st in
  '(rng, q) ← foldM (fun '(rng, q) i => let '(rng, x) := draw rng in q ← set q i x; Ok (rng, q))
    (rng, q) (seq 0 DIMS);
  _ ← Score ix q;
  Ok (rng, q, count + 1).

(** [since] are the readings of [time.Since(t0)] to come. *)
Fixpoint warm_loop (ix : Index) (d : Z) (since : list Z) (st : Z * list float * Z) : res Z :=
  match since with
  | [] => OutOfFuel
  | t :: since' =>
      if d <=? t then Ok st.2
      else st ← foldM (fun st (_ : nat) => warm_one ix st) st (seq 0 64); warm_loop ix d since' st
  end.

(** The number of scores; [nanos] is the time the generator is seeded with. *)
Definition warmup (ix : Index) (d : Z) (nanos : Z) (since : list Z) : res Z :=
  if d <=? 0 then Ok 0
  else warm_loop ix d since (Z.lor (u64 nanos) 1, repeat (S754_zero false) DIMS, 0).

Definition Millisecond : Z := 1000000.

(** [main]: an error stands for the fatal exit. *)
Definition main (e : Config.env) (sys : calls) (nanos : Z) (since : list Z) : res (Index * mode) :=
  ix ← OpenPath sys;
  let warmupMs := Config.envInt e (bytes "WARMUP_MS") 700 in
  _ ← warmup ix (i64 (warmupMs * Millisecond)) nanos since;
  let ctrl := e (bytes "CTRL_SOCK_PATH") in
  if decide (ctrl <> []) then Ok (ix, ServeCtrl ctrl)
  else
    let port := Config.envOr e (bytes "PORT") (bytes "9999") in
    Ok (ix, ServeTCP (bytes ":" ++ port)).
End Service.

(** ** The warm-up *)

Lemma draw_ok rng : Cluster.rng_ok rng ->
  exists rng' x, draw rng = (rng', x) /\ Cluster.rng_ok rng' /\ Quantize.not_nan x.
Proof.
  intros Hr. exists (Cluster.next rng), (draw rng).2. split; [reflexivity|]. split; [by apply Cluster.next_ok|].
  unfold draw. cbv zeta. cbn [snd]. change (f32_of_Z 2147483648) with (S754_finite false 8388608 8).
  apply Normalize.f32_div_not_nan, Normalize.f32_int_not_nan.
  pose proof (wrapS_range 32 (Z.shiftr (Cluster.next rng) 32) ltac:(lia)) as Hb. unfold inS in Hb.
  change (Z.lxor _ _) with (Cluster.next rng). unfold i32. lia.
Qed.

Section Warm.
Context `{KernelLaws}.
Variable unspec : float -> Z.
Variable ix : Index.
Hypothesis wf : Knn.index_wf ix.

Lemma Score_ok q : length q = DIMS -> Forall Quantize.not_nan q ->
  returns (Score unspec ix q) (fun s => 0 <= s <= 5).
Proof.
  intros Hl Hq. unfold Score. apply wp_bind. eapply wp_conseq; [by apply Quantize.Quantize_ok|].
  intros qq (Hqq & Hr & _). apply Knn.ScoreQ_range; [done|]. by split.
Qed.

Definition warm_ok (n : Z) (st : Z * list float * Z) : Prop :=
  Cluster.rng_ok st.1.1 /\ length st.1.2 = DIMS /\ Forall Quantize.not_nan st.1.2 /\ st.2 = n.

Lemma warm_one_ok n st : warm_ok n st -> returns (warm_one unspec ix st) (warm_ok (n + 1)).
Proof.
  destruct st as [[rng q] count]. intros (Hr & Hl & Hq & Hn). cbn [fst snd] in *. unfold warm_one. apply wp_bind.
  eapply wp_conseq.
  { apply (wp_for _ (fun _ '(r, v) => Cluster.rng_ok r /\ length v = DIMS /\ Forall Quantize.not_nan v)).
    - split_and!; done.
    - intros k [r v] Hk (Hr' & Hl' & Hv). rewrite Nat.add_0_l.
      destruct (draw_ok r Hr') as (r' & x & -> & Hr2 & Hx). rewrite set_ok, bind_Ok by lia. apply wp_ok.
      rewrite length_insert. split_and!; [done|done|by apply Forall_insert]. }
  intros [r v] (Hr' & Hl' & Hv). apply wp_bind. eapply wp_conseq; [by apply Score_ok|]. intros s _.
  apply wp_ok. unfold warm_ok. cbn [fst snd]. split_and!; [done|done|done|lia].
Qed.

Lemma warm_batch_ok n st : warm_ok n st ->
  returns (foldM (fun st (_ : nat) => warm_one unspec ix st) st (seq 0 64)) (warm_ok (n + 64)).
Proof.
  intros Hst. eapply wp_conseq.
  { apply (wp_for _ (fun k st => warm_ok (n + Z.of_nat k) st)); [by rewrite Z.add_0_r|].
    intros k st' _ Hst'. replace (n + Z.of_nat (S k)) with (n + Z.of_nat k + 1) by lia. by apply warm_one_ok. }
  intros st' Hst'. exact Hst'.
Qed.

(** The readings before the deadline. *)
Fixpoint batches (d : Z) (since : list Z) : Z :=
  match since with t :: since' => if d <=? t then 0 else 1 + batches d since' | [] => 0 end.

Lemma warm_loop_ok d since n st :
  warm_ok n st -> Exists (fun t => d <= t) since ->
  returns (warm_loop unspec ix d since st) (fun c => c = n + 64 * batches d since).
Proof.
  revert n st. induction since as [|t since IH]; intros n st Hst Hd; [by apply Exists_nil in Hd|].
  cbn [warm_loop batches]. destruct (Z.leb_spec d t) as [Ht|Ht].
  - apply wp_ok. destruct Hst as (_ & _ & _ & ->). lia.
  - apply Exists_cons in Hd as [Hd|Hd]; [lia|]. apply wp_bind.
    eapply wp_conseq; [by apply warm_batch_ok|]. intros st' Hst'.
    eapply wp_conseq; [by apply (IH (n + 64))|]. intros c ->. lia.
Qed.

Lemma warmup_ok d nanos since :
  d <= 0 \/ Exists (fun t => d <= t) since ->
  returns (warmup unspec ix d nanos since) (fun c => c = if d <=? 0 then 0 else 64 * batches d since).
Proof.
  intros Hd. unfold warmup. destruct (Z.leb_spec d 0) as [H0|H0]; [by apply wp_ok|].
  destruct Hd as [|Hd]; [lia|]. eapply wp_conseq.
  { apply (warm_loop_ok d since 0); [|done]. split_and!; [|done| |done].
    - cbn [fst]. pose proof (u64_range nanos) as Hu. split.
      + enough (Z.lor (u64 nanos) 1 <> 0) by (pose proof (proj2 (Z.lor_nonneg (u64 nanos) 1)); lia).
        intros E%Z.lor_eq_0_iff. lia.
      + destruct (Z.eq_dec (u64 nanos) 0) as [->|Hne]; [done|]. apply Z.log2_lt_pow2.
        * pose proof (proj2 (Z.lor_nonneg (u64 nanos) 1)). enough (Z.lor (u64 nanos) 1 <> 0) by lia.
          intros E%Z.lor_eq_0_iff. lia.
        * rewrite Z.log2_lor by lia. apply Z.max_lub_lt; [apply Z.log2_lt_pow2; lia|done].
    - cbn [fst snd]. by repeat constructor. }
  intros c ->. lia.
Qed.
End Warm.

(** ** Properties *)

(** What the environment asks for. *)
Definition asked (e : Config.env) : mode :=
  if decide (e (bytes "CTRL_SOCK_PATH") = []) then
    ServeTCP (bytes ":" ++ (if decide (e (bytes "PORT") = []) then bytes "9999" else e (bytes "PORT")))
  else ServeCtrl (e (bytes "CTRL_SOCK_PATH")).

(** C16: the service starts on the index the builder leaves. For every printed list of
    references with finite features, every environment, every seed and every clock that
    reaches the end of the warm-up, [main] opens the index the builder wrote, scores its
    random vectors on it without a panic, and goes on to serve where the environment says,
    with an index that holds exactly the references. It stops with an error when the file
    cannot be opened, its size cannot be read, or both attempts to map it fail; a first
    attempt that fails alone does not stop it. *)
Theorem service_starts `{Layout.SliceSort, KernelLaws} unspec scan_other cap KMeansSample K sp rs vs e nanos since :
  Build.buildable scan_other cap KMeansSample K sp rs vs ->
  (let d := i64 (Config.envInt e (bytes "WARMUP_MS") 700 * Millisecond) in d <= 0 \/ Exists (fun t => d <= t) since) ->
  exists data,
    Build.build unspec scan_other cap KMeansSample K [] (RefParse.print_refs sp rs) = Ok (Build.Written data) /\
    forall sys,
      match file sys with
      | Some f => f = data ->
          if stat sys && (mmap sys || mmap_again sys) then
            returns (main unspec e sys nanos since) (fun '(ix, m) => m = asked e /\
              Knn.index_wf ix /\ forall q, Knn.all_cands ix q ≡ₚ Build.reference_cands unspec vs
                (map (fun r => RefParse.lab_val (RefParse.label_text r)) rs) q)
          else exists err, main unspec e sys nanos since = Fail err
      | None => main unspec e sys nanos since = Fail ErrOS
      end.
Proof.
  intros Hb Hd. destruct (Build.build_ok unspec scan_other cap KMeansSample K sp rs vs Hb)
    as (data & ix & Hw & Ho & Hwf & _ & _ & Hc).
  exists data. split; [done|]. intros sys. unfold main, OpenPath. destruct (file sys) as [f|]; [|done].
  intros ->. destruct (stat sys); cbn [negb andb]; [|by eexists].
  assert (Z.of_nat (length data) <? HeaderSize = false) as ->.
  { destruct (Z.ltb_spec (Z.of_nat (length data)) HeaderSize) as [Hlt|]; [|done].
    unfold Open, Open_header in Ho. cbv zeta in Ho. apply Z.ltb_lt in Hlt. by rewrite Hlt in Ho. }
  rewrite <-negb_orb. destruct (mmap sys || mmap_again sys); cbn [negb]; [|by eexists].
  rewrite Ho, bind_Ok. apply wp_bind. eapply wp_conseq; [apply warmup_ok; [exact Hwf|exact Hd]|]. intros c _.
  unfold asked, Config.envOr. cbv zeta.
  destruct (decide (e (bytes "CTRL_SOCK_PATH") = [])) as [E|E].
  - rewrite decide_False by (intros Hn; by apply Hn). apply wp_ok. by split_and!.
  - rewrite decide_True by done. apply wp_ok. by split_and!.
Qed.

Example service_starts_witness :
  exists data,
    @Build.build Layout.InsertionSort (fun _ => 0) Build.scan_none 4096 2 2 [] (RefParse.print_refs (bytes " ") Build.example_refs) =
      Ok (Build.Written data) /\
    returns (@main avx2 (fun _ => 0) (fun _ => []) (mkCalls (Some data) true false true) 1 [0; 800000000]) (fun '(ix, m) =>
      m = ServeTCP (bytes ":9999") /\ Knn.index_wf ix /\
      forall q, Knn.all_cands ix q ≡ₚ Build.reference_cands (fun _ => 0) (map Build.row_of Build.example_refs)
        (map (fun r => RefParse.lab_val (RefParse.label_text r)) Build.example_refs) q).
Proof.
  destruct (@service_starts Layout.InsertionSort avx2 avx2_laws (fun _ => 0) Build.scan_none 4096 2 2 (bytes " ")
    Build.example_refs (map Build.row_of Build.example_refs) (fun _ => []) 1 [0; 800000000] Build.example_buildable)
    as (data & Hb & Hs).
  - right. right. left. vm_compute. discriminate.
  - exists data. split; [exact Hb|]. exact (Hs (mkCalls (Some data) true false true) eq_refl).
Defined.

End Boot.
