(* ===== verification/Syscalls.v ===== *)
(** * cmd/api: the system calls of the start-up

    The calls that [main] of [cmd/api/main.go] makes before it serves, in order: the
    scheduler knobs of [cmd/api/sched_linux.go], the file and the mapping of [Open] and
    [Close] of [internal/index/index.go], and [mlockAll] of [cmd/api/ctrl_linux.go].  The
    outcomes of the calls are the arguments of [Boot.main]; calls whose errors the code
    ignores have none. *)

From S2P Require Import Prelude Floats Index Kernel Knn Quantize Config Boot.

Module Syscalls.
Import Index Kernel Config Boot.

Local Open Scope Z_scope.

(** ** The code *)

Inductive call : Type :=
| Prctl (timerslack : Z)
| SchedSetscheduler (policy priority : Z)
| OpenFile (ok : bool)
| Fstat
| Mmap (populate : bool) (size : Z) (ok : bool)
| Madvise (advice : Z)
| CloseFile
| Mlockall (flags : Z)
| Munmap.

Definition applyLowLatencyTuning (e : env) : list call :=
  [Prctl 1] ++ (if decide (e (bytes "SCHED_FIFO") <> bytes "1") then [] else [SchedSetscheduler 1 10]).

Definition mlockAll : list call := [Mlockall (Z.lor 1 2)].

(** [madviseHugepage]: nothing for an empty slice. *)
Definition madviseHugepage (b : list byte) : list call := if (length b =? 0)%nat then [] else [Madvise 14].

(** The calls of [Open]; the deferred close of the file comes last on every path. *)
Definition open_calls (e : env) (sys : calls) : list call :=
  match file sys with
  | None => [OpenFile false]
  | Some f =>
      let size := Z.of_nat (length f) in
      let populate := bool_decide (e (bytes "INDEX_MAP_POPULATE") = bytes "1") in
      if negb (stat sys) then [OpenFile true; Fstat; CloseFile]
      else if size <? HeaderSize then [OpenFile true; Fstat; CloseFile]
      else
        let maps := Mmap populate size (mmap sys) :: (if negb (mmap sys) then [Mmap false size (mmap_again sys)] else []) in
        if negb (mmap sys) && negb (mmap_again sys) then [OpenFile true; Fstat] ++ maps ++ [CloseFile]
        else
          [OpenFile true; Fstat] ++ maps ++ [Madvise 3] ++
          (if bool_decide (e (bytes "INDEX_HUGEPAGE") = bytes "1") then madviseHugepage f else []) ++ [CloseFile]
  end.

(** [Close] on an index that holds its mapping or not: whether it holds it afterwards.  The
    field is cleared even when [munmap] fails. *)
Definition Close (mapped : bool) : bool * list call := if mapped then (false, [Munmap]) else (mapped, []).

(** [main] up to the serving loops with its calls. *)
Section Startup.
Context `{Kernel}.
Variable unspec : float -> Z.   (* int16 of a NaN *)

Definition startup (e : env) (sys : calls) (nanos : Z) (since : list Z) : res (Index * mode) * list call :=
  let before := applyLowLatencyTuning e ++ open_calls e sys in
  match OpenPath sys with
  | Ok ix => (main unspec e sys nanos since, before ++ (if mlockEnabled e then mlockAll else []))
  | Fail err => (Fail err, before)
  | Panic => (Panic, before)
  | OutOfFuel => (OutOfFuel, before)
  end.
End Startup.

(** ** Resources *)

(** What a run of calls leaves open, from what was open. *)
Record held : Type := mkHeld { files : Z; maps : Z }.

Definition effect (h : held) (c : call) : held :=
  match c with
  | OpenFile true => mkHeld (files h + 1) (maps h)
  | CloseFile => mkHeld (files h - 1) (maps h)
  | Mmap _ _ true => mkHeld (files h) (maps h + 1)
  | Munmap => mkHeld (files h) (maps h - 1)
  | _ => h
  end.
Definition after (h : held) (cs : list call) : held := fold_left effect cs h.

Lemma after_app h cs1 cs2 : after h (cs1 ++ cs2) = after (after h cs1) cs2.
Proof. apply fold_left_app. Qed.

(** A mapping is made and kept. *)
Definition maps_file (sys : calls) : bool :=
  match file sys with
  | None => false
  | Some f => stat sys && (HeaderSize <=? Z.of_nat (length f)) && (mmap sys || mmap_again sys)
  end.

Lemma tuning_holds e h : after h (applyLowLatencyTuning e) = h.
Proof. unfold applyLowLatencyTuning. by destruct (decide _). Qed.

Lemma hugepage_holds b h : after h (madviseHugepage b) = h.
Proof. unfold madviseHugepage. by destruct (_ =? _)%nat. Qed.

Lemma open_holds e sys h :
  after h (open_calls e sys) = mkHeld (files h) (maps h + Z.b2z (maps_file sys)).
Proof.
  unfold open_calls, maps_file. destruct h as [n m], (file sys) as [f|]; [|cbn; f_equal; lia]. cbv zeta.
  destruct (stat sys); [|cbn; f_equal; lia]. rewrite Z.ltb_antisym. destruct (HeaderSize <=? Z.of_nat (length f));
    cbn [negb andb]; [|cbn; f_equal; lia].
  destruct (mmap sys), (mmap_again sys); cbn [negb andb orb]; rewrite ?after_app;
    try (destruct (bool_decide (e (bytes "INDEX_HUGEPAGE") = bytes "1")); rewrite ?hugepage_holds); cbn; f_equal; lia.
Qed.

Lemma open_maps sys ix : OpenPath sys = Ok ix -> maps_file sys = true.
Proof.
  unfold OpenPath, maps_file. destruct (file sys) as [f|]; [|done]. destruct (stat sys); [|done]. cbn [negb andb].
  destruct (Z.ltb_spec (Z.of_nat (length f)) HeaderSize); [done|].
  destruct (Z.leb_spec HeaderSize (Z.of_nat (length f))); [|lia]. by destruct (mmap sys), (mmap_again sys).
Qed.

(** An index of the wrong magic stays mapped though [Open] returns an error. *)
Theorem refused_index_mapped e f :
  HeaderSize <= Z.of_nat (length f) -> Index.field f 0 <> Magic ->
  let sys := mkCalls (Some f) true true true in
  OpenPath sys = Fail (ErrBadMagic (Index.field f 0)) /\ after (mkHeld 0 0) (open_calls e sys) = mkHeld 0 1.
Proof.
  intros Hl Hm. cbv zeta. unfold OpenPath. cbn [file stat mmap mmap_again negb andb].
  destruct (Z.ltb_spec (Z.of_nat (length f)) HeaderSize); [lia|]. split.
  - unfold Open. rewrite Open_header_eq by done. by rewrite (proj2 (Z.eqb_neq _ _) Hm).
  - rewrite open_holds. unfold maps_file. cbn [file stat mmap mmap_again andb orb files maps].
    by rewrite (proj2 (Z.leb_le _ _) Hl).
Qed.

(** Memory is not locked before the end. *)
Definition locks (c : call) : bool := match c with Mlockall _ => true | _ => false end.

Lemma nothing_locked e sys : existsb locks (applyLowLatencyTuning e ++ open_calls e sys) = false.
Proof.
  rewrite existsb_app. unfold applyLowLatencyTuning, open_calls, madviseHugepage. destruct (decide _); cbn [app existsb locks orb].
  all: destruct (file sys) as [f|]; [|done]; destruct (stat sys); [|done]; cbn [negb]; destruct (_ <? _); [done|].
  all: destruct (mmap sys), (mmap_again sys), (bool_decide (e (bytes "INDEX_HUGEPAGE") = bytes "1")), (length f =? 0)%nat; done.
Qed.

Lemma locked_last cs flags cs1 flags' cs2 :
  existsb locks cs = false -> cs ++ [Mlockall flags] = cs1 ++ [Mlockall flags'] ++ cs2 -> cs1 = cs /\ cs2 = [].
Proof.
  intros Hn. destruct cs2 as [|c cs2 _] using rev_ind.
  - by intros [-> _]%app_inj_tail.
  - rewrite !app_assoc. intros [-> _]%app_inj_tail. rewrite !existsb_app in Hn. cbn in Hn. by rewrite orb_true_r in Hn.
Qed.

(** ** Properties *)

(** C40: the resources of the start-up. Whatever the environment and the outcomes of the calls,
    the start-up has the result of [Boot.main] and leaves no file open; when it goes on to
    serve it holds one mapping, and memory is locked only after that mapping is made, so
    that it covers the index. [Close] gives the mapping back, once. *)
Theorem startup_resources `{Kernel} unspec e sys nanos since :
  let '(r, cs) := startup unspec e sys nanos since in
  r = main unspec e sys nanos since /\
  (files (after (mkHeld 0 0) cs) = 0) /\
  (forall out, r = Ok out ->
     after (mkHeld 0 0) cs = mkHeld 0 1 /\
     (forall cs1 flags cs2, cs = cs1 ++ [Mlockall flags] ++ cs2 -> maps (after (mkHeld 0 0) cs1) = 1 /\ cs2 = []) /\
     (In (Mlockall 3) cs <-> mlockEnabled e = true) /\
     let '(mapped, ds) := Close true in
     mapped = false /\ after (mkHeld 0 0) (cs ++ ds) = mkHeld 0 0 /\ Close mapped = (false, [])).
Proof.
  unfold startup. set (before := _ ++ open_calls e sys).
  assert (after (mkHeld 0 0) before = mkHeld 0 (Z.b2z (maps_file sys))) as Hb.
  { unfold before. by rewrite after_app, tuning_holds, open_holds. }
  destruct (OpenPath sys) as [ix|err| |] eqn:Eo.
  2, 3, 4: rewrite Hb; unfold main; rewrite Eo; by split_and!.
  rewrite (open_maps sys ix Eo) in Hb. cbn [Z.b2z] in Hb.
  assert (after (mkHeld 0 0) (before ++ (if mlockEnabled e then mlockAll else [])) = mkHeld 0 1) as Ha.
  { rewrite after_app, Hb. by destruct (mlockEnabled e). }
  split; [done|]. rewrite Ha. split; [done|]. intros out _. pose proof (nothing_locked e sys) as Hn. fold before in Hn.
  split; [done|]. split; [|split; [|cbn [Close]; rewrite after_app, Ha; by split_and!]].
  - intros cs1 flags cs2 Hcs. destruct (mlockEnabled e).
    + apply (locked_last before _ cs1 flags cs2 Hn) in Hcs as [-> ->]. by rewrite Hb.
    + exfalso. rewrite app_nil_r in Hcs. rewrite Hcs, !existsb_app in Hn. cbn in Hn. by rewrite orb_true_r in Hn.
  - rewrite in_app_iff. destruct (mlockEnabled e); [split; [done|]; intros _; right; by left|].
    split; [|done]. intros [Hi|[]]. exfalso.
    assert (existsb locks before = true) by (apply existsb_exists; by exists (Mlockall 3)). congruence.
Qed.

(** The smallest index there is: no clusters and no blocks. *)
Definition example_file : list byte := [x48; x4e; x49; x52; x04] ++ repeat x00 63.
Definition example_env : env := fun k => if decide (k = bytes "WARMUP_MS") then bytes "0" else [].
Definition example_sys : calls := mkCalls (Some example_file) true false true.

Example startup_resources_witness : exists ix,
  @startup avx2 (fun _ => 0) example_env example_sys 0 [] =
    (Ok (ix, ServeTCP (bytes ":9999")),
     [Prctl 1; OpenFile true; Fstat; Mmap false 68 false; Mmap false 68 true; Madvise 3; CloseFile; Mlockall 3]) /\
  after (mkHeld 0 0) (@startup avx2 (fun _ => 0) example_env example_sys 0 []).2 = mkHeld 0 1.
Proof.
  pose proof (@startup_resources avx2 (fun _ => 0) example_env example_sys 0 []) as Hs.
  assert (exists ix, @startup avx2 (fun _ => 0) example_env example_sys 0 [] =
    (Ok (ix, ServeTCP (bytes ":9999")),
     [Prctl 1; OpenFile true; Fstat; Mmap false 68 false; Mmap false 68 true; Madvise 3; CloseFile; Mlockall 3])) as [ix Hix].
  { eexists. vm_compute. reflexivity. }
  exists ix. split; [exact Hix|]. rewrite Hix in Hs |- *. destruct Hs as (_ & _ & Hs). exact (proj1 (Hs _ eq_refl)).
Defined.

End Syscalls.
