(* ===== verification/System.v ===== *)
(** * The whole system

    Everything put together: from the reference file that [cmd/buildindex] reads and the
    bytes a client sends to [cmd/lb] to the bytes [cmd/api] writes back.  The theorem is
    stated in terms of the reference vectors, the request documents and the decision tree
    only; the index, its blocks and clusters, the hand-over and the buffers do not appear
    in what it says of the answers. *)

From S2P Require Import Prelude Floats Select Index Kernel TopKTable Knn Quantize TreeData Tree Normalize Jsonp.
From S2P Require Import JsonText Http Server Conn Lb Ctrl Layout RefParse Build.

Module System.
Import Http Kernel TopKTable.

Local Open Scope Z_scope.

(** ** Requests *)

(** A scoring request as a client writes it. *)
Record request : Type := mkRequest {
  before : list (list byte);          (* the header lines before the length *)
  after : list (list byte);           (* and after it *)
  name : list byte;                   (* "content-length:", in any case *)
  blanks : list byte;
  count : list byte;                  (* its decimal value *)
  white : list byte;                  (* the white space between tokens of the body *)
  doc : list JsonText.top_item
}.

Definition body (r : request) : list byte := JsonText.print (white r) (doc r).
Definition request_text (r : request) : list byte :=
  render_post (before r) (after r) (name r) (blanks r) (count r) (body r).

(** A request the service can score: a document with finite amounts and a real month,
    printed after headers that declare its length, no longer than the read buffer. *)
Record request_ok (r : request) : Prop := {
  ok_before : Forall other_header (before r);
  ok_after : Forall other_header (after r);
  ok_length : length_line_ok (name r) (blanks r) (count r);
  ok_count : dec_value (count r) 0 = Z.of_nat (length (body r));
  ok_white : JsonText.blank (white r);
  ok_doc : JsonText.doc_wf (doc r);
  ok_scorable : Server.scorable (JsonText.eval (doc r));
  ok_fits : (length (request_text r) <= Conn.readBufSize)%nat
}.

(** ** What the answer should be *)

(** The fraud count [s] of a query among the candidates [cands]: the decision tree's when
    the leaf is trusted; otherwise between 0 and 5, and, unless five candidates lie
    within [EarlyDist] of the query, five or the count of five nearest candidates. *)
Definition judged (cands : list (Z * Z)) (qq : list Z) (s : Z) : Prop :=
  if (TreeData.leafSafeA !!! Z.to_nat (Tree.walk qq Tree.the_tree) : bool)
  then s = Tree.ResCount (Tree.result_of (Tree.walk qq Tree.the_tree))
  else forall e, length e = TopK -> Sorted.StronglySorted (key_le fst) e ->
    smallest fst e (no_best ++ cands) -> Index.EarlyDist < worst e ->
    s = 5 \/ exists t, smallest fst t (no_best ++ cands) /\ map fst t = map fst e /\ s = Knn.frauds t.

(** The response to a request: the canned response of the fraud count of its query. *)
Definition answered (unspec : float -> Z) (cands : list Z -> list (Z * Z)) (r : request) (resp : list byte) : Prop :=
  exists v qq s, Normalize.Vectorize (JsonText.eval (doc r)) = Ok v /\ Quantize.Quantize unspec v = Ok qq /\
    0 <= s <= 5 /\ judged (cands qq) qq s /\ resp = Server.scores !!! Z.to_nat s.

(** ** Answering one request *)

Section Answer.
Context `{KernelLaws}.
Variable unspec : float -> Z.
Variable ix : Index.Index.
Hypothesis wf : Knn.index_wf ix.
Variable cands : list Z -> list (Z * Z).
Hypothesis holds_cands : forall q, Knn.all_cands ix q ≡ₚ cands q.

Lemma decided_judged qq s : Knn.query qq -> Server.decided ix qq s -> judged (cands qq) qq s.
Proof.
  intros Hq. unfold Server.decided, judged.
  destruct (TreeData.leafSafeA !!! Z.to_nat (Tree.walk qq Tree.the_tree)); [done|].
  intros Hs e Le Se He Hw.
  pose proof (Knn.ScoreQ_exact_cands ix qq (cands qq) e wf Hq (holds_cands qq) Le Se He Hw) as Hr.
  exact (wp_ok_inv _ _ _ s Hr Hs).
Qed.

Lemma text_below (t : list byte) : (length t <= Conn.readBufSize)%nat -> Z.of_nat (length t) < 2 ^ 62.
Proof. intros Ht%inj_le. change (Z.of_nat Conn.readBufSize) with 8192 in Ht. lia. Qed.

Lemma request_answered r : request_ok r ->
  exists resp, Conn.answers unspec ix (request_text r) resp /\ answered unspec cands r resp.
Proof.
  intros [Hb Ha Hl Hc Hw Hd Hs Hf].
  pose proof (text_below _ Hf) as H62.
  pose proof (ParseRequest_post (before r) (after r) (name r) (blanks r) (count r) (body r) [] Hb Ha Hl Hc H62) as HP.
  rewrite app_nil_r in HP. fold (request_text r) in HP. set (p := mkParsed _ _ _) in HP.
  assert (Jsonp.Parse (Body p) = Ok (JsonText.eval (doc r))) as HJ.
  { pose proof (JsonText.Parse_print_gen (white r) Hw (doc r) [] Hd) as HJ. by rewrite app_nil_r in HJ. }
  destruct (Server.Respond_ok unspec ix p _ wf eq_refl HJ Hs) as (v & qq & s & Ev & Eq & Hdec & Hr & HR).
  exists (Server.scores !!! Z.to_nat s).
  split; [exists p; split; [exact HP|split; [reflexivity|exact HR]]|]. exists v, qq, s.
  split_and!; [exact Ev|exact Eq|apply Hr|apply Hr| |reflexivity].
  apply decided_judged; [|exact Hdec].
  pose proof (Jsonp.Parse_wf (Body p)) as Hwf. rewrite HJ in Hwf.
  destruct (Server.query_of unspec _ _ Hwf Hs) as (v' & qq' & Ev' & Eq' & Hq). congruence.
Qed.

Lemma requests_answered rs : Forall request_ok rs ->
  exists resps, Forall2 (Conn.answers unspec ix) (map request_text rs) resps /\ Forall2 (answered unspec cands) rs resps.
Proof.
  induction 1 as [|r rs Hr _ (resps & H1 & H2)]; [exists []; by split; constructor|].
  destruct (request_answered r Hr) as (resp & Ha & Hans). exists (resp :: resps). split; by constructor.
Qed.

Lemma requests_fit rs : Forall request_ok rs ->
  Forall (fun t => length t <= Conn.readBufSize)%nat (map request_text rs).
Proof. induction 1 as [|r rs Hr _ IH]; constructor; [apply Hr|done]. Qed.

(** A stream of requests handed over by the balancer. *)
Lemma stream_answered rs resps n rr evs outs i msg evs' rr' outs' fd recvbuf buf ws :
  Forall request_ok rs -> Forall2 (Conn.answers unspec ix) (map request_text rs) resps ->
  Conn.stream evs = concat (map request_text rs) ->
  Lb.accept_one n rr evs outs = Ok (Lb.Handed i msg evs', rr', outs') ->
  0 <= fd -> length recvbuf = Ctrl.maxPrefix -> length buf = Conn.readBufSize -> Conn.no_error ws ->
  exists prefix,
    Ctrl.recvFDWithBytes recvbuf (Ctrl.Msg msg (Some [Some [fd]])) = (inr (fd, length prefix), Conn.copy recvbuf prefix) /\
    ((length prefix <= Conn.readBufSize)%nat ->
     Conn.handleRawConn unspec ix buf (take (length prefix) (Conn.copy recvbuf prefix)) evs' ws = (concat resps, Ok tt)).
Proof.
  intros Hrs Hres Hst Hacc Hfd Hrb Hb Hws.
  destruct (Ctrl.handoff_ok unspec ix n rr evs outs i msg evs' rr' outs' fd recvbuf buf ws Hacc Hfd Hrb Hb Hws)
    as (prefix & _ & Hrecv & Htake & Hserve).
  exists prefix. split; [exact Hrecv|]. intros Hle. rewrite Htake, Hserve.
  replace (length prefix <=? Conn.readBufSize)%nat with true by lia.
  rewrite Hst, <-(app_nil_r (concat (map request_text rs))).
  rewrite (Conn.served_pipeline unspec ix _ _ resps) by (done || by apply requests_fit).
  by rewrite (Conn.served_nil unspec ix), app_nil_r.
Qed.
End Answer.

(** ** Properties *)

(** C1: the system answers what its reference file and its tree say. For every printed
    list of references with finite features the builder writes an index file that opens;
    and on that index, for every sequence of scoring requests a client sends on one
    connection, in whatever pieces they arrive, that the balancer hands over: the worker
    receives the descriptor with the drained bytes, and, when these fit its buffer, its
    handler writes exactly one response per request, in order, each the canned response
    of the fraud count judged from the references and the tree alone, and returns. *)
Theorem system_serves `{Layout.SliceSort, KernelLaws} unspec scan_other cap KMeansSample clusters sp refs vs :
  Build.buildable scan_other cap KMeansSample clusters sp refs vs ->
  let cands := Build.reference_cands unspec vs (map (fun r => RefParse.lab_val (RefParse.label_text r)) refs) in
  exists data ix,
    Build.build unspec scan_other cap KMeansSample clusters [] (RefParse.print_refs sp refs) = Ok (Build.Written data) /\
    Index.Open data = Ok ix /\
    forall rs, Forall request_ok rs ->
      exists resps, Forall2 (answered unspec cands) rs resps /\
        forall n rr evs outs i msg evs' rr' outs' fd recvbuf buf ws,
          Conn.stream evs = concat (map request_text rs) ->
          Lb.accept_one n rr evs outs = Ok (Lb.Handed i msg evs', rr', outs') ->
          0 <= fd -> length recvbuf = Ctrl.maxPrefix -> length buf = Conn.readBufSize -> Conn.no_error ws ->
          exists prefix,
            Ctrl.recvFDWithBytes recvbuf (Ctrl.Msg msg (Some [Some [fd]])) =
              (inr (fd, length prefix), Conn.copy recvbuf prefix) /\
            ((length prefix <= Conn.readBufSize)%nat ->
             Conn.handleRawConn unspec ix buf (take (length prefix) (Conn.copy recvbuf prefix)) evs' ws =
               (concat resps, Ok tt)).
Proof.
  intros Hin cands.
  destruct (Build.build_ok unspec scan_other cap KMeansSample clusters sp refs vs Hin) as (data & ix & Hb & Ho & Hwf & _ & _ & Hc).
  exists data, ix. split; [done|]. split; [done|]. intros rs Hrs.
  destruct (requests_answered unspec ix Hwf cands Hc rs Hrs) as (resps & H1 & H2).
  exists resps. split; [exact H2|]. intros. by eapply stream_answered.
Qed.

(** Two requests on one connection, in three pieces; the balancer drains the first. *)
Definition example_request : request :=
  mkRequest [bytes "Host: api"] [] (bytes "Content-Length:") (bytes " ") (bytes "375") (bytes " ") JsonText.sample.

Definition example_evs : list Conn.event :=
  let t := request_text example_request in
  [Conn.Data (take 100 t); Conn.Again; Conn.Data (drop 100 t ++ take 10 t); Conn.Intr; Conn.Data (drop 10 t)].

Lemma example_ok : request_ok example_request.
Proof.
  split.
  - repeat constructor; discriminate.
  - constructor.
  - repeat split; try discriminate; repeat constructor; discriminate.
  - vm_compute. reflexivity.
  - repeat constructor.
  - exact JsonText.sample_wf.
  - exact Server.example_scorable.
  - apply Nat.leb_le. vm_compute. reflexivity.
Qed.

Example system_serves_witness :
  let cands := Build.reference_cands (fun _ => 0) (map Build.row_of Build.example_refs)
    (map (fun r => RefParse.lab_val (RefParse.label_text r)) Build.example_refs) in
  let msg := Lb.frame (take 100 (request_text example_request)) in
  exists data ix resps prefix,
    @Build.build Layout.InsertionSort (fun _ => 0) Build.scan_none 4096 2 2 []
      (RefParse.print_refs (bytes " ") Build.example_refs) = Ok (Build.Written data) /\
    Index.Open data = Ok ix /\
    Forall2 (answered (fun _ => 0) cands) [example_request; example_request] resps /\
    Ctrl.recvFDWithBytes Ctrl.example_buf (Ctrl.Msg msg (Some [Some [7]])) =
      (inr (7, length prefix), Conn.copy Ctrl.example_buf prefix) /\
    ((length prefix <= Conn.readBufSize)%nat ->
     @Conn.handleRawConn avx2 (fun _ => 0) ix Conn.example_buf
       (take (length prefix) (Conn.copy Ctrl.example_buf prefix)) (drop 2 example_evs) [Conn.WIntr] =
       (concat resps, Ok tt)).
Proof.
  intros cands msg.
  destruct (@system_serves Layout.InsertionSort avx2 avx2_laws (fun _ => 0) Build.scan_none 4096 2 2 (bytes " ")
    Build.example_refs (map Build.row_of Build.example_refs) Build.example_buildable) as (data & ix & Hb & Ho & Hs).
  destruct (Hs [example_request; example_request]) as (resps & Hans & Hserve).
  { constructor; [exact example_ok|]. constructor; [exact example_ok|constructor]. }
  destruct (Hserve 2%nat 1%nat example_evs [] 1%nat msg (drop 2 example_evs) 0%nat [] 7 Ctrl.example_buf
    Conn.example_buf [Conn.WIntr]) as (prefix & Hrecv & Hout).
  - vm_compute. reflexivity.
  - vm_compute. reflexivity.
  - lia.
  - apply repeat_length.
  - apply repeat_length.
  - repeat constructor; discriminate.
  - exists data, ix, resps, prefix. split; [exact Hb|]. split; [exact Ho|]. split; [exact Hans|].
    split; [exact Hrecv|exact Hout].
Defined.

End System.
