(* ===== verification/Service.v ===== *)
(** * The service under way

    The run time put together with its concurrency: the balancer's accept loop, the control
    connection of one of its backends, and the backend's handlers, which share the pool of
    buffers and are interleaved with each other and with the control loop.  What the
    clients get is stated, as in [System], over the reference vectors, the requests and the
    tree alone. *)

From stdpp Require Import gmap relations.
From S2P Require Import Prelude Floats Index Kernel Knn Http Server Conn Lb Pool Ctrl Config Balancer Layout RefParse Build System.

Module Service.
Import Kernel Conn.

(** ** The code *)

(** A connection that a backend was handed: the client's socket as the balancer accepted it,
    the message, and the socket as the balancer left it. *)
Record taken : Type := mkTaken { client : list event; message : list byte; rest : list event }.

(** The connections of backend [b], in the order of the accept loop. *)
Definition routed (b : nat) (conns : list (list event)) (os : list Lb.outcome) : list taken :=
  omap (fun '(evs, o) =>
    match o with
    | Lb.Handed i m evs' => if decide (i = b) then Some (mkTaken evs m evs') else None
    | _ => None
    end) (zip conns os).

(** The messages of its control connection: the kernel gives each descriptor a number. *)
Definition inbox (fds : list Z) (ts : list taken) : list Ctrl.incoming :=
  zip_with (fun fd t => Ctrl.Msg (message t) (Some [Some [fd]])) fds ts.

Record backend : Type := mkBackend { Control : Ctrl.state; Conns : Pool.pool }.

Section Run.
Context `{Kernel}.
Variable unspec : float -> Z.   (* int16 of a NaN *)
Variable ix : Index.Index.
(** The socket of the [k]-th connection handed over, and how the writes on it go. *)
Variable socket : nat -> list event * list wres.

Definition job_of (k : nat) (c : Z * list byte) : Pool.job := (Pool.Raw, c.2, (socket k).1, (socket k).2).

(** The connections started, from number [n] on. *)
Fixpoint jobs_from (n : nat) (cs : list (Z * list byte)) : list Pool.job :=
  match cs with [] => [] | c :: cs' => job_of n c :: jobs_from (S n) cs' end.

(** [go handleConnFD], for every connection that a turn of the control loop starts. *)
Definition spawn (js : list Pool.job) (p : Pool.pool) : Pool.pool :=
  Pool.mkPool (Pool.Heap p) (Pool.Free p) (Pool.Handlers p ++ map Pool.waiting js) (Pool.Alive p).

(** The control loop and the handlers run in one process: when a handler's panic has ended
    it, neither goes on. *)
Inductive step : backend -> backend -> Prop :=
| step_control s c :
    Pool.Alive (Conns s) = true ->
    Ctrl.step (Control s) c ->
    let n := length (Ctrl.Started (Control s)) in
    step s (mkBackend c (spawn (jobs_from n (drop n (Ctrl.Started c))) (Conns s)))
| step_handler s p : Pool.step unspec ix (Conns s) p -> step s (mkBackend (Control s) p).

Definition start (recvbuf : list byte) (msgs : list Ctrl.incoming) : backend :=
  mkBackend (Ctrl.start recvbuf [msgs]) (Pool.start []).

(** ** The invariant *)

Lemma jobs_from_app n cs1 cs2 : jobs_from n (cs1 ++ cs2) = jobs_from n cs1 ++ jobs_from (n + length cs1) cs2.
Proof.
  revert n. induction cs1 as [|c cs1 IH]; intros n; cbn [app jobs_from length]; [by rewrite Nat.add_0_r|].
  by rewrite IH, Nat.add_succ_r.
Qed.

Lemma jobs_from_lookup n cs i c : cs !! i = Some c -> jobs_from n cs !! i = Some (job_of (n + i) c).
Proof.
  revert n i. induction cs as [|c' cs IH]; intros n [|i]; cbn [jobs_from lookup list_lookup]; try done.
  - intros [= ->]. by rewrite Nat.add_0_r.
  - intros Hi. rewrite Nat.add_succ_r. exact (IH (S n) i Hi).
Qed.

Lemma jobs_from_length n cs : length (jobs_from n cs) = length cs.
Proof. revert n. induction cs as [|c cs IH]; intros n; cbn [jobs_from length]; [done|by rewrite IH]. Qed.

(** The handlers are those of the connections started, each on its way. *)
Definition on_the_way (sent : list (Z * list byte)) (s : backend) : Prop :=
  Ctrl.delivering sent (Control s) /\
  Pool.pool_on_course unspec ix (jobs_from 0 (Ctrl.Started (Control s))) (Conns s).

Lemma spawn_owners js p : Pool.owners (spawn js p) = Pool.owners p.
Proof.
  unfold Pool.owners. cbn [spawn Pool.Free Pool.Handlers]. rewrite flat_map_app. f_equal.
  assert (flat_map Pool.held (map Pool.waiting js) = []) as -> by (induction js as [|[[[k q] e] w] js IH]; [done|exact IH]).
  apply app_nil_r.
Qed.

Lemma spawn_on_course js js' p :
  Pool.pool_on_course unspec ix js p -> Pool.pool_on_course unspec ix (js ++ js') (spawn js' p).
Proof.
  intros [[H1 H2 H3 H4] Hall]. split.
  - split; rewrite ?spawn_owners; [exact H1|exact H2|exact H3|].
    intros (i & h & Hi & Hp)%H4. exists i, h. split; [|exact Hp]. cbn [spawn Pool.Handlers]. by apply lookup_app_l_Some.
  - cbn [spawn Pool.Handlers Pool.Heap]. apply Forall2_app; [exact Hall|].
    induction js' as [|[[[k q] e] w] js' IH]; constructor; done.
Qed.

(** A turn of the control loop starts at most more handlers. *)
Lemma started_grows c c' : Ctrl.step c c' -> Ctrl.Started c' = Ctrl.Started c ++ drop (length (Ctrl.Started c)) (Ctrl.Started c').
Proof.
  destruct 1 as [c i m box Hi|c i fd plen box Hi].
  - destruct (Ctrl.recvFDWithBytes _ m) as [r buf]. cbn [Ctrl.Started]. by rewrite drop_all, app_nil_r.
  - cbn [Ctrl.Started]. by rewrite drop_app_length.
Qed.

Lemma step_on_the_way sent s s' : Forall Ctrl.sendable sent -> step s s' -> on_the_way sent s -> on_the_way sent s'.
Proof.
  intros Hsent Hstep [Hd Hp]. destruct Hstep as [s c _ Hc n|s p Hp']; split; cbn [Control Conns]; [| |done|].
  - by eapply Ctrl.delivering_step.
  - rewrite (started_grows _ _ Hc) at 1. rewrite jobs_from_app. by apply spawn_on_course.
  - by eapply Pool.step_on_course.
Qed.

Lemma steps_on_the_way sent s s' : Forall Ctrl.sendable sent -> rtc step s s' -> on_the_way sent s -> on_the_way sent s'.
Proof. intros Hsent. induction 1; eauto using step_on_the_way. Qed.

Lemma start_on_the_way recvbuf sent : length recvbuf = Ctrl.maxPrefix -> on_the_way sent (start recvbuf (map Ctrl.handoff sent)).
Proof. intros Hb. split; [by apply Ctrl.delivering_start|]. apply (Pool.start_on_course unspec ix []). Qed.

(** Every turn of the control loop shortens its inbox, every turn of a handler its work. *)
Lemma backend_step_wf : well_founded (fun s' s => step s s').
Proof.
  assert (forall n c, Ctrl.remaining c = n -> forall p, Acc (fun s' s => step s s') (mkBackend c p)) as Hacc.
  { induction n as [n IHn] using lt_wf_ind. intros c E p. induction (Pool.step_wf unspec ix p) as [p _ IHp].
    constructor. intros s' Hstep. inversion Hstep as [s c' _ Hc|s p' Hp]; subst; cbn [Control Conns] in *.
    - eapply IHn; [|reflexivity]. by apply Ctrl.step_remaining.
    - by apply IHp. }
  intros [c p]. by eapply Hacc.
Qed.

(** What is left of a run: the handlers of every connection handed over, all returned. *)
Definition all_served (sent : list (Z * list byte)) (s : backend) : Prop :=
  Ctrl.Started (Control s) = sent /\ Forall (fun h => exists o, h = Pool.Finished o (Ok tt)) (Pool.Handlers (Conns s)).

#[local] Instance handler_finished h : Decision (exists o r, h = Pool.Finished o r).
Proof. destruct h; [right|right|left]; [by intros (? & ? & ?)..|eauto]. Defined.

(** A handler's connection is one that was handed over. *)
Lemma started_job sent s k h : on_the_way sent s -> Pool.Handlers (Conns s) !! k = Some h -> exists c, sent !! k = Some c.
Proof.
  intros [Hd [_ Hall]] Hk. destruct (Ctrl.delivering_prefix _ _ Hd) as [later ->].
  apply lookup_lt_is_Some_2. apply lookup_lt_Some in Hk. apply Forall2_length in Hall.
  rewrite jobs_from_length in Hall. rewrite length_app. lia.
Qed.

(** What a handler that has ended has written. *)
Lemma ended_agrees sent s k c o r : on_the_way sent s -> sent !! k = Some c ->
  Pool.Handlers (Conns s) !! k = Some (Pool.Finished o r) -> agrees (socket k).2 (o, r) (Pool.owed unspec ix (job_of k c)).
Proof.
  intros [Hd [_ Hall]] Hc Hk. eapply Forall2_lookup_r in Hall as (j & Hj & Ha); [|exact Hk].
  destruct (Ctrl.delivering_prefix _ _ Hd) as [later Hlater].
  assert (Ctrl.Started (Control s) !! k = Some c) as Hst.
  { destruct (Ctrl.Started (Control s) !! k) as [c'|] eqn:E.
    - rewrite Hlater, lookup_app_l in Hc by by eapply lookup_lt_Some. congruence.
    - exfalso. apply lookup_ge_None in E. apply lookup_lt_Some in Hj.
      rewrite jobs_from_length in Hj. lia. }
  rewrite (jobs_from_lookup 0 _ k c Hst) in Hj. injection Hj as <-. exact Ha.
Qed.

End Run.

(** A process that has died owed a panic to one of the connections handed over. *)
Lemma dead_owed `{Kernel} unspec ix socket sent s : on_the_way unspec ix socket sent s -> Pool.Alive (Conns s) = false ->
  exists k c, sent !! k = Some c /\ (Pool.owed unspec ix (job_of socket k c)).2 = Panic.
Proof.
  intros Hs E. destruct (Pool.pool_dead _ (proj1 (proj2 Hs)) E) as (k & h & Hk & Hp).
  destruct h as [| |o [| | |]]; try done. destruct (started_job _ _ _ _ _ _ _ Hs Hk) as [c Hc].
  exists k, c. split; [done|]. exact (Pool.agrees_panic _ _ _ (ended_agrees unspec ix socket sent s k c o Panic Hs Hc Hk)).
Qed.

(** *** While no client makes a handler panic *)

Section Unharmed.
Context `{KernelLaws}.
Variable unspec : float -> Z.
Variable ix : Index.Index.
Variable socket : nat -> list event * list wres.
Variable sent : list (Z * list byte).
Hypothesis sent_ok : Forall Ctrl.sendable sent.

(** No connection handed over makes a server that sees its whole stream panic. *)
Hypothesis no_panic : forall k c, sent !! k = Some c -> (Pool.owed unspec ix (job_of socket k c)).2 <> Panic.

Lemma handler_ended s k o r : on_the_way unspec ix socket sent s ->
  Pool.Handlers (Conns s) !! k = Some (Pool.Finished o r) -> r = Ok tt.
Proof.
  intros Hs Hk. destruct (started_job _ _ _ _ _ _ _ Hs Hk) as [c Hc].
  pose proof (ended_agrees unspec ix socket sent s k c o r Hs Hc Hk) as Ha.
  destruct (Pool.owed_ended unspec ix (job_of socket k c) o r Ha) as [|E]; [done|].
  subst r. by destruct (no_panic k c Hc), (Pool.agrees_panic _ _ _ Ha).
Qed.

Lemma unharmed s : on_the_way unspec ix socket sent s -> Pool.Alive (Conns s) = true.
Proof.
  intros Hs. destruct (Pool.Alive (Conns s)) eqn:E; [done|]. exfalso.
  destruct (dead_owed _ _ _ _ _ Hs E) as (k & c & Hc & Hp). by apply (no_panic k c Hc).
Qed.

Lemma progress s : on_the_way unspec ix socket sent s -> all_served sent s \/ exists s', step unspec ix socket s s'.
Proof.
  intros Hs. pose proof (unharmed s Hs) as Hlive. pose proof Hs as [Hd Hp].
  destruct (Ctrl.delivering_progress sent _ sent_ok Hd) as [E|(c & Hc & _)];
    [|right; eexists; by apply step_control].
  destruct (Forall_Exists_dec _ handler_finished (Pool.Handlers (Conns s))) as [Hall|Hex].
  - left. split; [exact E|]. apply Forall_lookup. intros k h Hk.
    destruct (proj1 (Forall_lookup _ _) Hall k h Hk) as (o & r & ->). exists o.
    by rewrite (handler_ended s k o r Hs Hk).
  - right. apply list.Exists_exists in Hex as (h & [i Hi]%list_elem_of_lookup & Hn).
    destruct (Pool.unfinished_steps unspec ix _ _ Hp Hlive) as [p Hp']; [exists i, h; split; [done|]; intros o r ->; apply Hn; eauto|].
    eexists. by apply step_handler.
Qed.

Lemma can_finish s : on_the_way unspec ix socket sent s ->
  exists s', rtc (step unspec ix socket) s s' /\ all_served sent s'.
Proof.
  induction (backend_step_wf unspec ix socket s) as [s _ IH]. intros Hs.
  destruct (progress s Hs) as [Hdone|[s' Hstep]]; [by exists s|].
  destruct (IH s' Hstep) as (s'' & Hr & Hd); [by eapply step_on_the_way|]. exists s''. split; [by eapply rtc_l|done].
Qed.
End Unharmed.

(** ** From the balancer *)

Lemma accept_loop_passed n rr conns outs os :
  (0 < n)%nat -> Lb.accept_loop n rr conns outs = Ok os -> Forall2 (Balancer.passed_on n) conns os.
Proof.
  intros Hn. revert rr outs os. induction conns as [|evs conns IH]; intros rr outs os; cbn [Lb.accept_loop]; [by intros [= <-]|].
  destruct (proj1 (returns_inv _ _) (Balancer.accept_one_ok n rr evs outs Hn)) as ([[o rr'] outs'] & -> & Ho). rewrite bind_Ok.
  destruct (Lb.accept_loop n rr' conns outs') as [os'| | |] eqn:E; [|done..]. rewrite bind_Ok. intros [= <-].
  constructor; [exact Ho|by eapply IH].
Qed.

(** A handed connection with the bytes [c.2] that the balancer drained. *)
Definition drained (t : taken) (p : list byte) : Prop :=
  message t = Lb.frame p /\ (length p <= Lb.maxPrefix)%nat /\ p ++ stream (rest t) = stream (client t).

Lemma routed_drained n b conns os : Forall2 (Balancer.passed_on n) conns os -> exists ps, Forall2 drained (routed b conns os) ps.
Proof.
  unfold routed. induction 1 as [|evs o conns os Ho _ [ps IH]]; [by exists []|]. cbn [zip zip_with omap list_omap].
  destruct o as [resp| | |i m evs']; [by exists ps..|]. destruct (decide (i = b)); [|by exists ps].
  destruct Ho as (_ & p & Hm & Hl & Hs). exists (p :: ps). by constructor.
Qed.

(** The messages are frames with a descriptor each. *)
Lemma inbox_handoffs fds ts ps : length fds = length ts -> Forall (fun fd => 0 <= fd)%Z fds -> Forall2 drained ts ps ->
  inbox fds ts = map Ctrl.handoff (zip fds ps) /\ Forall Ctrl.sendable (zip fds ps).
Proof.
  intros Hl Hfd Hd. revert fds Hl Hfd. induction Hd as [|t p ts ps (Hm & Hp & _) _ IH]; intros [|fd fds] Hl Hfd; try done.
  apply Forall_cons_iff in Hfd as [H0 Hfd]. destruct (IH fds) as [Hin Hsend]; [by injection Hl|done|].
  split; [|constructor; [by split|exact Hsend]]. unfold inbox, Ctrl.handoff in *. cbn [zip zip_with map fst snd].
  by rewrite Hin, Hm.
Qed.

Lemma frame_length p : (length p <= Lb.maxPrefix)%nat -> length (Lb.frame p) = (2 + length p)%nat.
Proof. intros Hl. unfold Lb.frame. by destruct (Nat.ltb_spec Lb.maxPrefix (length p)); [lia|]. Qed.

(** A client's requests are answered: what was written begins the responses due, and is all of
    them when no write failed and the drained bytes fit the worker's buffer. *)
Definition client_served (unspec : float -> Z) (cands : list Z -> list (Z * Z)) (t : taken) (ws : list wres)
    (o : list byte) (r : res unit) : Prop :=
  forall rs, Forall System.request_ok rs -> stream (client t) = concat (map System.request_text rs) ->
    exists resps, Forall2 (System.answered unspec cands) rs resps /\ o `prefix_of` concat resps /\
      ((length (message t) <= 2 + readBufSize)%nat -> no_error ws -> o = concat resps /\ r = Ok tt).

Lemma owed_served `{KernelLaws} unspec ix cands t p ws o r :
  Knn.index_wf ix -> (forall q, Knn.all_cands ix q ≡ₚ cands q) -> drained t p ->
  agrees ws (o, r) (Pool.owed unspec ix (Pool.Raw, p, rest t, ws)) -> client_served unspec cands t ws o r.
Proof.
  intros Hwf Hc (Hm & Hl & Hs) Ha rs Hrs Hst.
  destruct (System.requests_answered unspec ix Hwf cands Hc rs Hrs) as (resps & H1 & H2). exists resps. split; [exact H2|].
  assert (served unspec ix readBufSize (p ++ stream (rest t)) = (concat resps, Ok tt)) as Hserved.
  { rewrite Hs, Hst, <-(app_nil_r (concat (map System.request_text rs))).
    rewrite (served_pipeline unspec ix _ _ resps) by (done || by apply System.requests_fit).
    by rewrite (served_nil unspec ix), app_nil_r. }
  unfold Pool.owed in Ha. rewrite Hserved in Ha. rewrite Hm, frame_length by done.
  destruct (Nat.leb_spec (length p) readBufSize), Ha as (Hp & _ & Heq); cbn [fst snd] in *.
  - split; [exact Hp|]. intros _ Hn. by injection (Heq Hn) as -> ->.
  - split; [by apply prefix_nil_inv in Hp as ->; apply prefix_nil|lia].
Qed.

(** A client that makes no server panic that sees its stream alone: one whose requests are
    all answered, or that sends what the parser refuses, or closes. *)
Definition harmless `{Kernel} (unspec : float -> Z) (ix : Index.Index) (t : taken) : Prop :=
  (served unspec ix readBufSize (stream (client t))).2 <> Panic.

Lemma requests_harmless `{KernelLaws} unspec ix t rs :
  Knn.index_wf ix -> Forall System.request_ok rs -> stream (client t) = concat (map System.request_text rs) ->
  harmless unspec ix t.
Proof.
  intros Hwf Hrs Hst. unfold harmless.
  destruct (System.requests_answered unspec ix Hwf (Knn.all_cands ix) (fun q => Permutation_refl _) rs Hrs) as (resps & H1 & _).
  rewrite Hst, <-(app_nil_r (concat (map System.request_text rs))).
  rewrite (served_pipeline unspec ix _ _ resps) by (done || by apply System.requests_fit).
  by rewrite (served_nil unspec ix).
Qed.

(** A handler owes a panic only to a client whose own stream makes one. *)
Lemma owed_harmless `{Kernel} unspec ix t p ws :
  drained t p -> (Pool.owed unspec ix (Pool.Raw, p, rest t, ws)).2 = Panic -> ~ harmless unspec ix t.
Proof.
  intros (_ & _ & Hs). unfold Pool.owed, harmless. destruct (_ <=? _)%nat; [|done]. rewrite Hs. intros E Hn. by apply Hn.
Qed.

(** Three clients of a balancer with two backends; two of them send two requests and go to
    backend 1, where the first write on each connection is interrupted. *)
Definition example_conns : list (list event) :=
  [System.example_evs; [Data (bytes "GET /x")]; System.example_evs].
Definition example_out : list Lb.outcome :=
  match Lb.accept_loop 2 1 example_conns [] with Ok os => os | _ => [] end.
Definition example_taken : list taken := routed 1 example_conns example_out.
Definition example_socket (k : nat) : list event * list wres :=
  (default [] (rest <$> example_taken !! k), [WIntr]).

Lemma example_accepts : Lb.accept_loop 2 1 example_conns [] = Ok example_out.
Proof. vm_compute. reflexivity. Qed.

Lemma example_routed : exists m e, example_taken = [mkTaken System.example_evs m e; mkTaken System.example_evs m e] /\
  length m = 102%nat /\ stream System.example_evs = concat (map System.request_text [System.example_request; System.example_request]).
Proof. do 2 eexists. vm_compute. by split_and!. Qed.

(** ** Properties *)

(** C2: the service under way answers every client, and only with its own bytes. On the index
    the builder writes, whatever connections the balancer accepts and however its sends
    go, take the connections it routes to one of its workers. In every state that any
    interleaving of that worker's control loop and handlers reaches: no buffer has two
    holders; a handler that has ended has written to a client that sends scoring requests
    a prefix of the responses judged from the references and the tree alone, in order,
    and, when no write failed and the bytes the balancer drained fit the worker's buffer
    of 8192, all of them. A worker process that has died was killed by a client: one of
    the streams handed over makes a server that sees it alone panic. As long as no client
    does that (scoring requests do not), the process lives, the worker can go on until
    every connection was taken up and its handler has returned, and a state without a step
    is such a state; no run is infinite. *)
Theorem service_serves `{Layout.SliceSort, KernelLaws} unspec scan_other cap KMeansSample clusters sp refs vs :
  Build.buildable scan_other cap KMeansSample clusters sp refs vs ->
  let cands := Build.reference_cands unspec vs (map (fun r => RefParse.lab_val (RefParse.label_text r)) refs) in
  exists data ix,
    Build.build unspec scan_other cap KMeansSample clusters [] (RefParse.print_refs sp refs) = Ok (Build.Written data) /\
    Index.Open data = Ok ix /\
    (forall t rs, Forall System.request_ok rs -> stream (client t) = concat (map System.request_text rs) ->
       harmless unspec ix t) /\
    forall n rr conns outs os b fds recvbuf socket s,
      (0 < n)%nat -> Lb.accept_loop n rr conns outs = Ok os ->
      let ts := routed b conns os in
      let done s := length (Pool.Handlers (Conns s)) = length ts /\
        Forall (fun h => exists o, h = Pool.Finished o (Ok tt)) (Pool.Handlers (Conns s)) in
      length fds = length ts -> Forall (fun fd => 0 <= fd)%Z fds -> length recvbuf = Ctrl.maxPrefix ->
      (forall k t, ts !! k = Some t -> (socket k).1 = rest t) ->
      rtc (step unspec ix socket) (start recvbuf (inbox fds ts)) s ->
      NoDup (Pool.owners (Conns s)) /\
      (forall k t o r, ts !! k = Some t -> Pool.Handlers (Conns s) !! k = Some (Pool.Finished o r) ->
         client_served unspec cands t (socket k).2 o r) /\
      (Pool.Alive (Conns s) = false -> exists k t, ts !! k = Some t /\ ~ harmless unspec ix t) /\
      (Forall (harmless unspec ix) ts ->
         Pool.Alive (Conns s) = true /\
         (exists s', rtc (step unspec ix socket) s s' /\ done s') /\
         ((forall s', ~ step unspec ix socket s s') -> done s)) /\
      well_founded (fun s' s => step unspec ix socket s s').
Proof.
  intros Hin cands.
  destruct (Build.build_ok unspec scan_other cap KMeansSample clusters sp refs vs Hin) as (data & ix & Hb & Ho & Hwf & _ & _ & Hc).
  exists data, ix. split; [done|]. split; [done|].
  split; [intros t rs; by apply requests_harmless|].
  intros n rr conns outs os b fds recvbuf socket s Hn Hacc ts fin Hlen Hfds Hbuf Hsock Hr.
  destruct (routed_drained n b conns os) as [ps Hps]; [by eapply accept_loop_passed|]. fold ts in Hps.
  destruct (inbox_handoffs fds ts ps Hlen Hfds Hps) as [Hin' Hsend]. rewrite Hin' in Hr.
  pose proof (steps_on_the_way unspec ix socket _ _ _ Hsend Hr (start_on_the_way unspec ix socket recvbuf _ Hbuf)) as Hway.
  assert (forall k c, zip fds ps !! k = Some c -> exists t, ts !! k = Some t /\ drained t c.2 /\
    job_of socket k c = (Pool.Raw, c.2, rest t, (socket k).2)) as Hjob.
  { intros k [fd p] Hz. apply lookup_zip_Some in Hz as [_ Hp]. destruct (Forall2_lookup_r _ _ _ _ _ Hps Hp) as (t & Ht & Hd).
    exists t. split; [done|]. split; [done|]. unfold job_of. by rewrite (Hsock k t Ht). }
  split; [apply Hway|]. split; [|split; [|split; [|apply backend_step_wf]]].
  - intros k t o r Ht Hk. destruct (started_job _ _ _ _ _ _ _ Hway Hk) as [c Hz].
    pose proof (ended_agrees unspec ix socket _ _ k _ o r Hway Hz Hk) as Ha.
    destruct (Hjob k c Hz) as (t' & Ht' & Hd & Ej). rewrite Ej in Ha. assert (t' = t) as -> by congruence.
    by eapply owed_served.
  - intros Hdead. destruct (dead_owed unspec ix socket _ s Hway Hdead) as (k & c & Hz & Hp).
    destruct (Hjob k c Hz) as (t & Ht & Hd & Ej). rewrite Ej in Hp. exists k, t. split; [done|]. by eapply owed_harmless.
  - intros Hharm.
    assert (forall k c, zip fds ps !! k = Some c -> (Pool.owed unspec ix (job_of socket k c)).2 <> Panic) as Hnp.
    { intros k c Hz Hp. destruct (Hjob k c Hz) as (t & Ht & Hd & Ej). rewrite Ej in Hp.
      by apply (owed_harmless _ _ _ _ _ Hd Hp), (proj1 (Forall_lookup _ _) Hharm k). }
    assert (length (zip fds ps) = length ts) as Hz by (rewrite length_zip; apply Forall2_length in Hps; lia).
    assert (forall s', rtc (step unspec ix socket) s s' -> all_served (zip fds ps) s' -> fin s') as Hfin.
    { intros s' Hr' [Hst Hall]. split; [|exact Hall].
      pose proof (steps_on_the_way unspec ix socket _ _ _ Hsend Hr' Hway) as (_ & _ & Hj).
      by rewrite <-(Forall2_length Hj), jobs_from_length, Hst. }
    split; [by eapply unharmed|]. split.
    + destruct (can_finish unspec ix socket _ Hsend Hnp s Hway) as (s' & Hr' & Hd). exists s'. split; [done|by apply Hfin].
    + intros Hstuck. destruct (progress unspec ix socket _ Hsend Hnp s Hway) as [Hd|[s' Hs']]; [by apply Hfin|by apply Hstuck in Hs'].
Qed.

Example service_serves_witness :
  let cands := Build.reference_cands (fun _ => 0%Z) (map Build.row_of Build.example_refs)
    (map (fun r => RefParse.lab_val (RefParse.label_text r)) Build.example_refs) in
  exists data ix s o1 o2 resps1 resps2,
    @Build.build Layout.InsertionSort (fun _ => 0%Z) Build.scan_none 4096 2 2 []
      (RefParse.print_refs (bytes " ") Build.example_refs) = Ok (Build.Written data) /\
    Index.Open data = Ok ix /\
    rtc (@step avx2 (fun _ => 0%Z) ix example_socket) (start Ctrl.example_buf (inbox [5; 6]%Z example_taken)) s /\
    Pool.Handlers (Conns s) = [Pool.Finished o1 (Ok tt); Pool.Finished o2 (Ok tt)] /\
    Forall2 (System.answered (fun _ => 0%Z) cands) [System.example_request; System.example_request] resps1 /\
    o1 = concat resps1 /\
    Forall2 (System.answered (fun _ => 0%Z) cands) [System.example_request; System.example_request] resps2 /\
    o2 = concat resps2.
Proof.
  intros cands.
  destruct (@service_serves Layout.InsertionSort avx2 avx2_laws (fun _ => 0%Z) Build.scan_none 4096 2 2 (bytes " ")
    Build.example_refs (map Build.row_of Build.example_refs) Build.example_buildable) as (data & ix & Hb & Ho & Hharm & Hs).
  assert (Forall System.request_ok [System.example_request; System.example_request]) as Hok
    by (constructor; [exact System.example_ok|constructor; [exact System.example_ok|constructor]]).
  destruct example_routed as (m & e & Ht & Hm & Hst).
  assert (forall k t, example_taken !! k = Some t -> (example_socket k).1 = rest t) as Hsock
    by (intros k t Hk; unfold example_socket; by rewrite Hk).
  pose proof (fun s => Hs 2%nat 1%nat example_conns [] example_out 1%nat [5; 6]%Z Ctrl.example_buf example_socket s
    ltac:(lia) example_accepts ltac:(fold example_taken; by rewrite Ht) ltac:(repeat constructor; lia)
    (repeat_length _ _) Hsock) as Hrun.
  destruct (Hrun _ (rtc_refl _ _)) as (_ & _ & _ & Hgo & _). fold example_taken in Hgo.
  destruct Hgo as (_ & (s & Hr & Hl & Hall) & _).
  { rewrite Ht. assert (forall t, client t = System.example_evs -> @harmless avx2 (fun _ => 0%Z) ix t) as Hx.
    { intros t E. apply (Hharm t [System.example_request; System.example_request] Hok). by rewrite E. }
    constructor; [by apply Hx|]. constructor; [by apply Hx|constructor]. }
  destruct (Hrun s Hr) as (_ & Hserved & _). fold example_taken in Hl, Hserved. rewrite Ht in Hl.
  destruct (Pool.Handlers (Conns s)) as [|h1 [|h2 [|h3 l]]] eqn:Eh;
    [discriminate Hl|discriminate Hl| |discriminate Hl].
  apply Forall_cons_iff in Hall as [(o1 & ->) Hall]. apply Forall_cons_iff in Hall as [(o2 & ->) _].
  destruct (Hserved 0%nat _ o1 (Ok tt) ltac:(by rewrite Ht) eq_refl _ Hok Hst) as (resps1 & Ha1 & _ & Hp1).
  destruct (Hserved 1%nat _ o2 (Ok tt) ltac:(by rewrite Ht) eq_refl _ Hok Hst) as (resps2 & Ha2 & _ & Hp2).
  assert (length m <= 2 + readBufSize)%nat as Hfit by (rewrite Hm; apply Nat.leb_le; vm_compute; reflexivity).
  assert (no_error [WIntr]) as Hws by (constructor; [discriminate|constructor]).
  exists data, ix, s, o1, o2, resps1, resps2.
  split; [exact Hb|]. split; [exact Ho|]. split; [exact Hr|]. split; [exact Eh|]. split; [exact Ha1|].
  split; [exact (proj1 (Hp1 Hfit Hws))|]. split; [exact Ha2|exact (proj1 (Hp2 Hfit Hws))].
Defined.

End Service.
